(** * pymake/parser.py: a shallow embedding of the makefile parser

    The development follows the source file top-down: Python strings and
    exceptions, [Data]/[DynamicData] (the logical line), [TokenList] and its
    compiled regular expressions, the four char iterators (Python
    generators, modelled as resumable state machines), [parsemakesyntax]
    and [parsestream].  Theorems come after the definitions. *)

From Stdlib Require Import Bool Arith ZArith Lia List String Ascii.
Import ListNotations.
Local Open Scope string_scope.
Local Open Scope list_scope.
Local Open Scope nat_scope.
Set Warnings "-register-all".

(** String concatenation, Python's [+] on [str]. *)
Infix "+++" := String.append (at level 60, right associativity).

(* ================================================================= *)
(** ** Python byte strings *)

Module Py.

Definition LF : string := String (ascii_of_nat 10) EmptyString.
Definition TAB : string := String (ascii_of_nat 9) EmptyString.
Definition BS : string := String (ascii_of_nat 92) EmptyString.

(** [c.isspace()] on one byte of a Python 2 [str]: space, \t, \n, \v, \f, \r. *)
Definition isspace (c : ascii) : bool :=
  let n := nat_of_ascii c in
  (n =? 32) || ((9 <=? n) && (n <=? 13)).

(** [s[n:]] for [0 <= n]. *)
Fixpoint sdrop (n : nat) (s : string) : string :=
  match n, s with
  | 0, _ => s
  | S _, EmptyString => EmptyString
  | S n', String _ s' => sdrop n' s'
  end.

(** [s[:n]] for [0 <= n]. *)
Fixpoint stake (n : nat) (s : string) : string :=
  match n, s with
  | 0, _ => EmptyString
  | S _, EmptyString => EmptyString
  | S n', String c s' => String c (stake n' s')
  end.

(** [s[b:e]] for [0 <= b] and [0 <= e]: empty when [e <= b], clipped at the end. *)
Definition slice (b e : nat) (s : string) : string := stake (e - b) (sdrop b s).

(** [s.startswith(p)]. *)
Fixpoint startswith (p s : string) : bool :=
  match p, s with
  | EmptyString, _ => true
  | String _ _, EmptyString => false
  | String a p', String b s' => Ascii.eqb a b && startswith p' s'
  end.

(** [s.isspace()]: every byte is whitespace and there is at least one. *)
Fixpoint allspace (s : string) : bool :=
  match s with
  | EmptyString => true
  | String c s' => isspace c && allspace s'
  end.

Definition str_isspace (s : string) : bool :=
  match s with
  | EmptyString => false
  | _ => allspace s
  end.

(** [s.lstrip()]. *)
Fixpoint lstrip (s : string) : string :=
  match s with
  | EmptyString => EmptyString
  | String c s' => if isspace c then lstrip s' else s
  end.

(** [s.rstrip()]. *)
Fixpoint rstrip (s : string) : string :=
  match s with
  | EmptyString => EmptyString
  | String c s' =>
      match rstrip s' with
      | EmptyString => if isspace c then EmptyString else String c EmptyString
      | r => String c r
      end
  end.

(** [s.endswith(p)]. *)
Definition endswith (p s : string) : bool :=
  (String.length p <=? String.length s) &&
  String.eqb (sdrop (String.length s - String.length p) s) p.

(** [x in t] for a tuple of strings [t]. *)
Definition str_in (x : string) (t : list string) : bool :=
  existsb (String.eqb x) t.

(** Number of leading whitespace bytes. *)
Fixpoint wsrun (s : string) : nat :=
  match s with
  | EmptyString => 0
  | String c s' => if isspace c then S (wsrun s') else 0
  end.

End Py.
Import Py.

(* ================================================================= *)
(** ** Exceptions and results *)

(** Modelled from the spec: [parserdata.Location] is not in this file.
    The spec gives [{ path, line, column }]; advancing a location by a
    string re-numbers lines on every embedded newline and resets the
    column accordingly. *)
Record Location := mkLocation { path : string; line : nat; column : nat }.

Definition loc_step (l : Location) (c : ascii) : Location :=
  if Ascii.eqb c (ascii_of_nat 10)
  then mkLocation (path l) (S (line l)) 0
  else mkLocation (path l) (line l) (S (column l)).

(** [loc + data] *)
Fixpoint loc_add (l : Location) (s : string) : Location :=
  match s with
  | EmptyString => l
  | String c s' => loc_add (loc_step l c) s'
  end.

(** The exceptions this file can raise.  [SyntaxError] is the parser's own
    class; the others are the interpreter's. *)
Inductive exn :=
| SyntaxError (msg : string) (loc : Location)
| UnboundLocalError (var : string)
| TypeError
| AssertionError
| AttributeError (attr : string)
| IndexError
| KeyError (key : string).

(** The outcome of running a piece of the parser: a value, a raised
    exception, or the recursion budget of the model ran out. *)
Inductive result (A : Type) :=
| Ok (a : A)
| Raise (e : exn)
| OutOfFuel.
Arguments Ok {A} a.
Arguments Raise {A} e.
Arguments OutOfFuel {A}.

Definition bind {A B} (m : result A) (k : A -> result B) : result B :=
  match m with
  | Ok a => k a
  | Raise e => Raise e
  | OutOfFuel => OutOfFuel
  end.

Notation "x <- m ;; k" := (bind m (fun x => k))
  (at level 61, m at next level, right associativity).
Notation "' p <- m ;; k" := (bind m (fun x => match x with p => k end))
  (at level 61, p pattern, m at next level, right associativity).

Definition assert (b : bool) : result unit :=
  if b then Ok tt else Raise AssertionError.

Definition is_SyntaxError {A} (r : result A) : Prop :=
  exists msg loc, r = Raise (SyntaxError msg loc).

(* ================================================================= *)
(** ** findlast, Data, DynamicData *)

(** [findlast(func, iterable)]: the local [f] is unbound until the first
    element satisfying [func]; reading it unbound raises UnboundLocalError. *)
Fixpoint findlast_from {A} (func : A -> bool) (f : option A) (iterable : list A)
  : result A :=
  let return_f :=
    match f with
    | Some x => Ok x
    | None => Raise (UnboundLocalError "f")
    end in
  match iterable with
  | [] => return_f
  | i :: rest => if func i then findlast_from func (Some i) rest else return_f
  end.

Definition findlast {A} (func : A -> bool) (iterable : list A) : result A :=
  findlast_from func None iterable.

(** [Data] together with its subclass [DynamicData].  [lineiter] is what is
    left of the shared generator [iterlines(fd)]: a [DynamicData] object
    created later by [parsestream] continues from where this one stopped.
    A plain [Data] is a [DynamicData] whose [readline] is never called. *)
Record Data := mkData {
  data : string;
  locs : list (nat * Location);      (* _locs: (dataoffset, location) *)
  lineiter : list (nat * string);
  dpath : string
}.

Definition len (d : Data) : nat := String.length (data d).

(** [DynamicData(lineiter, path)] *)
Definition DynamicData (lineiter : list (nat * string)) (p : string) : Data :=
  mkData "" [] lineiter p.

(** [d.append(data, loc)] *)
Definition append (d : Data) (s : string) (loc : Location) : Data :=
  mkData (data d +++ s) (locs d ++ [(len d, loc)]) (lineiter d) (dpath d).

(** [Data.fromstring(str, loc)] *)
Definition fromstring (s : string) (loc : Location) : Data :=
  append (DynamicData [] "") s loc.

(** [d.getloc(offset)]; [offset] is [None] or an integer. *)
Definition getloc (d : Data) (offset : option Z) : result Location :=
  let n := Z.of_nat (len d) in
  let offset :=
    match offset with
    | None => (n - 1)%Z
    | Some o => if (o >=? n)%Z then (n - 1)%Z else o
    end in
  let offset := if (offset =? -1)%Z then 0%Z else offset in
  '(begin, loc) <- findlast (fun ol => (Z.of_nat (fst ol) <=? offset)%Z) (locs d) ;;
  Ok (loc_add loc (slice begin (Z.to_nat offset) (data d))).

(** [getloc] at a natural offset or [None], as the parser calls it. *)
Definition getloc_at (d : Data) (offset : option nat) : result Location :=
  getloc d (option_map Z.of_nat offset).

(** [d.skipwhitespace(offset)] *)
Definition skipwhitespace (d : Data) (offset : nat) : nat :=
  offset + wsrun (sdrop offset (data d)).

(** [d.readline()] of [DynamicData]: the new line is anchored at column 0. *)
Definition readline (d : Data) : bool * Data :=
  match lineiter d with
  | [] => (false, d)
  | (lineno, l) :: rest =>
      (true, append (mkData (data d) (locs d) rest (dpath d)) l
                    (mkLocation (dpath d) lineno 0))
  end.

(* ================================================================= *)
(** ** TokenList and its compiled regular expressions *)

(** One alternative of a compiled pattern.  Every pattern of the file is a
    top-level alternation [a1|a2|...] tried in order at each position. *)
Inductive alt :=
| Lit (t : string)   (* re.escape(t): the literal t *)
| BsBsHash           (* r'\\\\#': two backslashes and a hash *)
| BsHash             (* r'\\#': backslash, hash *)
| BsNl               (* '\\\\\n': backslash, newline *)
| BsWsBsNl           (* '\\\\\\s+\\\\\n': backslash, whitespace, backslash, newline *)
| BsAny              (* r'\\.': backslash and any byte but newline *)
| Hash               (* '#' *)
| Nl.                (* '\n' *)

(** Length of the match of one alternative at the head of [s], if any.
    In [BsWsBsNl] the greedy [\s+] can only stop at the end of the
    whitespace run, since the next byte has to be a backslash. *)
Definition match_alt (a : alt) (s : string) : option nat :=
  match a with
  | Lit t => if startswith t s then Some (String.length t) else None
  | BsBsHash => if startswith (BS +++ BS +++ "#") s then Some 3 else None
  | BsHash => if startswith (BS +++ "#") s then Some 2 else None
  | BsNl => if startswith (BS +++ LF) s then Some 2 else None
  | BsWsBsNl =>
      if startswith BS s then
        let n := wsrun (sdrop 1 s) in
        if (1 <=? n) && startswith (BS +++ LF) (sdrop (1 + n) s)
        then Some (1 + n + 2) else None
      else None
  | BsAny =>
      match s with
      | String b (String c _) =>
          if Ascii.eqb b (ascii_of_nat 92) && negb (Ascii.eqb c (ascii_of_nat 10))
          then Some 2 else None
      | _ => None
      end
  | Hash => if startswith "#" s then Some 1 else None
  | Nl => if startswith LF s then Some 1 else None
  end.

(** The first alternative that matches at the head of [s]. *)
Fixpoint match_alts (alts : list alt) (s : string) : option nat :=
  match alts with
  | [] => None
  | a :: rest =>
      match match_alt a s with
      | Some n => Some n
      | None => match_alts rest s
      end
  end.

(** Leftmost match in [s], whose first byte has index [i]: (start, end). *)
Fixpoint search_from (alts : list alt) (s : string) (i : nat) : option (nat * nat) :=
  match match_alts alts s with
  | Some n => Some (i, i + n)
  | None =>
      match s with
      | EmptyString => None
      | String _ s' => search_from alts s' (S i)
      end
  end.

(** [pattern.search(s, pos=pos)] as (m.start(0), m.end(0)). *)
Definition re_search (alts : list alt) (s : string) (pos : nat) : option (nat * nat) :=
  if pos <=? String.length s then search_from alts (sdrop pos s) pos else None.

(** [TokenList]: only [tlist] is stored, the compiled patterns are
    functions of it.  [TokenList.get] memoises the constructor by its
    argument and is the constructor itself here. *)
Record TokenList := mkTokenList { tlist : list string }.

Definition emptylist (tl : TokenList) : bool :=
  match tlist tl with [] => true | _ => false end.

(** ['|'.join(escapedlist)]: with no token the pattern is the empty
    pattern, which matches the empty string. *)
Definition escapedlist (tl : TokenList) : list alt := map Lit (tlist tl).

Definition simplere (tl : TokenList) : list alt :=
  match tlist tl with
  | [] => [Lit ""]
  | _ => escapedlist tl
  end.

Definition makefiletokensescaped : list alt :=
  [BsBsHash; BsHash; BsNl; BsWsBsNl; BsAny; Hash; Nl].

Definition continuationtokensescaped : list alt := [BsNl; BsAny; Nl].

Definition makefilere (tl : TokenList) : list alt :=
  escapedlist tl ++ makefiletokensescaped.

Definition continuationre (tl : TokenList) : list alt :=
  escapedlist tl ++ continuationtokensescaped.

(** [wslist.match(s, pos=o)]: the pattern [(t1|...|tn)(\s+|$)] anchored at
    [o].  Returns (m.group(1), m.end(0)).  The second group is a maximal
    whitespace run, or the end of the string. *)
Fixpoint wslist_match (tokens : list string) (s : string) (o : nat)
  : option (string * nat) :=
  match tokens with
  | [] => None
  | t :: rest =>
      let after := sdrop (String.length t) s in
      if startswith t s &&
         ((1 <=? wsrun after) || (String.length after =? 0))
      then Some (t, o + String.length t + wsrun after)
      else wslist_match rest s o
  end.

Definition wslist (tl : TokenList) : list string :=
  match tlist tl with
  | [] => [""]
  | l => l
  end.

(** [TokenList.get(s)] *)
Definition TokenList_get (s : list string) : TokenList := mkTokenList s.

(** [emptytokenlist = TokenList.get('')]: the argument is the empty string,
    whose list of tokens is empty and in which no one-byte string occurs. *)
Definition emptytokenlist : TokenList := TokenList_get [].

(** [d.findtoken(o, tlist, skipws)].  [re] matches from [pos], and a
    [pos] beyond the end of the string is the end of the string; without
    a match the offset handed back is [o] itself. *)
Definition findtoken (d : Data) (o : nat) (tl : TokenList) (skipws : bool)
  : option string * nat :=
  let pos := Nat.min o (len d) in
  if skipws then
    match wslist_match (wslist tl) (sdrop pos (data d)) pos with
    | Some (t, e) => (Some t, e)
    | None => (None, o)
    end
  else
    match match_alts (simplere tl) (sdrop pos (data d)) with
    | Some n => (Some (slice pos (pos + n) (data d)), pos + n)
    | None => (None, o)
    end.

(* ================================================================= *)
(** ** The four char iterators

    Each iterator is a Python generator.  A generator object is modelled
    by its program counter (the [yield] it is suspended at) and its
    locals; [next] resumes it until the following [yield], [return] or
    [raise].  The logical line [d] is shared and mutable ([d.readline()]),
    so [next] takes the current [d] and gives back the updated one. *)

Inductive iterfunc := Iterdata | Itermakefilechars | Itercommandchars | Iterdefinechars.

(** What a [yield] hands over: (flatstr, token, tokenoffset, afteroffset). *)
Definition yielded : Type := string * option string * option nat * option nat.

(** Where a generator is suspended. *)
Inductive pc :=
| AtStart (offset : option nat)   (* created, body not started; offset as passed *)
| AtLoop (offset : nat)           (* after a yield that is followed by offset = end *)
| AfterContinuation (e : nat)     (* after the yield of a continuation, before d.readline() *)
| AfterComment (e : nat)          (* after the yield of a comment, before the draining for loop *)
| AfterLast                       (* after a yield that is followed by return *)
| AfterBreak.                     (* iterdefinechars: after the yield that is followed by break *)

Record generator := mkGen {
  g_func : iterfunc;
  g_tokenlist : TokenList;
  g_pc : pc;
  g_definecount : Z;      (* iterdefinechars only *)
  g_startoffset : nat     (* iterdefinechars only *)
}.

Inductive step :=
| Yield (y : yielded) (g : generator) (d : Data)
| StopIteration (d : Data)
| GenRaise (e : exn)
| GenOutOfFuel.

(** Calling a generator function creates the generator object. *)
Definition new_generator (f : iterfunc) (offset : option nat) (tl : TokenList)
  : generator :=
  mkGen f tl (AtStart offset) 0%Z 0.

Definition at_pc (g : generator) (p : pc) : generator :=
  mkGen (g_func g) (g_tokenlist g) p (g_definecount g) (g_startoffset g).

Definition notoken (s : string) : yielded := (s, None, None, None).

(** The branches shared by the iterators for a token that is neither a
    newline nor a continuation:
    [if token.startswith(bs): ... else: yield d.data[offset:start], token, start, end]
    followed by [offset = end]. *)
Definition yield_token (g : generator) (d : Data) (offset start e : nat)
  (token : string) : step :=
  if startswith BS token then
    if str_in (sdrop 1 token) (tlist (g_tokenlist g))
    then Yield (slice offset (start + 1) (data d), Some (sdrop 1 token),
                Some (start + 1), Some e) (at_pc g (AtLoop e)) d
    else Yield (notoken (slice offset e (data d))) (at_pc g (AtLoop e)) d
  else
    Yield (slice offset start (data d), Some token, Some start, Some e)
          (at_pc g (AtLoop e)) d.

(** [iterdata(d, offset, tokenlist)] *)
Definition iterdata_loop (g : generator) (d : Data) (offset : nat) : step :=
  if offset <? len d then
    match re_search (simplere (g_tokenlist g)) (data d) offset with
    | None => Yield (notoken (sdrop offset (data d))) (at_pc g AfterLast) d
    | Some (start, e) =>
        Yield (slice offset start (data d), Some (slice start e (data d)),
               Some start, Some e) (at_pc g (AtLoop e)) d
    end
  else StopIteration d.

(** With [offset] None, [offset < len(d.data)] holds (Python 2 orders None
    below every integer) and [s.search(d.data, pos=None)] raises TypeError. *)
Definition iterdata_next (g : generator) (d : Data) : step :=
  match g_pc g with
  | AtStart offset =>
      if emptylist (g_tokenlist g)
      then Yield (notoken (data d)) (at_pc g AfterLast) d
      else match offset with
           | Some offset => iterdata_loop g d offset
           | None => GenRaise TypeError
           end
  | AtLoop offset => iterdata_loop g d offset
  | _ => StopIteration d
  end.

(** One turn of the while loop of [itermakefilechars]. *)
Definition itermakefilechars_loop (g : generator) (d : Data) (offset : nat) : step :=
  if offset <? len d then
    match re_search (makefilere (g_tokenlist g)) (data d) offset with
    | None => Yield (notoken (sdrop offset (data d))) (at_pc g AfterLast) d
    | Some (start, e) =>
        let token := slice start e (data d) in
        if String.eqb token LF then
          if e =? len d
          then Yield (notoken (slice offset start (data d))) (at_pc g AfterLast) d
          else GenRaise AssertionError
        else if String.eqb token "#" then
          Yield (notoken (slice offset start (data d))) (at_pc g (AfterComment e)) d
        else if String.eqb token (BS +++ BS +++ "#") then
          Yield (notoken (slice offset (start + 1) (data d)))
                (at_pc g (AfterComment e)) d
        else if String.eqb token (BS +++ LF) then
          Yield (notoken (rstrip (slice offset start (data d)) +++ " "))
                (at_pc g (AfterContinuation e)) d
        else if startswith BS token && endswith LF token then
          if e =? len d
          then Yield (notoken (slice offset start (data d) +++ BS +++ " "))
                     (at_pc g (AfterContinuation e)) d
          else GenRaise AssertionError
        else if String.eqb token (BS +++ "#") then
          Yield (notoken (slice offset start (data d) +++ "#")) (at_pc g (AtLoop e)) d
        else yield_token g d offset start e token
    end
  else StopIteration d.

(** [itermakefilechars(d, offset, tokenlist)].  [drain] runs the nested
    [for s in itermakefilechars(d, end, emptytokenlist): pass]. *)
Definition itermakefilechars_next (drain : generator -> Data -> result Data)
  (g : generator) (d : Data) : step :=
  match g_pc g with
  | AtStart (Some offset) | AtLoop offset => itermakefilechars_loop g d offset
  | AtStart None => GenRaise TypeError
  | AfterContinuation e =>
      let d := snd (readline d) in
      itermakefilechars_loop g d (skipwhitespace d e)
  | AfterComment e =>
      match drain (new_generator Itermakefilechars (Some e) emptytokenlist) d with
      | Ok d' => StopIteration d'
      | Raise x => GenRaise x
      | OutOfFuel => GenOutOfFuel
      end
  | AfterLast | AfterBreak => StopIteration d
  end.

(** One turn of the while loop of [itercommandchars]. *)
Definition itercommandchars_loop (g : generator) (d : Data) (offset : nat) : step :=
  if offset <? len d then
    match re_search (continuationre (g_tokenlist g)) (data d) offset with
    | None => Yield (notoken (sdrop offset (data d))) (at_pc g AfterLast) d
    | Some (start, e) =>
        let token := slice start e (data d) in
        if String.eqb token LF then
          if e =? len d
          then Yield (notoken (slice offset start (data d))) (at_pc g AfterLast) d
          else GenRaise AssertionError
        else if String.eqb token (BS +++ LF) then
          Yield (notoken (slice offset e (data d))) (at_pc g (AfterContinuation e)) d
        else yield_token g d offset start e token
    end
  else StopIteration d.

(** [itercommandchars(d, offset, tokenlist)] *)
Definition itercommandchars_next (g : generator) (d : Data) : step :=
  match g_pc g with
  | AtStart (Some offset) | AtLoop offset => itercommandchars_loop g d offset
  | AtStart None => GenRaise TypeError
  | AfterContinuation e =>
      let d := snd (readline d) in
      let offset := e in
      let offset :=
        if (offset <? len d) && String.eqb (slice offset (offset + 1) (data d)) TAB
        then offset + 1 else offset in
      itercommandchars_loop g d offset
  | _ => StopIteration d
  end.

Definition definestokenlist : TokenList := TokenList_get ["define"; "endef"].

(** [checkfortoken(o)] of [iterdefinechars]: the direction of definecount
    for the line starting at [o]. *)
Definition checkfortoken (d : Data) (o : nat) : Z :=
  if len d <=? o then 0%Z
  else if String.eqb (slice o (o + 1) (data d)) TAB then 0%Z
  else
    let o := skipwhitespace d o in
    let '(token, _) := findtoken d o definestokenlist true in
    match token with
    | Some t =>
        if String.eqb t "define" then 1%Z
        else if String.eqb t "endef" then (-1)%Z
        else 0%Z
    | None => 0%Z
    end.

(** Falling off the loop of [iterdefinechars]. *)
Definition unterminated_define (g : generator) (d : Data) : step :=
  match getloc_at d (Some (g_startoffset g)) with
  | Ok loc => GenRaise (SyntaxError "Unterminated define" loc)
  | Raise x => GenRaise x
  | OutOfFuel => GenOutOfFuel
  end.

Definition with_definecount (g : generator) (c : Z) : generator :=
  mkGen (g_func g) (g_tokenlist g) (g_pc g) c (g_startoffset g).

(** One turn of the while loop of [iterdefinechars]. *)
Definition iterdefinechars_loop (g : generator) (d : Data) (offset : nat) : step :=
  if offset <? len d then
    match re_search (continuationre (g_tokenlist g)) (data d) offset with
    | None => Yield (notoken (sdrop offset (data d))) (at_pc g AfterBreak) d
    | Some (start, e) =>
        let token := slice start e (data d) in
        if String.eqb token (BS +++ LF) then
          Yield (notoken (rstrip (slice offset start (data d)) +++ " "))
                (at_pc g (AfterContinuation e)) d
        else if String.eqb token LF then
          if e =? len d then
            let d := snd (readline d) in
            let definecount := (g_definecount g + checkfortoken d e)%Z in
            let g := with_definecount g definecount in
            if (definecount =? 0)%Z
            then Yield (notoken (slice offset start (data d))) (at_pc g AfterLast) d
            else Yield (notoken (slice offset e (data d))) (at_pc g (AtLoop e)) d
          else GenRaise AssertionError
        else yield_token g d offset start e token
    end
  else unterminated_define g d.

(** [iterdefinechars(d, offset, tokenlist)].  With [offset] None the first
    [d.data[o]] of [checkfortoken] raises TypeError. *)
Definition iterdefinechars_next (g : generator) (d : Data) : step :=
  match g_pc g with
  | AtStart (Some offset) =>
      let definecount := (1 + checkfortoken d offset)%Z in
      let g := mkGen (g_func g) (g_tokenlist g) (g_pc g) definecount offset in
      if (definecount =? 0)%Z then StopIteration d
      else iterdefinechars_loop g d offset
  | AtStart None => GenRaise TypeError
  | AtLoop offset => iterdefinechars_loop g d offset
  | AfterContinuation e =>
      let d := snd (readline d) in
      iterdefinechars_loop g d (skipwhitespace d e)
  | AfterBreak => unterminated_define g d
  | AfterLast | AfterComment _ => StopIteration d
  end.

(** Resuming a generator of any of the four kinds. *)
Definition gen_step (drain : generator -> Data -> result Data)
  (g : generator) (d : Data) : step :=
  match g_func g with
  | Iterdata => iterdata_next g d
  | Itermakefilechars => itermakefilechars_next drain g d
  | Itercommandchars => itercommandchars_next g d
  | Iterdefinechars => iterdefinechars_next g d
  end.

(** [for _ in g: pass]: run a generator until it stops. *)
Fixpoint exhaust (fuel : nat) (g : generator) (d : Data) : result Data :=
  match fuel with
  | 0 => OutOfFuel
  | S fuel' =>
      match gen_step (exhaust fuel') g d with
      | Yield _ g' d' => exhaust fuel' g' d'
      | StopIteration d' => Ok d'
      | GenRaise e => Raise e
      | GenOutOfFuel => OutOfFuel
      end
  end.

(** [g.next()] *)
Definition next (fuel : nat) (g : generator) (d : Data) : step :=
  gen_step (exhaust fuel) g d.

(** Bytes not yet consumed: what is left of the buffer and of the lines
    still to be read.  It bounds the number of resumptions of a generator. *)
Definition budget (d : Data) : nat :=
  len d + fold_right (fun nl acc => S (String.length (snd nl)) + acc) 0 (lineiter d).

Definition fuel_of (d : Data) : nat := 2 * budget d + 4.

(** All the tuples a generator yields until it stops, in order. *)
Fixpoint collect (fuel : nat) (g : generator) (d : Data) : result (list yielded * Data) :=
  match fuel with
  | 0 => OutOfFuel
  | S fuel' =>
      match next fuel' g d with
      | Yield y g' d' =>
          '(ys, d'') <- collect fuel' g' d' ;;
          Ok (y :: ys, d'')
      | StopIteration d' => Ok ([], d')
      | GenRaise e => Raise e
      | GenOutOfFuel => OutOfFuel
      end
  end.

Definition flatstr (y : yielded) : string := fst (fst (fst y)).
Definition token_of (y : yielded) : option string := snd (fst (fst y)).
Definition tokenoffset_of (y : yielded) : option nat := snd (fst y).
Definition afteroffset_of (y : yielded) : option nat := snd y.

(** [_iterflatten(iter, data, offset)]: the join of the chunks. *)
Definition iterflatten (iter : iterfunc) (d : Data) (offset : option nat)
  : result (string * Data) :=
  '(ys, d') <- collect (fuel_of d) (new_generator iter offset emptytokenlist) d ;;
  Ok (String.concat "" (map flatstr ys), d').

(** The loop of [ensureend]. *)
Fixpoint ensureend_loop (fuel : nat) (g : generator) (d : Data) (msg : string)
  : result Data :=
  match fuel with
  | 0 => OutOfFuel
  | S fuel' =>
      match next fuel' g d with
      | Yield (c, t, o, oo) g' d' =>
          if negb (String.eqb c "") && negb (str_isspace c) then
            loc <- getloc_at d' o ;;
            Raise (SyntaxError msg loc)
          else ensureend_loop fuel' g' d' msg
      | StopIteration d' => Ok d'
      | GenRaise e => Raise e
      | GenOutOfFuel => OutOfFuel
      end
  end.

(** [ensureend(d, offset, msg, ifunc=itermakefilechars)]: only whitespace
    may remain in the data. *)
Definition ensureend (d : Data) (offset : option nat) (msg : string) : result Data :=
  ensureend_loop (fuel_of d) (new_generator Itermakefilechars offset emptytokenlist) d msg.

(** [iterlines(fd)]: number the lines from 1 and turn a final CR LF into LF. *)
Definition crlf_to_lf (l : string) : string :=
  if endswith (String (ascii_of_nat 13) LF) l
  then stake (String.length l - 2) l +++ LF
  else l.

Fixpoint iterlines_from (lineno : nat) (fd : list string) : list (nat * string) :=
  match fd with
  | [] => []
  | l :: rest => (S lineno, crlf_to_lf l) :: iterlines_from (S lineno) rest
  end.

Definition iterlines (fd : list string) : list (nat * string) := iterlines_from 0 fd.

(* ================================================================= *)
(** ** Expansions *)

(** Modelled from the spec: [data.Expansion] and the nodes of
    [functions] are not in this file.  The spec gives an ordered sequence
    of nodes plus a location; a node is a literal, a variable reference, a
    substitution reference or a function call.  [append(str)] merges into
    a trailing literal when possible; [lstrip]/[rstrip] trim the leading or
    trailing literal, shrinking or removing it; [concat] joins two
    expansions, merging the literals that meet. *)
Inductive Expansion :=
| mkExpansion (eloc : option Location) (elements : list ExpansionNode)
with ExpansionNode :=
| Literal (s : string)
| VariableRef (loc : Location) (vname : Expansion)
| SubstitutionRef (loc : Location) (vname substfrom substto : Expansion)
| FunctionCall (name : string) (loc : Location) (args : list Expansion).

Definition eloc (e : Expansion) : option Location :=
  let 'mkExpansion l _ := e in l.
Definition elements (e : Expansion) : list ExpansionNode :=
  let 'mkExpansion _ ns := e in ns.

(** [data.Expansion(loc)] *)
Definition Expansion_new (loc : option Location) : Expansion := mkExpansion loc [].

Fixpoint nodes_append (ns : list ExpansionNode) (x : ExpansionNode)
  : list ExpansionNode :=
  match ns with
  | [] => [x]
  | [Literal a] =>
      match x with
      | Literal b => [Literal (a +++ b)]
      | _ => [Literal a; x]
      end
  | n :: rest => n :: nodes_append rest x
  end.

(** [e.append(object)] *)
Definition exp_append (e : Expansion) (x : ExpansionNode) : Expansion :=
  mkExpansion (eloc e) (nodes_append (elements e) x).

(** [data.Expansion.fromstring(s)] *)
Definition Expansion_fromstring (s : string) : Expansion :=
  exp_append (Expansion_new None) (Literal s).

(** [e.concat(o)] *)
Definition exp_concat (e o : Expansion) : Expansion :=
  mkExpansion (eloc e) (fold_left nodes_append (elements o) (elements e)).

(** [e.lstrip()] *)
Definition exp_lstrip (e : Expansion) : Expansion :=
  match elements e with
  | Literal s :: rest =>
      match lstrip s with
      | EmptyString => mkExpansion (eloc e) rest
      | s' => mkExpansion (eloc e) (Literal s' :: rest)
      end
  | _ => e
  end.

Fixpoint nodes_rstrip (ns : list ExpansionNode) : list ExpansionNode :=
  match ns with
  | [] => []
  | [Literal s] =>
      match rstrip s with
      | EmptyString => []
      | s' => [Literal s']
      end
  | n :: rest => n :: nodes_rstrip rest
  end.

(** [e.rstrip()] *)
Definition exp_rstrip (e : Expansion) : Expansion :=
  mkExpansion (eloc e) (nodes_rstrip (elements e)).

(** Modelled from the spec: a function object of [functions.functionmap],
    of which the parser uses the name, [maxargs], [append], [len] and
    [setup].  [fn_args] are the arguments already closed by a comma; the
    argument being parsed is the expansion of the FUNCTION frame, which
    the Python object holds as its last argument (the same object). *)
Record Function := mkFunction {
  fn_name : string;
  fn_loc : Location;
  fn_maxargs : nat;
  fn_args : list Expansion
}.

(* ================================================================= *)
(** ** parsemakesyntax *)

Inductive ParseState :=
| PARSESTATE_TOPLEVEL
| PARSESTATE_FUNCTION
| PARSESTATE_VARNAME
| PARSESTATE_SUBSTFROM
| PARSESTATE_SUBSTTO
| PARSESTATE_PARENMATCH.

Definition ParseState_eqb (a b : ParseState) : bool :=
  match a, b with
  | PARSESTATE_TOPLEVEL, PARSESTATE_TOPLEVEL
  | PARSESTATE_FUNCTION, PARSESTATE_FUNCTION
  | PARSESTATE_VARNAME, PARSESTATE_VARNAME
  | PARSESTATE_SUBSTFROM, PARSESTATE_SUBSTFROM
  | PARSESTATE_SUBSTTO, PARSESTATE_SUBSTTO
  | PARSESTATE_PARENMATCH, PARSESTATE_PARENMATCH => true
  | _, _ => false
  end.

(** [ParseStackFrame].  The keyword attributes a frame was not created
    with are [None].  [expansion] is [None] in a PARENMATCH frame: there
    the Python attribute is the very object of the frame below, so that
    appending to it appends to that frame's expansion. *)
Record ParseStackFrame := mkFrame {
  parsestate : ParseState;
  expansion : option Expansion;
  tokenlist : TokenList;
  openbrace : option string;
  closebrace : option string;
  stopon : option (list string);
  function : option Function;
  floc : option Location;
  varname : option Expansion;
  substfrom : option Expansion
}.

Definition set_expansion (f : ParseStackFrame) (e : Expansion) : ParseStackFrame :=
  mkFrame (parsestate f) (Some e) (tokenlist f) (openbrace f) (closebrace f)
          (stopon f) (function f) (floc f) (varname f) (substfrom f).

(** [stack[-1].expansion.append(x)]; the top of the stack is the head of
    the list. *)
Fixpoint stack_append (stack : list ParseStackFrame) (x : ExpansionNode)
  : list ParseStackFrame :=
  match stack with
  | [] => []
  | f :: below =>
      match expansion f with
      | Some e => set_expansion f (exp_append e x) :: below
      | None => f :: stack_append below x
      end
  end.

(** The expansion object a frame on top of [below] refers to. *)
Fixpoint stack_expansion (stack : list ParseStackFrame) : result Expansion :=
  match stack with
  | [] => Raise IndexError
  | f :: below =>
      match expansion f with
      | Some e => Ok e
      | None => stack_expansion below
      end
  end.

(** A warning of [log.warning]: the location and the text after it. *)
Definition warning : Type := Location * string.

Record parsed := mkParsed {
  p_expansion : Expansion;
  p_token : option string;
  p_offset : option nat;
  p_data : Data;
  p_log : list warning
}.

Definition attr {A} (name : string) (x : option A) : result A :=
  match x with
  | Some a => Ok a
  | None => Raise (AttributeError name)
  end.

(** An operand that has to be a string or an integer and is None. *)
Definition notnone {A} (x : option A) : result A :=
  match x with
  | Some a => Ok a
  | None => Raise TypeError
  end.

Definition _matchingbrace (c : string) : string :=
  if String.eqb c "(" then ")" else "}".

(** [functiontokens.sort(key=len, reverse=True)]: a stable sort, longest
    names first. *)
Fixpoint insert_by_len (x : string) (l : list string) : list string :=
  match l with
  | [] => [x]
  | y :: rest =>
      if String.length y <? String.length x then x :: l
      else y :: insert_by_len x rest
  end.

Definition sort_by_len (l : list string) : list string :=
  fold_left (fun acc x => insert_by_len x acc) l [].

Section Parser.

(** [functions.functionmap], which is not in this file: the function
    names in the iteration order of the dict, each with the [maxargs] of
    its class. *)
Variable functionmap : list (string * nat).

Definition functionmap_get (fname : string) : option nat :=
  option_map snd (find (fun kv => String.eqb (fst kv) fname) functionmap).

Definition _functiontokenlist : TokenList :=
  TokenList_get (sort_by_len (map fst functionmap)).

(** The end of [parsemakesyntax], after the loop. *)
Definition parse_end (stack : list ParseStackFrame) (d : Data)
  (offset : option nat) (log : list warning) : result parsed :=
  if negb (List.length stack =? 1) then
    loc <- getloc_at d offset ;;
    Raise (SyntaxError "Unterminated function call" loc)
  else
    match stack with
    | f :: _ =>
        _ <- assert (ParseState_eqb (parsestate f) PARSESTATE_TOPLEVEL) ;;
        e <- attr "expansion" (expansion f) ;;
        Ok (mkParsed e None None d log)
    | [] => Raise IndexError
    end.

(** [stack.pop()] followed by the lookup [stack[-1]]. *)
Definition popped (below : list ParseStackFrame) : result unit :=
  match below with
  | [] => Raise IndexError
  | _ => Ok tt
  end.

Definition top_tokenlist (stack : list ParseStackFrame) : result TokenList :=
  match stack with
  | [] => Raise IndexError
  | f :: _ => Ok (tokenlist f)
  end.

Definition is_close (token : string) : bool :=
  String.eqb token ")" || String.eqb token "}".

Definition is_open (token : string) : bool :=
  String.eqb token "(" || String.eqb token "{".

(** What one turn of the loop decides. *)
Inductive turn :=
| Continue (stack : list ParseStackFrame) (di : generator) (d : Data)
           (offset : option nat) (log : list warning)
| Break (stack : list ParseStackFrame) (d : Data) (offset : option nat)
        (log : list warning)
| Return (r : parsed)
| Fail (e : exn)
| Starved.

Definition lift_turn {A} (r : result A) (k : A -> turn) : turn :=
  match r with
  | Ok a => k a
  | Raise e => Fail e
  | OutOfFuel => Starved
  end.

Notation "x <~ m ;; k" := (lift_turn m (fun x => k))
  (at level 61, m at next level, right associativity).

(** The branch [if token == '$'] of the loop body.  [stack] already
    holds the chunk [s]. *)
Definition parse_dollar (iterfunc : iterfunc) (stack : list ParseStackFrame)
  (d : Data) (tokenoffset offset : nat) (log : list warning) : turn :=
  if len d =? offset then Break stack d (Some offset) log
  else
    loc <~ getloc_at d (Some tokenoffset) ;;
    let c := slice offset (offset + 1) (data d) in
    if String.eqb c "" then Fail IndexError
    else if String.eqb c "$" then
      let stack := stack_append stack (Literal "$") in
      let offset := offset + 1 in
      tl <~ top_tokenlist stack ;;
      Continue stack (new_generator iterfunc (Some offset) tl) d (Some offset) log
    else if is_open c then
      let closebrace := _matchingbrace c in
      let '(fname, offset) := findtoken d (offset + 1) _functiontokenlist true in
      match fname with
      | Some fname =>
          match functionmap_get fname with
          | None => Fail (KeyError fname)
          | Some maxargs =>
              let fn := mkFunction fname loc maxargs [] in
              let e := Expansion_new None in
              let tl :=
                if List.length (fn_args fn) + 1 =? fn_maxargs fn
                then TokenList_get [c; closebrace; "$"]
                else TokenList_get [","; c; closebrace; "$"] in
              let frame :=
                mkFrame PARSESTATE_FUNCTION (Some e) tl (Some c) (Some closebrace)
                        None (Some fn) None None None in
              Continue (frame :: stack) (new_generator iterfunc (Some offset) tl) d
                       (Some offset) log
          end
      | None =>
          let e := Expansion_new None in
          let tl := TokenList_get [":"; c; closebrace; "$"] in
          let frame :=
            mkFrame PARSESTATE_VARNAME (Some e) tl (Some c) (Some closebrace)
                    None None (Some loc) None None in
          Continue (frame :: stack) (new_generator iterfunc (Some offset) tl) d
                   (Some offset) log
      end
    else
      let e := Expansion_fromstring c in
      let stack := stack_append stack (VariableRef loc e) in
      let offset := offset + 1 in
      tl <~ top_tokenlist stack ;;
      Continue stack (new_generator iterfunc (Some offset) tl) d (Some offset) log.

(** The branches of the loop body for a token other than ['$'].
    [stacktop :: below] already holds the chunk [s]. *)
Definition parse_token (iterfunc : iterfunc) (stacktop : ParseStackFrame)
  (below : list ParseStackFrame) (d : Data) (token : string)
  (tokenoffset offset : nat) (log : list warning) : turn :=
  let stack := stacktop :: below in
  let resume stack log :=
    tl <~ top_tokenlist stack ;;
    Continue stack (new_generator iterfunc (Some offset) tl) d (Some offset) log in
  if is_open token then
    _ <~ assert (match openbrace stacktop with
                 | Some b => String.eqb token b
                 | None => false
                 end) ;;
    let stack := stack_append stack (Literal token) in
    cb <~ notnone (closebrace stacktop) ;;
    loc <~ getloc_at d (Some tokenoffset) ;;
    let frame :=
      mkFrame PARSESTATE_PARENMATCH None (TokenList_get [token; cb])
              (Some token) (Some cb) None None (Some loc) None None in
    resume (frame :: stack) log
  else
    match parsestate stacktop with
    | PARSESTATE_PARENMATCH =>
        _ <~ assert (match closebrace stacktop with
                     | Some b => String.eqb token b
                     | None => false
                     end) ;;
        let stack := stack_append stack (Literal token) in
        resume (tl stack) log
    | PARSESTATE_TOPLEVEL =>
        _ <~ assert (List.length stack =? 1) ;;
        e <~ attr "expansion" (expansion stacktop) ;;
        Return (mkParsed e (Some token) (Some offset) d log)
    | PARSESTATE_FUNCTION =>
        if String.eqb token "," then
          fn <~ attr "function" (function stacktop) ;;
          old <~ attr "expansion" (expansion stacktop) ;;
          let fn := mkFunction (fn_name fn) (fn_loc fn) (fn_maxargs fn)
                               (fn_args fn ++ [old]) in
          let frame tl :=
            mkFrame PARSESTATE_FUNCTION (Some (Expansion_new None)) tl
                    (openbrace stacktop) (closebrace stacktop) (stopon stacktop)
                    (Some fn) (floc stacktop) (varname stacktop) (substfrom stacktop) in
          if List.length (fn_args fn) + 1 =? fn_maxargs fn then
            ob <~ notnone (openbrace stacktop) ;;
            cb <~ notnone (closebrace stacktop) ;;
            resume (frame (TokenList_get [ob; cb; "$"]) :: below) log
          else resume (frame (tokenlist stacktop) :: below) log
        else if is_close token then
          fn <~ attr "function" (function stacktop) ;;
          _ <~ popped below ;;
          last <~ attr "expansion" (expansion stacktop) ;;
          resume (stack_append below
                    (FunctionCall (fn_name fn) (fn_loc fn) (fn_args fn ++ [last]))) log
        else Fail AssertionError
    | PARSESTATE_VARNAME =>
        if String.eqb token ":" then
          ob <~ notnone (openbrace stacktop) ;;
          cb <~ notnone (closebrace stacktop) ;;
          let frame :=
            mkFrame PARSESTATE_SUBSTFROM (Some (Expansion_new None))
                    (TokenList_get ["="; ob; cb; "$"])
                    (openbrace stacktop) (closebrace stacktop) (stopon stacktop)
                    (function stacktop) (floc stacktop) (expansion stacktop)
                    (substfrom stacktop) in
          resume (frame :: below) log
        else if is_close token then
          _ <~ popped below ;;
          loc <~ attr "loc" (floc stacktop) ;;
          e <~ attr "expansion" (expansion stacktop) ;;
          resume (stack_append below (VariableRef loc e)) log
        else Fail AssertionError
    | PARSESTATE_SUBSTFROM =>
        if String.eqb token "=" then
          ob <~ notnone (openbrace stacktop) ;;
          cb <~ notnone (closebrace stacktop) ;;
          let frame :=
            mkFrame PARSESTATE_SUBSTTO (Some (Expansion_new None))
                    (TokenList_get [ob; cb; "$"])
                    (openbrace stacktop) (closebrace stacktop) (stopon stacktop)
                    (function stacktop) (floc stacktop) (varname stacktop)
                    (expansion stacktop) in
          resume (frame :: below) log
        else if is_close token then
          loc <~ attr "loc" (floc stacktop) ;;
          let log :=
            log ++ [(loc, "Variable reference looks like substitution without =")] in
          vn <~ attr "varname" (varname stacktop) ;;
          e <~ attr "expansion" (expansion stacktop) ;;
          let vn := exp_concat (exp_append vn (Literal ":")) e in
          _ <~ popped below ;;
          resume (stack_append below (VariableRef loc vn)) log
        else Fail AssertionError
    | PARSESTATE_SUBSTTO =>
        _ <~ assert (is_close token) ;;
        _ <~ popped below ;;
        loc <~ attr "loc" (floc stacktop) ;;
        vn <~ attr "varname" (varname stacktop) ;;
        sf <~ attr "substfrom" (substfrom stacktop) ;;
        e <~ attr "expansion" (expansion stacktop) ;;
        resume (stack_append below (SubstitutionRef loc vn sf e)) log
    end.

(** One turn of [while True] in [parsemakesyntax]. *)
Definition parse_turn (fuel : nat) (iterfunc : iterfunc)
  (stack : list ParseStackFrame) (di : generator) (d : Data)
  (offset : option nat) (log : list warning) : turn :=
  match stack with
  | [] => Fail IndexError
  | _ =>
      match next fuel di d with
      | StopIteration d => Break stack d offset log
      | GenRaise e => Fail e
      | GenOutOfFuel => Starved
      | Yield (s, token, tokenoffset, offset) di d =>
          match stack_append stack (Literal s) with
          | [] => Fail IndexError
          | stacktop :: below =>
              match token with
              | None => Continue (stacktop :: below) di d offset log
              | Some token =>
                  tokenoffset <~ notnone tokenoffset ;;
                  offset <~ notnone offset ;;
                  if String.eqb token "$"
                  then parse_dollar iterfunc (stacktop :: below) d tokenoffset offset log
                  else parse_token iterfunc stacktop below d token tokenoffset offset log
              end
          end
      end
  end.

Fixpoint parse_loop (fuel : nat) (iterfunc : iterfunc)
  (stack : list ParseStackFrame) (di : generator) (d : Data)
  (offset : option nat) (log : list warning) : result parsed :=
  match fuel with
  | 0 => OutOfFuel
  | S fuel' =>
      match parse_turn fuel' iterfunc stack di d offset log with
      | Continue stack di d offset log => parse_loop fuel' iterfunc stack di d offset log
      | Break stack d offset log => parse_end stack d offset log
      | Return r => Ok r
      | Fail e => Raise e
      | Starved => OutOfFuel
      end
  end.

(** The state in which [parsemakesyntax] enters its loop. *)
Definition parse_start (d : Data) (startat : nat) (stopon : list string)
  (iterfunc : iterfunc) : result (list ParseStackFrame * generator) :=
  loc <- getloc_at d (Some startat) ;;
  let tl := TokenList_get (stopon ++ ["$"]) in
  let frame :=
    mkFrame PARSESTATE_TOPLEVEL (Some (Expansion_new (Some loc))) tl None None
            (Some stopon) None None None None in
  Ok ([frame], new_generator iterfunc (Some startat) tl).

(** [parsemakesyntax(d, startat, stopon, iterfunc)], with the warnings
    logged so far. *)
Definition parsemakesyntax (d : Data) (log : list warning) (startat : nat)
  (stopon : list string) (iterfunc : iterfunc) : result parsed :=
  '(stack, di) <- parse_start d startat stopon iterfunc ;;
  parse_loop (fuel_of d) iterfunc stack di d None log.

End Parser.

(* ================================================================= *)
(** ** Statements *)

(** Modelled from the spec: the statement and condition classes of
    [parserdata] are not in this file.  A ConditionBlock has a location
    and a sequence of arms (condition, statements); it is created with the
    arm of its opening condition, [addcondition] adds an arm and [append]
    appends to the last arm. *)
Inductive Condition :=
| EqCondition (exp1 exp2 : Expansion) (expected : bool)
| IfdefCondition (exp : Expansion) (expected : bool)
| ElseCondition.

Inductive Source := SOURCE_OVERRIDE.

Inductive Statement :=
| SetVariable (vname : Expansion) (token : string) (value : string)
              (valueloc : Location) (targetexp : option Expansion)
              (source : option Source)
| Rule (targets prereqs : Expansion) (doublecolon : bool)
| StaticPatternRule (targets pattern prereqs : Expansion) (doublecolon : bool)
| Command (e : Expansion)
| Include (e : Expansion) (required : bool)
| VPathDirective (e : Expansion)
| ExportDirective (e : Expansion) (single : bool)
| EmptyDirective (e : Expansion)
| ConditionBlock (loc : Location) (arms : list (Condition * list Statement)).

(** [c.expected = False] *)
Definition unexpected (c : Condition) : Condition :=
  match c with
  | EqCondition a b _ => EqCondition a b false
  | IfdefCondition e _ => IfdefCondition e false
  | ElseCondition => ElseCondition
  end.

(** An entry of [condstack]: the StatementList at the bottom, or a
    ConditionBlock that is still open.  In Python an open block is also
    the last statement of the entry below it (the same object); here it
    is put there when [endif] pops it, nothing being appended below in
    between. *)
Inductive condframe :=
| TopList (stmts : list Statement)
| Block (loc : Location) (arms : list (Condition * list Statement)).

Fixpoint arms_append (arms : list (Condition * list Statement)) (s : Statement)
  : list (Condition * list Statement) :=
  match arms with
  | [] => []
  | [(c, l)] => [(c, l ++ [s])]
  | a :: rest => a :: arms_append rest s
  end.

(** [condstack[-1].append(s)]; the top of the stack is the head. *)
Definition cond_append (condstack : list condframe) (s : Statement)
  : result (list condframe) :=
  match condstack with
  | [] => Raise IndexError
  | TopList l :: below => Ok (TopList (l ++ [s]) :: below)
  | Block loc arms :: below => Ok (Block loc (arms_append arms s) :: below)
  end.

(** [condstack[-1].addcondition(loc, c)] *)
Definition cond_addcondition (condstack : list condframe) (c : Condition)
  : result (list condframe) :=
  match condstack with
  | [] => Raise IndexError
  | TopList _ :: _ => Raise (AttributeError "addcondition")
  | Block loc arms :: below => Ok (Block loc (arms ++ [(c, [])]) :: below)
  end.

(** [condstack.pop()] of a closed block. *)
Definition cond_pop (condstack : list condframe) : result (list condframe) :=
  match condstack with
  | Block loc arms :: below => cond_append below (ConditionBlock loc arms)
  | TopList _ :: below => Ok below
  | [] => Raise IndexError
  end.

Definition SQ : string := "'".
Definition DQ : string := String (ascii_of_nat 34) EmptyString.

Definition eqargstokenlist : TokenList := TokenList_get ["("; SQ; DQ].

Definition conditiontokens : list string := ["ifeq"; "ifneq"; "ifdef"; "ifndef"].

Definition directivestokenlist : TokenList :=
  TokenList_get (conditiontokens ++
    ["else"; "endif"; "define"; "endef"; "override"; "include"; "-include";
     "vpath"; "export"; "unexport"]).

Definition conditionkeywordstokenlist : TokenList := TokenList_get conditiontokens.

Definition varsettokens : list string := [":="; "+="; "?="; "="].

(** The branch of the loop of [parsestream] a line was handled by. *)
Inductive event :=
| EvCommand | EvEndif | EvElse | EvIf | EvDefine | EvInclude | EvVpath
| EvOverride | EvExport | EvEmpty | EvSetVariable | EvRule.

Section Statements.

Variable functionmap : list (string * nat).
Variable filename : string.

Definition syntax_error {A} (msg : string) (d : Data) (offset : option nat)
  : result A :=
  loc <- getloc_at d offset ;;
  Raise (SyntaxError msg loc).

(** [ifeq(d, offset)] *)
Definition ifeq (d : Data) (log : list warning) (offset : nat)
  : result (Condition * Data * list warning) :=
  let '(token, offset) := findtoken d offset eqargstokenlist false in
  match token with
  | None => syntax_error "No arguments after conditional" d (Some offset)
  | Some token =>
      if String.eqb token "(" then
        r1 <- parsemakesyntax functionmap d log offset [","] Itermakefilechars ;;
        let d := p_data r1 in
        match p_token r1 with
        | None => syntax_error "Expected two arguments in conditional" d (p_offset r1)
        | Some _ =>
            let arg1 := exp_rstrip (p_expansion r1) in
            offset <- notnone (p_offset r1) ;;
            let offset := skipwhitespace d offset in
            r2 <- parsemakesyntax functionmap d (p_log r1) offset [")"] Itermakefilechars ;;
            let d := p_data r2 in
            match p_token r2 with
            | None => syntax_error "Unexpected text in conditional" d (p_offset r2)
            | Some _ =>
                d <- ensureend d (p_offset r2) "Unexpected text after conditional" ;;
                Ok (EqCondition arg1 (p_expansion r2) true, d, p_log r2)
            end
        end
      else
        r1 <- parsemakesyntax functionmap d log offset [token] Itermakefilechars ;;
        let d := p_data r1 in
        match p_token r1 with
        | None => syntax_error "Unexpected text in conditional" d (p_offset r1)
        | Some _ =>
            offset <- notnone (p_offset r1) ;;
            let offset := skipwhitespace d offset in
            if offset =? len d then
              syntax_error "Expected two arguments in conditional" d (Some offset)
            else
              let token := slice offset (offset + 1) (data d) in
              if negb (String.eqb token SQ || String.eqb token DQ) then
                syntax_error "Unexpected text in conditional" d (Some offset)
              else
                r2 <- parsemakesyntax functionmap d (p_log r1) (offset + 1) [token]
                        Itermakefilechars ;;
                d <- ensureend (p_data r2) (p_offset r2)
                       "Unexpected text after conditional" ;;
                Ok (EqCondition (p_expansion r1) (p_expansion r2) true, d, p_log r2)
        end
  end.

(** [ifneq(d, offset)] *)
Definition ifneq (d : Data) (log : list warning) (offset : nat)
  : result (Condition * Data * list warning) :=
  '(c, d, log) <- ifeq d log offset ;;
  Ok (unexpected c, d, log).

(** [ifdef(d, offset)] *)
Definition ifdef (d : Data) (log : list warning) (offset : nat)
  : result (Condition * Data * list warning) :=
  r <- parsemakesyntax functionmap d log offset [] Itermakefilechars ;;
  Ok (IfdefCondition (exp_rstrip (p_expansion r)) true, p_data r, p_log r).

(** [ifndef(d, offset)] *)
Definition ifndef (d : Data) (log : list warning) (offset : nat)
  : result (Condition * Data * list warning) :=
  '(c, d, log) <- ifdef d log offset ;;
  Ok (unexpected c, d, log).

(** [conditionkeywords[kword](d, offset)]; None when [kword] is not a key. *)
Definition conditionkeywords (kword : string)
  : option (Data -> list warning -> nat -> result (Condition * Data * list warning)) :=
  if String.eqb kword "ifeq" then Some ifeq
  else if String.eqb kword "ifneq" then Some ifneq
  else if String.eqb kword "ifdef" then Some ifdef
  else if String.eqb kword "ifndef" then Some ifndef
  else None.

(** The state of the loop of [parsestream]: its locals, what is left
    of [fdlines], and the warnings logged so far. *)
Record pstate := mkPstate {
  currule : bool;
  condstack : list condframe;
  fdlines : list (nat * string);
  plog : list warning
}.

Definition ok_line (currule : bool) (condstack : list condframe) (d : Data)
  (log : list warning) (ev : event) : result (option (pstate * event)) :=
  Ok (Some (mkPstate currule condstack (lineiter d) log, ev)).

(** [value = _iterflatten(itermakefilechars, d, offset).lstrip()] and the
    SetVariable statement made of it. *)
Definition setvariable (condstack : list condframe) (d : Data) (e : Expansion)
  (token : string) (offset : option nat) (targetexp : option Expansion)
  (source : option Source) : result (list condframe * Data) :=
  '(value, d) <- iterflatten Itermakefilechars d offset ;;
  let value := lstrip value in
  valueloc <- getloc_at d offset ;;
  condstack <- cond_append condstack (SetVariable e token value valueloc targetexp source) ;;
  Ok (condstack, d).

(** [; command] after the prerequisites of a rule. *)
Definition rule_command (condstack : list condframe) (d : Data) (log : list warning)
  (token : option string) (offset : option nat)
  : result (list condframe * Data * list warning) :=
  match token with
  | Some _ =>
      offset <- notnone offset ;;
      let offset := skipwhitespace d offset in
      r <- parsemakesyntax functionmap d log offset [] Itercommandchars ;;
      condstack <- cond_append condstack (Command (p_expansion r)) ;;
      Ok (condstack, p_data r, p_log r)
  | None => Ok (condstack, d, log)
  end.

(** The last part of the loop body of [parsestream]: no directive. *)
Definition parse_rule_or_variable (st : pstate) (d : Data) (offset : nat)
  : result (option (pstate * event)) :=
  r <- parsemakesyntax functionmap d (plog st) offset (varsettokens ++ ["::"; ":"])
         Itermakefilechars ;;
  let d := p_data r in
  match p_token r with
  | None =>
      cs <- cond_append (condstack st) (EmptyDirective (p_expansion r)) ;;
      ok_line (currule st) cs d (p_log r) EvEmpty
  | Some token =>
      if str_in token varsettokens then
        let e := exp_rstrip (exp_lstrip (p_expansion r)) in
        '(cs, d) <- setvariable (condstack st) d e token (p_offset r) None None ;;
        ok_line false cs d (p_log r) EvSetVariable
      else
        let doublecolon := String.eqb token "::" in
        let targets := p_expansion r in
        offset <- notnone (p_offset r) ;;
        r <- parsemakesyntax functionmap d (p_log r) offset
               (varsettokens ++ [":"; "|"; ";"]) Itermakefilechars ;;
        let d := p_data r in
        let e := p_expansion r in
        match p_token r with
        | None =>
            cs <- cond_append (condstack st) (Rule targets e doublecolon) ;;
            ok_line true cs d (p_log r) EvRule
        | Some token =>
            if String.eqb token ";" then
              cs <- cond_append (condstack st) (Rule targets e doublecolon) ;;
              '(cs, d, log) <- rule_command cs d (p_log r) (Some token) (p_offset r) ;;
              ok_line true cs d log EvRule
            else if str_in token varsettokens then
              let e := exp_rstrip (exp_lstrip e) in
              '(cs, d) <- setvariable (condstack st) d e token (p_offset r)
                            (Some targets) None ;;
              ok_line false cs d (p_log r) EvSetVariable
            else if String.eqb token "|" then
              syntax_error "order-only prerequisites not implemented" d (p_offset r)
            else
              _ <- assert (String.eqb token ":") ;;
              let pattern := e in
              offset <- notnone (p_offset r) ;;
              r <- parsemakesyntax functionmap d (p_log r) offset [";"]
                     Itermakefilechars ;;
              cs <- cond_append (condstack st)
                      (StaticPatternRule targets pattern (p_expansion r) doublecolon) ;;
              '(cs, d, log) <-
                 rule_command cs (p_data r) (p_log r)
                   (match p_token r with
                    | Some t => if String.eqb t ";" then Some t else None
                    | None => None
                    end) (p_offset r) ;;
              ok_line true cs d log EvRule
        end
  end.

(** The branch [if kword == 'else'] of the loop body. *)
Definition parse_else (st : pstate) (d : Data) (offset : nat)
  : result (option (pstate * event)) :=
  if List.length (condstack st) =? 1 then
    syntax_error "unmatched 'else' directive" d (Some offset)
  else
    let '(kword, offset) := findtoken d offset conditionkeywordstokenlist true in
    match kword with
    | None =>
        d <- ensureend d (Some offset) "Unexpected data after 'else' directive." ;;
        _ <- getloc_at d (Some offset) ;;
        cs <- cond_addcondition (condstack st) ElseCondition ;;
        ok_line (currule st) cs d (plog st) EvElse
    | Some kword =>
        match conditionkeywords kword with
        | None =>
            syntax_error "Unexpected condition after 'else' directive." d (Some offset)
        | Some parse =>
            '(c, d, log) <- parse d (plog st) offset ;;
            _ <- getloc_at d (Some offset) ;;
            cs <- cond_addcondition (condstack st) c ;;
            ok_line (currule st) cs d log EvElse
        end
    end.

(** The branch [if kword == 'define'] of the loop body.  The body is read
    into a fresh DynamicData on the same line iterator. *)
Definition parse_define (st : pstate) (d : Data) (offset : nat)
  : result (option (pstate * event)) :=
  r <- parsemakesyntax functionmap d (plog st) offset [] Itermakefilechars ;;
  let vname := p_expansion r in
  let d := DynamicData (lineiter (p_data r)) filename in
  let d := snd (readline d) in
  '(value, d) <- iterflatten Iterdefinechars d (Some 0) ;;
  valueloc <- getloc_at d (Some 0) ;;
  cs <- cond_append (condstack st) (SetVariable vname "=" value valueloc None None) ;;
  ok_line false cs d (p_log r) EvDefine.

(** The directives other than the conditionals and define. *)
Definition parse_directive (st : pstate) (d : Data) (kword : string) (offset : nat)
  : result (option (pstate * event)) :=
  if String.eqb kword "include" || String.eqb kword "-include" then
    r <- parsemakesyntax functionmap d (plog st) offset [] Itermakefilechars ;;
    cs <- cond_append (condstack st)
            (Include (p_expansion r) (String.eqb kword "include")) ;;
    ok_line false cs (p_data r) (p_log r) EvInclude
  else if String.eqb kword "vpath" then
    r <- parsemakesyntax functionmap d (plog st) offset [] Itermakefilechars ;;
    cs <- cond_append (condstack st) (VPathDirective (p_expansion r)) ;;
    ok_line false cs (p_data r) (p_log r) EvVpath
  else if String.eqb kword "override" then
    r <- parsemakesyntax functionmap d (plog st) offset varsettokens Itermakefilechars ;;
    let vname := exp_rstrip (exp_lstrip (p_expansion r)) in
    match p_token r with
    | None =>
        syntax_error "Malformed override directive, need =" (p_data r) (p_offset r)
    | Some token =>
        '(cs, d) <- setvariable (condstack st) (p_data r) vname token (p_offset r)
                      None (Some SOURCE_OVERRIDE) ;;
        ok_line false cs d (p_log r) EvOverride
    end
  else if String.eqb kword "export" then
    r <- parsemakesyntax functionmap d (plog st) offset varsettokens Itermakefilechars ;;
    let e := exp_rstrip (exp_lstrip (p_expansion r)) in
    match p_token r with
    | None =>
        cs <- cond_append (condstack st) (ExportDirective e false) ;;
        ok_line false cs (p_data r) (p_log r) EvExport
    | Some token =>
        cs <- cond_append (condstack st) (ExportDirective e true) ;;
        '(cs, d) <- setvariable cs (p_data r) e token (p_offset r) None None ;;
        ok_line false cs d (p_log r) EvExport
    end
  else if String.eqb kword "unexport" then
    syntax_error "unexporting variables is not supported" d (Some offset)
  else Raise AssertionError.

(** One turn of [while True] in [parsestream]: [None] is the break at
    the end of the stream. *)
Definition parsestream_iteration (st : pstate) : result (option (pstate * event)) :=
  _ <- assert (0 <? List.length (condstack st)) ;;
  let d := DynamicData (fdlines st) filename in
  let '(more, d) := readline d in
  if negb more then Ok None
  else if (0 <? len d) && String.eqb (slice 0 1 (data d)) TAB && currule st then
    r <- parsemakesyntax functionmap d (plog st) 1 [] Itercommandchars ;;
    _ <- assert (match p_token r with None => true | Some _ => false end) ;;
    cs <- cond_append (condstack st) (Command (p_expansion r)) ;;
    ok_line (currule st) cs (p_data r) (p_log r) EvCommand
  else
    let offset := skipwhitespace d 0 in
    let '(kword, offset) := findtoken d offset directivestokenlist true in
    match kword with
    | None => parse_rule_or_variable st d offset
    | Some kword =>
        if String.eqb kword "endif" then
          d <- ensureend d (Some offset) "Unexpected data after 'endif' directive" ;;
          if List.length (condstack st) =? 1 then
            syntax_error "unmatched 'endif' directive" d (Some offset)
          else
            cs <- cond_pop (condstack st) ;;
            ok_line (currule st) cs d (plog st) EvEndif
        else if String.eqb kword "else" then parse_else st d offset
        else
          match conditionkeywords kword with
          | Some parse =>
              '(c, d, log) <- parse d (plog st) offset ;;
              loc <- getloc_at d (Some 0) ;;
              ok_line (currule st) (Block loc [(c, [])] :: condstack st) d log EvIf
          | None =>
              if String.eqb kword "endef" then
                syntax_error "Unmatched endef" d (Some offset)
              else if String.eqb kword "define" then parse_define st d offset
              else parse_directive st d kword offset
          end
    end.

(** After the loop. *)
Definition parsestream_end (st : pstate) : result (list Statement * list warning) :=
  if negb (List.length (condstack st) =? 1) then
    match condstack st with
    | Block loc _ :: _ => Raise (SyntaxError "Condition never terminated with endif" loc)
    | TopList _ :: _ => Raise (AttributeError "loc")
    | [] => Raise IndexError
    end
  else
    match condstack st with
    | [TopList stmts] => Ok (stmts, plog st)
    | [Block loc arms] => Ok ([ConditionBlock loc arms], plog st)
    | _ => Raise IndexError
    end.

Fixpoint parsestream_loop (fuel : nat) (st : pstate) (trace : list event)
  : result (list Statement * list warning * list event) :=
  match fuel with
  | 0 => OutOfFuel
  | S fuel' =>
      r <- parsestream_iteration st ;;
      match r with
      | Some (st', ev) => parsestream_loop fuel' st' (trace ++ [ev])
      | None =>
          '(stmts, log) <- parsestream_end st ;;
          Ok (stmts, log, trace)
      end
  end.

Definition parsestream_start (fd : list string) : pstate :=
  mkPstate false [TopList []] (iterlines fd) [].

(** [parsestream(fd, filename)], with the warnings logged and the
    branches taken line by line. *)
Definition parsestream_traced (fd : list string)
  : result (list Statement * list warning * list event) :=
  parsestream_loop (S (List.length fd)) (parsestream_start fd) [].

Definition parsestream (fd : list string) : result (list Statement) :=
  '(stmts, _, _) <- parsestream_traced fd ;;
  Ok stmts.

End Statements.

(* ================================================================= *)
(** ** Notions used by the statements *)

(** The offset [getloc] finally looks up. *)
Definition clamp (d : Data) (offset : option Z) : Z :=
  let n := Z.of_nat (len d) in
  let o := match offset with
           | None => (n - 1)%Z
           | Some o => if (o >=? n)%Z then (n - 1)%Z else o
           end in
  if (o =? -1)%Z then 0%Z else o.

(** A logical line that has been appended to at least once: its first
    anchor is at offset 0. *)
Definition anchored (d : Data) : Prop :=
  exists loc rest, locs d = (0, loc) :: rest.

(** A one-line logical line used as a sample input. *)
Definition sample_line : Data := fromstring "all: a b" (mkLocation "Makefile" 1 0).

(** A bound on the number of times a generator can still be resumed:
    twice the bytes between its position and the end of the input still
    to come, plus its distance to the next loop test. *)
Definition weight_at (p : pc) (d : Data) : nat :=
  match p with
  | AtStart (Some o) | AtLoop o | AfterContinuation o => 2 * (budget d - o) + 2
  | AfterComment o => 2 * (budget d - o) + 3
  | AtStart None => 1
  | AfterLast | AfterBreak => 0
  end.

Definition weight (g : generator) (d : Data) : nat := weight_at (g_pc g) d.

(** The lines still to be read. *)
Definition lines_left (d : Data) : nat := List.length (lineiter d).

(** What every [yield] of the four iterators satisfies.  A tuple with a
    token leaves the line untouched and the token is one of the caller's,
    found in the buffer just before the after-offset; a tuple without a
    token has no offsets. *)
Definition yield_spec (g : generator) (y : yielded) (g' : generator) (d' : Data)
  : Prop :=
  match y with
  | (_, Some t, Some o, Some a) =>
      g_pc g' = AtLoop a /\ o <= a /\ a <= len d' /\
      slice o a (data d') = t /\
      (In t (tlist (g_tokenlist g)) \/
       (g_func g = Iterdata /\ tlist (g_tokenlist g) = []))
  | (_, None, None, None) => True
  | _ => False
  end.

(** What resuming a generator preserves, and how it progresses: unless
    an empty token was yielded, the generator comes closer to its end. *)
Definition step_facts (bound : nat) (g : generator) (d : Data) (y : yielded)
  (g' : generator) (d' : Data) : Prop :=
  g_func g' = g_func g /\ g_tokenlist g' = g_tokenlist g /\
  budget d' <= budget d /\ lines_left d' <= lines_left d /\
  (anchored d -> anchored d') /\
  yield_spec g y g' d' /\
  (token_of y <> Some "" -> weight g' d' < bound).

(** A generator over the empty TokenList, as the file creates them. *)
Definition quiet (g : generator) : Prop :=
  g_tokenlist g = emptytokenlist /\
  (g_func g = Iterdata -> forall o, g_pc g <> AtLoop o).

(** The frames of a stack of [parsemakesyntax]: a TOPLEVEL frame looks
    for the stop tokens and the dollar, and no frame closes on the empty
    string. *)
Definition frame_ok (tl0 : TokenList) (f : ParseStackFrame) : Prop :=
  (parsestate f = PARSESTATE_TOPLEVEL -> tokenlist f = tl0) /\
  closebrace f <> Some "".

(** The invariant of the loop of [parsemakesyntax]: the current iterator
    looks for the tokens of the top frame. *)
Definition loop_inv (tl0 : TokenList) (stack : list ParseStackFrame)
  (di : generator) : Prop :=
  Forall (frame_ok tl0) stack /\
  match stack with
  | f :: _ => g_tokenlist di = tokenlist f
  | [] => True
  end.

(** What [parsemakesyntax] promises about the triple it returns: nothing
    was found and the line is consumed, or a stop token was found and the
    offset is the one just after its occurrence in the buffer. *)
Definition stops_at (stopon : list string) (r : parsed) : Prop :=
  (p_token r = None /\ p_offset r = None) \/
  (exists t o, p_token r = Some t /\ p_offset r = Some o /\ In t stopon /\
               String.length t <= o /\ o <= len (p_data r) /\
               slice (o - String.length t) o (data (p_data r)) = t).

(** The state of the loop of [parsemakesyntax] between two turns. *)
Record lstate := mkLstate {
  l_stack : list ParseStackFrame;
  l_di : generator;
  l_data : Data;
  l_offset : option nat;
  l_log : list warning
}.

(** [reaches s s']: the loop, entered in state [s], is in state [s'] after
    some number of turns. *)
Inductive reaches (functionmap : list (string * nat)) (iterfunc : iterfunc)
  : lstate -> lstate -> Prop :=
| reaches_refl s : reaches functionmap iterfunc s s
| reaches_step s fuel stack di d offset log s' :
    parse_turn functionmap fuel iterfunc (l_stack s) (l_di s) (l_data s)
               (l_offset s) (l_log s) = Continue stack di d offset log ->
    reaches functionmap iterfunc (mkLstate stack di d offset log) s' ->
    reaches functionmap iterfunc s s'.

(** The loop of [parsemakesyntax], entered in state [s0], is left by
    [break] and [r] is returned: the loop has come to a state with one
    frame in which the iterator is exhausted, and the expansion of the
    frame is returned; or in which the iterator yields a last chunk with
    a dollar that is the last byte of the buffer, and the expansion with
    that chunk is returned. *)
Definition line_consumed (functionmap : list (string * nat)) (iterfunc : iterfunc)
  (s0 : lstate) (r : parsed) : Prop :=
  exists s fuel f e,
    reaches functionmap iterfunc s0 s /\ l_stack s = [f] /\ expansion f = Some e /\
    p_log r = l_log s /\
    ((next fuel (l_di s) (l_data s) = StopIteration (p_data r) /\ p_expansion r = e) \/
     (exists chunk t di',
         next fuel (l_di s) (l_data s)
         = Yield (chunk, Some "$", Some t, Some (len (p_data r))) di' (p_data r) /\
         p_expansion r = exp_append e (Literal chunk))).

(** The loop of [parsemakesyntax], entered in state [s0], returns [r] on
    the token [t] that ends at [o]: the loop has come to a state with one
    frame in which the iterator yields a chunk and [t], found just before
    [o]; the expansion of the frame with that chunk is returned. *)
Definition stopped_on (functionmap : list (string * nat)) (iterfunc : iterfunc)
  (s0 : lstate) (r : parsed) (t : string) (o : nat) : Prop :=
  exists s fuel f e chunk di',
    reaches functionmap iterfunc s0 s /\ l_stack s = [f] /\ expansion f = Some e /\
    parsestate f = PARSESTATE_TOPLEVEL /\ p_log r = l_log s /\
    next fuel (l_di s) (l_data s)
    = Yield (chunk, Some t, Some (o - String.length t), Some o) di' (p_data r) /\
    p_expansion r = exp_append e (Literal chunk).

(** Modelled from the spec: a sample of [functions.functionmap].  The spec
    names one function, addprefix, called with two arguments. *)
Definition sample_functionmap : list (string * nat) := [("addprefix", 2)].

(** The logical line [parsestream] starts from on a stream: a DynamicData
    on the numbered lines, after its first [readline]. *)
Definition first_line (fd : list string) : Data :=
  snd (readline (DynamicData (iterlines fd) "Makefile")).

(** Whether an alternative can match a string whose first byte is [c]. *)
Definition first_byte (a : alt) (c : ascii) : bool :=
  match a with
  | Lit EmptyString => true
  | Lit (String b _) => Ascii.eqb b c
  | BsBsHash | BsHash | BsNl | BsWsBsNl | BsAny => Ascii.eqb (ascii_of_nat 92) c
  | Hash => Ascii.eqb (ascii_of_nat 35) c
  | Nl => Ascii.eqb (ascii_of_nat 10) c
  end.

(** Text in which no match of the pattern can start. *)
Fixpoint plain (alts : list alt) (s : string) : bool :=
  match s with
  | EmptyString => true
  | String c s' => forallb (fun a => negb (first_byte a c)) alts && plain alts s'
  end.

(** The outcome of the loop of [parsemakesyntax] after a last turn. *)
Definition outcome (t : turn) : result parsed :=
  match t with
  | Continue _ _ _ _ _ | Starved => OutOfFuel
  | Break stack d offset log => parse_end stack d offset log
  | Return r => Ok r
  | Fail e => Raise e
  end.

Definition final (t : turn) : Prop :=
  match t with
  | Continue _ _ _ _ _ | Starved => False
  | _ => True
  end.

(** The join of the chunks of an iterator over the empty TokenList. *)
Definition flattened (iter : iterfunc) (d : Data) (offset : nat) : result string :=
  '(s, _) <- iterflatten iter d (Some offset) ;;
  Ok s.

(** The text of the warning for a substitution reference without [=],
    after the location. *)
Definition substwarning : string :=
  "Variable reference looks like substitution without =".

(** A line made of one reference [$(V:text)] (or with curly braces, [c]
    being the opening brace) between [pre] and [post]. *)
Definition reference_line (pre c V text post : string) : string :=
  pre +++ "$" +++ c +++ V +++ ":" +++ text +++ _matchingbrace c +++ post +++ LF.

(** Iterating [d] from [offset] over the empty TokenList gives the whole
    remaining buffer as one single chunk with no token. *)
Definition one_chunk (iter : iterfunc) (d : Data) (offset : nat) : Prop :=
  exists d',
    collect (fuel_of d) (new_generator iter (Some offset) emptytokenlist) d
    = Ok ([notoken (sdrop offset (data d))], d').

(** A tuple without token: the three offsets are None. *)
Definition tokenless (y : yielded) : Prop :=
  token_of y = None /\ tokenoffset_of y = None /\ afteroffset_of y = None.

(** A logical line holding [l1], with [l2] as the next physical line of
    its stream. *)
Definition two_lines (l1 l2 : string) : Data :=
  snd (readline (DynamicData [(1, l1); (2, l2)] "Makefile")).

(** [follows d d']: [d'] is the logical line [d] after more of its stream
    was read into it. *)
Definition follows (d d' : Data) : Prop :=
  lines_left d' <= lines_left d /\ (anchored d -> anchored d').

(** The shape of [condstack]: open blocks above the StatementList. *)
Fixpoint cond_ok (cs : list condframe) : Prop :=
  match cs with
  | [] => False
  | TopList _ :: below => below = []
  | Block _ _ :: below => cond_ok below
  end.

(** The blocks a line pushes on and pops off [condstack]. *)
Definition opens (ev : event) : nat := match ev with EvIf => 1 | _ => 0 end.
Definition closes (ev : event) : nat := match ev with EvEndif => 1 | _ => 0 end.

(** What a handled line does to the state of the loop. *)
Definition handled (st : pstate) (d : Data) (r : result (option (pstate * event)))
  : Prop :=
  forall st' ev, r = Ok (Some (st', ev)) -> cond_ok (condstack st) ->
    cond_ok (condstack st') /\ List.length (fdlines st') <= lines_left d /\
    List.length (condstack st') + closes ev = List.length (condstack st) + opens ev.

(** [stream_reaches st evs st']: the loop of [parsestream], entered in
    state [st], is in state [st'] after the lines handled by the branches
    [evs]. *)
Inductive stream_reaches (functionmap : list (string * nat)) (filename : string)
  : pstate -> list event -> pstate -> Prop :=
| stream_here st : stream_reaches functionmap filename st [] st
| stream_line st ev st1 evs st2 :
    parsestream_iteration functionmap filename st = Ok (Some (st1, ev)) ->
    stream_reaches functionmap filename st1 evs st2 ->
    stream_reaches functionmap filename st (ev :: evs) st2.

(** The dispatch of the loop body of [parsestream]: the logical line read
    in state [st], with the directive keyword found at its head and the
    offset after it, when the line is not a command and has one. *)
Definition directive_at (filename : string) (st : pstate)
  : option (Data * string * nat) :=
  let '(more, d) := readline (DynamicData (fdlines st) filename) in
  if negb more then None
  else if (0 <? len d) && String.eqb (slice 0 1 (data d)) TAB && currule st then None
  else
    match findtoken d (skipwhitespace d 0) directivestokenlist true with
    | (Some kword, offset) => Some (d, kword, offset)
    | (None, _) => None
    end.

(** The conditionals opened and closed by a run of the loop nest
    properly: no endif without an open if*, none left open. *)
Fixpoint balanced_from (depth : nat) (trace : list event) : bool :=
  match trace with
  | [] => depth =? 0
  | EvIf :: rest => balanced_from (S depth) rest
  | EvEndif :: rest =>
      match depth with
      | 0 => false
      | S depth' => balanced_from depth' rest
      end
  | _ :: rest => balanced_from depth rest
  end.

Definition balanced (trace : list event) : bool := balanced_from 0 trace.

(** [checkfortoken] of [iterdefinechars] on the physical line [l] taken
    alone: 1 for a define line, -1 for an endef line, 0 otherwise. *)
Definition line_direction (l : string) : Z :=
  checkfortoken (fromstring l (mkLocation "" 0 0)) 0.

(** The lines [body] (without their newline) make the body of a define
    entered with [count]: no backslash in them, definecount stays away
    from 0 on each of them and is 1 after the last one, so that an endef
    line closes the define right after them. *)
Fixpoint nested (count : Z) (body : list string) : bool :=
  match body with
  | [] => (count =? 1)%Z
  | l :: rest =>
      let count := (count + line_direction (l +++ LF))%Z in
      plain (continuationre emptytokenlist) l && negb (count =? 0)%Z && nested count rest
  end.

(** A line [iterlines] leaves as it is: no CR before its LF. *)
Definition unix_line (l : string) : bool := String.eqb (crlf_to_lf l) l.

(** The lines of a define: the directive, the body and the closing line. *)
Definition define_block (name : string) (body : list string) (closing : string)
  : list string :=
  ("define " +++ name +++ LF) :: map (fun l => l +++ LF) body ++ [closing].

(** No anchor of the line lies beyond its buffer. *)
Definition anchors_ok (d : Data) : Prop :=
  Forall (fun ol : nat * Location => fst ol <= len d) (locs d).

Definition CR : string := String (ascii_of_nat 13) EmptyString.

(** [reads_on d d']: [d'] is the logical line [d] after some of the
    physical lines still to come were read into it, in order: they moved
    from the line iterator to the end of the buffer. *)
Definition reads_on (d d' : Data) : Prop :=
  exists lines,
    lineiter d = lines ++ lineiter d' /\
    data d' = data d +++ String.concat "" (map snd lines) /\
    dpath d' = dpath d.

(** [currule] after a line handled by the branch [ev]: a rule sets it,
    commands, conditionals and empty lines leave it, every other
    statement clears it. *)
Definition next_currule (ev : event) (cur : bool) : bool :=
  match ev with
  | EvRule => true
  | EvCommand | EvEndif | EvElse | EvIf | EvEmpty => cur
  | _ => false
  end.

(** What a line that is not handled as a command does. *)
Definition not_command (st : pstate) (r : result (option (pstate * event))) : Prop :=
  forall st' ev, r = Ok (Some (st', ev)) ->
    ev <> EvCommand /\ currule st' = next_currule ev (currule st).

(** The lines [body] (without their newline) of a define entered with
    [count] never close it: no backslash in them, and definecount stays
    away from 0 on each of them. *)
Fixpoint unclosed (count : Z) (body : list string) : bool :=
  match body with
  | [] => true
  | l :: rest =>
      let count := (count + line_direction (l +++ LF))%Z in
      plain (continuationre emptytokenlist) l && negb (count =? 0)%Z && unclosed count rest
  end.

(** A physical line as iterating over a file gives them: its only
    newline, if it has one, is its last byte. *)
Fixpoint one_line (s : string) : bool :=
  match s with
  | EmptyString => true
  | String c s' =>
      if Ascii.eqb c (ascii_of_nat 10) then String.eqb s' "" else one_line s'
  end.

(** The lines still to be read are physical lines. *)
Definition lines_ok (d : Data) : Prop :=
  Forall (fun nl : nat * string => one_line (snd nl) = true) (lineiter d).

(** Where a generator stands on such input: what is left of the buffer
    from its offset on has no newline but the last byte; after a
    continuation it is at the end of the buffer. *)
Definition gen_ok (g : generator) (d : Data) : Prop :=
  lines_ok d /\
  match g_pc g with
  | AtStart (Some o) | AtLoop o | AfterComment o => one_line (sdrop o (data d)) = true
  | AfterContinuation e => len d <= e
  | AtStart None => False
  | AfterLast | AfterBreak => True
  end.

(** The one exception an iterator raises on such input. *)
Definition unterminated (f : iterfunc) (e : exn) : Prop :=
  f = Iterdefinechars /\ exists loc, e = SyntaxError "Unterminated define" loc.

(** What resuming a generator gives on such input. *)
Definition step_ok (f : iterfunc) (s : step) : Prop :=
  match s with
  | Yield _ g' d' => gen_ok g' d'
  | StopIteration d' => lines_ok d'
  | GenRaise e => unterminated f e
  | GenOutOfFuel => True
  end.

(** The pattern each iterator searches the line with:
    [tokenlist.simplere] in [iterdata], [tokenlist.makefilere] in
    [itermakefilechars], [tokenlist.continuationre] in [itercommandchars]
    and [iterdefinechars]. *)
Definition searched (f : iterfunc) (tl : TokenList) : list alt :=
  match f with
  | Iterdata => simplere tl
  | Itermakefilechars => makefilere tl
  | Itercommandchars | Iterdefinechars => continuationre tl
  end.

(** Text in which no backslash is followed by a newline: no line
    continuation starts in it. *)
Fixpoint unbroken (s : string) : bool :=
  match s with
  | EmptyString => true
  | String _ s' => negb (startswith (BS +++ LF) s) && unbroken s'
  end.

(** A generator of [itermakefilechars] over the empty TokenList that
    stands before the rest of one physical line without continuation: it
    will not read a further line. *)
Definition calm (g : generator) (d : Data) : Prop :=
  g_func g = Itermakefilechars /\ g_tokenlist g = emptytokenlist /\
  match g_pc g with
  | AtStart (Some o) | AtLoop o | AfterComment o =>
      one_line (sdrop o (data d)) = true /\ unbroken (sdrop o (data d)) = true
  | AfterLast | AfterBreak => True
  | AtStart None | AfterContinuation _ => False
  end.

(** What resuming a calm generator gives. *)
Definition calm_step (s : step) (d : Data) : Prop :=
  match s with
  | Yield _ g' d' => d' = d /\ calm g' d
  | StopIteration d' => d' = d
  | GenRaise _ => False
  | GenOutOfFuel => True
  end.

(** The opening brace a frame was pushed for, and the brace that closes
    it. *)
Definition braces (f : ParseStackFrame) (c : string) : Prop :=
  is_open c = true /\ openbrace f = Some c /\ closebrace f = Some (_matchingbrace c).

(** The shape of a frame of the stack of [parsemakesyntax]: what its
    state needs is there, and its tokens are the ones its state handles.
    [bottom] tells whether the frame is the first of the stack. *)
Definition frame_wf (f : ParseStackFrame) (bottom : bool) : Prop :=
  match parsestate f with
  | PARSESTATE_TOPLEVEL =>
      bottom = true /\ expansion f <> None /\ tlist (tokenlist f) <> [] /\
      forall t, In t (tlist (tokenlist f)) -> is_open t = false
  | PARSESTATE_FUNCTION =>
      bottom = false /\ expansion f <> None /\ function f <> None /\
      exists c, braces f c /\
        (tlist (tokenlist f) = [","; c; _matchingbrace c; "$"] \/
         tlist (tokenlist f) = [c; _matchingbrace c; "$"])
  | PARSESTATE_VARNAME =>
      bottom = false /\ expansion f <> None /\ floc f <> None /\
      exists c, braces f c /\ tlist (tokenlist f) = [":"; c; _matchingbrace c; "$"]
  | PARSESTATE_SUBSTFROM =>
      bottom = false /\ expansion f <> None /\ floc f <> None /\ varname f <> None /\
      exists c, braces f c /\ tlist (tokenlist f) = ["="; c; _matchingbrace c; "$"]
  | PARSESTATE_SUBSTTO =>
      bottom = false /\ expansion f <> None /\ floc f <> None /\ varname f <> None /\
      substfrom f <> None /\
      exists c, braces f c /\ tlist (tokenlist f) = [c; _matchingbrace c; "$"]
  | PARSESTATE_PARENMATCH =>
      bottom = false /\
      exists c, braces f c /\ tlist (tokenlist f) = [c; _matchingbrace c]
  end.

Definition is_nil {A} (l : list A) : bool :=
  match l with [] => true | _ => false end.

(** The stack of [parsemakesyntax]: the TOPLEVEL frame at the bottom and
    only there, frames of open references, calls and parentheses above. *)
Fixpoint stack_wf (stack : list ParseStackFrame) : Prop :=
  match stack with
  | [] => False
  | f :: below =>
      frame_wf f (is_nil below) /\ (is_nil below = true \/ stack_wf below)
  end.

(** The state of the loop of [parsemakesyntax] between two turns, on a
    line made of physical lines. *)
Definition loop_ok (iterfunc : iterfunc) (stack : list ParseStackFrame)
  (di : generator) (d : Data) : Prop :=
  stack_wf stack /\ top_tokenlist stack = Ok (g_tokenlist di) /\
  g_func di = iterfunc /\ gen_ok di d /\ anchored d.

(** What a turn of the loop comes to from such a state. *)
Definition turn_ok (iterfunc : iterfunc) (t : turn) : Prop :=
  match t with
  | Continue stack di d _ _ => loop_ok iterfunc stack di d
  | Break stack d _ _ => stack_wf stack /\ anchored d
  | Return _ => True
  | Fail e => unterminated iterfunc e
  | Starved => True
  end.

(** The arguments of a function call as they are written: each closed
    argument is followed by a comma. *)
Fixpoint commas (args : list string) (rest : string) : string :=
  match args with
  | [] => rest
  | a :: more => a +++ "," +++ commas more rest
  end.

(** The tokens looked for in an argument of a call opened by [c], [k]
    arguments being closed: the comma is one of them until the function
    has [maxargs] arguments. *)
Definition argument_tokens (c : string) (maxargs k : nat) : TokenList :=
  if k + 1 =? maxargs
  then TokenList_get [c; _matchingbrace c; "$"]
  else TokenList_get [","; c; _matchingbrace c; "$"].

(** The FUNCTION frame of a call of [fname] opened by [c] at [loc], with
    the closed arguments [done] and the current argument [e]. *)
Definition function_frame (c fname : string) (loc : Location) (maxargs : nat)
  (done : list Expansion) (e : Expansion) : ParseStackFrame :=
  mkFrame PARSESTATE_FUNCTION (Some e) (argument_tokens c maxargs (List.length done))
          (Some c) (Some (_matchingbrace c)) None
          (Some (mkFunction fname loc maxargs done)) None None None.

(* ================================================================= *)
(** * Properties *)

(** ** getloc *)

Lemma findlast_from_some {A} (func : A -> bool) (x : A) (l : list A) :
  exists y, findlast_from func (Some x) l = Ok y.
Proof.
  revert x; induction l as [|i rest IH]; intros x; simpl.
  - now exists x.
  - destruct (func i); [apply IH | now exists x].
Qed.

Lemma findlast_ok {A} (func : A -> bool) (x : A) (l : list A) :
  func x = true -> exists y, findlast func (x :: l) = Ok y.
Proof.
  intros H. unfold findlast. simpl. rewrite H. apply findlast_from_some.
Qed.

Lemma clamp_nat d (o : option nat) : (0 <= clamp d (option_map Z.of_nat o))%Z.
Proof.
  unfold clamp. destruct o as [o|]; simpl.
  - destruct (Z.of_nat o >=? Z.of_nat (len d))%Z eqn:E.
    + destruct (Z.of_nat (len d) - 1 =? -1)%Z eqn:E'; lia.
    + destruct (Z.of_nat o =? -1)%Z eqn:E'; lia.
  - destruct (Z.of_nat (len d) - 1 =? -1)%Z eqn:E'; lia.
Qed.

Lemma getloc_clamp d offset :
  getloc d offset =
  ('(begin, loc) <- findlast (fun ol => (Z.of_nat (fst ol) <=? clamp d offset)%Z) (locs d) ;;
   Ok (loc_add loc (slice begin (Z.to_nat (clamp d offset)) (data d)))).
Proof. reflexivity. Qed.

(** On a line with an anchor at 0, [getloc] succeeds at every offset the
    parser passes (a natural number or None). *)
Lemma getloc_at_ok d o : anchored d -> exists loc, getloc_at d o = Ok loc.
Proof.
  intros (l0 & rest & H). unfold getloc_at. rewrite getloc_clamp, H.
  destruct (findlast_ok (fun ol => (Z.of_nat (fst ol) <=? clamp d (option_map Z.of_nat o))%Z)
              (0, l0) rest) as ([b l] & E).
  - simpl. apply Z.leb_le. apply clamp_nat.
  - rewrite E. simpl. eauto.
Qed.

Lemma getloc_not_OutOfFuel d o : getloc d o <> OutOfFuel.
Proof.
  rewrite getloc_clamp. unfold findlast.
  generalize (@None (nat * Location)).
  induction (locs d) as [|i rest IH]; intros f; simpl.
  - destruct f as [[b l]|]; simpl; discriminate.
  - destruct (Z.of_nat (fst i) <=? clamp d o)%Z; [apply IH|].
    destruct f as [[b l]|]; simpl; discriminate.
Qed.

Lemma getloc_at_not_OutOfFuel d o : getloc_at d o <> OutOfFuel.
Proof. apply getloc_not_OutOfFuel. Qed.

(** C7, the code at the empty logical line: [getloc] on a logical line
    that was never appended to has no anchor to return, [findlast] falls
    through with its local unbound, and the call raises UnboundLocalError
    at every offset instead of giving the start-of-file location.  The
    parser reaches this when a define line is the last line of the
    stream. *)
Theorem getloc_empty_LogicalLine :
  forall lineiter p offset,
    getloc (DynamicData lineiter p) offset = Raise (UnboundLocalError "f").
Proof. reflexivity. Qed.

(** ** Strings *)

Section StringFacts.

Lemma length_append (a b : string) :
  String.length (a +++ b) = String.length a + String.length b.
Proof. induction a; simpl; congruence. Qed.

Lemma length_sdrop n s : String.length (sdrop n s) = String.length s - n.
Proof.
  revert s; induction n; intros s; destruct s; simpl; auto.
Qed.

Lemma length_stake n s : String.length (stake n s) = Nat.min n (String.length s).
Proof.
  revert s; induction n; intros s; destruct s; simpl; auto.
Qed.

Lemma sdrop_0 s : sdrop 0 s = s.
Proof. reflexivity. Qed.

Lemma sdrop_sdrop a b s : sdrop a (sdrop b s) = sdrop (b + a) s.
Proof.
  revert s; induction b; intros s; simpl; auto.
  destruct s; simpl; auto. now destruct a.
Qed.

Lemma sdrop_all n s : String.length s <= n -> sdrop n s = "".
Proof.
  revert s; induction n; intros s H; destruct s; simpl in *; auto; try lia.
  apply IHn; lia.
Qed.

Lemma stake_sdrop n s : stake n s +++ sdrop n s = s.
Proof.
  revert s; induction n; intros s; destruct s; simpl; auto. now rewrite IHn.
Qed.

Lemma sdrop_append a b : sdrop (String.length a) (a +++ b) = b.
Proof. induction a; simpl; auto. Qed.

Lemma stake_append a b : stake (String.length a) (a +++ b) = a.
Proof. induction a; simpl; auto. now rewrite IHa. Qed.

Lemma append_assoc (a b c : string) : (a +++ b) +++ c = a +++ b +++ c.
Proof. induction a; simpl; congruence. Qed.

Lemma append_empty_r (a : string) : a +++ "" = a.
Proof. induction a; simpl; congruence. Qed.

Lemma startswith_spec p s :
  startswith p s = true <-> exists r, s = p +++ r.
Proof.
  revert s; induction p as [|a p IH]; intros s; simpl.
  - split; eauto.
  - destruct s as [|b s]; simpl.
    + split; [discriminate | intros (r & H); discriminate].
    + rewrite andb_true_iff, IH. split.
      * intros (E & r & ->). apply Ascii.eqb_eq in E. subst. eauto.
      * intros (r & H). injection H as -> ->. rewrite Ascii.eqb_refl. eauto.
Qed.

Lemma startswith_stake p s :
  startswith p s = true -> stake (String.length p) s = p.
Proof.
  intros H. apply startswith_spec in H as (r & ->). apply stake_append.
Qed.

Lemma startswith_length p s :
  startswith p s = true -> String.length p <= String.length s.
Proof.
  intros H. apply startswith_spec in H as (r & ->). rewrite length_append. lia.
Qed.

Lemma startswith_refl p r : startswith p (p +++ r) = true.
Proof. apply startswith_spec. eauto. Qed.

Lemma slice_length b e s :
  e <= String.length s -> String.length (slice b e s) = e - b.
Proof.
  intros H. unfold slice. rewrite length_stake, length_sdrop. lia.
Qed.

Lemma sdrop_slice b e s :
  sdrop 1 (slice b e s) = slice (b + 1) e s.
Proof.
  unfold slice. rewrite <- sdrop_sdrop.
  generalize (sdrop b s) as t. intros t.
  destruct (e - b) as [|k] eqn:E.
  - replace (e - (b + 1)) with 0 by lia. now destruct t.
  - replace (e - (b + 1)) with k by lia. destruct t; simpl; auto.
    now destruct k.
Qed.

Lemma wsrun_le s : wsrun s <= String.length s.
Proof. induction s; simpl; [lia|]. destruct (isspace a); lia. Qed.

Lemma skipwhitespace_ge d o : o <= skipwhitespace d o.
Proof. unfold skipwhitespace. lia. Qed.

Lemma skipwhitespace_le d o : o <= len d -> skipwhitespace d o <= len d.
Proof.
  unfold skipwhitespace, len. intros H.
  pose proof (wsrun_le (sdrop o (data d))) as W. rewrite length_sdrop in W. lia.
Qed.

End StringFacts.

(** ** The compiled patterns *)

Section RegexFacts.

Lemma match_alt_bound a s n :
  match_alt a s = Some n -> n <= String.length s /\ startswith (stake n s) s = true.
Proof.
  intros H.
  split; [|apply startswith_spec; exists (sdrop n s); now rewrite stake_sdrop].
  assert (P : forall p k, (if startswith p s then Some k else None) = Some n ->
                          String.length p = k -> n <= String.length s).
  { intros p k E L. destruct (startswith p s) eqn:E'; inversion E; subst.
    now apply startswith_length. }
  destruct a; unfold match_alt in H.
  - eapply P; eauto.
  - eapply P; eauto.
  - eapply P; eauto.
  - eapply P; eauto.
  - destruct (startswith BS s) eqn:E; [|discriminate].
    destruct ((1 <=? wsrun (sdrop 1 s)) &&
              startswith (BS +++ LF) (sdrop (1 + wsrun (sdrop 1 s)) s)) eqn:E2;
      [|discriminate].
    injection H as Hn. clear P. subst n.
    apply andb_true_iff in E2 as [_ E2]. apply startswith_length in E2.
    rewrite length_sdrop in E2. change (String.length (BS +++ LF)) with 2 in E2.
    destruct s as [|c s']; [discriminate|]. cbn [sdrop String.length] in *. lia.
  - destruct s as [|b [|c s]]; try discriminate.
    destruct (_ && _); inversion H; subst. cbn [String.length]. lia.
  - eapply P; eauto.
  - eapply P; eauto.
Qed.

Lemma match_alts_in alts s n :
  match_alts alts s = Some n -> exists a, In a alts /\ match_alt a s = Some n.
Proof.
  induction alts as [|a rest IH]; simpl; [discriminate|].
  destruct (match_alt a s) eqn:E.
  - intros H; inversion H; subst. eauto.
  - intros H. destruct (IH H) as (a' & Hin & Hm). eauto.
Qed.

Lemma search_from_spec alts s i st e :
  search_from alts s i = Some (st, e) ->
  exists k, st = i + k /\ k <= String.length s /\
            match_alts alts (sdrop k s) = Some (e - st) /\ st <= e.
Proof.
  revert i; induction s as [|c s IH]; intros i; simpl.
  - destruct (match_alts alts "") eqn:E; [|discriminate].
    intros H; injection H as <- <-. exists 0. cbn [sdrop String.length].
    replace (i + n - i) with n by lia. repeat split; auto; lia.
  - destruct (match_alts alts (String c s)) eqn:E.
    + intros H; injection H as <- <-. exists 0. cbn [sdrop String.length].
      replace (i + n - i) with n by lia. repeat split; auto; lia.
    + intros H. apply IH in H as (k & -> & Hk & Hm & Hle).
      exists (S k). cbn [sdrop String.length].
      replace (e - (i + S k)) with (e - (S i + k)) by lia.
      repeat split; auto; lia.
Qed.

(** What a successful search tells: where the match is and which
    alternative made it. *)
Lemma re_search_spec alts s pos st e :
  re_search alts s pos = Some (st, e) ->
  pos <= st /\ st <= e /\ e <= String.length s /\
  exists a, In a alts /\ match_alt a (sdrop st s) = Some (e - st).
Proof.
  unfold re_search. destruct (pos <=? String.length s) eqn:E; [|discriminate].
  apply Nat.leb_le in E. intros H.
  apply search_from_spec in H as (k & -> & Hk & Hm & Hle).
  rewrite sdrop_sdrop in Hm. rewrite length_sdrop in Hk.
  apply match_alts_in in Hm as (a & Hin & Hm).
  pose proof (match_alt_bound _ _ _ Hm) as [Hb _]. rewrite length_sdrop in Hb.
  repeat split; try lia. eauto.
Qed.

Lemma slice_match st e s :
  st <= e -> slice st e s = stake (e - st) (sdrop st s).
Proof. reflexivity. Qed.

End RegexFacts.

(** ** The char iterators *)

Section GeneratorFacts.

Lemma budget_readline d : budget (snd (readline d)) <= budget d.
Proof.
  unfold readline, budget, len. destruct d as [dd ll li dp]; simpl.
  destruct li as [|[n l] rest]; simpl; [lia|].
  rewrite length_append. lia.
Qed.

Lemma len_readline d : len d <= len (snd (readline d)).
Proof.
  unfold readline, len. destruct d as [dd ll li dp]; simpl.
  destruct li as [|[n l] rest]; simpl; [lia|].
  rewrite length_append. lia.
Qed.

Lemma len_le_budget d : len d <= budget d.
Proof. unfold budget. lia. Qed.

Lemma lines_readline d : lines_left (snd (readline d)) <= lines_left d.
Proof.
  unfold readline, lines_left. destruct d as [dd ll li dp]; simpl.
  destruct li as [|[n l] rest]; simpl; lia.
Qed.

Lemma anchored_readline d : anchored d -> anchored (snd (readline d)).
Proof.
  intros (l0 & rest & H). unfold readline.
  destruct d as [dd ll li dp]; simpl in *; subst ll.
  destruct li as [|[n l] r]; simpl; unfold anchored; simpl; eauto.
Qed.

(** The first successful [readline] of a fresh DynamicData anchors it. *)
Lemma anchored_first_readline li p :
  fst (readline (DynamicData li p)) = true ->
  anchored (snd (readline (DynamicData li p))).
Proof.
  unfold readline, DynamicData. simpl. destruct li as [|[n l] r]; simpl.
  - discriminate.
  - intros _. unfold anchored. simpl. eauto.
Qed.

Lemma str_in_In x l : str_in x l = true -> In x l.
Proof.
  unfold str_in. rewrite existsb_exists. intros (y & Hin & E).
  apply String.eqb_eq in E. now subst.
Qed.

(** A match of one of the meta-tokens starts with a backslash or is a
    hash or a newline. *)
Lemma meta_token a s n :
  In a makefiletokensescaped -> match_alt a s = Some n ->
  startswith BS (stake n s) = true \/ stake n s = "#" \/ stake n s = LF.
Proof.
  intros Hin H.
  assert (P : forall p k, (if startswith p s then Some k else None) = Some n ->
                          String.length p = k -> stake n s = p).
  { intros p k E L. destruct (startswith p s) eqn:E'; inversion E; subst.
    now apply startswith_stake. }
  simpl in Hin. unfold match_alt in H.
  destruct Hin as [<-|[<-|[<-|[<-|[<-|[<-|[<-|[]]]]]]]].
  - left. erewrite P; eauto; reflexivity.
  - left. erewrite P; eauto; reflexivity.
  - left. erewrite P; eauto; reflexivity.
  - left. destruct (startswith BS s) eqn:E; [|discriminate].
    destruct (_ && _); [|discriminate]. injection H as <-.
    destruct s as [|c s']; [discriminate|]. exact E.
  - left. destruct s as [|b [|c s']]; try discriminate.
    destruct (Ascii.eqb b (ascii_of_nat 92) && _) eqn:E; [|discriminate].
    injection H as <-. apply andb_true_iff in E as [E _].
    cbn [stake]. unfold BS. cbn [startswith]. now rewrite Ascii.eqb_sym, E.
  - right; left. eapply P; eauto.
  - right; right. eapply P; eauto.
Qed.

Lemma meta_token_cont a s n :
  In a continuationtokensescaped -> match_alt a s = Some n ->
  startswith BS (stake n s) = true \/ stake n s = LF.
Proof.
  intros Hin H.
  destruct (meta_token a s n) as [?|[E|?]]; auto.
  - simpl in *. intuition.
  - exfalso. simpl in Hin. unfold match_alt in H.
    destruct Hin as [<-|[<-|[<-|[]]]].
    + destruct (startswith _ s) eqn:E'; [|discriminate]. injection H as <-.
      apply startswith_stake in E'.
      assert (X : stake 2 s = BS +++ LF) by exact E'. rewrite X in E. discriminate.
    + destruct s as [|b [|c s']]; try discriminate.
      destruct (_ && _); [|discriminate]. injection H as <-. discriminate.
    + destruct (startswith _ s) eqn:E'; [|discriminate]. injection H as <-.
      apply startswith_stake in E'.
      assert (X : stake 1 s = LF) by exact E'. rewrite X in E. discriminate.
Qed.

(** A match of an alternative that is one of the caller's tokens is that
    token. *)
Lemma lit_token (t s : string) n :
  match_alt (Lit t) s = Some n -> stake n s = t /\ n = String.length t.
Proof.
  unfold match_alt. destruct (startswith t s) eqn:E; [|discriminate].
  intros H; injection H as <-. split; auto. now apply startswith_stake.
Qed.

End GeneratorFacts.

Section YieldFacts.

Ltac split_ifs :=
  repeat match goal with
    | |- context [if ?c then _ else _] => destruct c eqn:?
    end.

Lemma weight_at_pc g p d : weight (at_pc g p) d = weight_at p d.
Proof. reflexivity. Qed.

Lemma slice_nonempty st e s :
  e <= String.length s -> slice st e s <> "" -> st < e.
Proof.
  intros H N. destruct (Nat.lt_ge_cases st e) as [L|L]; auto.
  exfalso. apply N. unfold slice. replace (e - st) with 0 by lia.
  now destruct (sdrop st s).
Qed.

Lemma startswith_nonempty p s : startswith p s = true -> p <> "" -> s <> "".
Proof. destruct p, s; simpl; congruence. Qed.

(** The shared token branches. *)
Lemma yield_token_facts g d offset start e y g' d' :
  offset <= start -> start <= e -> e <= len d ->
  (startswith BS (slice start e (data d)) = true \/
   In (slice start e (data d)) (tlist (g_tokenlist g))) ->
  yield_token g d offset start e (slice start e (data d)) = Yield y g' d' ->
  step_facts (2 * (budget d - offset) + 2) g d y g' d'.
Proof.
  intros Ho Hs He Htok. pose proof (len_le_budget d) as Hb.
  unfold yield_token.
  destruct (startswith BS (slice start e (data d))) eqn:Ebs.
  - assert (Hlt : start < e).
    { apply slice_nonempty with (s := data d); [exact He|].
      eapply startswith_nonempty; eauto. discriminate. }
    remember (sdrop 1 (slice start e (data d))) as tk eqn:Etk.
    destruct (str_in _ _) eqn:Ein; intros H; injection H as <- <- <-;
      unfold step_facts, yield_spec; cbn [token_of fst snd notoken];
      rewrite ?weight_at_pc; cbn [weight_at g_func g_tokenlist g_pc at_pc].
    + repeat split; auto; try lia.
      * now rewrite Etk, sdrop_slice.
      * left. now apply str_in_In.
    + repeat split; auto; try lia.
  - intros H; injection H as <- <- <-.
    unfold step_facts, yield_spec; cbn [token_of fst snd notoken];
      rewrite ?weight_at_pc; cbn [weight_at g_func g_tokenlist g_pc at_pc].
    destruct Htok as [?|Hin]; [congruence|].
    repeat split; auto; try lia.
    intros N. assert (start < e); [|lia].
    apply slice_nonempty with (s := data d); [exact He|congruence].
Qed.

Lemma notoken_facts bound g d g' d' s :
  g_func g' = g_func g -> g_tokenlist g' = g_tokenlist g ->
  budget d' <= budget d -> lines_left d' <= lines_left d ->
  (anchored d -> anchored d') -> weight g' d' < bound ->
  step_facts bound g d (notoken s) g' d'.
Proof.
  intros. unfold step_facts, yield_spec, notoken. cbn [token_of fst snd].
  repeat split; auto.
Qed.

(** Moving on to a later position decreases the weight. *)
Lemma weight_progress p d d' offset e :
  offset < e -> e <= budget d' -> budget d' <= budget d ->
  p = AtLoop e \/ p = AfterContinuation e \/ p = AfterComment e \/
  p = AfterLast \/ p = AfterBreak ->
  weight_at p d' < 2 * (budget d - offset) + 2.
Proof.
  intros H1 H2 H3 [->|[->|[->|[->| ->]]]]; cbn [weight_at]; lia.
Qed.

Lemma weight_last d offset p :
  p = AfterLast \/ p = AfterBreak ->
  weight_at p d < 2 * (budget d - offset) + 2.
Proof. intros [->| ->]; cbn [weight_at]; lia. Qed.

(** What a match found by one of the token patterns is: a meta-token,
    of which [P] holds, or one of the caller's tokens. *)
Lemma token_kind (P : string -> Prop) tl meta s pos st e :
  (forall a n x, In a meta -> match_alt a x = Some n -> P (stake n x)) ->
  re_search (escapedlist tl ++ meta) s pos = Some (st, e) ->
  pos <= st /\ st <= e /\ e <= String.length s /\
  (P (slice st e s) \/ In (slice st e s) (tlist tl)).
Proof.
  intros Hmeta H. apply re_search_spec in H as (H1 & H2 & H3 & a & Hin & Hm).
  repeat split; auto. unfold slice.
  apply in_app_or in Hin as [Hin|Hin].
  - unfold escapedlist in Hin. apply in_map_iff in Hin as (t & <- & Hin).
    apply lit_token in Hm as [-> _]. auto.
  - left. eapply Hmeta; eauto.
Qed.

Lemma eqb_false_neq (a b : string) : String.eqb a b = false -> a <> b.
Proof. apply String.eqb_neq. Qed.

Lemma eqb_true_eq (a b : string) : String.eqb a b = true -> a = b.
Proof. apply String.eqb_eq. Qed.

Ltac token_cases H :=
  repeat match type of H with
    | (if String.eqb ?a ?b then _ else _) = _ =>
        let E := fresh "E" in
        destruct (String.eqb a b) eqn:E;
        [apply eqb_true_eq in E | apply eqb_false_neq in E]
    | (if ?c then _ else _) = _ =>
        let E := fresh "E" in destruct c eqn:E
    end.

Ltac token_nonempty :=
  match goal with
  | E : ?t = _ |- ?t <> "" => rewrite E; discriminate
  | E : startswith BS ?t && _ = true |- ?t <> "" =>
      apply andb_true_iff in E as [E _];
      eapply startswith_nonempty; [exact E | discriminate]
  end.

Lemma itermakefilechars_loop_facts g d offset y g' d' :
  itermakefilechars_loop g d offset = Yield y g' d' ->
  step_facts (2 * (budget d - offset) + 2) g d y g' d'.
Proof.
  unfold itermakefilechars_loop. pose proof (len_le_budget d) as Hb.
  destruct (offset <? len d) eqn:Elt; [|discriminate].
  apply Nat.ltb_lt in Elt.
  destruct (re_search _ _ _) as [[start e]|] eqn:Es.
  - apply token_kind with
      (P := fun t => startswith BS t = true \/ t = "#" \/ t = LF)
      in Es as (H1 & H2 & H3 & Hk);
      [|intros; eapply meta_token; eauto].
    fold (len d) in H3. set (token := slice start e (data d)) in *.
    assert (Hne : token <> "" -> start < e).
    { intros N. apply slice_nonempty with (s := data d); auto. }
    intros H. token_cases H; try discriminate.
    all: try (injection H as <- <- <-; apply notoken_facts; auto;
              rewrite weight_at_pc;
              apply weight_progress with (e := e); auto; try lia;
              assert (start < e); [|lia]; apply Hne; token_nonempty).
    all: apply yield_token_facts in H; auto;
      destruct Hk as [[?|[?|?]]|?]; auto; congruence.
  - intros H; injection H as <- <- <-. apply notoken_facts; auto.
    apply weight_last; auto.
Qed.

Lemma itercommandchars_loop_facts g d offset y g' d' :
  itercommandchars_loop g d offset = Yield y g' d' ->
  step_facts (2 * (budget d - offset) + 2) g d y g' d'.
Proof.
  unfold itercommandchars_loop. pose proof (len_le_budget d) as Hb.
  destruct (offset <? len d) eqn:Elt; [|discriminate].
  apply Nat.ltb_lt in Elt.
  destruct (re_search _ _ _) as [[start e]|] eqn:Es.
  - apply token_kind with (P := fun t => startswith BS t = true \/ t = LF)
      in Es as (H1 & H2 & H3 & Hk);
      [|intros; eapply meta_token_cont; eauto].
    fold (len d) in H3. set (token := slice start e (data d)) in *.
    assert (Hne : token <> "" -> start < e).
    { intros N. apply slice_nonempty with (s := data d); auto. }
    intros H. token_cases H; try discriminate.
    all: try (injection H as <- <- <-; apply notoken_facts; auto;
              rewrite weight_at_pc;
              apply weight_progress with (e := e); auto; try lia;
              assert (start < e); [|lia]; apply Hne; token_nonempty).
    all: apply yield_token_facts in H; auto;
      destruct Hk as [[?|?]|?]; auto; congruence.
  - intros H; injection H as <- <- <-. apply notoken_facts; auto.
    apply weight_last; auto.
Qed.

Lemma step_facts_weaken b1 b g g1 d d1 y g' d' :
  step_facts b1 g1 d1 y g' d' ->
  g_func g1 = g_func g -> g_tokenlist g1 = g_tokenlist g ->
  budget d1 <= budget d -> lines_left d1 <= lines_left d ->
  (anchored d -> anchored d1) -> b1 <= b ->
  step_facts b g d y g' d'.
Proof.
  unfold step_facts, yield_spec.
  intros (F1 & F2 & F3 & F4 & F5 & F6 & F7) G1 G2 H1 H2 H3 H4.
  rewrite <- G1, <- G2.
  repeat split; auto; try lia.
  intros N. specialize (F7 N). lia.
Qed.

Lemma iterdefinechars_loop_facts g d offset y g' d' :
  iterdefinechars_loop g d offset = Yield y g' d' ->
  step_facts (2 * (budget d - offset) + 2) g d y g' d'.
Proof.
  unfold iterdefinechars_loop, unterminated_define.
  pose proof (len_le_budget d) as Hb.
  destruct (offset <? len d) eqn:Elt; [|destruct (getloc_at _ _); discriminate].
  apply Nat.ltb_lt in Elt.
  destruct (re_search _ _ _) as [[start e]|] eqn:Es.
  - apply token_kind with (P := fun t => startswith BS t = true \/ t = LF)
      in Es as (H1 & H2 & H3 & Hk);
      [|intros; eapply meta_token_cont; eauto].
    fold (len d) in H3. set (token := slice start e (data d)) in *.
    assert (Hne : token <> "" -> start < e).
    { intros N. apply slice_nonempty with (s := data d); auto. }
    pose proof (budget_readline d) as Rb. pose proof (len_readline d) as Rl.
    pose proof (lines_readline d) as Rn. pose proof (anchored_readline d) as Ra.
    pose proof (len_le_budget (snd (readline d))) as Rlb.
    intros H. token_cases H; try discriminate.
    all: try (injection H as <- <- <-; apply notoken_facts; auto;
              rewrite weight_at_pc;
              apply weight_progress with (e := e); auto; try lia;
              assert (start < e); [|lia]; apply Hne; token_nonempty).
    all: apply yield_token_facts in H; auto;
      destruct Hk as [[?|?]|?]; auto; congruence.
  - intros H; injection H as <- <- <-. apply notoken_facts; auto.
    apply weight_last; auto.
Qed.

Lemma iterdata_loop_facts g d offset y g' d' :
  g_func g = Iterdata ->
  iterdata_loop g d offset = Yield y g' d' ->
  step_facts (2 * (budget d - offset) + 2) g d y g' d'.
Proof.
  intros Hf. unfold iterdata_loop. pose proof (len_le_budget d) as Hb.
  destruct (offset <? len d) eqn:Elt; [|discriminate].
  apply Nat.ltb_lt in Elt.
  destruct (re_search _ _ _) as [[start e]|] eqn:Es.
  - apply re_search_spec in Es as (H1 & H2 & H3 & a & Hin & Hm).
    fold (len d) in H3.
    intros H; injection H as <- <- <-.
    unfold step_facts, yield_spec. cbn [token_of fst snd].
    rewrite weight_at_pc. cbn [weight_at g_func g_tokenlist g_pc at_pc].
    repeat split; auto.
    + unfold simplere in Hin. destruct (tlist (g_tokenlist g)) as [|t0 ts] eqn:Et.
      * right; auto.
      * left. unfold escapedlist in Hin. rewrite Et in Hin.
        apply in_map_iff in Hin as (t & <- & Hin).
        apply lit_token in Hm as [Hm _]. unfold slice. now rewrite Hm.
    + intros N. assert (start < e); [|lia].
      apply slice_nonempty with (s := data d); auto. congruence.
  - intros H; injection H as <- <- <-. apply notoken_facts; auto.
    apply weight_last; auto.
Qed.

Lemma after_continuation_facts g d offset y g' d' :
  forall e, e <= offset ->
  step_facts (2 * (budget (snd (readline d)) - offset) + 2) g (snd (readline d)) y g' d' ->
  step_facts (2 * (budget d - e) + 2) g d y g' d'.
Proof.
  intros e He H. pose proof (budget_readline d).
  eapply step_facts_weaken; eauto.
  - apply lines_readline.
  - apply anchored_readline.
  - lia.
Qed.

(** Every yield of every iterator, from every state. *)
Lemma gen_step_facts drain g d y g' d' :
  gen_step drain g d = Yield y g' d' ->
  step_facts (weight g d) g d y g' d'.
Proof.
  unfold gen_step, weight. destruct (g_func g) eqn:Ef.
  - (* iterdata *)
    unfold iterdata_next. destruct (g_pc g) as [[o|]|o|e|e| |] eqn:Epc;
      try discriminate; cbn [weight_at].
    + destruct (emptylist _).
      * intros H; injection H as <- <- <-. apply notoken_facts; auto.
        rewrite weight_at_pc. cbn [weight_at]. lia.
      * now apply iterdata_loop_facts.
    + destruct (emptylist _); [|discriminate].
      intros H; injection H as <- <- <-. apply notoken_facts; auto.
    + now apply iterdata_loop_facts.
  - (* itermakefilechars *)
    unfold itermakefilechars_next. destruct (g_pc g) as [[o|]|o|e|e| |] eqn:Epc;
      try discriminate; cbn [weight_at].
    + apply itermakefilechars_loop_facts.
    + apply itermakefilechars_loop_facts.
    + intros H. apply itermakefilechars_loop_facts in H.
      eapply after_continuation_facts; [|exact H]. apply skipwhitespace_ge.
    + destruct (drain _ _); discriminate.
  - (* itercommandchars *)
    unfold itercommandchars_next. destruct (g_pc g) as [[o|]|o|e|e| |] eqn:Epc;
      try discriminate; cbn [weight_at].
    + apply itercommandchars_loop_facts.
    + apply itercommandchars_loop_facts.
    + intros H. apply itercommandchars_loop_facts in H.
      eapply after_continuation_facts; [|exact H].
      destruct (_ && _); lia.
  - (* iterdefinechars *)
    unfold iterdefinechars_next, unterminated_define.
    destruct (g_pc g) as [[o|]|o|e|e| |] eqn:Epc;
      try discriminate; cbn [weight_at].
    + destruct (_ =? _)%Z; [discriminate|].
      intros H. apply iterdefinechars_loop_facts in H.
      eapply step_facts_weaken; eauto.
    + apply iterdefinechars_loop_facts.
    + intros H. apply iterdefinechars_loop_facts in H.
      eapply after_continuation_facts; [|exact H]. apply skipwhitespace_ge.
    + destruct (getloc_at _ _); discriminate.
Qed.

End YieldFacts.

(** ** Termination of the iterators *)

Section Termination.

Lemma quiet_new f offset : quiet (new_generator f offset emptytokenlist).
Proof. split; [reflexivity|]. intros _ o. discriminate. Qed.

(** Over the empty TokenList no tuple carries a token. *)
Lemma quiet_yield drain g d y g' d' :
  quiet g -> gen_step drain g d = Yield y g' d' ->
  y = notoken (flatstr y) /\ quiet g' /\ weight g' d' < weight g d.
Proof.
  intros [Qt Qd] H. pose proof (gen_step_facts _ _ _ _ _ _ H) as F.
  destruct F as (F1 & F2 & _ & _ & _ & F6 & F7).
  assert (Hy : y = notoken (flatstr y)).
  { unfold yield_spec in F6. destruct y as [[[c [t|]] [o|]] [a|]]; try contradiction.
    - destruct F6 as (Hpc & _ & _ & _ & [Hin|[Hf _]]).
      + rewrite Qt in Hin. contradiction.
      + exfalso. unfold gen_step in H. rewrite Hf in H.
        unfold iterdata_next in H.
        destruct (g_pc g) as [[o'|]|o'|e|e| |] eqn:Epc; try discriminate.
        * rewrite Qt in H. cbn in H. discriminate H.
        * rewrite Qt in H. cbn in H. discriminate H.
        * now apply (Qd Hf o').
    - reflexivity. }
  split; [exact Hy|]. split.
  - split; [congruence|]. intros Hf o Hpc. rewrite F1 in Hf.
    unfold gen_step in H. rewrite Hf in H. unfold iterdata_next in H.
    destruct (g_pc g) as [[o'|]|o'|e|e| |] eqn:Epc; try discriminate.
    + rewrite Qt in H. cbn in H. injection H as _ <- _. discriminate.
    + rewrite Qt in H. cbn in H. injection H as _ <- _. discriminate.
    + now apply (Qd Hf o').
  - apply F7. rewrite Hy. discriminate.
Qed.

(** A generator only runs out of fuel in its draining loop. *)
Lemma gen_step_starved drain g d :
  gen_step drain g d = GenOutOfFuel ->
  exists e, g_pc g = AfterComment e /\
    drain (new_generator Itermakefilechars (Some e) emptytokenlist) d = OutOfFuel.
Proof.
  unfold gen_step. destruct (g_func g).
  - unfold iterdata_next, iterdata_loop.
    destruct (g_pc g) as [[o|]|o|e|e| |]; try discriminate.
    all: repeat match goal with
           | |- context [if ?c then _ else _] => destruct c
           | |- context [match re_search ?a ?b ?c with _ => _ end] =>
               destruct (re_search a b c) as [[? ?]|]
           end; discriminate.
  - unfold itermakefilechars_next, itermakefilechars_loop, yield_token.
    destruct (g_pc g) as [[o|]|o|e|e| |]; try discriminate.
    4:{ destruct (drain _ _) eqn:E; try discriminate. eauto. }
    all: repeat match goal with
           | |- context [if ?c then _ else _] => destruct c
           | |- context [match re_search ?a ?b ?c with _ => _ end] =>
               destruct (re_search a b c) as [[? ?]|]
           end; discriminate.
  - unfold itercommandchars_next, itercommandchars_loop, yield_token.
    destruct (g_pc g) as [[o|]|o|e|e| |]; try discriminate.
    all: repeat match goal with
           | |- context [if ?c then _ else _] => destruct c
           | |- context [match re_search ?a ?b ?c with _ => _ end] =>
               destruct (re_search a b c) as [[? ?]|]
           end; discriminate.
  - unfold iterdefinechars_next, iterdefinechars_loop, yield_token,
      unterminated_define.
    destruct (g_pc g) as [[o|]|o|e|e| |]; try discriminate.
    all: cbv zeta.
    all: repeat match goal with
           | |- context [if ?c then _ else _] => destruct c
           | |- context [match re_search ?a ?b ?c with _ => _ end] =>
               destruct (re_search a b c) as [[? ?]|]
           end; try discriminate.
    all: match goal with
         | |- context [getloc_at ?a ?b] =>
             pose proof (getloc_not_OutOfFuel a (option_map Z.of_nat b));
             fold (getloc_at a b) in *; destruct (getloc_at a b)
         end; congruence.
Qed.

Lemma exhaust_terminates fuel :
  forall g d, quiet g -> weight g d < fuel -> exhaust fuel g d <> OutOfFuel.
Proof.
  induction fuel as [|fuel IH]; intros g d Q W; [lia|].
  cbn [exhaust]. destruct (gen_step (exhaust fuel) g d) as [y g' d'|d'|e|] eqn:E;
    try discriminate.
  - destruct (quiet_yield _ _ _ _ _ _ Q E) as (_ & Q' & W').
    apply IH; auto. lia.
  - apply gen_step_starved in E as (e & Hpc & E). exfalso.
    revert E. apply IH; [apply quiet_new|].
    unfold weight in *. rewrite Hpc in W. cbn [weight_at] in *.
    cbn. lia.
Qed.

Lemma next_not_starved fuel g d :
  weight g d <= fuel -> next fuel g d <> GenOutOfFuel.
Proof.
  intros W E. apply gen_step_starved in E as (e & Hpc & E).
  revert E. apply exhaust_terminates; [apply quiet_new|].
  unfold weight in *. rewrite Hpc in W. cbn [weight_at] in *. cbn. lia.
Qed.

Lemma collect_terminates fuel :
  forall g d, quiet g -> weight g d < fuel -> collect fuel g d <> OutOfFuel.
Proof.
  induction fuel as [|fuel IH]; intros g d Q W; [lia|].
  cbn [collect]. destruct (next fuel g d) as [y g' d'|d'|e|] eqn:E;
    try discriminate.
  - destruct (quiet_yield _ _ _ _ _ _ Q E) as (_ & Q' & W').
    specialize (IH g' d' Q' ltac:(lia)).
    destruct (collect fuel g' d') as [[ys d'']| |]; simpl; congruence.
  - exfalso. revert E. apply next_not_starved. lia.
Qed.

Lemma ensureend_loop_terminates fuel :
  forall g d msg, quiet g -> weight g d < fuel ->
    ensureend_loop fuel g d msg <> OutOfFuel.
Proof.
  induction fuel as [|fuel IH]; intros g d msg Q W; [lia|].
  cbn [ensureend_loop]. destruct (next fuel g d) as [y g' d'|d'|e|] eqn:E;
    try discriminate.
  - destruct (quiet_yield _ _ _ _ _ _ Q E) as (_ & Q' & W').
    destruct y as [[[c t] o] oo].
    destruct (_ && _).
    + destruct (getloc_at d' o) eqn:G; simpl; try discriminate.
      exfalso. exact (getloc_not_OutOfFuel _ _ G).
    + apply IH; auto. lia.
  - exfalso. revert E. apply next_not_starved. lia.
Qed.

Lemma weight_new f offset tl d : weight (new_generator f offset tl) d < fuel_of d.
Proof.
  unfold weight, fuel_of. destruct offset; cbn [new_generator g_pc weight_at]; lia.
Qed.

Lemma iterflatten_terminates iter d offset : iterflatten iter d offset <> OutOfFuel.
Proof.
  unfold iterflatten.
  pose proof (collect_terminates (fuel_of d) _ d (quiet_new iter offset)
                (weight_new _ _ _ _)) as H.
  destruct (collect _ _ _) as [[ys d']| |]; simpl; congruence.
Qed.

Lemma ensureend_terminates d offset msg : ensureend d offset msg <> OutOfFuel.
Proof.
  apply ensureend_loop_terminates; [apply quiet_new | apply weight_new].
Qed.

End Termination.

(** ** The loop of parsemakesyntax *)

Section ParserFacts.

Variable functionmap : list (string * nat).

Lemma frame_ok_set_expansion tl0 f e :
  frame_ok tl0 f -> frame_ok tl0 (set_expansion f e).
Proof. unfold frame_ok. destruct f; simpl. auto. Qed.

Lemma stack_append_ok tl0 stack x :
  Forall (frame_ok tl0) stack -> Forall (frame_ok tl0) (stack_append stack x).
Proof.
  induction stack as [|f below IH]; simpl; auto.
  intros H. inversion H; subst. destruct (expansion f).
  - constructor; auto using frame_ok_set_expansion.
  - constructor; auto.
Qed.

Lemma stack_append_top stack x f below :
  stack_append stack x = f :: below ->
  exists f0 below0, stack = f0 :: below0 /\
    parsestate f = parsestate f0 /\ tokenlist f = tokenlist f0 /\
    openbrace f = openbrace f0 /\ closebrace f = closebrace f0 /\
    List.length below = List.length below0.
Proof.
  destruct stack as [|f0 below0]; simpl; [discriminate|].
  destruct (expansion f0) eqn:E; intros H; injection H as <- <-.
  - exists f0, below0. destruct f0; simpl; auto 10.
  - exists f0, below0. repeat split; auto.
    clear. induction below0 as [|g r IH]; simpl; auto.
    destruct (expansion g); simpl; auto.
Qed.

Lemma stack_append_length stack x :
  List.length (stack_append stack x) = List.length stack.
Proof.
  induction stack as [|f below IH]; simpl; auto.
  destruct (expansion f); simpl; auto.
Qed.

Lemma findtoken_ge d o tl sk : o <= len d -> o <= snd (findtoken d o tl sk).
Proof.
  intros Ho. unfold findtoken. rewrite Nat.min_l by exact Ho. destruct sk.
  - destruct (wslist_match _ _ _) as [[t e]|] eqn:E; simpl; auto.
    revert E. generalize (wslist tl). intros l.
    induction l as [|t0 rest IH]; simpl; [discriminate|].
    destruct (_ && _); auto. intros H; injection H as <- <-. lia.
  - destruct (match_alts _ _); simpl; lia.
Qed.

(** A byte read at [o] is inside the line. *)
Lemma byte_inside o (s : string) :
  String.eqb (slice o (o + 1) s) "" = false -> o + 1 <= String.length s.
Proof.
  intros H. destruct (Nat.le_gt_cases (String.length s) o) as [L|L]; [|lia].
  unfold slice in H. rewrite sdrop_all in H by exact L.
  replace (o + 1 - o) with 1 in H by lia. discriminate.
Qed.

Lemma weight_new_at f o tl d :
  weight (new_generator f (Some o) tl) d = 2 * (budget d - o) + 2.
Proof. reflexivity. Qed.

Lemma loop_inv_push tl0 stack f di :
  Forall (frame_ok tl0) stack -> frame_ok tl0 f ->
  g_tokenlist di = tokenlist f -> loop_inv tl0 (f :: stack) di.
Proof. intros. split; auto. Qed.

Lemma loop_inv_resume tl0 stack tl f o :
  Forall (frame_ok tl0) stack -> top_tokenlist stack = Ok tl ->
  loop_inv tl0 stack (new_generator f o tl).
Proof.
  intros H E. split; auto. destruct stack; simpl in *; [auto|congruence].
Qed.

Lemma matchingbrace_nonempty c : _matchingbrace c <> "".
Proof. unfold _matchingbrace. destruct (String.eqb c "("); discriminate. Qed.

(** The branch of the dollar either leaves the loop or restarts the
    iterator further on, on the tokens of the new top frame. *)
Lemma parse_dollar_continue tl0 iterfunc stack d tokenoffset offset log
      stack' di' d' offset' log' :
  Forall (frame_ok tl0) stack ->
  parse_dollar functionmap iterfunc stack d tokenoffset offset log
    = Continue stack' di' d' offset' log' ->
  d' = d /\ loop_inv tl0 stack' di' /\
  exists o', offset < o' /\ offset' = Some o' /\ g_pc di' = AtStart (Some o').
Proof.
  intros Hok. unfold parse_dollar.
  destruct (len d =? offset); [discriminate|].
  destruct (getloc_at d (Some tokenoffset)) as [loc| |]; cbn [lift_turn];
    try discriminate.
  destruct (String.eqb _ "") eqn:Ebyte; [discriminate|].
  apply byte_inside in Ebyte.
  destruct (String.eqb _ "$").
  { destruct (top_tokenlist _) as [tl| |] eqn:Et; cbn [lift_turn]; try discriminate.
    intros H; injection H as <- <- <- <- <-. split; auto. split.
    - apply loop_inv_resume; auto. now apply stack_append_ok.
    - exists (offset + 1). repeat split; auto. lia. }
  destruct (is_open _).
  { pose proof (findtoken_ge d (offset + 1) (_functiontokenlist functionmap) true
                  Ebyte) as G.
    destruct (findtoken d (offset + 1) _ true) as [fname o'].
    cbn [snd] in G.
    assert (Hcb : forall c, frame_ok tl0
              (mkFrame PARSESTATE_VARNAME (Some (Expansion_new None))
                 (TokenList_get [":"; c; _matchingbrace c; "$"]) (Some c)
                 (Some (_matchingbrace c)) None None (Some loc) None None)).
    { intros c. split; cbn; [discriminate|].
      intros E; injection E as E. now apply matchingbrace_nonempty in E. }
    destruct fname as [fname|].
    - destruct (functionmap_get _ _) as [maxargs|]; [|discriminate].
      intros H; injection H as <- <- <- <- <-. split; auto. split.
      + apply loop_inv_push; auto.
        split; cbn; [discriminate|].
        intros E; injection E as E. now apply matchingbrace_nonempty in E.
      + exists o'. repeat split; auto. lia.
    - intros H; injection H as <- <- <- <- <-. split; auto. split.
      + apply loop_inv_push; auto.
      + exists o'. repeat split; auto. lia. }
  destruct (top_tokenlist _) as [tl| |] eqn:Et; cbn [lift_turn]; try discriminate.
  intros H; injection H as <- <- <- <- <-. split; auto. split.
  - apply loop_inv_resume; auto. now apply stack_append_ok.
  - exists (offset + 1). repeat split; auto. lia.
Qed.

Ltac crunch1 :=
  match goal with
  | |- lift_turn ?r _ = _ -> _ => destruct r eqn:?; cbn [lift_turn]
  | |- (if ?c then _ else _) = _ -> _ => destruct c eqn:?
  end.
Ltac crunch := repeat crunch1; try discriminate.

Lemma is_open_nonempty t : is_open t = true -> t <> "".
Proof. intros H E; subst; discriminate. Qed.
Lemma is_close_nonempty t : is_close t = true -> t <> "".
Proof. intros H E; subst; discriminate. Qed.
Lemma eqb_nonempty t x : String.eqb t x = true -> x <> "" -> t <> "".
Proof. intros H N. apply String.eqb_eq in H. congruence. Qed.
Lemma frame_ok_mk tl0 ps e tl ob cb so fn fl vn sf :
  ps <> PARSESTATE_TOPLEVEL -> cb <> Some "" ->
  frame_ok tl0 (mkFrame ps e tl ob cb so fn fl vn sf).
Proof. intros H1 H2. split; cbn; auto. intros E; contradiction. Qed.
Lemma notnone_some {A} (x : option A) a : notnone x = Ok a -> x = Some a.
Proof. destruct x; simpl; congruence. Qed.
Lemma attr_some {A} n (x : option A) a : attr n x = Ok a -> x = Some a.
Proof. destruct x; simpl; congruence. Qed.
Lemma assert_true b u : assert b = Ok u -> b = true.
Proof. destruct b; simpl; congruence. Qed.
Lemma closes_nonempty cb token u :
  cb <> Some "" ->
  assert (match cb with Some b => String.eqb token b | None => false end) = Ok u ->
  token <> "".
Proof.
  intros N H. apply assert_true in H. destruct cb as [b|]; [|discriminate].
  apply String.eqb_eq in H. congruence.
Qed.

Lemma parse_token_continue tl0 iterfunc stacktop below d token tokenoffset offset log
      stack' di' d' offset' log' :
  Forall (frame_ok tl0) (stacktop :: below) ->
  parse_token iterfunc stacktop below d token tokenoffset offset log
    = Continue stack' di' d' offset' log' ->
  d' = d /\ loop_inv tl0 stack' di' /\ offset' = Some offset /\
  g_pc di' = AtStart (Some offset) /\ token <> "".
Proof.
  intros Hok. inversion Hok as [|? ? Hf Hb]; subst.
  pose proof (stack_append_ok _ _ (Literal token) Hok) as Hok'.
  destruct Hf as [_ Hcb].
  unfold parse_token. cbv zeta.
  destruct (is_open token) eqn:Eo.
  { crunch. intros H; injection H as <- <- <- <- <-.
    apply notnone_some in Heqr0.
    split; [reflexivity|]. split; [|repeat split; auto using is_open_nonempty].
    apply loop_inv_resume; auto. constructor; auto.
    apply frame_ok_mk; [discriminate|congruence]. }
  destruct (parsestate stacktop) eqn:Eps; cbv iota; crunch.
  all: intros H; injection H as <- <- <- <- <-.
  all: split; [reflexivity|].
  all: split; [apply loop_inv_resume; auto|repeat split; auto using is_close_nonempty].
  all: try (constructor; auto; apply frame_ok_mk; [discriminate|congruence]).
  all: try (apply stack_append_ok; auto).
  all: try (eapply eqb_nonempty; [eassumption|discriminate]).
  all: try (eapply closes_nonempty; eassumption).
  all: try (eapply is_close_nonempty, assert_true; eassumption).
  cbn [stack_append] in Hok'. destruct (expansion stacktop);
    inversion Hok'; subst; cbn [tl]; auto.
Qed.

Lemma parse_token_return iterfunc stacktop below d token tokenoffset offset log r :
  parse_token iterfunc stacktop below d token tokenoffset offset log = Return r ->
  parsestate stacktop = PARSESTATE_TOPLEVEL /\ below = [] /\
  expansion stacktop = Some (p_expansion r) /\
  p_token r = Some token /\ p_offset r = Some offset /\
  p_data r = d /\ p_log r = log.
Proof.
  unfold parse_token. cbv zeta.
  destruct (is_open token) eqn:Eo; [crunch|].
  destruct (parsestate stacktop) eqn:Eps; cbv iota; crunch.
  intros H; injection H as <-. cbn.
  repeat match goal with
         | H : assert _ = Ok _ |- _ => apply assert_true in H
         | H : attr _ _ = Ok _ |- _ => apply attr_some in H
         end.
  destruct below; [|discriminate]. auto 10.
Qed.

Ltac never_starved :=
  unfold assert, attr, notnone, popped, top_tokenlist;
  repeat match goal with
         | |- context [match ?y with _ => _ end] => destruct y
         end; discriminate.

Ltac crunch2 :=
  match goal with
  | |- lift_turn ?r _ <> _ => destruct r eqn:?; cbn [lift_turn]
  | |- (if ?c then _ else _) <> _ => destruct c eqn:?
  | H : ?x = OutOfFuel |- _ =>
      exfalso; revert H; clear; (apply getloc_not_OutOfFuel || never_starved)
  end.

Lemma parse_token_other iterfunc stacktop below d token tokenoffset offset log :
  parse_token iterfunc stacktop below d token tokenoffset offset log <> Starved /\
  forall s d' o l, 
  parse_token iterfunc stacktop below d token tokenoffset offset log <> Break s d' o l.
Proof.
  unfold parse_token. cbv zeta.
  split.
  - destruct (is_open token) eqn:Eo; [repeat crunch2; try discriminate|].
    destruct (parsestate stacktop) eqn:Eps; cbv iota; repeat crunch2; try discriminate.
  - intros. destruct (is_open token) eqn:Eo; [repeat crunch2; try discriminate|].
    destruct (parsestate stacktop) eqn:Eps; cbv iota; repeat crunch2; try discriminate.
Qed.

Lemma parse_dollar_other iterfunc stack d tokenoffset offset log :
  parse_dollar functionmap iterfunc stack d tokenoffset offset log <> Starved /\
  (forall r, parse_dollar functionmap iterfunc stack d tokenoffset offset log
             <> Return r) /\
  (forall s d' o l,
      parse_dollar functionmap iterfunc stack d tokenoffset offset log = Break s d' o l ->
      s = stack /\ d' = d /\ o = Some offset /\ l = log).
Proof.
  unfold parse_dollar.
  destruct (len d =? offset).
  { repeat split; try discriminate. all: injection H; auto. }
  destruct (getloc_at d (Some tokenoffset)) as [loc| |] eqn:G; cbn [lift_turn].
  3:{ exfalso. exact (getloc_at_not_OutOfFuel _ _ G). }
  2:{ repeat split; discriminate. }
  destruct (findtoken d (offset + 1) (_functiontokenlist functionmap) true)
    as [fname o'].
  repeat match goal with
         | |- context [if ?c then _ else _] => destruct c
         | |- context [lift_turn (top_tokenlist ?x) _] =>
             destruct (top_tokenlist x) eqn:?; cbn [lift_turn]
         | |- context [match ?x with Some _ => _ | None => _ end] => destruct x
         | H : top_tokenlist ?x = OutOfFuel |- _ =>
             exfalso; revert H; clear; never_starved
         end.
  all: repeat split; discriminate.
Qed.

(** A turn that goes on keeps the invariant and brings the iterator
    closer to its end. *)
Lemma parse_turn_continue tl0 fuel iterfunc stack di d offset log
      stack' di' d' offset' log' :
  loop_inv tl0 stack di ->
  parse_turn functionmap fuel iterfunc stack di d offset log
    = Continue stack' di' d' offset' log' ->
  loop_inv tl0 stack' di' /\ weight di' d' < weight di d /\
  budget d' <= budget d /\ lines_left d' <= lines_left d /\
  (anchored d -> anchored d').
Proof.
  intros [Hok Htl]. unfold parse_turn.
  destruct stack as [|f0 below0]; [discriminate|].
  destruct (next fuel di d) as [y g1 d1|d1|e|] eqn:En; try discriminate.
  apply gen_step_facts in En as (F1 & F2 & F3 & F4 & F5 & F6 & F7).
  destruct y as [[[c t] to] ao].
  pose proof (stack_append_ok tl0 (f0 :: below0) (Literal c) Hok) as Hok1.
  destruct (stack_append (f0 :: below0) (Literal c)) as [|f1 below1] eqn:Ea;
    [discriminate|].
  apply stack_append_top in Ea as (f0' & below0' & E0 & E1 & E2 & _).
  injection E0 as <- <-.
  destruct t as [t|].
  - destruct to as [to|]; cbn [notnone lift_turn]; [|discriminate].
    destruct ao as [ao|]; cbn [notnone lift_turn]; [|discriminate].
    cbn [yield_spec] in F6. destruct F6 as (Hpc & Hle & Hlen & Hsl & Hin).
    cbn [token_of fst snd] in F7.
    assert (Hw : forall o', ao <= o' -> t <> "" ->
               forall tl, weight (new_generator iterfunc (Some o') tl) d1 < weight di d).
    { intros o' Ho' Hne tl. rewrite weight_new_at.
      assert (W : weight g1 d1 < weight di d) by (apply F7; congruence).
      unfold weight in W at 1. rewrite Hpc in W. cbn [weight_at] in W. lia. }
    destruct (String.eqb t "$") eqn:Ed.
    + apply String.eqb_eq in Ed. intros H.
      apply parse_dollar_continue with (tl0 := tl0) in H; auto.
      destruct H as (-> & Hinv & o' & Ho' & -> & Hpc').
      repeat split; auto; try apply Hinv.
      destruct di' as [f tl p c0 s0]. cbn in Hpc'. subst p.
      unfold weight. cbn [g_pc weight_at].
      assert (Hd : t <> "") by (rewrite Ed; discriminate).
      assert (Hao : ao <= o') by lia.
      specialize (Hw o' Hao Hd tl).
      rewrite weight_new_at in Hw. exact Hw.
    + intros H.
      apply parse_token_continue with (tl0 := tl0) in H; auto.
      destruct H as (-> & Hinv & -> & Hpc' & Hne).
      repeat split; auto; try apply Hinv.
      destruct di' as [f tl p c0 s0]. cbn in Hpc'. subst p.
      unfold weight. cbn [g_pc weight_at].
      specialize (Hw ao (Nat.le_refl ao) Hne tl).
      rewrite weight_new_at in Hw. exact Hw.
  - intros H; injection H as <- <- <- <- <-.
    repeat split; auto.
    + cbn. congruence.
    + apply F7. discriminate.
Qed.

(** A turn that returns does so on a token of the stop set, found in the
    buffer. *)
Lemma parse_turn_return stopon fuel iterfunc stack di d offset log r :
  loop_inv (TokenList_get (stopon ++ ["$"])) stack di ->
  parse_turn functionmap fuel iterfunc stack di d offset log = Return r ->
  exists t o, p_token r = Some t /\ p_offset r = Some o /\ In t stopon /\
              String.length t <= o /\ o <= len (p_data r) /\
              slice (o - String.length t) o (data (p_data r)) = t.
Proof.
  intros [Hok Htl]. unfold parse_turn.
  destruct stack as [|f0 below0]; [discriminate|].
  destruct (next fuel di d) as [y g1 d1|d1|e|] eqn:En; try discriminate.
  apply gen_step_facts in En as (F1 & F2 & F3 & F4 & F5 & F6 & F7).
  destruct y as [[[c t] to] ao].
  destruct (stack_append (f0 :: below0) (Literal c)) as [|f1 below1] eqn:Ea;
    [discriminate|].
  apply stack_append_top in Ea as (f0' & below0' & E0 & E1 & E2 & _).
  injection E0 as <- <-.
  destruct t as [t|]; [|discriminate].
  destruct to as [to|]; cbn [notnone lift_turn]; [|discriminate].
  destruct ao as [ao|]; cbn [notnone lift_turn]; [|discriminate].
  cbn [yield_spec] in F6. destruct F6 as (Hpc & Hle & Hlen & Hsl & Hin).
  destruct (String.eqb t "$") eqn:Ed.
  - intros H. exfalso. revert H. apply parse_dollar_other.
  - intros H. apply parse_token_return in H as (Hps & _ & _ & Ht & Ho & Hd & _).
    exists t, ao. rewrite Hd. repeat split; auto.
    + inversion Hok as [|? ? [Hf _] _]; subst.
      rewrite E1 in Hps. specialize (Hf Hps). rewrite Htl, Hf in Hin.
      cbn [tlist TokenList_get] in Hin.
      destruct Hin as [Hin|[_ Hin]].
      * apply in_app_or in Hin as [Hin|[Heq|[]]]; auto.
        rewrite <- Heq in Ed. discriminate Ed.
      * destruct stopon; discriminate.
    + rewrite <- Hsl. rewrite slice_length; [lia|exact Hlen].
    + assert (L : String.length t = ao - to).
      { rewrite <- Hsl. apply slice_length. exact Hlen. }
      rewrite L. replace (ao - (ao - to)) with to by lia. exact Hsl.
Qed.

Lemma parse_end_stops stopon stack d offset log r :
  parse_end stack d offset log = Ok r -> stops_at stopon r.
Proof.
  unfold parse_end. destruct (negb _).
  - destruct (getloc_at d offset); discriminate.
  - destruct stack as [|f below]; [discriminate|].
    destruct (assert _); cbn [bind]; try discriminate.
    destruct (attr _ _); cbn [bind]; try discriminate.
    intros H; injection H as <-. left. auto.
Qed.

Lemma parse_end_not_OutOfFuel stack d offset log :
  parse_end stack d offset log <> OutOfFuel.
Proof.
  unfold parse_end. destruct (negb _).
  - pose proof (getloc_at_not_OutOfFuel d offset).
    destruct (getloc_at d offset); cbn [bind]; congruence.
  - destruct stack as [|f below]; [discriminate|].
    destruct (assert _) eqn:E; cbn [bind]; try discriminate.
    + destruct (attr _ _) eqn:E'; cbn [bind]; try discriminate.
      revert E'. clear. never_starved.
    + revert E. clear. never_starved.
Qed.

Lemma parse_turn_not_starved fuel iterfunc stack di d offset log :
  weight di d <= fuel ->
  parse_turn functionmap fuel iterfunc stack di d offset log <> Starved.
Proof.
  intros W. unfold parse_turn.
  destruct stack as [|f0 below0]; [discriminate|].
  destruct (next fuel di d) as [y g1 d1|d1|e|] eqn:En; try discriminate.
  - destruct y as [[[c t] to] ao].
    destruct (stack_append _ _) as [|f1 below1]; [discriminate|].
    destruct t as [t|]; [|discriminate].
    destruct to as [to|]; cbn [notnone lift_turn]; [|discriminate].
    destruct ao as [ao|]; cbn [notnone lift_turn]; [|discriminate].
    destruct (String.eqb t "$").
    + apply parse_dollar_other.
    + apply parse_token_other.
  - exfalso. revert En. now apply next_not_starved.
Qed.

(** The loop, from any state that satisfies the invariant. *)
Lemma parse_loop_stops stopon fuel :
  forall iterfunc stack di d offset log,
    loop_inv (TokenList_get (stopon ++ ["$"])) stack di ->
    weight di d < fuel ->
    match parse_loop functionmap fuel iterfunc stack di d offset log with
    | Ok r => stops_at stopon r
    | Raise _ => True
    | OutOfFuel => False
    end.
Proof.
  induction fuel as [|fuel IH]; intros iterfunc stack di d offset log Hinv W; [lia|].
  cbn [parse_loop].
  destruct (parse_turn functionmap fuel iterfunc stack di d offset log)
    as [stack' di' d' offset' log'|stack' d' offset' log'|r|e|] eqn:Et.
  - apply parse_turn_continue with (tl0 := TokenList_get (stopon ++ ["$"])) in Et
      as (Hinv' & W' & _); auto.
    apply IH; auto. lia.
  - pose proof (parse_end_not_OutOfFuel stack' d' offset' log') as N.
    destruct (parse_end stack' d' offset' log') eqn:Ee; auto.
    eapply parse_end_stops; eauto.
  - right. eapply parse_turn_return; eauto.
  - exact I.
  - revert Et. apply parse_turn_not_starved. lia.
Qed.

Lemma parse_start_inv d startat stopon iterfunc stack di :
  parse_start d startat stopon iterfunc = Ok (stack, di) ->
  loop_inv (TokenList_get (stopon ++ ["$"])) stack di /\
  di = new_generator iterfunc (Some startat) (TokenList_get (stopon ++ ["$"])) /\
  List.length stack = 1.
Proof.
  unfold parse_start. destruct (getloc_at d (Some startat)); cbn [bind]; try discriminate.
  intros H; injection H as <- <-. repeat split; auto.
  constructor; auto. split; cbn; auto. discriminate.
Qed.

(** *** The result of a turn does not depend on the fuel *)

Lemma gen_step_ext drain1 drain2 g d :
  (forall g0 d0, drain1 g0 d0 <> OutOfFuel -> drain2 g0 d0 = drain1 g0 d0) ->
  gen_step drain1 g d <> GenOutOfFuel ->
  gen_step drain2 g d = gen_step drain1 g d.
Proof.
  intros Hd. unfold gen_step. destruct (g_func g); auto.
  unfold itermakefilechars_next. destruct (g_pc g) as [[o|]|o|e|e| |]; auto.
  intros N.
  rewrite Hd; auto. intros E. rewrite E in N. congruence.
Qed.

Lemma exhaust_mono f :
  forall f' g d, f <= f' -> exhaust f g d <> OutOfFuel ->
    exhaust f' g d = exhaust f g d.
Proof.
  induction f as [|f IH]; intros f' g d Hle N; [now contradiction N|].
  destruct f' as [|f']; [lia|]. cbn [exhaust] in *.
  assert (Hs : gen_step (exhaust f) g d <> GenOutOfFuel).
  { intros E. rewrite E in N. congruence. }
  rewrite (gen_step_ext (exhaust f) (exhaust f')); auto.
  - destruct (gen_step (exhaust f) g d); auto. apply IH; auto. lia.
  - intros g0 d0 N0. apply IH; auto. lia.
Qed.

Lemma next_mono f f' g d :
  f <= f' -> next f g d <> GenOutOfFuel -> next f' g d = next f g d.
Proof.
  intros Hle N. unfold next in *. apply gen_step_ext; auto.
  intros g0 d0 N0. now apply exhaust_mono.
Qed.

Lemma parse_turn_mono f f' iterfunc stack di d offset log :
  f <= f' ->
  parse_turn functionmap f iterfunc stack di d offset log <> Starved ->
  parse_turn functionmap f' iterfunc stack di d offset log
  = parse_turn functionmap f iterfunc stack di d offset log.
Proof.
  intros Hle N. unfold parse_turn in *. destruct stack; auto.
  rewrite (next_mono f f'); auto.
  intros E. rewrite E in N. congruence.
Qed.

Lemma parse_turn_agree f1 f2 iterfunc stack di d offset log :
  parse_turn functionmap f1 iterfunc stack di d offset log <> Starved ->
  parse_turn functionmap f2 iterfunc stack di d offset log <> Starved ->
  parse_turn functionmap f1 iterfunc stack di d offset log
  = parse_turn functionmap f2 iterfunc stack di d offset log.
Proof.
  intros N1 N2. destruct (Nat.le_ge_cases f1 f2).
  - symmetry. now apply parse_turn_mono.
  - now apply parse_turn_mono.
Qed.

(** *** What stopping an iterator leaves behind *)

Lemma follows_refl d : follows d d.
Proof. split; auto. Qed.

Lemma follows_trans d1 d2 d3 : follows d1 d2 -> follows d2 d3 -> follows d1 d3.
Proof. intros [A B] [C D]. split; [lia|auto]. Qed.

Lemma follows_readline d : follows d (snd (readline d)).
Proof. split; [apply lines_readline|apply anchored_readline]. Qed.

Lemma gen_step_stop_follows drain g d d' :
  (forall g0 d0 d0', drain g0 d0 = Ok d0' -> follows d0 d0') ->
  gen_step drain g d = StopIteration d' -> follows d d'.
Proof.
  intros Hd. unfold gen_step.
  pose proof (follows_readline d) as R. pose proof (follows_refl d) as R0.
  destruct (g_func g).
  - unfold iterdata_next, iterdata_loop.
    destruct (g_pc g) as [[o|]|o|e|e| |]; try discriminate.
    all: repeat match goal with
           | |- context [if ?c then _ else _] => destruct c
           | |- context [match re_search ?a ?b ?c with _ => _ end] =>
               destruct (re_search a b c) as [[? ?]|]
           end; try discriminate.
    all: intros H; injection H as <-; auto.
  - unfold itermakefilechars_next, itermakefilechars_loop, yield_token.
    destruct (g_pc g) as [[o|]|o|e|e| |]; try discriminate.
    4:{ destruct (drain _ _) eqn:E; try discriminate.
        intros H; injection H as <-. eauto. }
    all: repeat match goal with
           | |- context [if ?c then _ else _] => destruct c
           | |- context [match re_search ?a ?b ?c with _ => _ end] =>
               destruct (re_search a b c) as [[? ?]|]
           end; try discriminate.
    all: intros H; injection H as <-; auto.
  - unfold itercommandchars_next, itercommandchars_loop, yield_token.
    destruct (g_pc g) as [[o|]|o|e|e| |]; try discriminate.
    all: repeat match goal with
           | |- context [if ?c then _ else _] => destruct c
           | |- context [match re_search ?a ?b ?c with _ => _ end] =>
               destruct (re_search a b c) as [[? ?]|]
           end; try discriminate.
    all: intros H; injection H as <-; auto.
  - unfold iterdefinechars_next, iterdefinechars_loop, yield_token,
      unterminated_define.
    destruct (g_pc g) as [[o|]|o|e|e| |]; try discriminate.
    all: cbv zeta.
    all: repeat match goal with
           | |- context [if ?c then _ else _] => destruct c
           | |- context [match re_search ?a ?b ?c with _ => _ end] =>
               destruct (re_search a b c) as [[? ?]|]
           | |- context [match getloc_at ?a ?b with _ => _ end] =>
               destruct (getloc_at a b)
           end; try discriminate.
    all: intros H; injection H as <-; auto.
Qed.

Lemma gen_step_yield_follows drain g d y g' d' :
  gen_step drain g d = Yield y g' d' -> follows d d'.
Proof.
  intros E. apply gen_step_facts in E as (_ & _ & _ & F4 & F5 & _). split; auto.
Qed.

Lemma exhaust_follows fuel :
  forall g d d', exhaust fuel g d = Ok d' -> follows d d'.
Proof.
  induction fuel as [|fuel IH]; intros g d d'; [discriminate|].
  cbn [exhaust]. destruct (gen_step (exhaust fuel) g d) as [y g1 d1|d1|e|] eqn:E;
    try discriminate.
  - intros H. apply follows_trans with d1; [|eauto].
    eapply gen_step_yield_follows; eauto.
  - intros H; injection H as <-. eapply gen_step_stop_follows; eauto.
Qed.

Lemma next_stop_follows fuel g d d' :
  next fuel g d = StopIteration d' -> follows d d'.
Proof. apply gen_step_stop_follows. apply exhaust_follows. Qed.

Lemma next_stop_anchored fuel g d d' :
  next fuel g d = StopIteration d' -> anchored d -> anchored d'.
Proof. intros H. now apply next_stop_follows in H as [_ A]. Qed.

Lemma collect_follows fuel :
  forall g d ys d', collect fuel g d = Ok (ys, d') -> follows d d'.
Proof.
  induction fuel as [|fuel IH]; intros g d ys d'; [discriminate|].
  cbn [collect]. destruct (next fuel g d) as [y g1 d1|d1|e|] eqn:E; try discriminate.
  - destruct (collect fuel g1 d1) as [[ys1 d2]| |] eqn:Ec; cbn [bind]; try discriminate.
    intros H; injection H as <- <-.
    apply follows_trans with d1; [eapply gen_step_yield_follows; eauto|eauto].
  - intros H; injection H as <- <-. eapply next_stop_follows; eauto.
Qed.

Lemma iterflatten_follows iter d offset s d' :
  iterflatten iter d offset = Ok (s, d') -> follows d d'.
Proof.
  unfold iterflatten. destruct (collect _ _ _) as [[ys d1]| |] eqn:E; cbn [bind];
    try discriminate.
  intros H; injection H as <- <-. eapply collect_follows; eauto.
Qed.

Lemma ensureend_loop_follows fuel :
  forall g d msg d', ensureend_loop fuel g d msg = Ok d' -> follows d d'.
Proof.
  induction fuel as [|fuel IH]; intros g d msg d'; [discriminate|].
  cbn [ensureend_loop].
  destruct (next fuel g d) as [[[[c t] o] oo] g1 d1|d1|e|] eqn:E; try discriminate.
  - destruct (negb _ && _).
    + destruct (getloc_at d1 o); discriminate.
    + intros H. apply follows_trans with d1; [eapply gen_step_yield_follows; eauto|eauto].
  - intros H; injection H as <-. eapply next_stop_follows; eauto.
Qed.

Lemma ensureend_follows d offset msg d' :
  ensureend d offset msg = Ok d' -> follows d d'.
Proof. apply ensureend_loop_follows. Qed.


Lemma parse_turn_follows fuel iterfunc stack di d offset log :
  match parse_turn functionmap fuel iterfunc stack di d offset log with
  | Continue _ _ d' _ _ | Break _ d' _ _ => follows d d'
  | Return r => follows d (p_data r)
  | _ => True
  end.
Proof.
  unfold parse_turn.
  destruct stack as [|f0 below0]; [exact I|].
  destruct (next fuel di d) as [y g1 d1|d1|e|] eqn:En; try exact I.
  2:{ eapply next_stop_follows; eauto. }
  apply gen_step_yield_follows in En.
  destruct y as [[[c t] to] ao].
  destruct (stack_append (f0 :: below0) (Literal c)) as [|f1 below1] eqn:Ea;
    [exact I|].
  destruct t as [t|]; [|exact En].
  destruct to as [to|]; cbn [notnone lift_turn]; [|exact I].
  destruct ao as [ao|]; cbn [notnone lift_turn]; [|exact I].
  destruct (String.eqb t "$") eqn:Ed.
  - destruct (parse_dollar _ _ _ _ _ _ _) eqn:Ep; try exact I.
    + unfold parse_dollar in Ep. revert Ep.
      destruct (len d1 =? ao); [discriminate|].
      destruct (getloc_at d1 (Some to)); cbn [lift_turn]; try discriminate.
      destruct (findtoken _ _ _ _) as [fname o'].
      repeat match goal with
         | |- context [if ?c then _ else _] => destruct c
         | |- context [lift_turn (top_tokenlist ?x) _] =>
             destruct (top_tokenlist x) eqn:?; cbn [lift_turn]
         | |- context [match ?x with Some _ => _ | None => _ end] => destruct x
         end; try discriminate.
      all: intros H; injection H as <- <- <- <- <-; exact En.
    + apply parse_dollar_other in Ep as (_ & -> & _). exact En.
    + exfalso. revert Ep. apply parse_dollar_other.
  - destruct (parse_token _ _ _ _ _ _ _ _) eqn:Ep; try exact I.
    + revert Ep. unfold parse_token. cbv zeta.
      destruct (is_open t) eqn:Eo.
      { crunch. intros H; injection H as <- <- <- <- <-. exact En. }
      destruct (parsestate f1) eqn:Eps; cbv iota; crunch.
      all: intros H; injection H as <- <- <- <- <-; exact En.
    + exfalso. revert Ep. apply parse_token_other.
    + apply parse_token_return in Ep as (_ & _ & _ & _ & _ & -> & _). exact En.
Qed.

Lemma parse_end_data stack d offset log r :
  parse_end stack d offset log = Ok r -> p_data r = d.
Proof.
  unfold parse_end. destruct (negb _).
  - destruct (getloc_at d offset); discriminate.
  - destruct stack as [|f below]; [discriminate|].
    destruct (assert _); cbn [bind]; try discriminate.
    destruct (attr _ _); cbn [bind]; try discriminate.
    intros H; injection H as <-. reflexivity.
Qed.

Lemma parse_loop_follows fuel :
  forall iterfunc stack di d offset log r,
    parse_loop functionmap fuel iterfunc stack di d offset log = Ok r ->
    follows d (p_data r).
Proof.
  induction fuel as [|fuel IH]; intros iterfunc stack di d offset log r; [discriminate|].
  cbn [parse_loop].
  pose proof (parse_turn_follows fuel iterfunc stack di d offset log) as F.
  destruct (parse_turn functionmap fuel iterfunc stack di d offset log)
    as [stack' di' d' offset' log'|stack' d' offset' log'|r'|e|] eqn:Et;
    try discriminate.
  - intros H. apply follows_trans with d'; eauto.
  - intros H. apply parse_end_data in H. now rewrite H.
  - intros H; injection H as <-. exact F.
Qed.

Lemma parsemakesyntax_follows d log startat stopon iterfunc r :
  parsemakesyntax functionmap d log startat stopon iterfunc = Ok r ->
  follows d (p_data r).
Proof.
  unfold parsemakesyntax.
  destruct (parse_start d startat stopon iterfunc) as [[stack di]| |]; cbn [bind];
    try discriminate.
  apply parse_loop_follows.
Qed.

Lemma next_agree f1 f2 g d :
  next f1 g d <> GenOutOfFuel -> next f2 g d <> GenOutOfFuel ->
  next f1 g d = next f2 g d.
Proof.
  intros N1 N2. destruct (Nat.le_ge_cases f1 f2).
  - symmetry. now apply next_mono.
  - now apply next_mono.
Qed.

(** The loop run with enough fuel goes through every state that is
    reached turn by turn. *)
Lemma reaches_follow tl0 iterfunc s s2 :
  reaches functionmap iterfunc s s2 ->
  loop_inv tl0 (l_stack s) (l_di s) ->
  forall fuel, weight (l_di s) (l_data s) < fuel ->
  exists fuel2,
    weight (l_di s2) (l_data s2) < fuel2 /\
    loop_inv tl0 (l_stack s2) (l_di s2) /\
    (anchored (l_data s) -> anchored (l_data s2)) /\
    parse_loop functionmap fuel iterfunc (l_stack s) (l_di s) (l_data s)
               (l_offset s) (l_log s)
    = parse_loop functionmap fuel2 iterfunc (l_stack s2) (l_di s2) (l_data s2)
                 (l_offset s2) (l_log s2).
Proof.
  induction 1 as [s|s fuel0 stack di d offset log s' Ht Hr IH]; intros Hinv fuel W.
  - exists fuel. auto.
  - destruct fuel as [|fuel]; [lia|].
    assert (Ht' : parse_turn functionmap fuel iterfunc (l_stack s) (l_di s)
                    (l_data s) (l_offset s) (l_log s)
                  = Continue stack di d offset log).
    { rewrite <- Ht. apply parse_turn_agree.
      - apply parse_turn_not_starved. lia.
      - rewrite Ht. discriminate. }
    pose proof (parse_turn_continue _ _ _ _ _ _ _ _ _ _ _ _ _ Hinv Ht')
      as (Hinv' & W' & _ & _ & A').
    destruct (IH Hinv' fuel) as (fuel2 & W2 & Hinv2 & A2 & E); [cbn; lia|].
    exists fuel2. split; [exact W2|]. split; [exact Hinv2|]. split.
    + intros A. apply A2, A', A.
    + cbn [parse_loop]. rewrite Ht'. exact E.
Qed.

(** C5: when the loop of [parsemakesyntax] has come, turn by turn, to a
    state with more than one frame on the stack (an open variable or
    function reference) and the char iterator is exhausted there, the
    call raises SyntaxError(Unterminated function call) with the
    location [getloc] gives for the current offset. *)
Theorem unterminated_function_call :
  forall d log startat stopon iterfunc stack di s fuel d',
    anchored d ->
    parse_start d startat stopon iterfunc = Ok (stack, di) ->
    reaches functionmap iterfunc (mkLstate stack di d None log) s ->
    next fuel (l_di s) (l_data s) = StopIteration d' ->
    1 < List.length (l_stack s) ->
    exists loc,
      getloc_at d' (l_offset s) = Ok loc /\
      parsemakesyntax functionmap d log startat stopon iterfunc
      = Raise (SyntaxError "Unterminated function call" loc).
Proof.
  intros d log startat stopon iterfunc stack di s fuel d' A Hs Hr Hn Hlen.
  unfold parsemakesyntax. rewrite Hs. cbn [bind].
  apply parse_start_inv in Hs as (Hinv & Hdi & _).
  destruct (reaches_follow _ _ _ _ Hr Hinv (fuel_of d)) as (fuel2 & W2 & _ & A2 & E).
  { cbn [l_di l_data]. rewrite Hdi. apply weight_new. }
  cbn [l_stack l_di l_data l_offset l_log] in E. rewrite E.
  destruct fuel2 as [|fuel2]; [lia|]. cbn [parse_loop].
  assert (Hn' : next fuel2 (l_di s) (l_data s) = StopIteration d').
  { rewrite <- Hn. apply next_agree.
    - apply next_not_starved. lia.
    - rewrite Hn. discriminate. }
  assert (A' : anchored d').
  { eapply next_stop_anchored; eauto. }
  destruct (getloc_at_ok d' (l_offset s) A') as (loc & Hloc).
  exists loc. split; auto.
  unfold parse_turn. rewrite Hn'.
  destruct (l_stack s) as [|f below] eqn:Est; [cbn in Hlen; lia|].
  unfold parse_end.
  replace (negb (List.length (f :: below) =? 1)) with true.
  - rewrite Hloc. reflexivity.
  - symmetry. apply negb_true_iff, Nat.eqb_neq. lia.
Qed.

End ParserFacts.

Lemma unterminated_function_call_witness :
  exists loc,
    getloc_at (first_line ["$(V" +++ LF]) None = Ok loc /\
    parsemakesyntax sample_functionmap (first_line ["$(V" +++ LF]) [] 0 []
      Itermakefilechars
    = Raise (SyntaxError "Unterminated function call" loc).
Proof.
  eapply (unterminated_function_call sample_functionmap
            (first_line ["$(V" +++ LF]) [] 0 [] Itermakefilechars _ _
            (mkLstate _ _ _ None _) 0).
  - eexists _, _. reflexivity.
  - reflexivity.
  - eapply (reaches_step _ _ _ 0); [vm_compute; reflexivity|].
    eapply (reaches_step _ _ _ 0); [vm_compute; reflexivity|].
    apply reaches_refl.
  - vm_compute. reflexivity.
  - cbn. lia.
Defined.

(** ** Searching text without tokens *)

Section PlainText.

Lemma match_alt_first a c r n :
  match_alt a (String c r) = Some n -> first_byte a c = true.
Proof.
  assert (P : forall p k, p <> "" ->
              (if startswith p (String c r) then Some k else None) = Some n ->
              exists b p', p = String b p' /\ Ascii.eqb b c = true).
  { intros p k Hp E. destruct p as [|b p']; [contradiction|].
    cbn [startswith] in E. destruct (Ascii.eqb b c) eqn:Eb; [eauto|discriminate]. }
  assert (Q : forall p k, p <> "" ->
              (if startswith p (String c r) then Some k else None) = Some n ->
              forall b p', p = String b p' -> Ascii.eqb b c = true).
  { intros p k Hp E b p' Ep. destruct (P p k Hp E) as (b' & p'' & E' & Eb).
    congruence. }
  destruct a; cbn [match_alt first_byte]; intros H.
  - destruct t as [|b t']; auto.
    eapply (Q (String b t')); eauto; discriminate.
  - eapply (Q (BS +++ BS +++ "#")); eauto; try discriminate; reflexivity.
  - eapply (Q (BS +++ "#")); eauto; try discriminate; reflexivity.
  - eapply (Q (BS +++ LF)); eauto; try discriminate; reflexivity.
  - unfold BS in H. cbn [startswith] in H.
    destruct (Ascii.eqb (ascii_of_nat 92) c); [reflexivity|discriminate].
  - destruct r as [|c' r']; [discriminate|].
    destruct (Ascii.eqb c (ascii_of_nat 92)) eqn:E; [|discriminate].
    now rewrite Ascii.eqb_sym.
  - eapply (Q "#"); eauto; try discriminate; reflexivity.
  - eapply (Q LF); eauto; try discriminate; reflexivity.
Qed.

Lemma match_alts_plain alts c r :
  forallb (fun a => negb (first_byte a c)) alts = true ->
  match_alts alts (String c r) = None.
Proof.
  induction alts as [|a rest IH]; cbn [forallb match_alts]; auto.
  rewrite andb_true_iff. intros [Ha Hr].
  destruct (match_alt a (String c r)) eqn:E.
  - apply match_alt_first in E. rewrite E in Ha. discriminate.
  - auto.
Qed.

Lemma search_from_plain alts s r i :
  plain alts s = true ->
  search_from alts (s +++ r) i = search_from alts r (i + String.length s).
Proof.
  revert i; induction s as [|c s IH]; intros i; cbn [plain String.append String.length].
  - intros _. f_equal. lia.
  - rewrite andb_true_iff. intros [Hc Hs].
    cbn [search_from]. rewrite match_alts_plain by exact Hc.
    rewrite IH by exact Hs. f_equal. lia.
Qed.

(** Searching from the end of [pre] in [pre s tok rest], where no match
    starts in [s] and [tok] is matched. *)
Lemma re_search_token alts pre s r n :
  plain alts s = true -> match_alts alts r = Some n ->
  re_search alts (pre +++ s +++ r) (String.length pre)
  = Some (String.length pre + String.length s,
          String.length pre + String.length s + n).
Proof.
  intros Hs Hm. unfold re_search. rewrite !length_append.
  replace (String.length pre <=? _) with true by (symmetry; apply Nat.leb_le; lia).
  rewrite sdrop_append, search_from_plain; auto.
  destruct r; cbn [search_from]; now rewrite Hm.
Qed.

Lemma re_search_none alts pre s :
  plain alts s = true -> match_alts alts "" = None ->
  re_search alts (pre +++ s) (String.length pre) = None.
Proof.
  intros Hs Hm. unfold re_search. rewrite !length_append.
  replace (String.length pre <=? _) with true by (symmetry; apply Nat.leb_le; lia).
  rewrite sdrop_append. rewrite <- (append_empty_r s), search_from_plain; auto.
  cbn [search_from]. now rewrite Hm.
Qed.

Lemma slice_middle pre s r :
  slice (String.length pre) (String.length pre + String.length s) (pre +++ s +++ r) = s.
Proof.
  unfold slice. rewrite sdrop_append.
  replace (String.length pre + String.length s - String.length pre)
    with (String.length s) by lia.
  apply stake_append.
Qed.

Lemma slice_middle' pre s r a b :
  a = String.length pre -> b = String.length pre + String.length s ->
  slice a b (pre +++ s +++ r) = s.
Proof. intros -> ->. apply slice_middle. Qed.

Lemma plain_app alts a b : plain alts (a +++ b) = plain alts a && plain alts b.
Proof.
  induction a as [|c a IH]; cbn [plain String.append]; auto.
  rewrite IH. now rewrite andb_assoc.
Qed.

End PlainText.

(** ** Stepping the makefile iterator through known text *)

Section Stepping.

Variable functionmap : list (string * nat).

(** The last turn decides the result of the call. *)
Lemma run_result d log startat stopon iterfunc stack di s fuel t :
  parse_start d startat stopon iterfunc = Ok (stack, di) ->
  reaches functionmap iterfunc (mkLstate stack di d None log) s ->
  parse_turn functionmap fuel iterfunc (l_stack s) (l_di s) (l_data s)
             (l_offset s) (l_log s) = t ->
  final t ->
  parsemakesyntax functionmap d log startat stopon iterfunc = outcome t.
Proof.
  intros Hs Hr Ht Hf. unfold parsemakesyntax. rewrite Hs. cbn [bind].
  apply parse_start_inv in Hs as (Hinv & Hdi & _).
  destruct (reaches_follow _ _ _ _ _ Hr Hinv (fuel_of d)) as (fuel2 & W2 & _ & _ & E).
  { cbn [l_di l_data]. rewrite Hdi. apply weight_new. }
  cbn [l_stack l_di l_data l_offset l_log] in E. rewrite E.
  destruct fuel2 as [|fuel2]; [lia|]. cbn [parse_loop].
  rewrite (parse_turn_agree _ fuel2 fuel).
  - rewrite Ht. destruct t; cbn [outcome]; auto; contradiction.
  - apply parse_turn_not_starved. lia.
  - rewrite Ht. destruct t; try discriminate. contradiction.
Qed.

(** An ordinary token [tok] after text [s] in which no match starts. *)
Lemma makefile_token_step g d pre s tok rest offset :
  data d = pre +++ s +++ tok +++ rest ->
  offset = String.length pre ->
  plain (makefilere (g_tokenlist g)) s = true ->
  match_alts (makefilere (g_tokenlist g)) (tok +++ rest) = Some (String.length tok) ->
  tok <> "" ->
  String.eqb tok LF = false -> String.eqb tok "#" = false ->
  startswith BS tok = false ->
  itermakefilechars_loop g d offset
  = Yield (s, Some tok, Some (offset + String.length s),
           Some (offset + String.length s + String.length tok))
          (at_pc g (AtLoop (offset + String.length s + String.length tok))) d.
Proof.
  intros Hd -> Hp Hm Hne H1 H2 Hbs. unfold itermakefilechars_loop, len. rewrite Hd.
  replace (String.length pre <? _) with true.
  2:{ symmetry. apply Nat.ltb_lt. rewrite !length_append.
      destruct tok; [contradiction|]. cbn [String.length]. lia. }
  rewrite (re_search_token _ pre s (tok +++ rest) _ Hp Hm).
  assert (Et : slice (String.length pre + String.length s)
                 (String.length pre + String.length s + String.length tok)
                 (pre +++ s +++ tok +++ rest) = tok).
  { rewrite <- (append_assoc pre s). rewrite <- length_append. apply slice_middle. }
  cbv zeta. rewrite Et, H1, H2.
  assert (E3 : String.eqb tok (BS +++ BS +++ "#") = false).
  { apply String.eqb_neq. intros ->. discriminate. }
  assert (E4 : String.eqb tok (BS +++ LF) = false).
  { apply String.eqb_neq. intros ->. discriminate. }
  assert (E5 : String.eqb tok (BS +++ "#") = false).
  { apply String.eqb_neq. intros ->. discriminate. }
  rewrite E3, E4, E5, Hbs. cbn [andb].
  unfold yield_token. rewrite Hbs, Hd, slice_middle. reflexivity.
Qed.

(** The newline that ends the data, after text in which no match starts. *)
Lemma makefile_newline_step g d pre s offset :
  data d = pre +++ s +++ LF ->
  offset = String.length pre ->
  plain (makefilere (g_tokenlist g)) s = true ->
  match_alts (makefilere (g_tokenlist g)) LF = Some 1 ->
  itermakefilechars_loop g d offset = Yield (notoken s) (at_pc g AfterLast) d.
Proof.
  intros Hd -> Hp Hm. unfold itermakefilechars_loop, len. rewrite Hd.
  replace (String.length pre <? _) with true.
  2:{ symmetry. apply Nat.ltb_lt. rewrite !length_append. cbn [String.length LF]. lia. }
  rewrite (re_search_token _ pre s LF _ Hp Hm).
  assert (Et : slice (String.length pre + String.length s)
                 (String.length pre + String.length s + 1)
                 (pre +++ s +++ LF) = LF).
  { rewrite <- (append_empty_r LF) at 1.
    rewrite <- (append_assoc pre s). rewrite <- length_append.
    apply (slice_middle (pre +++ s) LF ""). }
  cbv zeta. rewrite Et. cbn [String.eqb LF Ascii.eqb Bool.eqb ascii_of_nat].
  replace (String.length pre + String.length s + 1 =? _) with true.
  2:{ symmetry. apply Nat.eqb_eq. rewrite !length_append.
      change (String.length LF) with 1. lia. }
  rewrite slice_middle. reflexivity.
Qed.

Lemma getloc_fromstring s loc o :
  o < String.length s ->
  getloc_at (fromstring s loc) (Some o) = Ok (loc_add loc (stake o s)).
Proof.
  intros H. unfold getloc_at. rewrite getloc_clamp.
  assert (C : clamp (fromstring s loc) (option_map Z.of_nat (Some o)) = Z.of_nat o).
  { unfold clamp, len. cbn [fromstring append DynamicData data option_map].
    cbn [String.append].
    replace (Z.of_nat o >=? Z.of_nat (String.length s))%Z with false.
    - replace (Z.of_nat o =? -1)%Z with false; auto.
      symmetry. apply Z.eqb_neq. lia.
    - symmetry. rewrite Z.geb_leb. apply Z.leb_gt. lia. }
  rewrite C. cbn [fromstring append DynamicData locs data List.app len String.length].
  unfold findlast. cbn [findlast_from fst].
  replace (Z.of_nat 0 <=? Z.of_nat o)%Z with true by (symmetry; apply Z.leb_le; lia).
  cbn [bind]. rewrite Nat2Z.id. unfold slice. cbn [sdrop String.append].
  now rewrite Nat.sub_0_r.
Qed.

End Stepping.

(** ** A substitution reference without its equals sign *)

Section SubstitutionWarning.

Variable functionmap : list (string * nat).

Lemma findtoken_none d o tl sk :
  fst (findtoken d o tl sk) = None -> findtoken d o tl sk = (None, o).
Proof.
  unfold findtoken. destruct sk.
  - destruct (wslist_match _ _ _) as [[t e]|]; auto. discriminate.
  - destruct (match_alts _ _); auto. discriminate.
Qed.

Lemma next_makefile_start fuel tl o d :
  next fuel (new_generator Itermakefilechars (Some o) tl) d
  = itermakefilechars_loop (new_generator Itermakefilechars (Some o) tl) d o.
Proof. reflexivity. Qed.

Lemma parse_dollar_varname iterfunc stack d tokenoffset offset log loc c :
  offset < len d ->
  getloc_at d (Some tokenoffset) = Ok loc ->
  slice offset (offset + 1) (data d) = c ->
  is_open c = true ->
  fst (findtoken d (offset + 1) (_functiontokenlist functionmap) true) = None ->
  parse_dollar functionmap iterfunc stack d tokenoffset offset log
  = Continue
      (mkFrame PARSESTATE_VARNAME (Some (Expansion_new None))
         (TokenList_get [":"; c; _matchingbrace c; "$"]) (Some c)
         (Some (_matchingbrace c)) None None (Some loc) None None :: stack)
      (new_generator iterfunc (Some (offset + 1))
         (TokenList_get [":"; c; _matchingbrace c; "$"]))
      d (Some (offset + 1)) log.
Proof.
  intros Hlt Hloc Hc Ho Hfn. unfold parse_dollar.
  replace (len d =? offset) with false by (symmetry; apply Nat.eqb_neq; lia).
  rewrite Hloc. cbn [lift_turn]. rewrite Hc.
  assert (Hcc : c = "(" \/ c = "{").
  { unfold is_open in Ho. apply orb_true_iff in Ho as [E|E];
      apply String.eqb_eq in E; auto. }
  rewrite (findtoken_none _ _ _ _ Hfn).
  destruct Hcc as [-> | ->]; reflexivity.
Qed.

(** A line of plain text with one reference [$(V:text)] (or
    [${V:text}]) that has no [=] before its closing brace, read by the
    makefile iterator from its start. *)
Lemma reference_line_parses :
  forall loc0 pre V text post c,
    is_open c = true ->
    plain (makefilere (TokenList_get ["$"])) pre = true ->
    plain (makefilere (TokenList_get [":"; c; _matchingbrace c; "$"])) V = true ->
    plain (makefilere (TokenList_get ["="; c; _matchingbrace c; "$"])) text = true ->
    plain (makefilere (TokenList_get ["$"])) post = true ->
    fst (findtoken (fromstring (reference_line pre c V text post) loc0)
           (String.length pre + 2) (_functiontokenlist functionmap) true) = None ->
    parsemakesyntax functionmap (fromstring (reference_line pre c V text post) loc0)
      [] 0 [] Itermakefilechars
    = Ok (mkParsed
            (mkExpansion (Some loc0)
               [Literal pre;
                VariableRef (loc_add loc0 pre)
                  (mkExpansion None [Literal (V +++ ":" +++ text)]);
                Literal post])
            None None (fromstring (reference_line pre c V text post) loc0)
            [(loc_add loc0 pre, substwarning)]).
Proof.
  intros loc0 pre V text post c Hc Hpre HV Htext Hpost Hfn.
  unfold reference_line in *.
  set (close := _matchingbrace c) in *.
  set (line := pre +++ "$" +++ c +++ V +++ ":" +++ text +++ close +++ post +++ LF) in *.
  set (d := fromstring line loc0) in *.
  set (loc := loc_add loc0 pre) in *.
  assert (Hcc : c = "(" \/ c = "{").
  { unfold is_open in Hc. apply orb_true_iff in Hc as [E|E];
      apply String.eqb_eq in E; auto. }
  assert (Eclose : close = _matchingbrace c) by reflexivity.
  assert (Eline : line = pre +++ "$" +++ c +++ V +++ ":" +++ text +++ close +++ post +++ LF)
    by reflexivity.
  assert (Ed : d = fromstring line loc0) by reflexivity.
  assert (Eloc : loc = loc_add loc0 pre) by reflexivity.
  clearbody close line d loc.
  assert (Hd : data d = line) by (rewrite Ed; reflexivity).
  assert (Hlen : len d = String.length pre + String.length V + String.length text + String.length post + 5).
  { unfold len. rewrite Hd, Eline, Eclose. rewrite !length_append.
    destruct Hcc as [-> | ->]; cbn; lia. }
  assert (Hloc : getloc_at d (Some (String.length pre)) = Ok loc).
  { rewrite Ed, getloc_fromstring.
    - rewrite Eline, Eloc. now rewrite stake_append.
    - rewrite <- Hd. fold (len d). lia. }
  assert (Ec : String.length c = 1) by (destruct Hcc as [-> | ->]; reflexivity).
  assert (Ecl : String.length close = 1)
    by (rewrite Eclose; destruct Hcc as [-> | ->]; reflexivity).
  assert (Hcl1 : String.eqb close "$" = false)
    by (rewrite Eclose; destruct Hcc as [-> | ->]; reflexivity).
  assert (Hcl2 : is_open close = false)
    by (rewrite Eclose; destruct Hcc as [-> | ->]; reflexivity).
  assert (Hcl3 : is_close close = true)
    by (rewrite Eclose; destruct Hcc as [-> | ->]; reflexivity).
  assert (Hcl4 : String.eqb close "=" = false)
    by (rewrite Eclose; destruct Hcc as [-> | ->]; reflexivity).
  (* turn 1 *)
  etransitivity.
  eapply run_result with (fuel := 0).
  - unfold parse_start. rewrite Ed, getloc_fromstring.
    + cbn [bind stake loc_add]. rewrite <- Ed. reflexivity.
    + rewrite <- Hd. fold (len d). lia.
  - eapply (reaches_step _ _ _ 0).
    { cbn [l_stack l_di l_data l_offset l_log]. unfold parse_turn.
      rewrite next_makefile_start.
      rewrite (makefile_token_step _ d "" pre "$"
                 (c +++ V +++ ":" +++ text +++ close +++ post +++ LF));
        [ | rewrite Hd, Eline; reflexivity | reflexivity | exact Hpre
          | reflexivity | discriminate | reflexivity | reflexivity | reflexivity ].
      cbn [stack_append expansion set_expansion exp_append Expansion_new elements eloc
           nodes_append notnone lift_turn String.eqb Ascii.eqb Bool.eqb
           String.length Nat.add].
      apply parse_dollar_varname with (c := c).
      - lia.
      - exact Hloc.
      - rewrite Hd, Eline.
        rewrite <- (append_assoc pre "$").
        apply (slice_middle' (pre +++ "$") c); rewrite length_append; cbn [String.length]; lia.
      - exact Hc.
      - replace (String.length pre + 1 + 1) with (String.length pre + 2) by lia. exact Hfn. }
    eapply (reaches_step _ _ _ 0).
    { cbn [l_stack l_di l_data l_offset l_log]. unfold parse_turn.
      rewrite next_makefile_start.
      rewrite (makefile_token_step _ d (pre +++ "$" +++ c) V ":"
                 (text +++ close +++ post +++ LF));
        [ | rewrite Hd, Eline, !append_assoc; reflexivity
          | rewrite !length_append; cbn [String.length]; lia
          | rewrite <- Eclose; exact HV
          | reflexivity | discriminate | reflexivity | reflexivity | reflexivity ].
      cbn. reflexivity. }
    eapply (reaches_step _ _ _ 0).
    { cbn [l_stack l_di l_data l_offset l_log]. unfold parse_turn.
      rewrite next_makefile_start.
      rewrite (makefile_token_step _ d (pre +++ "$" +++ c +++ V +++ ":") text close
                 (post +++ LF));
        [ | rewrite Hd, Eline, !append_assoc; reflexivity
          | rewrite !length_append; cbn [String.length]; lia
          | rewrite <- Eclose; exact Htext
          | rewrite Eclose; destruct Hcc as [-> | ->]; reflexivity
          | rewrite Eclose; destruct Hcc as [-> | ->]; discriminate
          | rewrite Eclose; destruct Hcc as [-> | ->]; reflexivity
          | rewrite Eclose; destruct Hcc as [-> | ->]; reflexivity
          | rewrite Eclose; destruct Hcc as [-> | ->]; reflexivity ].
      cbn [stack_append expansion set_expansion notnone lift_turn].
      rewrite Hcl1. unfold parse_token. rewrite Hcl2.
      cbn [parsestate]. rewrite Hcl4, Hcl3. cbn. rewrite Ecl. reflexivity. }
    eapply (reaches_step _ _ _ 0).
    { cbn [l_stack l_di l_data l_offset l_log]. unfold parse_turn.
      rewrite next_makefile_start.
      rewrite (makefile_newline_step _ d
                 (pre +++ "$" +++ c +++ V +++ ":" +++ text +++ close) post);
        [ | rewrite Hd, Eline, !append_assoc; reflexivity
          | rewrite !length_append; cbn [String.length]; lia
          | exact Hpost
          | reflexivity ].
      cbn. reflexivity. }
    apply reaches_refl.
  - cbn [l_stack l_di l_data l_offset l_log]. reflexivity.
  - exact I.
  - cbn [outcome parse_end List.length Nat.eqb negb assert parsestate ParseState_eqb
         bind attr expansion].
    unfold exp_append, exp_concat, Expansion_new.
    cbn [elements eloc nodes_append fold_left]. rewrite append_assoc. reflexivity.
Qed.

End SubstitutionWarning.

(** ** Iterating over the empty TokenList *)

Section EmptyTokenList.

Lemma fuel_of_S d : fuel_of d = S (S (S (S (2 * budget d)))).
Proof. unfold fuel_of. lia. Qed.

Lemma collect_tokenless fuel :
  forall g d ys d', quiet g -> collect fuel g d = Ok (ys, d') -> Forall tokenless ys.
Proof.
  induction fuel as [|fuel IH]; intros g d ys d' Q; [discriminate|].
  cbn [collect]. destruct (next fuel g d) as [y g1 d1|d1|e|] eqn:E; try discriminate.
  - destruct (quiet_yield _ _ _ _ _ _ Q E) as (Hy & Q1 & _).
    destruct (collect fuel g1 d1) as [[ys1 d2]| |] eqn:Ec; cbn [bind]; try discriminate.
    intros H; injection H as <- <-.
    constructor; [|eapply IH; eauto].
    rewrite Hy. repeat split.
  - intros H; injection H as <- <-. constructor.
Qed.

(** C9, as the code has it: the raw iterator started at offset 0 over
    the empty TokenList emits the whole buffer as one single chunk with
    no token; for each of the four iterators, every tuple emitted over
    the empty TokenList has no token (the makefile, command and
    define-body iterators still cut the buffer at newlines,
    continuations, comments and escapes). *)
Theorem empty_tokenlist_chunks :
  (forall d, one_chunk Iterdata d 0) /\
  (forall iter offset fuel d ys d',
      collect fuel (new_generator iter offset emptytokenlist) d = Ok (ys, d') ->
      Forall tokenless ys).
Proof.
  split.
  - intros d. exists d. rewrite fuel_of_S. reflexivity.
  - intros iter offset fuel d ys d' H.
    eapply collect_tokenless; [apply quiet_new | exact H].
Qed.

End EmptyTokenList.

Lemma empty_tokenlist_chunks_witness :
  Forall tokenless
    [notoken ("a" +++ BS +++ LF); notoken "b"].
Proof.
  apply (proj2 empty_tokenlist_chunks Itercommandchars (Some 0) 10
           (first_line ["a" +++ BS +++ LF; TAB +++ "b" +++ LF])
           [notoken ("a" +++ BS +++ LF); notoken "b"]
           (snd (readline (first_line ["a" +++ BS +++ LF; TAB +++ "b" +++ LF])))).
  vm_compute. reflexivity.
Defined.

(** C9 as stated fails for the makefile, command and define-body
    iterators: a comment is dropped, a continuation and an escape cut the
    buffer into several chunks, the final newline is not emitted. *)
Lemma one_chunk_counterexample :
  ~ one_chunk Itermakefilechars (first_line ["a # b" +++ LF]) 0 /\
  ~ one_chunk Itercommandchars (first_line ["a" +++ BS +++ LF; TAB +++ "b" +++ LF]) 0 /\
  ~ one_chunk Iterdefinechars (first_line ["a" +++ LF; "endef" +++ LF]) 0.
Proof.
  repeat split; intros [d' H]; vm_compute in H; discriminate.
Qed.

(** ** Continuations in the makefile and command regimes *)

Section Continuations.

Ltac len_simpl :=
  rewrite ?length_append;
  change (String.length BS) with 1; change (String.length LF) with 1;
  change (String.length TAB) with 1;
  cbn [String.length].

Lemma wsrun_app ws r : allspace ws = true -> wsrun (ws +++ r) = String.length ws + wsrun r.
Proof.
  induction ws as [|c ws IH]; cbn [allspace String.append wsrun String.length]; auto.
  rewrite andb_true_iff. intros [Hc Hw]. rewrite Hc, IH; auto.
Qed.

Lemma wsrun_text b r : b <> "" -> wsrun b = 0 -> wsrun (b +++ r) = 0.
Proof.
  destruct b as [|c b]; [contradiction|]. cbn [wsrun String.append].
  destruct (isspace c); [discriminate|reflexivity].
Qed.

(** A continuation after text [s] in which no match starts. *)
Lemma makefile_continuation_step g d pre s rest offset :
  data d = pre +++ s +++ (BS +++ LF) +++ rest ->
  offset = String.length pre ->
  plain (makefilere (g_tokenlist g)) s = true ->
  match_alts (makefilere (g_tokenlist g)) ((BS +++ LF) +++ rest) = Some 2 ->
  itermakefilechars_loop g d offset
  = Yield (notoken (rstrip s +++ " "))
          (at_pc g (AfterContinuation (offset + String.length s + 2))) d.
Proof.
  intros Hd -> Hp Hm. unfold itermakefilechars_loop, len. rewrite Hd.
  replace (String.length pre <? _) with true.
  2:{ symmetry. apply Nat.ltb_lt. len_simpl. lia. }
  rewrite (re_search_token _ pre s ((BS +++ LF) +++ rest) _ Hp Hm).
  assert (Et : slice (String.length pre + String.length s)
                 (String.length pre + String.length s + 2)
                 (pre +++ s +++ (BS +++ LF) +++ rest) = BS +++ LF).
  { rewrite <- (append_assoc pre s). rewrite <- length_append.
    apply (slice_middle (pre +++ s) (BS +++ LF)). }
  cbv zeta. rewrite Et.
  change (String.eqb (BS +++ LF) LF) with false.
  change (String.eqb (BS +++ LF) "#") with false.
  change (String.eqb (BS +++ LF) (BS +++ BS +++ "#")) with false.
  change (String.eqb (BS +++ LF) (BS +++ LF)) with true.
  cbv iota. rewrite slice_middle. reflexivity.
Qed.

Lemma command_continuation_step g d pre s rest offset :
  data d = pre +++ s +++ (BS +++ LF) +++ rest ->
  offset = String.length pre ->
  plain (continuationre (g_tokenlist g)) s = true ->
  match_alts (continuationre (g_tokenlist g)) ((BS +++ LF) +++ rest) = Some 2 ->
  itercommandchars_loop g d offset
  = Yield (notoken (s +++ BS +++ LF))
          (at_pc g (AfterContinuation (offset + String.length s + 2))) d.
Proof.
  intros Hd -> Hp Hm. unfold itercommandchars_loop, len. rewrite Hd.
  replace (String.length pre <? _) with true.
  2:{ symmetry. apply Nat.ltb_lt. len_simpl. lia. }
  rewrite (re_search_token _ pre s ((BS +++ LF) +++ rest) _ Hp Hm).
  assert (Et : slice (String.length pre + String.length s)
                 (String.length pre + String.length s + 2)
                 (pre +++ s +++ (BS +++ LF) +++ rest) = BS +++ LF).
  { rewrite <- (append_assoc pre s). rewrite <- length_append.
    apply (slice_middle (pre +++ s) (BS +++ LF)). }
  cbv zeta. rewrite Et.
  change (String.eqb (BS +++ LF) LF) with false.
  change (String.eqb (BS +++ LF) (BS +++ LF)) with true.
  cbv iota.
  replace (slice (String.length pre) (String.length pre + String.length s + 2)
             (pre +++ s +++ (BS +++ LF) +++ rest)) with (s +++ BS +++ LF); auto.
  symmetry. rewrite <- (append_assoc s (BS +++ LF) rest).
  replace (String.length pre + String.length s + 2)
    with (String.length pre + String.length (s +++ BS +++ LF)).
  - apply slice_middle.
  - len_simpl. lia.
Qed.

Lemma command_newline_step g d pre s offset :
  data d = pre +++ s +++ LF ->
  offset = String.length pre ->
  plain (continuationre (g_tokenlist g)) s = true ->
  match_alts (continuationre (g_tokenlist g)) LF = Some 1 ->
  itercommandchars_loop g d offset = Yield (notoken s) (at_pc g AfterLast) d.
Proof.
  intros Hd -> Hp Hm. unfold itercommandchars_loop, len. rewrite Hd.
  replace (String.length pre <? _) with true.
  2:{ symmetry. apply Nat.ltb_lt. rewrite !length_append. cbn [String.length LF]. lia. }
  rewrite (re_search_token _ pre s LF _ Hp Hm).
  assert (Et : slice (String.length pre + String.length s)
                 (String.length pre + String.length s + 1)
                 (pre +++ s +++ LF) = LF).
  { rewrite <- (append_empty_r LF) at 1.
    rewrite <- (append_assoc pre s). rewrite <- length_append.
    apply (slice_middle (pre +++ s) LF ""). }
  cbv zeta. rewrite Et. cbn [String.eqb LF Ascii.eqb Bool.eqb ascii_of_nat].
  replace (String.length pre + String.length s + 1 =? _) with true.
  2:{ symmetry. apply Nat.eqb_eq. rewrite !length_append.
      change (String.length LF) with 1. lia. }
  rewrite slice_middle. reflexivity.
Qed.

Lemma makefile_continuation :
  forall x ws b,
    plain (makefilere emptytokenlist) x = true ->
    plain (makefilere emptytokenlist) b = true ->
    allspace ws = true -> b <> "" -> wsrun b = 0 ->
    flattened Itermakefilechars (two_lines (x +++ BS +++ LF) (ws +++ b +++ LF)) 0
    = Ok (rstrip x +++ " " +++ b).
Proof.
  intros x ws b Hx Hb Hws Hne Hb0.
  unfold flattened, iterflatten. rewrite fuel_of_S.
  set (d := two_lines (x +++ BS +++ LF) (ws +++ b +++ LF)).
  assert (Hd : data d = x +++ BS +++ LF) by reflexivity.
  cbn [collect].
  change (next ?f (new_generator Itermakefilechars (Some 0) emptytokenlist) d)
    with (itermakefilechars_loop (new_generator Itermakefilechars (Some 0) emptytokenlist) d 0).
  rewrite (makefile_continuation_step _ d "" x "" 0);
    [ | rewrite Hd; cbn [String.append]; now rewrite append_empty_r
      | reflexivity | exact Hx | reflexivity ].
  change (next ?f (at_pc ?g (AfterContinuation ?e)) d)
    with (itermakefilechars_loop (at_pc g (AfterContinuation e)) (snd (readline d))
            (skipwhitespace (snd (readline d)) e)).
  set (d1 := snd (readline d)).
  assert (Hd1 : data d1 = (x +++ BS +++ LF) +++ ws +++ b +++ LF) by reflexivity.
  assert (Hsk : skipwhitespace d1 (0 + String.length x + 2)
                = String.length ((x +++ BS +++ LF) +++ ws)).
  { unfold skipwhitespace. rewrite Hd1.
    replace (0 + String.length x + 2) with (String.length (x +++ BS +++ LF))
      by (len_simpl; lia).
    rewrite sdrop_append, wsrun_app, wsrun_text; auto. len_simpl. lia. }
  rewrite Hsk.
  rewrite (makefile_newline_step _ d1 ((x +++ BS +++ LF) +++ ws) b);
    [ | rewrite Hd1, !append_assoc; reflexivity | reflexivity | exact Hb | reflexivity ].
  change (next ?f (at_pc ?g AfterLast) d1) with (StopIteration d1).
  cbn [bind map flatstr notoken fst String.concat].
  rewrite append_assoc. reflexivity.
Qed.

Lemma command_continuation :
  forall x y,
    plain (continuationre emptytokenlist) x = true ->
    plain (continuationre emptytokenlist) y = true ->
    flattened Itercommandchars (two_lines (x +++ BS +++ LF) (TAB +++ y +++ LF)) 0
    = Ok (x +++ BS +++ LF +++ y) /\
    (startswith TAB y = false ->
     flattened Itercommandchars (two_lines (x +++ BS +++ LF) (y +++ LF)) 0
     = Ok (x +++ BS +++ LF +++ y)).
Proof.
  intros x y Hx Hy. split.
  - unfold flattened, iterflatten. rewrite fuel_of_S.
    set (d := two_lines (x +++ BS +++ LF) (TAB +++ y +++ LF)).
    assert (Hd : data d = x +++ BS +++ LF) by reflexivity.
    cbn [collect].
    change (next ?f (new_generator Itercommandchars (Some 0) emptytokenlist) d)
      with (itercommandchars_loop (new_generator Itercommandchars (Some 0) emptytokenlist) d 0).
    rewrite (command_continuation_step _ d "" x "" 0);
      [ | rewrite Hd; cbn [String.append]; now rewrite append_empty_r
        | reflexivity | exact Hx | reflexivity ].
    change (next ?f (at_pc ?g (AfterContinuation ?e)) d)
      with (itercommandchars_next (at_pc g (AfterContinuation e)) d).
    unfold itercommandchars_next. cbn [g_pc at_pc].
    set (d1 := snd (readline d)).
    assert (Hd1 : data d1 = (x +++ BS +++ LF) +++ TAB +++ y +++ LF) by reflexivity.
    clearbody d1. clearbody d.
    assert (He : 0 + String.length x + 2 = String.length (x +++ BS +++ LF))
      by (len_simpl; lia).
    cbv zeta. rewrite He.
    replace (String.length (x +++ BS +++ LF) <? len d1) with true
      by (symmetry; apply Nat.ltb_lt; unfold len; rewrite Hd1; len_simpl; lia).
    rewrite Hd1.
    rewrite (slice_middle' (x +++ BS +++ LF) TAB (y +++ LF)) by reflexivity.
    change (true && String.eqb TAB TAB) with true. cbv iota.
    rewrite (command_newline_step _ d1 ((x +++ BS +++ LF) +++ TAB) y);
      [ | rewrite Hd1, !append_assoc; reflexivity | len_simpl; lia | exact Hy | reflexivity ].
    change (next ?f (at_pc ?g AfterLast) d1) with (StopIteration d1).
    cbn [bind map flatstr notoken fst String.concat].
    rewrite ?append_assoc, ?append_empty_r. reflexivity.
  - intros Hy0. unfold flattened, iterflatten. rewrite fuel_of_S.
    set (d := two_lines (x +++ BS +++ LF) (y +++ LF)).
    assert (Hd : data d = x +++ BS +++ LF) by reflexivity.
    cbn [collect].
    change (next ?f (new_generator Itercommandchars (Some 0) emptytokenlist) d)
      with (itercommandchars_loop (new_generator Itercommandchars (Some 0) emptytokenlist) d 0).
    rewrite (command_continuation_step _ d "" x "" 0);
      [ | rewrite Hd; cbn [String.append]; now rewrite append_empty_r
        | reflexivity | exact Hx | reflexivity ].
    change (next ?f (at_pc ?g (AfterContinuation ?e)) d)
      with (itercommandchars_next (at_pc g (AfterContinuation e)) d).
    unfold itercommandchars_next. cbn [g_pc at_pc].
    set (d1 := snd (readline d)).
    assert (Hd1 : data d1 = (x +++ BS +++ LF) +++ y +++ LF) by reflexivity.
    clearbody d1. clearbody d.
    assert (He : 0 + String.length x + 2 = String.length (x +++ BS +++ LF))
      by (len_simpl; lia).
    cbv zeta. rewrite He.
    replace (String.length (x +++ BS +++ LF) <? len d1) with true
      by (symmetry; apply Nat.ltb_lt; unfold len; rewrite Hd1; len_simpl; lia).
    rewrite Hd1.
    assert (Hnt : String.eqb (slice (String.length (x +++ BS +++ LF))
                                (String.length (x +++ BS +++ LF) + 1)
                                ((x +++ BS +++ LF) +++ y +++ LF)) TAB = false).
    { unfold slice. rewrite sdrop_append.
      replace (String.length (x +++ BS +++ LF) + 1 - String.length (x +++ BS +++ LF))
        with 1 by lia.
      destruct y as [|c y']; [reflexivity|].
      cbn [String.append stake]. unfold TAB in *. cbn [startswith] in Hy0.
      cbn [String.eqb]. rewrite Ascii.eqb_sym.
      destruct (Ascii.eqb (ascii_of_nat 9) c); [discriminate|reflexivity]. }
    rewrite Hnt. cbn [andb]. cbv iota.
    rewrite (command_newline_step _ d1 (x +++ BS +++ LF) y);
      [ | rewrite Hd1; reflexivity | reflexivity | exact Hy | reflexivity ].
    change (next ?f (at_pc ?g AfterLast) d1) with (StopIteration d1).
    cbn [bind map flatstr notoken fst String.concat].
    rewrite ?append_assoc, ?append_empty_r. reflexivity.
Qed.

(** C2, as the code has it.  Makefile regime: a backslash-newline
    continuation emits the pending chunk right-stripped and followed by
    one space, pulls the next physical line and skips its leading
    whitespace, so that one continuation with the whitespace around it
    comes out as exactly one space.  Command regime: the backslash and
    the newline are emitted as they are, and one TAB at the head of the
    next line, if present, is skipped. *)
Theorem continuation_regimes :
  (forall x ws b,
      plain (makefilere emptytokenlist) x = true ->
      plain (makefilere emptytokenlist) b = true ->
      allspace ws = true -> b <> "" -> wsrun b = 0 ->
      flattened Itermakefilechars (two_lines (x +++ BS +++ LF) (ws +++ b +++ LF)) 0
      = Ok (rstrip x +++ " " +++ b)) /\
  (forall x y,
      plain (continuationre emptytokenlist) x = true ->
      plain (continuationre emptytokenlist) y = true ->
      flattened Itercommandchars (two_lines (x +++ BS +++ LF) (TAB +++ y +++ LF)) 0
      = Ok (x +++ BS +++ LF +++ y)) /\
  (forall x y,
      plain (continuationre emptytokenlist) x = true ->
      plain (continuationre emptytokenlist) y = true ->
      startswith TAB y = false ->
      flattened Itercommandchars (two_lines (x +++ BS +++ LF) (y +++ LF)) 0
      = Ok (x +++ BS +++ LF +++ y)).
Proof.
  split; [exact makefile_continuation|]. split.
  - intros x y Hx Hy. now apply command_continuation.
  - intros x y Hx Hy. now apply command_continuation.
Qed.

End Continuations.

Lemma continuation_regimes_witness :
  flattened Itermakefilechars
    (two_lines ("a  " +++ BS +++ LF) ((TAB +++ " ") +++ "b" +++ LF)) 0
  = Ok "a b" /\
  flattened Itercommandchars
    (two_lines ("echo a " +++ BS +++ LF) (TAB +++ " b" +++ LF)) 0
  = Ok ("echo a " +++ BS +++ LF +++ " b") /\
  flattened Itercommandchars
    (two_lines ("echo a " +++ BS +++ LF) ("  b" +++ LF)) 0
  = Ok ("echo a " +++ BS +++ LF +++ "  b").
Proof.
  destruct continuation_regimes as (M & C1 & C2).
  split; [|split].
  - apply (M "a  " (TAB +++ " ") "b"); try reflexivity; discriminate.
  - apply (C1 "echo a " " b"); reflexivity.
  - apply (C2 "echo a " "  b"); reflexivity.
Defined.

(** C2 as stated fails on a run of two continuations: each of them emits
    its own space. *)
Lemma continuation_run_counterexample :
  flattened Itermakefilechars
    (first_line ["a " +++ BS +++ LF; " " +++ BS +++ LF; " b" +++ LF]) 0
  = Ok "a  b" /\
  flattened Itermakefilechars
    (first_line ["a " +++ BS +++ LF; " " +++ BS +++ LF; " b" +++ LF]) 0
  <> Ok "a b".
Proof.
  split; [vm_compute; reflexivity|]. vm_compute. discriminate.
Qed.

(** ** Errors that are not SyntaxError *)

(** [ensureend] given the offset None: the makefile iterator is entered
    with [offset < len(d.data)] true (None is below every integer) and its
    search with [pos=None] raises TypeError. *)
Lemma ensureend_None d msg : ensureend d None msg = Raise TypeError.
Proof. unfold ensureend. rewrite fuel_of_S. reflexivity. Qed.

(** C8, the code at the failing input: in the quoted form of ifeq, a second
    argument without its closing quote makes [parsemakesyntax] return the
    offset None, which [ifeq] hands to [ensureend] unchecked; the stream
    is rejected with TypeError, not with SyntaxError. *)
Theorem ifeq_unclosed_quote :
  forall functionmap,
    parsestream functionmap "Makefile" ["ifeq 'a' 'b" +++ LF] = Raise TypeError /\
    ~ is_SyntaxError (parsestream functionmap "Makefile" ["ifeq 'a' 'b" +++ LF]).
Proof.
  intros functionmap.
  assert (E : parsestream functionmap "Makefile" ["ifeq 'a' 'b" +++ LF] = Raise TypeError)
    by (vm_compute; reflexivity).
  split; [exact E|]. rewrite E. intros (msg & loc & H). discriminate.
Qed.

(** The empty logical line of C7 is reached by [parsestream]: when a
    define line ends the stream, the body is read into a DynamicData that
    stays empty, and the error meant to be SyntaxError(Unterminated
    define) is lost in [getloc]. *)
Lemma define_at_end_of_stream :
  forall functionmap,
    parsestream functionmap "Makefile" ["define FOO" +++ LF]
    = Raise (UnboundLocalError "f").
Proof. intros. vm_compute. reflexivity. Qed.

(* ================================================================= *)
(** ** Conditional blocks *)

Section StreamFacts.

Variable functionmap : list (string * nat).
Variable filename : string.

Ltac walk1 :=
  match goal with
  | |- bind ?m _ = _ -> _ => destruct m as [?| |] eqn:?; cbn [bind]; [|discriminate..]
  | |- (if ?c then _ else _) = _ -> _ => destruct c eqn:?
  | |- (let '(_, _) := ?p in _) = _ -> _ => destruct p as [? ?] eqn:?
  | |- match ?x with _ => _ end = _ -> _ => destruct x eqn:?
  | |- syntax_error _ _ _ = _ -> _ => unfold syntax_error
  end.
Ltac walk := cbv zeta; repeat (walk1; cbv zeta; try discriminate).

Lemma cond_append_ok cs s cs' :
  cond_append cs s = Ok cs' -> cond_ok cs ->
  cond_ok cs' /\ List.length cs' = List.length cs.
Proof.
  destruct cs as [|[l|loc arms] below]; cbn; try discriminate.
  all: intros H; injection H as <-; cbn; auto.
Qed.

Lemma cond_addcondition_ok cs c cs' :
  cond_addcondition cs c = Ok cs' -> cond_ok cs ->
  cond_ok cs' /\ List.length cs' = List.length cs.
Proof.
  destruct cs as [|[l|loc arms] below]; cbn; try discriminate.
  all: intros H; injection H as <-; cbn; auto.
Qed.

Lemma cond_pop_ok cs cs' :
  cond_pop cs = Ok cs' -> cond_ok cs -> List.length cs <> 1 ->
  cond_ok cs' /\ S (List.length cs') = List.length cs.
Proof.
  destruct cs as [|[l|loc arms] below]; cbn [cond_pop]; try discriminate.
  - intros _ H. cbn in H. subst. cbn. lia.
  - intros H K _. cbn in K. apply cond_append_ok in H as [A B]; auto.
    split; auto. cbn. lia.
Qed.

Lemma setvariable_facts cs d e token offset t src cs' d' :
  setvariable cs d e token offset t src = Ok (cs', d') ->
  follows d d' /\ (cond_ok cs -> cond_ok cs' /\ List.length cs' = List.length cs).
Proof.
  unfold setvariable. walk.
  intros H; injection H as <- <-.
  split; [eapply iterflatten_follows; eauto|]. intros K. eapply cond_append_ok; eauto.
Qed.

Lemma rule_command_facts cs d log token offset cs' d' log' :
  rule_command functionmap cs d log token offset = Ok (cs', d', log') ->
  follows d d' /\ (cond_ok cs -> cond_ok cs' /\ List.length cs' = List.length cs).
Proof.
  unfold rule_command. walk.
  - intros H; injection H as <- <- <-.
    split; [eapply parsemakesyntax_follows; eauto|]. intros K. eapply cond_append_ok; eauto.
  - intros H; injection H as <- <- <-. split; auto using follows_refl.
Qed.


Ltac chain :=
  repeat match goal with
         | H : parsemakesyntax _ _ _ _ _ _ = Ok _ |- _ =>
             apply parsemakesyntax_follows in H
         | H : ensureend _ _ _ = Ok _ |- _ => apply ensureend_follows in H
         | H : iterflatten _ _ _ = Ok _ |- _ => apply iterflatten_follows in H
         end;
  eauto using follows_refl, follows_trans.

Lemma ifeq_follows d log offset c d' log' :
  ifeq functionmap d log offset = Ok (c, d', log') -> follows d d'.
Proof.
  unfold ifeq. walk.
  all: intros H; injection H as <- <- <-; chain.
Qed.

Lemma ifdef_follows d log offset c d' log' :
  ifdef functionmap d log offset = Ok (c, d', log') -> follows d d'.
Proof.
  unfold ifdef. walk. intros H; injection H as <- <- <-; chain.
Qed.

Lemma conditionkeywords_follows kword parse d log offset c d' log' :
  conditionkeywords functionmap kword = Some parse ->
  parse d log offset = Ok (c, d', log') -> follows d d'.
Proof.
  unfold conditionkeywords.
  repeat match goal with
         | |- (if ?c then _ else _) = _ -> _ => destruct c
         end; try discriminate.
  all: intros H; injection H as <-.
  - apply ifeq_follows.
  - unfold ifneq. walk. destruct p. intros H; injection H as <- <- <-.
    eapply ifeq_follows; eauto.
  - apply ifdef_follows.
  - unfold ifndef. walk. destruct p. intros H; injection H as <- <- <-.
    eapply ifdef_follows; eauto.
Qed.


Ltac facts :=
  repeat match goal with
         | H : parsemakesyntax _ _ _ _ _ _ = Ok _ |- _ =>
             apply parsemakesyntax_follows in H
         | H : ensureend _ _ _ = Ok _ |- _ => apply ensureend_follows in H
         | H : iterflatten _ _ _ = Ok _ |- _ => apply iterflatten_follows in H
         | H : cond_append _ _ = Ok _ |- _ =>
             apply cond_append_ok in H as [? ?]; [|solve [auto]]
         | H : cond_addcondition _ _ = Ok _ |- _ =>
             apply cond_addcondition_ok in H as [? ?]; [|solve [auto]]
         | H : setvariable _ _ _ _ _ _ _ = Ok _ |- _ =>
             apply setvariable_facts in H as [? ?]
         | H : rule_command _ _ _ _ _ _ = Ok _ |- _ =>
             apply rule_command_facts in H as [? ?]
         | H : cond_ok ?cs -> _, K : cond_ok ?cs |- _ => destruct (H K) as [? ?]; clear H
         | H : follows _ _ |- _ => destruct H as [? _]
         end.

Ltac settle :=
  let H := fresh in let K := fresh in
  unfold ok_line; intros H K; injection H as <- <-;
  cbn [condstack fdlines closes opens]; facts;
  split; [solve [auto]|unfold lines_left in *; cbn [lineiter] in *; lia].

Lemma parse_rule_or_variable_handled st d offset :
  handled st d (parse_rule_or_variable functionmap st d offset).
Proof.
  intros st' ev. unfold parse_rule_or_variable. walk.
  all: try settle.
  all: destruct (getloc_at _ _); discriminate.
Qed.


Ltac cond_parse :=
  match goal with
  | E : conditionkeywords _ _ = Some ?parse, H : ?parse _ _ _ = Ok _ |- _ =>
      eapply conditionkeywords_follows in H; [|exact E]
  end.

Lemma parse_else_handled st d offset :
  handled st d (parse_else functionmap st d offset).
Proof.
  intros st' ev. unfold parse_else. walk.
  all: try (destruct (getloc_at _ _); discriminate).
  - cond_parse. settle.
  - settle.
Qed.

Lemma lines_first_readline li p d :
  readline (DynamicData li p) = (true, d) -> lines_left d < List.length li.
Proof.
  unfold readline, DynamicData. cbn [lineiter].
  destruct li as [|[n l] rest]; [discriminate|].
  intros H; injection H as <-. unfold lines_left, append. cbn. lia.
Qed.

Lemma parse_define_handled st d offset :
  handled st d (parse_define functionmap filename st d offset).
Proof.
  intros st' ev. unfold parse_define. walk.
  match goal with
  | H : iterflatten _ (snd (readline ?x)) _ = _ |- _ =>
      pose proof (follows_readline x) as [R _]
  end.
  change (lines_left (DynamicData (lineiter ?x) filename))
    with (lines_left x) in R.
  settle.
Qed.

Lemma parse_directive_handled st d kword offset :
  handled st d (parse_directive functionmap st d kword offset).
Proof.
  intros st' ev. unfold parse_directive. walk.
  all: try settle.
  all: destruct (getloc_at _ _); discriminate.
Qed.

Lemma iteration_facts st st' ev :
  parsestream_iteration functionmap filename st = Ok (Some (st', ev)) ->
  cond_ok (condstack st) ->
  cond_ok (condstack st') /\ List.length (fdlines st') < List.length (fdlines st) /\
  List.length (condstack st') + closes ev = List.length (condstack st) + opens ev.
Proof.
  unfold parsestream_iteration.
  destruct (assert _); cbn [bind]; try discriminate.
  destruct (readline _) as [more d] eqn:Er. cbv zeta.
  destruct more; cbn [negb]; [|discriminate].
  apply lines_first_readline in Er.
  assert (G : forall r, handled st d r -> r = Ok (Some (st', ev)) ->
              cond_ok (condstack st) ->
              cond_ok (condstack st') /\
              List.length (fdlines st') < List.length (fdlines st) /\
              List.length (condstack st') + closes ev
              = List.length (condstack st) + opens ev).
  { intros r Hr E K. destruct (Hr _ _ E K) as (A & B & C). repeat split; auto. lia. }
  destruct (_ && _ && _).
  { apply G. intros st1 ev1. walk. settle. }
  destruct (findtoken _ _ _ _) as [kword offset].
  destruct kword as [kword|]; [|apply G, parse_rule_or_variable_handled].
  destruct (String.eqb kword "endif").
  { apply G. intros st1 ev1. walk.
    unfold ok_line. intros H K. injection H as <- <-.
    cbn [condstack fdlines closes opens].
    match goal with H : (_ =? 1) = false |- _ => apply Nat.eqb_neq in H end.
    match goal with
    | H : cond_pop _ = Ok _ |- _ => apply cond_pop_ok in H as [A B]; auto
    end.
    match goal with
    | H : ensureend _ _ _ = Ok _ |- _ => apply ensureend_follows in H as [L _]
    end.
    unfold lines_left in *. repeat split; auto; lia. }
  destruct (String.eqb kword "else"); [apply G, parse_else_handled|].
  destruct (conditionkeywords functionmap kword) as [parse|] eqn:Ek.
  { apply G. intros st1 ev1. walk.
    match goal with
    | H : parse _ _ _ = Ok _ |- _ =>
        eapply conditionkeywords_follows in H as [L _]; [|exact Ek]
    end.
    unfold ok_line. intros H K. injection H as <- <-.
    cbn [condstack fdlines closes opens List.length cond_ok].
    unfold lines_left in *. repeat split; auto; lia. }
  destruct (String.eqb kword "endef").
  { unfold syntax_error. destruct (getloc_at _ _); discriminate. }
  destruct (String.eqb kword "define"); [apply G, parse_define_handled|].
  apply G, parse_directive_handled.
Qed.


Lemma cond_ok_length cs : cond_ok cs -> 1 <= List.length cs.
Proof. destruct cs; cbn; [tauto|lia]. Qed.

Lemma cond_ok_open cs :
  cond_ok cs -> List.length cs <> 1 -> exists loc arms below, cs = Block loc arms :: below.
Proof.
  destruct cs as [|[l|loc arms] below]; cbn; try tauto.
  - intros ->. cbn. lia.
  - eauto.
Qed.

Lemma iterlines_from_length fd : forall n, List.length (iterlines_from n fd) = List.length fd.
Proof. induction fd; intros n; cbn; auto. Qed.

Lemma stream_follow st evs st2 :
  stream_reaches functionmap filename st evs st2 -> cond_ok (condstack st) ->
  cond_ok (condstack st2) /\
  List.length (fdlines st2) + List.length evs <= List.length (fdlines st) /\
  forall fuel trace, List.length (fdlines st) < fuel ->
    parsestream_loop functionmap filename fuel st trace
    = parsestream_loop functionmap filename (fuel - List.length evs) st2 (trace ++ evs).
Proof.
  induction 1 as [st|st ev st1 evs st2 Ei Hr IH]; intros K.
  - split; auto. split; [cbn; lia|]. intros fuel trace _.
    cbn [List.length]. now rewrite Nat.sub_0_r, app_nil_r.
  - pose proof (iteration_facts _ _ _ Ei K) as (K1 & L1 & _).
    destruct (IH K1) as (K2 & L2 & E2).
    split; auto. split; [cbn [List.length]; lia|].
    intros fuel trace F. destruct fuel as [|fuel]; [lia|].
    cbn [parsestream_loop]. rewrite Ei. cbn [bind].
    rewrite E2 by lia. cbn [List.length]. rewrite <- app_assoc. reflexivity.
Qed.

Lemma stream_start_follow fd evs st :
  stream_reaches functionmap filename (parsestream_start fd) evs st ->
  cond_ok (condstack st) /\
  exists fuel,
    parsestream_traced functionmap filename fd
    = parsestream_loop functionmap filename (S fuel) st evs.
Proof.
  intros H. apply stream_follow in H as (K & L & E); [|reflexivity].
  split; auto. unfold parsestream_traced.
  cbn [parsestream_start fdlines] in *. unfold iterlines in *.
  rewrite iterlines_from_length in *.
  exists (List.length fd - List.length evs). rewrite E by lia.
  cbn [app]. f_equal. lia.
Qed.

Lemma stream_raise fd evs st e :
  stream_reaches functionmap filename (parsestream_start fd) evs st ->
  parsestream_iteration functionmap filename st = Raise e ->
  parsestream functionmap filename fd = Raise e.
Proof.
  intros H E. apply stream_start_follow in H as (_ & fuel & F).
  unfold parsestream. rewrite F. cbn [parsestream_loop]. rewrite E. reflexivity.
Qed.

Lemma stream_end_raise fd evs st e :
  stream_reaches functionmap filename (parsestream_start fd) evs st ->
  parsestream_iteration functionmap filename st = Ok None ->
  parsestream_end st = Raise e ->
  parsestream functionmap filename fd = Raise e.
Proof.
  intros H E E'. apply stream_start_follow in H as (_ & fuel & F).
  unfold parsestream. rewrite F. cbn [parsestream_loop]. rewrite E. cbn [bind].
  rewrite E'. reflexivity.
Qed.

Lemma loop_balanced fuel :
  forall st trace stmts log trace',
    parsestream_loop functionmap filename fuel st trace = Ok (stmts, log, trace') ->
    cond_ok (condstack st) ->
    exists evs, trace' = trace ++ evs /\
                balanced_from (List.length (condstack st) - 1) evs = true.
Proof.
  induction fuel as [|fuel IH]; intros st trace stmts log trace'; [discriminate|].
  cbn [parsestream_loop].
  destruct (parsestream_iteration functionmap filename st) as [[[st1 ev]|]| |] eqn:Ei;
    cbn [bind]; try discriminate.
  - intros H K. pose proof (iteration_facts _ _ _ Ei K) as (K1 & _ & D).
    destruct (IH _ _ _ _ _ H K1) as (evs & -> & B).
    exists (ev :: evs). rewrite <- app_assoc. split; [reflexivity|].
    apply cond_ok_length in K, K1.
    destruct ev; cbn [balanced_from closes opens] in *.
    all: try (replace (List.length (condstack st) - 1)
                with (List.length (condstack st1) - 1) by lia; exact B).
    + replace (List.length (condstack st) - 1)
        with (S (List.length (condstack st1) - 1)) by lia. exact B.
    + replace (S (List.length (condstack st) - 1))
        with (List.length (condstack st1) - 1) by lia. exact B.
  - unfold parsestream_end.
    destruct (List.length (condstack st) =? 1) eqn:E1; cbn [negb].
    + destruct (condstack st) as [|[l|loc arms] [|? ?]]; cbn [bind]; try discriminate.
      all: intros H _; injection H as <- <- <-; exists []; now rewrite app_nil_r.
    + destruct (condstack st) as [|[l|loc arms] ?]; discriminate.
Qed.


Lemma directive_at_line st d kword off :
  directive_at filename st = Some (d, kword, off) ->
  anchored d /\
  readline (DynamicData (fdlines st) filename) = (true, d) /\
  (0 <? len d) && String.eqb (slice 0 1 (data d)) TAB && currule st = false /\
  findtoken d (skipwhitespace d 0) directivestokenlist true = (Some kword, off).
Proof.
  unfold directive_at.
  pose proof (anchored_first_readline (fdlines st) filename) as A.
  destruct (readline _) as [more d0]. cbn [fst snd] in A.
  destruct more; cbn [negb]; [|discriminate].
  destruct (_ && _ && _) eqn:Ec; [discriminate|].
  destruct (findtoken _ _ _ _) as [[k|] o] eqn:Ef; [|discriminate].
  intros H; injection H as <- <- <-. repeat split; auto.
Qed.

Lemma unmatched_endif fd evs st d off d' :
  stream_reaches functionmap filename (parsestream_start fd) evs st ->
  List.length (condstack st) = 1 ->
  directive_at filename st = Some (d, "endif", off) ->
  ensureend d (Some off) "Unexpected data after 'endif' directive" = Ok d' ->
  exists loc,
    getloc_at d' (Some off) = Ok loc /\
    parsestream functionmap filename fd
    = Raise (SyntaxError "unmatched 'endif' directive" loc).
Proof.
  intros R L D E. apply directive_at_line in D as (A & D1 & D2 & D3).
  pose proof (ensureend_follows _ _ _ _ E) as [_ A'].
  destruct (getloc_at_ok d' (Some off) (A' A)) as [loc G].
  exists loc. split; [exact G|].
  apply (stream_raise _ _ _ _ R).
  unfold parsestream_iteration. rewrite L, D1.
  change (assert (0 <? 1)) with (Ok tt). cbn [bind negb].
  rewrite D2, D3. cbn [String.eqb Ascii.eqb Bool.eqb].
  rewrite E. cbn [bind Nat.eqb]. unfold syntax_error. rewrite G. reflexivity.
Qed.

Lemma unmatched_else fd evs st d off :
  stream_reaches functionmap filename (parsestream_start fd) evs st ->
  List.length (condstack st) = 1 ->
  directive_at filename st = Some (d, "else", off) ->
  exists loc,
    getloc_at d (Some off) = Ok loc /\
    parsestream functionmap filename fd
    = Raise (SyntaxError "unmatched 'else' directive" loc).
Proof.
  intros R L D. apply directive_at_line in D as (A & D1 & D2 & D3).
  destruct (getloc_at_ok d (Some off) A) as [loc G].
  exists loc. split; [exact G|].
  apply (stream_raise _ _ _ _ R).
  unfold parsestream_iteration. rewrite L, D1.
  change (assert (0 <? 1)) with (Ok tt). cbn [bind negb].
  rewrite D2, D3. cbn [String.eqb Ascii.eqb Bool.eqb].
  unfold parse_else. rewrite L. cbn [Nat.eqb]. unfold syntax_error. rewrite G.
  reflexivity.
Qed.

Lemma never_terminated fd evs st :
  stream_reaches functionmap filename (parsestream_start fd) evs st ->
  fdlines st = [] -> List.length (condstack st) <> 1 ->
  exists loc arms below,
    condstack st = Block loc arms :: below /\
    parsestream functionmap filename fd
    = Raise (SyntaxError "Condition never terminated with endif" loc).
Proof.
  intros R E L. pose proof (stream_start_follow _ _ _ R) as [K _].
  destruct (cond_ok_open _ K L) as (loc & arms & below & Ec).
  exists loc, arms, below. split; [exact Ec|].
  apply (stream_end_raise _ _ _ _ R).
  - unfold parsestream_iteration. rewrite E, Ec. reflexivity.
  - unfold parsestream_end. apply Nat.eqb_neq in L. rewrite L. rewrite Ec. reflexivity.
Qed.

Lemma parsed_balanced fd stmts log trace :
  parsestream_traced functionmap filename fd = Ok (stmts, log, trace) ->
  balanced trace = true.
Proof.
  intros H. apply loop_balanced in H as (evs & -> & B); [|reflexivity]. exact B.
Qed.


(** C4, as the code has it.  With no conditional block open (the stack
    holds the StatementList only), [parsestream] raises
    SyntaxError "unmatched 'endif' directive" on an endif line whose rest
    passes [ensureend] (only whitespace or a comment after the keyword),
    and SyntaxError "unmatched 'else' directive" on any else line; at the
    end of the stream with a block still open it raises
    SyntaxError "Condition never terminated with endif" at the location of
    the innermost open block; and in every stream that parses, the if*
    and endif lines nest properly. *)
Theorem conditional_nesting :
  (forall fd evs st d off d',
      stream_reaches functionmap filename (parsestream_start fd) evs st ->
      List.length (condstack st) = 1 ->
      directive_at filename st = Some (d, "endif", off) ->
      ensureend d (Some off) "Unexpected data after 'endif' directive" = Ok d' ->
      exists loc,
        getloc_at d' (Some off) = Ok loc /\
        parsestream functionmap filename fd
        = Raise (SyntaxError "unmatched 'endif' directive" loc)) /\
  (forall fd evs st d off,
      stream_reaches functionmap filename (parsestream_start fd) evs st ->
      List.length (condstack st) = 1 ->
      directive_at filename st = Some (d, "else", off) ->
      exists loc,
        getloc_at d (Some off) = Ok loc /\
        parsestream functionmap filename fd
        = Raise (SyntaxError "unmatched 'else' directive" loc)) /\
  (forall fd evs st,
      stream_reaches functionmap filename (parsestream_start fd) evs st ->
      fdlines st = [] -> List.length (condstack st) <> 1 ->
      exists loc arms below,
        condstack st = Block loc arms :: below /\
        parsestream functionmap filename fd
        = Raise (SyntaxError "Condition never terminated with endif" loc)) /\
  (forall fd stmts log trace,
      parsestream_traced functionmap filename fd = Ok (stmts, log, trace) ->
      balanced trace = true).
Proof.
  split; [exact unmatched_endif|]. split; [exact unmatched_else|].
  split; [exact never_terminated|exact parsed_balanced].
Qed.

End StreamFacts.

Lemma conditional_nesting_witness :
  (exists loc,
      parsestream sample_functionmap "Makefile"
        ["ifdef A" +++ LF; "endif" +++ LF; "endif # done" +++ LF]
      = Raise (SyntaxError "unmatched 'endif' directive" loc)) /\
  (exists loc,
      parsestream sample_functionmap "Makefile" ["else" +++ LF]
      = Raise (SyntaxError "unmatched 'else' directive" loc)) /\
  (exists loc,
      parsestream sample_functionmap "Makefile" ["ifdef A" +++ LF]
      = Raise (SyntaxError "Condition never terminated with endif" loc)) /\
  balanced [EvIf; EvSetVariable; EvEndif] = true.
Proof.
  destruct (conditional_nesting sample_functionmap "Makefile") as (T1 & T2 & T3 & T4).
  split; [|split; [|split]].
  - edestruct (T1 ["ifdef A" +++ LF; "endif" +++ LF; "endif # done" +++ LF])
      as (loc & _ & E).
    + eapply stream_line; [vm_compute; reflexivity|].
      eapply stream_line; [vm_compute; reflexivity|]. apply stream_here.
    + reflexivity.
    + vm_compute. reflexivity.
    + vm_compute. reflexivity.
    + exists loc. exact E.
  - edestruct (T2 ["else" +++ LF]) as (loc & _ & E).
    + apply stream_here.
    + reflexivity.
    + vm_compute. reflexivity.
    + exists loc. exact E.
  - edestruct (T3 ["ifdef A" +++ LF]) as (loc & arms & below & _ & E).
    + eapply stream_line; [vm_compute; reflexivity|]. apply stream_here.
    + reflexivity.
    + cbn. discriminate.
    + exists loc. exact E.
  - eapply (T4 ["ifdef A" +++ LF; "B = 1" +++ LF; "endif" +++ LF]).
    vm_compute. reflexivity.
Defined.

(** C4 as stated fails on an endif followed by text with no block open:
    [ensureend] runs before the depth of the stack is looked at, and the
    error is the one about the text. *)
Lemma endif_with_text_counterexample :
  parsestream sample_functionmap "Makefile" ["endif foo" +++ LF]
  = Raise (SyntaxError "Unexpected data after 'endif' directive"
             (mkLocation "Makefile" 1 9)) /\
  directive_at "Makefile" (parsestream_start ["endif foo" +++ LF])
  = Some (first_line ["endif foo" +++ LF], "endif", 6) /\
  List.length (condstack (parsestream_start ["endif foo" +++ LF])) = 1 /\
  forall loc,
    parsestream sample_functionmap "Makefile" ["endif foo" +++ LF]
    <> Raise (SyntaxError "unmatched 'endif' directive" loc).
Proof.
  split; [vm_compute; reflexivity|]. split; [vm_compute; reflexivity|].
  split; [reflexivity|]. intros loc. vm_compute. discriminate.
Qed.

(* ================================================================= *)
(** ** The define directive *)

Section DefineFacts.

Lemma wslist_match_shift tokens s o :
  wslist_match tokens s o
  = option_map (fun te => (fst te, o + snd te)) (wslist_match tokens s 0).
Proof.
  induction tokens as [|t rest IH]; cbn [wslist_match option_map]; auto.
  cbv zeta. destruct (_ && _); auto. cbn [option_map fst snd]. f_equal. f_equal. lia.
Qed.

Lemma slice_shift P l a b :
  slice (String.length P + a) (String.length P + b) (P +++ l) = slice a b l.
Proof.
  unfold slice. rewrite <- sdrop_sdrop, sdrop_append. f_equal. lia.
Qed.

Lemma checkfortoken_line d P l :
  data d = P +++ l -> checkfortoken d (String.length P) = line_direction l.
Proof.
  intros Hd. unfold line_direction, checkfortoken, skipwhitespace, findtoken, len.
  cbn [fromstring append DynamicData data String.append].
  rewrite Hd, length_append.
  replace (String.length P + String.length l <=? String.length P)
    with (String.length l <=? 0).
  2:{ destruct (Nat.leb_spec (String.length l) 0);
      symmetry; [apply Nat.leb_le|apply Nat.leb_gt]; lia. }
  destruct (String.length l <=? 0); auto.
  replace (slice (String.length P) (String.length P + 1) (P +++ l))
    with (slice 0 (0 + 1) l).
  2:{ rewrite <- (slice_shift P l 0 (0 + 1)). f_equal. lia. }
  destruct (String.eqb _ TAB); auto.
  rewrite sdrop_append. rewrite sdrop_0. cbn [Nat.add].
  pose proof (wsrun_le l) as Hw.
  rewrite !Nat.min_l by lia.
  rewrite <- sdrop_sdrop, sdrop_append.
  rewrite (wslist_match_shift _ _ (String.length P + wsrun l)).
  rewrite (wslist_match_shift _ _ (wsrun l)).
  destruct (wslist_match _ _ 0) as [[t e]|]; reflexivity.
Qed.


(** The newline that ends a body line: the next physical line is pulled
    and looked at for define and endef. *)
Lemma define_line_step g d P b n nl rest :
  data d = P +++ b +++ LF ->
  plain (continuationre (g_tokenlist g)) b = true ->
  match_alts (continuationre (g_tokenlist g)) LF = Some 1 ->
  lineiter d = (n, nl) :: rest ->
  iterdefinechars_loop g d (String.length P)
  = let d' := snd (readline d) in
    let c := (g_definecount g + line_direction nl)%Z in
    if (c =? 0)%Z
    then Yield (notoken b) (at_pc (with_definecount g c) AfterLast) d'
    else Yield (notoken (b +++ LF))
               (at_pc (with_definecount g c)
                      (AtLoop (String.length P + String.length b + 1))) d'.
Proof.
  intros Hd Hp Hm Hl. unfold iterdefinechars_loop, len. rewrite Hd.
  replace (String.length P <? _) with true.
  2:{ symmetry. apply Nat.ltb_lt. rewrite !length_append.
      change (String.length LF) with 1. lia. }
  rewrite (re_search_token _ P b LF _ Hp Hm).
  assert (Et : slice (String.length P + String.length b)
                 (String.length P + String.length b + 1)
                 (P +++ b +++ LF) = LF).
  { rewrite <- (append_empty_r LF) at 1.
    rewrite <- (append_assoc P b). rewrite <- length_append.
    apply (slice_middle (P +++ b) LF ""). }
  cbv zeta. rewrite Et.
  change (String.eqb LF (BS +++ LF)) with false.
  change (String.eqb LF LF) with true. cbv iota.
  replace (String.length P + String.length b + 1 =? _) with true.
  2:{ symmetry. apply Nat.eqb_eq. rewrite !length_append.
      change (String.length LF) with 1. lia. }
  assert (Hd' : data (snd (readline d)) = (P +++ b +++ LF) +++ nl).
  { unfold readline. rewrite Hl. cbn [snd append data]. now rewrite Hd. }
  assert (C : checkfortoken (snd (readline d))
                 (String.length P + String.length b + 1) = line_direction nl).
  { rewrite <- (checkfortoken_line _ (P +++ b +++ LF) nl Hd'). f_equal.
    rewrite !length_append. change (String.length LF) with 1. lia. }
  rewrite C, Hd'.
  assert (S1 : slice (String.length P) (String.length P + String.length b)
                 ((P +++ b +++ LF) +++ nl) = b).
  { rewrite !append_assoc. apply slice_middle. }
  assert (S2 : slice (String.length P) (String.length P + String.length b + 1)
                 ((P +++ b +++ LF) +++ nl) = b +++ LF).
  { rewrite !append_assoc. rewrite <- (append_assoc b LF nl).
    apply slice_middle'; auto. rewrite length_append.
    change (String.length LF) with 1. lia. }
  rewrite S1, S2. reflexivity.
Qed.

Lemma concat_empty_cons x l : String.concat "" (x :: l) = x +++ String.concat "" l.
Proof. destruct l; cbn [String.concat]; [now rewrite append_empty_r|reflexivity]. Qed.

Lemma readline_cons d n nl rest :
  lineiter d = (n, nl) :: rest ->
  data (snd (readline d)) = data d +++ nl /\
  lineiter (snd (readline d)) = rest /\
  dpath (snd (readline d)) = dpath d /\
  locs (snd (readline d)) = locs d ++ [(len d, mkLocation (dpath d) n 0)].
Proof. intros H. unfold readline. rewrite H. cbn. auto. Qed.

(** The body of a define, from the start of one of its lines to the
    line that closes it. *)
Lemma define_collect body :
  forall lines g d P b fuel g0 ne closing rest,
    g_func g0 = Iterdefinechars ->
    g_func g = Iterdefinechars -> g_tokenlist g = emptytokenlist ->
    data d = P +++ b +++ LF ->
    plain (continuationre emptytokenlist) b = true ->
    lineiter d = lines ++ (ne, closing) :: rest ->
    map snd lines = map (fun l => l +++ LF) body ->
    nested (g_definecount g) body = true ->
    line_direction closing = (-1)%Z ->
    next fuel g0 d = iterdefinechars_loop g d (String.length P) ->
    List.length body < fuel ->
    exists ys d' more,
      collect (S fuel) g0 d = Ok (ys, d') /\
      String.concat "" (map flatstr ys) = String.concat LF (b :: body) /\
      lineiter d' = rest /\ dpath d' = dpath d /\
      locs d' = locs d ++ more /\ Forall (fun ol => len d <= fst ol) more /\
      len d <= len d'.
Proof.
  induction body as [|l body IH];
    intros lines g d P b fuel g0 ne closing rest F0 F T Hd Hp Hl Hm Hn Hc Hx Hf.
  - destruct lines; [|discriminate]. cbn [app] in Hl.
    cbn [nested] in Hn. apply Z.eqb_eq in Hn.
    cbn [collect]. rewrite Hx.
    rewrite (define_line_step g d P b ne closing rest Hd); auto.
    2,3: rewrite T; auto.
    cbv zeta. rewrite Hn, Hc. cbn [Z.add Z.eqb Z.pos_sub].
    destruct fuel as [|fuel]; [cbn in Hf; lia|].
    cbn [collect]. unfold next, gen_step.
    cbn [at_pc with_definecount g_func]. rewrite F.
    unfold iterdefinechars_next. cbn [g_pc bind].
    destruct (readline_cons _ _ _ _ Hl) as (R1 & R2 & R3 & R4).
    exists [notoken b], (snd (readline d)), [(len d, mkLocation (dpath d) ne 0)].
    split; [reflexivity|].
    cbn [map flatstr notoken fst String.concat].
    repeat split; auto. apply len_readline.
  - destruct lines as [|[n nl] lines]; [discriminate|].
    cbn [map snd] in Hm. injection Hm as Hnl Hm. subst nl.
    cbn [app] in Hl. cbn [nested] in Hn. cbv zeta in Hn.
    apply andb_true_iff in Hn as [Hn Hn3].
    apply andb_true_iff in Hn as [Hn1 Hn2]. apply negb_true_iff in Hn2.
    destruct (readline_cons _ _ _ _ Hl) as (R1 & R2 & R3 & R4).
    cbn [collect]. rewrite Hx.
    rewrite (define_line_step g d P b n (l +++ LF) (lines ++ (ne, closing) :: rest) Hd); auto.
    2,3: rewrite T; auto.
    cbv zeta. rewrite Hn2.
    destruct fuel as [|fuel]; [cbn in Hf; lia|].
    set (g1 := at_pc _ _).
    destruct (IH lines g1 (snd (readline d)) (P +++ b +++ LF) l fuel g1 ne closing rest)
      as (ys & d' & more & E1 & E2 & E3 & E4 & E5 & E6 & E7); auto.
    + rewrite R1, Hd. now rewrite !append_assoc.
    + unfold next, gen_step. subst g1. cbn [at_pc with_definecount g_func].
      rewrite F. unfold iterdefinechars_next. cbn [at_pc with_definecount g_pc]. f_equal.
      rewrite !length_append. change (String.length LF) with 1. lia.
    + cbn [List.length] in Hf. lia.
    + rewrite E1. cbn [bind].
      exists (notoken (b +++ LF) :: ys), d',
        ((len d, mkLocation (dpath d) n 0) :: more).
      split; [reflexivity|].
      cbn [map flatstr notoken fst]. rewrite concat_empty_cons, E2.
      pose proof (len_readline d) as R5.
      split; [|split; [|split; [|split; [|split]]]]; auto; [| | | |lia].
      * cbn [String.concat]. now rewrite append_assoc.
      * congruence.
      * rewrite E5, R4, <- app_assoc. reflexivity.
      * constructor; [cbn [fst]; lia|].
        eapply Forall_impl; [|exact E6]. cbv beta. intros a.
        unfold len. rewrite R1, length_append. fold (len d). lia.
Qed.

Lemma getloc_first d loc more o :
  locs d = (0, loc) :: more -> Forall (fun ol => o < fst ol) more -> o < len d ->
  getloc_at d (Some o) = Ok (loc_add loc (stake o (data d))).
Proof.
  intros Hl Hm Ho. unfold getloc_at. rewrite getloc_clamp.
  assert (C : clamp d (option_map Z.of_nat (Some o)) = Z.of_nat o).
  { unfold clamp. cbn [option_map].
    replace (Z.of_nat o >=? Z.of_nat (len d))%Z with false.
    - replace (Z.of_nat o =? -1)%Z with false; auto.
      symmetry. apply Z.eqb_neq. lia.
    - symmetry. rewrite Z.geb_leb. apply Z.leb_gt. lia. }
  rewrite C, Hl. unfold findlast. cbn [findlast_from fst].
  replace (Z.of_nat 0 <=? Z.of_nat o)%Z with true by (symmetry; apply Z.leb_le; lia).
  assert (F : findlast_from (fun ol : nat * Location => (Z.of_nat (fst ol) <=? Z.of_nat o)%Z)
                (Some (0, loc)) more = Ok (0, loc)).
  { destruct more as [|[o1 l1] more']; [reflexivity|].
    inversion Hm as [|? ? H1 _]; subst. cbn [findlast_from fst] in *.
    replace (Z.of_nat o1 <=? Z.of_nat o)%Z with false; auto.
    symmetry. apply Z.leb_gt. lia. }
  rewrite F. cbn [bind]. rewrite Nat2Z.id. unfold slice. cbn [sdrop].
  now rewrite Nat.sub_0_r.
Qed.

Lemma lines_le_budget d : lines_left d <= budget d.
Proof.
  unfold lines_left, budget.
  assert (H : forall li : list (nat * string),
             List.length li
             <= fold_right (fun nl acc => S (String.length (snd nl)) + acc) 0 li).
  { induction li as [|a li IH]; cbn [List.length fold_right]; lia. }
  specialize (H (lineiter d)). lia.
Qed.

Lemma line_direction_nonempty l : line_direction l <> 0%Z -> l <> "".
Proof. intros H ->. now apply H. Qed.

(** The value of a define: what [_iterflatten] makes of the lines that
    follow the directive, and the line the parser is left on. *)
Lemma define_flatten file block rest body closing :
  map snd block = map (fun l => l +++ LF) body ++ [closing] ->
  nested 1 body = true -> line_direction closing = (-1)%Z ->
  exists d',
    iterflatten Iterdefinechars (snd (readline (DynamicData (block ++ rest) file)))
      (Some 0) = Ok (String.concat LF body, d') /\
    getloc_at d' (Some 0) = Ok (mkLocation file (hd 0 (map fst block)) 0) /\
    lineiter d' = rest.
Proof.
  intros Hb Hn Hc.
  apply map_eq_app in Hb as (l1 & l2 & -> & H1 & H2).
  destruct l2 as [|[ne c] [|? ?]]; try discriminate.
  cbn [map snd] in H2. injection H2 as ->.
  assert (Hcl : closing <> "").
  { apply line_direction_nonempty. rewrite Hc. discriminate. }
  unfold iterflatten. rewrite fuel_of_S.
  destruct body as [|b body].
  - destruct l1; [|discriminate]. cbn [app].
    set (d2 := snd (readline _)).
    assert (Hd : data d2 = "" +++ closing) by reflexivity.
    assert (Hl : locs d2 = [(0, mkLocation file ne 0)]) by reflexivity.
    assert (Hli : lineiter d2 = rest) by reflexivity.
    clearbody d2.
    cbn [collect]. unfold next, gen_step, iterdefinechars_next.
    cbn [new_generator g_func g_pc].
    rewrite (checkfortoken_line d2 "" closing Hd : checkfortoken d2 0 = _), Hc.
    cbn [Z.add Z.eqb Z.pos_sub bind map String.concat].
    exists d2. split; [reflexivity|]. split; [|exact Hli].
    rewrite (getloc_first d2 _ [] 0 Hl); [reflexivity|constructor|].
    unfold len. rewrite Hd. destruct closing; [contradiction|cbn; lia].
  - destruct l1 as [|[n1 nl] lines]; [discriminate|].
    cbn [map snd] in H1. injection H1 as -> H1.
    cbn [nested] in Hn. cbv zeta in Hn.
    apply andb_true_iff in Hn as [Hn Hn3].
    apply andb_true_iff in Hn as [Hn1 Hn2]. apply negb_true_iff in Hn2.
    rewrite <- app_assoc. cbn [app].
    set (d2 := snd (readline _)).
    assert (Hd : data d2 = "" +++ b +++ LF) by reflexivity.
    assert (Hl : locs d2 = [(0, mkLocation file n1 0)]) by reflexivity.
    assert (Hli : lineiter d2 = lines ++ (ne, closing) :: rest) by reflexivity.
    assert (Hlen : 0 < len d2).
    { unfold len. rewrite Hd, !length_append. change (String.length LF) with 1. lia. }
    assert (Hbud : List.length body <= budget d2).
    { etransitivity; [|apply lines_le_budget]. unfold lines_left. rewrite Hli.
      rewrite length_app, <- (length_map snd lines), H1, length_map. lia. }
    clearbody d2.
    set (g0 := new_generator Iterdefinechars (Some 0) emptytokenlist).
    set (g := mkGen Iterdefinechars emptytokenlist (AtStart (Some 0))
                (1 + line_direction (b +++ LF)) 0).
    destruct (define_collect body lines g d2 "" b (S (S (S (2 * budget d2)))) g0
                ne closing rest)
      as (ys & d' & more & E1 & E2 & E3 & E4 & E5 & E6 & E7); auto.
    + unfold next, gen_step, iterdefinechars_next. subst g0 g.
      cbn [new_generator g_func g_pc g_tokenlist].
      rewrite (checkfortoken_line d2 "" (b +++ LF) Hd : checkfortoken d2 0 = _).
      cbv zeta. rewrite Hn2. reflexivity.
    + lia.
    + rewrite E1. cbn [bind]. rewrite E2.
      exists d'. split; [reflexivity|]. split; [|exact E3].
      rewrite (getloc_first d' (mkLocation file n1 0) more 0).
      * reflexivity.
      * rewrite E5, Hl. reflexivity.
      * eapply Forall_impl; [|exact E6]. cbv beta. intros a. lia.
      * lia.
Qed.

Section DefineLine.

Variable functionmap : list (string * nat).

(** The name of the variable, on the line of the define directive. *)
Lemma define_name d file n0 name log :
  data d = "define " +++ name +++ LF ->
  locs d = [(0, mkLocation file n0 0)] ->
  plain (makefilere (TokenList_get ["$"])) name = true ->
  parsemakesyntax functionmap d log 7 [] Itermakefilechars
  = Ok (mkParsed (mkExpansion (Some (mkLocation file n0 7)) [Literal name])
          None None d log).
Proof.
  intros Hd Hl Hp.
  assert (Hlen : len d = String.length name + 8).
  { unfold len. rewrite Hd, !length_append. change (String.length LF) with 1.
    cbn [String.length]. lia. }
  assert (G : getloc_at d (Some 7) = Ok (mkLocation file n0 7)).
  { rewrite (getloc_first d _ [] 7 Hl); [|constructor|lia].
    rewrite Hd. reflexivity. }
  etransitivity.
  eapply run_result with (fuel := 0).
  - unfold parse_start. rewrite G. cbn [bind]. reflexivity.
  - eapply (reaches_step _ _ _ 0).
    { cbn [l_stack l_di l_data l_offset l_log]. unfold parse_turn.
      rewrite next_makefile_start.
      rewrite (makefile_newline_step _ d "define " name);
        [ | rewrite Hd; reflexivity | reflexivity | exact Hp | reflexivity ].
      cbn. reflexivity. }
    apply reaches_refl.
  - cbn [l_stack l_di l_data l_offset l_log]. reflexivity.
  - exact I.
  - cbn [outcome parse_end List.length Nat.eqb negb assert parsestate ParseState_eqb
         bind attr expansion]. reflexivity.
Qed.

Variable filename : string.

Lemma define_dispatch d name :
  data d = "define " +++ name +++ LF -> name <> "" -> wsrun name = 0 ->
  findtoken d (skipwhitespace d 0) directivestokenlist true = (Some "define", 7).
Proof.
  intros Hd Hne Hws.
  assert (W : skipwhitespace d 0 = 0) by (unfold skipwhitespace; now rewrite Hd).
  assert (M : forall r, wslist_match (wslist directivestokenlist) ("define " +++ r) 0
                        = Some ("define", 0 + 6 + S (wsrun r))) by reflexivity.
  rewrite W. unfold findtoken. cbn [Nat.min]. rewrite Hd. rewrite sdrop_0, M.
  rewrite wsrun_text; auto.
Qed.

(** The line of a define directive and the lines of its body. *)
Lemma define_iteration st n0 name block rest body closing :
  fdlines st = (n0, "define " +++ name +++ LF) :: block ++ rest ->
  map snd block = map (fun l => l +++ LF) body ++ [closing] ->
  name <> "" -> wsrun name = 0 ->
  plain (makefilere (TokenList_get ["$"])) name = true ->
  nested 1 body = true -> line_direction closing = (-1)%Z ->
  condstack st <> [] ->
  parsestream_iteration functionmap filename st
  = (cs <- cond_append (condstack st)
             (SetVariable (mkExpansion (Some (mkLocation filename n0 7)) [Literal name])
                "=" (String.concat LF body)
                (mkLocation filename (hd 0 (map fst block)) 0) None None) ;;
     Ok (Some (mkPstate false cs rest (plog st), EvDefine))).
Proof.
  intros Hf Hb Hne Hws Hp Hn Hc Hcs.
  unfold parsestream_iteration.
  replace (assert (0 <? List.length (condstack st))) with (Ok tt).
  2:{ destruct (condstack st); [contradiction|reflexivity]. }
  cbn [bind]. unfold readline at 1. cbn [DynamicData lineiter]. rewrite Hf.
  cbv zeta iota beta. cbn [negb].
  set (d := append _ _ _).
  assert (Hd : data d = "define " +++ name +++ LF) by reflexivity.
  assert (Hl : locs d = [(0, mkLocation filename n0 0)]) by reflexivity.
  assert (Hli : lineiter d = block ++ rest) by reflexivity.
  clearbody d.
  replace ((0 <? len d) && String.eqb (slice 0 1 (data d)) TAB && currule st)
    with false.
  2:{ rewrite Hd. change (String.eqb (slice 0 1 _) TAB) with false.
      now rewrite andb_false_r. }
  rewrite (define_dispatch d name Hd Hne Hws).
  change (String.eqb "define" "endif") with false.
  change (String.eqb "define" "else") with false.
  change (conditionkeywords functionmap "define") with
    (@None (Data -> list warning -> nat -> result (Condition * Data * list warning))).
  change (String.eqb "define" "endef") with false.
  change (String.eqb "define" "define") with true.
  cbv iota. unfold parse_define.
  rewrite (define_name d filename n0 name (plog st) Hd Hl Hp).
  cbn [bind p_data p_expansion p_log]. rewrite Hli. cbv zeta.
  destruct (define_flatten filename block rest body closing Hb Hn Hc)
    as (d' & E1 & E2 & E3).
  rewrite E1. cbn [bind]. rewrite E2. cbn [bind].
  destruct (cond_append _ _); cbn [bind]; auto.
  unfold ok_line. now rewrite E3.
Qed.

Lemma iterlines_from_unix fd :
  forallb unix_line fd = true -> forall n, map snd (iterlines_from n fd) = fd.
Proof.
  induction fd as [|l fd IH]; cbn [forallb iterlines_from map snd]; auto.
  rewrite andb_true_iff. intros [H1 H2] n. apply String.eqb_eq in H1.
  rewrite H1, IH; auto.
Qed.

Lemma define_stream name body closing :
  name <> "" -> wsrun name = 0 ->
  plain (makefilere (TokenList_get ["$"])) name = true ->
  nested 1 body = true -> line_direction closing = (-1)%Z ->
  forallb unix_line (define_block name body closing) = true ->
  parsestream functionmap filename (define_block name body closing)
  = Ok [SetVariable (mkExpansion (Some (mkLocation filename 1 7)) [Literal name])
          "=" (String.concat LF body) (mkLocation filename 2 0) None None].
Proof.
  intros Hne Hws Hp Hn Hc Hu.
  unfold parsestream, parsestream_traced, define_block in *.
  cbn [forallb] in Hu. apply andb_true_iff in Hu as [Hu1 Hu2].
  apply String.eqb_eq in Hu1.
  set (tail := map (fun l => l +++ LF) body ++ [closing]) in *.
  assert (Ht : exists x xs, tail = x :: xs).
  { subst tail. destruct body; cbn; eauto. }
  destruct Ht as (x & xs & Ht). rewrite Ht. cbn [List.length parsestream_loop].
  rewrite (define_iteration (parsestream_start (("define " +++ name +++ LF) :: x :: xs))
             1 name (iterlines_from 1 (x :: xs)) [] body closing);
    [reflexivity| | |auto..].
  - unfold parsestream_start, iterlines. cbn [fdlines]. rewrite app_nil_r.
    change (iterlines_from 0 (("define " +++ name +++ LF) :: x :: xs))
      with ((1, crlf_to_lf ("define " +++ name +++ LF)) :: iterlines_from 1 (x :: xs)).
    now rewrite Hu1.
  - rewrite <- Ht, iterlines_from_unix; auto.
  - discriminate.
Qed.

(** C3, as the code has it.  A line [define NAME] followed by body lines
    and the endef line that matches it (nested define and endef lines
    counted) appends to the top of the condition stack a SetVariable
    named NAME with token [=], located at the first line after the
    directive, whose value is the body lines joined by newlines: the
    newline that ends the last body line is not part of the value, and
    nothing of the closing line is.  The parser goes on after the closing
    line.  On a stream made of such a block alone the result is that one
    statement. *)
Theorem define_value :
  (forall st n0 name block rest body closing,
      fdlines st = (n0, "define " +++ name +++ LF) :: block ++ rest ->
      map snd block = map (fun l => l +++ LF) body ++ [closing] ->
      name <> "" -> wsrun name = 0 ->
      plain (makefilere (TokenList_get ["$"])) name = true ->
      nested 1 body = true -> line_direction closing = (-1)%Z ->
      condstack st <> [] ->
      parsestream_iteration functionmap filename st
      = (cs <- cond_append (condstack st)
                 (SetVariable
                    (mkExpansion (Some (mkLocation filename n0 7)) [Literal name])
                    "=" (String.concat LF body)
                    (mkLocation filename (hd 0 (map fst block)) 0) None None) ;;
         Ok (Some (mkPstate false cs rest (plog st), EvDefine)))) /\
  (forall name body closing,
      name <> "" -> wsrun name = 0 ->
      plain (makefilere (TokenList_get ["$"])) name = true ->
      nested 1 body = true -> line_direction closing = (-1)%Z ->
      forallb unix_line (define_block name body closing) = true ->
      parsestream functionmap filename (define_block name body closing)
      = Ok [SetVariable (mkExpansion (Some (mkLocation filename 1 7)) [Literal name])
              "=" (String.concat LF body) (mkLocation filename 2 0) None None]).
Proof. split; [exact define_iteration|exact define_stream]. Qed.

End DefineLine.

End DefineFacts.

Lemma define_value_witness :
  parsestream_iteration sample_functionmap "Makefile"
    (mkPstate true [TopList []]
       [(1, "define A" +++ LF); (2, "define B" +++ LF); (3, "x" +++ LF);
        (4, "endef" +++ LF); (5, TAB +++ "y" +++ LF); (6, " endef # A" +++ LF);
        (7, "Z = 1" +++ LF)] [])
  = Ok (Some (mkPstate false
                [TopList
                   [SetVariable
                      (mkExpansion (Some (mkLocation "Makefile" 1 7)) [Literal "A"]) "="
                      ("define B" +++ LF +++ "x" +++ LF +++ "endef" +++ LF +++ TAB +++ "y")
                      (mkLocation "Makefile" 2 0) None None]]
                [(7, "Z = 1" +++ LF)] [], EvDefine)) /\
  parsestream sample_functionmap "Makefile"
    (define_block "FOO" ["line1"; "line2"] ("endef" +++ LF))
  = Ok [SetVariable (mkExpansion (Some (mkLocation "Makefile" 1 7)) [Literal "FOO"])
          "=" ("line1" +++ LF +++ "line2") (mkLocation "Makefile" 2 0) None None].
Proof.
  split.
  - apply (proj1 (define_value sample_functionmap "Makefile")
             (mkPstate true [TopList []]
                [(1, "define A" +++ LF); (2, "define B" +++ LF); (3, "x" +++ LF);
                 (4, "endef" +++ LF); (5, TAB +++ "y" +++ LF); (6, " endef # A" +++ LF);
                 (7, "Z = 1" +++ LF)] [])
             1 "A"
             [(2, "define B" +++ LF); (3, "x" +++ LF); (4, "endef" +++ LF);
              (5, TAB +++ "y" +++ LF); (6, " endef # A" +++ LF)]
             [(7, "Z = 1" +++ LF)]
             ["define B"; "x"; "endef"; TAB +++ "y"] (" endef # A" +++ LF));
      try reflexivity; discriminate.
  - apply (proj2 (define_value sample_functionmap "Makefile")
             "FOO" ["line1"; "line2"] ("endef" +++ LF));
      try reflexivity; discriminate.
Defined.

(** C3 as stated fails on its own example: the value of FOO has no
    newline at its end. *)
Lemma define_value_counterexample :
  parsestream sample_functionmap "Makefile"
    ["define FOO" +++ LF; "line1" +++ LF; "line2" +++ LF; "endef" +++ LF]
  = Ok [SetVariable (mkExpansion (Some (mkLocation "Makefile" 1 7)) [Literal "FOO"])
          "=" ("line1" +++ LF +++ "line2") (mkLocation "Makefile" 2 0) None None] /\
  forall name loc targetexp source,
    parsestream sample_functionmap "Makefile"
      ["define FOO" +++ LF; "line1" +++ LF; "line2" +++ LF; "endef" +++ LF]
    <> Ok [SetVariable name "=" ("line1" +++ LF +++ "line2" +++ LF) loc targetexp source].
Proof.
  split; [vm_compute; reflexivity|]. intros name loc targetexp source.
  vm_compute. intros H. discriminate H.
Qed.

(* ================================================================= *)
(** * Further properties of the code *)

(** ** findlast, getloc, append and readline *)

Section DataFacts.

Lemma findlast_from_all {A} (func : A -> bool) (l : list A) :
  forall f, forallb func l = true ->
    findlast_from func f l
    = match rev l with
      | y :: _ => Ok y
      | [] => match f with Some x => Ok x | None => Raise (UnboundLocalError "f") end
      end.
Proof.
  induction l as [|i l IH]; intros f; cbn [forallb findlast_from rev]; auto.
  rewrite andb_true_iff. intros [Hi Hl]. rewrite Hi, (IH _ Hl).
  destruct (rev l) as [|y r]; reflexivity.
Qed.

Lemma findlast_from_app {A} (func : A -> bool) (pre : list A) x rest :
  forall f, forallb func pre = true -> func x = false ->
    findlast_from func f (pre ++ x :: rest) = findlast_from func f pre.
Proof.
  induction pre as [|i pre IH]; intros f; cbn [forallb findlast_from app].
  - intros _ ->. reflexivity.
  - rewrite andb_true_iff. intros [Hi Hp] Hx. rewrite Hi. now apply IH.
Qed.

(** X1: [findlast] gives the last element of the longest prefix of the
    iterable whose elements all satisfy [func]; it raises
    UnboundLocalError exactly when that prefix is empty. *)
Theorem findlast_longest_prefix {A} (func : A -> bool) :
  (forall pre, forallb func pre = true ->
     findlast func pre
     = match rev pre with
       | y :: _ => Ok y
       | [] => Raise (UnboundLocalError "f")
       end) /\
  (forall pre x rest, forallb func pre = true -> func x = false ->
     findlast func (pre ++ x :: rest) = findlast func pre).
Proof.
  split.
  - intros pre H. unfold findlast. now rewrite findlast_from_all.
  - intros pre x rest H Hx. unfold findlast. now apply findlast_from_app.
Qed.

Lemma slice_append_l b e s t :
  e <= String.length s -> slice b e (s +++ t) = slice b e s.
Proof.
  unfold slice. revert b e t. induction s as [|c s IH]; intros b e t H.
  - cbn in H. replace e with 0 by lia. cbn. now destruct (sdrop b t).
  - destruct b as [|b].
    + cbn [sdrop]. rewrite Nat.sub_0_r. destruct e as [|e]; [reflexivity|].
      cbn [String.append stake]. f_equal.
      specialize (IH 0 e t). cbn [sdrop] in IH. rewrite Nat.sub_0_r in IH.
      apply IH. cbn in H. lia.
    + cbn [String.append sdrop]. destruct e as [|e].
      * cbn. now destruct (sdrop b (s +++ t)), (sdrop b s).
      * cbn [Nat.sub]. apply IH. cbn in H. lia.
Qed.

Lemma findlast_from_snoc {A} (func : A -> bool) (l : list A) x :
  forall f, func x = false ->
    findlast_from func f (l ++ [x]) = findlast_from func f l.
Proof.
  induction l as [|i l IH]; intros f Hx; cbn [findlast_from app].
  - now rewrite Hx.
  - destruct (func i); auto.
Qed.

Lemma clamp_inside d o : o < len d -> clamp d (Some (Z.of_nat o)) = Z.of_nat o.
Proof.
  intros H. unfold clamp.
  replace (Z.of_nat o >=? Z.of_nat (len d))%Z with false.
  - replace (Z.of_nat o =? -1)%Z with false; auto.
    symmetry. apply Z.eqb_neq. lia.
  - symmetry. rewrite Z.geb_leb. apply Z.leb_gt. lia.
Qed.

Lemma len_append d s loc : len (append d s loc) = len d + String.length s.
Proof. unfold len, append. cbn [data]. apply length_append. Qed.

(** X2: appending to a line does not move the locations already there:
    at every offset inside the old buffer [getloc] answers as before. *)
Theorem getloc_append_stable d s loc o :
  o < len d -> getloc_at (append d s loc) (Some o) = getloc_at d (Some o).
Proof.
  intros H. unfold getloc_at. rewrite !getloc_clamp. cbn [option_map].
  rewrite !clamp_inside by (rewrite ?len_append; lia).
  cbn [append locs data]. unfold findlast.
  rewrite findlast_from_snoc by (cbn [fst]; apply Z.leb_gt; lia).
  destruct (findlast_from _ None (locs d)) as [[b l]| |]; cbn [bind]; auto.
  rewrite Nat2Z.id. rewrite slice_append_l; [reflexivity|]. unfold len in H. lia.
Qed.

Lemma anchors_ok_append d s loc : anchors_ok d -> anchors_ok (append d s loc).
Proof.
  unfold anchors_ok. intros H. rewrite len_append. cbn [append locs].
  apply Forall_app. split.
  - eapply Forall_impl; [|exact H]. cbv beta. intros a. lia.
  - constructor; [cbn [fst]; lia|constructor].
Qed.

Lemma anchors_ok_readline d : anchors_ok d -> anchors_ok (snd (readline d)).
Proof.
  intros H. unfold readline. destruct (lineiter d) as [|[n l] rest]; [exact H|].
  cbn [snd]. apply anchors_ok_append. exact H.
Qed.

Lemma anchors_ok_new li p : anchors_ok (DynamicData li p).
Proof. constructor. Qed.

Lemma forallb_Forall_leb (o : nat) (l : list (nat * Location)) :
  Forall (fun ol => fst ol <= o) l ->
  forallb (fun ol : nat * Location => (Z.of_nat (fst ol) <=? Z.of_nat o)%Z) l = true.
Proof.
  induction 1 as [|a l Ha _ IH]; cbn [forallb]; auto.
  rewrite IH, andb_true_r. apply Z.leb_le. lia.
Qed.

(** X3: [readline] at the end of the stream answers False and leaves the
    line as it is; otherwise it appends the next physical line, and the
    location of byte [k] of that line is (path, lineno, 0) advanced by the
    [k] bytes before it. *)
Theorem readline_locates d :
  (lineiter d = [] -> readline d = (false, d)) /\
  (forall n l rest k,
      anchors_ok d -> lineiter d = (n, l) :: rest -> k < String.length l ->
      fst (readline d) = true /\
      data (snd (readline d)) = data d +++ l /\
      lineiter (snd (readline d)) = rest /\
      anchors_ok (snd (readline d)) /\
      getloc_at (snd (readline d)) (Some (len d + k))
      = Ok (loc_add (mkLocation (dpath d) n 0) (stake k l))).
Proof.
  split.
  - intros H. unfold readline. now rewrite H.
  - intros n l rest k Hok Hl Hk.
    pose proof (anchors_ok_readline d Hok) as Hok'.
    unfold readline in *. rewrite Hl in *. cbn [fst snd] in *.
    repeat split; auto.
    set (d0 := mkData (data d) (locs d) rest (dpath d)) in *.
    set (loc := mkLocation (dpath d) n 0).
    assert (L0 : len d0 = len d) by reflexivity.
    unfold getloc_at. rewrite getloc_clamp. cbn [option_map].
    rewrite Nat2Z.inj_add.
    rewrite <- Nat2Z.inj_add.
    rewrite clamp_inside by (rewrite len_append; lia).
    cbn [append locs data]. unfold findlast.
    rewrite findlast_from_all.
    + rewrite rev_app_distr. cbn [rev app bind]. rewrite Nat2Z.id.
      subst d0. cbn [data len]. unfold len. cbn [data]. f_equal.
      unfold slice. rewrite sdrop_append.
      replace (String.length (data d) + k - String.length (data d)) with k by lia.
      reflexivity.
    + rewrite forallb_app. cbn [forallb fst]. rewrite andb_true_r.
      apply andb_true_iff. split.
      * apply forallb_Forall_leb. eapply Forall_impl; [|exact Hok].
        cbv beta. intros a. subst d0. unfold len. cbn [data]. lia.
      * apply Z.leb_le. lia.
Qed.

End DataFacts.

Lemma findlast_longest_prefix_witness :
  findlast (fun n => n <? 3) [1; 2; 5; 0] = Ok 2 /\
  findlast (fun n => n <? 3) [1; 2] = Ok 2.
Proof.
  destruct (findlast_longest_prefix (fun n => n <? 3)) as [H1 H2].
  split.
  - transitivity (findlast (fun n => n <? 3) [1; 2]).
    + apply (H2 [1; 2] 5 [0]); reflexivity.
    + apply (H1 [1; 2]). reflexivity.
  - apply (H1 [1; 2]). reflexivity.
Defined.

Lemma getloc_append_stable_witness :
  getloc_at (append (fromstring ("ab" +++ LF) (mkLocation "Makefile" 1 0))
               ("cd" +++ LF) (mkLocation "Makefile" 2 0)) (Some 1)
  = getloc_at (fromstring ("ab" +++ LF) (mkLocation "Makefile" 1 0)) (Some 1).
Proof. apply getloc_append_stable. cbn. lia. Defined.

Lemma readline_locates_witness :
  getloc_at (snd (readline (first_line ["all:" +++ LF; TAB +++ "cc" +++ LF])))
    (Some (5 + 2))
  = Ok (mkLocation "Makefile" 2 2).
Proof.
  apply (proj2 (readline_locates (first_line ["all:" +++ LF; TAB +++ "cc" +++ LF]))
           2 (TAB +++ "cc" +++ LF) [] 2).
  - apply anchors_ok_readline. apply anchors_ok_new.
  - reflexivity.
  - cbn. lia.
Defined.

(** ** skipwhitespace, findtoken and iterlines *)

Section TokenFacts.

Lemma allspace_wsrun s : allspace (stake (wsrun s) s) = true.
Proof.
  induction s as [|c s IH]; cbn [wsrun]; [reflexivity|].
  destruct (isspace c) eqn:E; [|reflexivity].
  cbn [stake allspace]. now rewrite E, IH.
Qed.

Lemma wsrun_stops s : wsrun (sdrop (wsrun s) s) = 0.
Proof.
  induction s as [|c s IH]; cbn [wsrun]; [reflexivity|].
  destruct (isspace c) eqn:E; cbn [sdrop wsrun]; [exact IH|now rewrite E].
Qed.

Lemma wsrun_head c r : wsrun (String c r) = 0 -> isspace c = false.
Proof. cbn [wsrun]. destruct (isspace c); [discriminate|reflexivity]. Qed.

(** X4: [skipwhitespace] returns the first offset at or after [offset]
    whose byte is not whitespace, or the end of the buffer; an offset at
    or beyond the end is returned as it is. *)
Theorem skipwhitespace_spec d o :
  o <= skipwhitespace d o /\
  (o <= len d -> skipwhitespace d o <= len d) /\
  (len d <= o -> skipwhitespace d o = o) /\
  allspace (slice o (skipwhitespace d o) (data d)) = true /\
  (forall c rest, sdrop (skipwhitespace d o) (data d) = String c rest ->
                  isspace c = false) /\
  skipwhitespace d (skipwhitespace d o) = skipwhitespace d o.
Proof.
  split; [apply skipwhitespace_ge|]. split; [apply skipwhitespace_le|].
  unfold skipwhitespace, len.
  assert (S1 : sdrop (o + wsrun (sdrop o (data d))) (data d)
               = sdrop (wsrun (sdrop o (data d))) (sdrop o (data d)))
    by now rewrite sdrop_sdrop.
  split; [|split; [|split]].
  - intros H. rewrite sdrop_all by exact H. cbn. lia.
  - unfold slice. replace (o + wsrun (sdrop o (data d)) - o)
      with (wsrun (sdrop o (data d))) by lia.
    apply allspace_wsrun.
  - intros c rest E. apply (wsrun_head c rest). rewrite <- E, S1. apply wsrun_stops.
  - rewrite S1, wsrun_stops. lia.
Qed.

Lemma wslist_match_spec tokens s o t e :
  wslist_match tokens s o = Some (t, e) ->
  In t tokens /\ startswith t s = true /\
  e = o + String.length t + wsrun (sdrop (String.length t) s) /\
  (1 <= wsrun (sdrop (String.length t) s) \/
   String.length (sdrop (String.length t) s) = 0).
Proof.
  induction tokens as [|t0 rest IH]; cbn [wslist_match]; [discriminate|].
  cbv zeta. destruct (startswith t0 s && _) eqn:E.
  - intros H; injection H as <- <-. apply andb_true_iff in E as [E1 E2].
    split; [now left|]. split; [exact E1|]. split; [reflexivity|].
    apply orb_true_iff in E2 as [E2|E2];
      [left; now apply Nat.leb_le|right; now apply Nat.eqb_eq].
  - intros H. destruct (IH H) as (A & B). split; [now right|exact B].
Qed.

Lemma wslist_token tl t :
  In t (wslist tl) ->
  (tlist tl <> [] -> In t (tlist tl)) /\ (tlist tl = [] -> t = "").
Proof.
  unfold wslist. destruct (tlist tl) as [|x l].
  - intros [<-|[]]. split; [contradiction|reflexivity].
  - intros H. split; [auto|discriminate].
Qed.

Lemma simplere_token tl s n :
  match_alts (simplere tl) s = Some n ->
  (tlist tl <> [] -> In (stake n s) (tlist tl)) /\ (tlist tl = [] -> n = 0) /\
  n <= String.length s.
Proof.
  intros H. pose proof (match_alts_in _ _ _ H) as (a & Hin & Hm).
  pose proof (match_alt_bound _ _ _ Hm) as [Hb _].
  unfold simplere, escapedlist in Hin. destruct (tlist tl) as [|x l].
  - destruct Hin as [<-|[]]. cbn in Hm. injection Hm as <-.
    split; [contradiction|]. split; [reflexivity|lia].
  - apply in_map_iff in Hin as (t & <- & Hin). cbn [match_alt] in Hm.
    destruct (startswith t s) eqn:E; [|discriminate]. injection Hm as <-.
    rewrite (startswith_stake _ _ E). split; [auto|]. split; [discriminate|exact Hb].
Qed.

(** X5: [findtoken] looks at the buffer at [o], or at its end when [o]
    is beyond it.  With [skipws] set, a token found is one of the list
    (the empty string when the list is empty), stands in the buffer there,
    and is followed by whitespace or by the end of the buffer; the new
    offset is the one [skipwhitespace] gives after the token.  Without
    [skipws], a token found is one of the list (or the empty string),
    stands there, and the new offset is the one after it.  When nothing is
    found, in either mode, the offset comes back as it was given; over the
    empty list something is always found, so that beyond the end the
    answer is the empty string and the length of the buffer. *)
Theorem findtoken_spec d o tl :
  (forall t e, findtoken d o tl true = (Some t, e) ->
     (tlist tl <> [] -> In t (tlist tl)) /\ (tlist tl = [] -> t = "") /\
     slice (Nat.min o (len d)) (Nat.min o (len d) + String.length t) (data d) = t /\
     e = skipwhitespace d (Nat.min o (len d) + String.length t) /\
     (Nat.min o (len d) + String.length t < e \/
      Nat.min o (len d) + String.length t = len d)) /\
  (forall t e, findtoken d o tl false = (Some t, e) ->
     (tlist tl <> [] -> In t (tlist tl)) /\ (tlist tl = [] -> t = "") /\
     slice (Nat.min o (len d)) (Nat.min o (len d) + String.length t) (data d) = t /\
     e = Nat.min o (len d) + String.length t) /\
  (forall sk e, findtoken d o tl sk = (None, e) -> e = o) /\
  (forall sk, tlist tl = [] -> len d <= o -> findtoken d o tl sk = (Some "", len d)).
Proof.
  split; [|split; [|split]].
  - intros t e. unfold findtoken. cbv zeta.
    set (pos := Nat.min o (len d)).
    destruct (wslist_match _ _ _) as [[t0 e0]|] eqn:E; [|discriminate].
    intros H; injection H as -> ->.
    apply wslist_match_spec in E as (A & B & C & D).
    rewrite sdrop_sdrop in C, D.
    destruct (wslist_token _ _ A) as [A1 A2].
    split; [exact A1|]. split; [exact A2|]. split; [|split].
    + unfold slice. replace (pos + String.length t - pos) with (String.length t) by lia.
      now apply startswith_stake.
    + unfold skipwhitespace. lia.
    + destruct D as [D|D]; [left; lia|right].
      apply startswith_length in B. rewrite length_sdrop in B, D.
      unfold len in *. lia.
  - intros t e. unfold findtoken. cbv zeta.
    set (pos := Nat.min o (len d)).
    destruct (match_alts _ _) as [n|] eqn:E; [|discriminate].
    intros H; injection H as <- <-.
    destruct (simplere_token _ _ _ E) as (A1 & A2 & A3).
    rewrite length_sdrop in A3.
    assert (L : String.length (slice pos (pos + n) (data d)) = n).
    { unfold slice. rewrite length_stake, length_sdrop. lia. }
    rewrite L. split; [|split; [|split; reflexivity]].
    + unfold slice. replace (pos + n - pos) with n by lia. exact A1.
    + intros H. rewrite (A2 H). unfold slice.
      replace (pos + 0 - pos) with 0 by lia. reflexivity.
  - intros sk e H.
    assert (F : fst (findtoken d o tl sk) = None) by now rewrite H.
    apply findtoken_none in F. congruence.
  - intros sk Ht Ho. unfold findtoken, wslist, simplere. rewrite Ht. cbv zeta.
    rewrite Nat.min_r by exact Ho. unfold len at 1 2.
    rewrite sdrop_all by lia.
    destruct sk; cbn; unfold slice; rewrite ?Nat.add_0_r, ?Nat.sub_diag; reflexivity.
Qed.

Lemma endswith_crlf l : endswith (CR +++ LF) (l +++ CR +++ LF) = true.
Proof.
  unfold endswith. rewrite !length_append.
  change (String.length CR) with 1. change (String.length LF) with 1.
  replace (1 + 1 <=? String.length l + (1 + 1)) with true
    by (symmetry; apply Nat.leb_le; lia).
  replace (String.length l + (1 + 1) - (1 + 1)) with (String.length l) by lia.
  rewrite sdrop_append. cbn [andb]. apply String.eqb_refl.
Qed.

Lemma iterlines_from_nth fd :
  forall n i l, nth_error fd i = Some l ->
    nth_error (iterlines_from n fd) i = Some (S (n + i), crlf_to_lf l).
Proof.
  induction fd as [|x fd IH]; intros n [|i] l; cbn [nth_error iterlines_from];
    try discriminate.
  - intros H; injection H as ->. now rewrite Nat.add_0_r.
  - intros H. rewrite (IH (S n) i l H). f_equal. f_equal. lia.
Qed.

(** X6: [iterlines] numbers the lines of the stream from 1, in order and
    without dropping any; a line that ends in CR LF loses that CR, every
    other line is passed through untouched. *)
Theorem iterlines_spec :
  (forall fd, List.length (iterlines fd) = List.length fd) /\
  (forall fd i l, nth_error fd i = Some l ->
     nth_error (iterlines fd) i = Some (S i, crlf_to_lf l)) /\
  (forall l, crlf_to_lf (l +++ CR +++ LF) = l +++ LF) /\
  (forall l, endswith (CR +++ LF) l = false -> crlf_to_lf l = l).
Proof.
  split; [intros fd; apply iterlines_from_length|].
  split; [intros fd i l H; apply (iterlines_from_nth fd 0 i l H)|].
  split.
  - intros l. unfold crlf_to_lf.
    change (String (ascii_of_nat 13) LF) with (CR +++ LF).
    rewrite endswith_crlf, !length_append.
    change (String.length CR) with 1. change (String.length LF) with 1.
    replace (String.length l + (1 + 1) - 2) with (String.length l) by lia.
    now rewrite stake_append.
  - intros l H. unfold crlf_to_lf.
    change (String (ascii_of_nat 13) LF) with (CR +++ LF). now rewrite H.
Qed.

End TokenFacts.

Lemma skipwhitespace_spec_witness :
  skipwhitespace sample_line 4 <= len sample_line.
Proof.
  apply (proj1 (proj2 (skipwhitespace_spec sample_line 4))). cbn. lia.
Defined.

Lemma findtoken_spec_witness :
  skipwhitespace sample_line (Nat.min 0 (len sample_line) + String.length "all:") = 5.
Proof.
  symmetry.
  apply (proj1 (findtoken_spec sample_line 0 (TokenList_get ["all:"; "clean:"]))
           "all:" 5 eq_refl).
Defined.

Lemma iterlines_spec_witness :
  nth_error (iterlines ["a" +++ LF; "b" +++ CR +++ LF]) 1 = Some (2, "b" +++ LF).
Proof.
  apply (proj1 (proj2 iterlines_spec) ["a" +++ LF; "b" +++ CR +++ LF] 1
           ("b" +++ CR +++ LF)).
  reflexivity.
Defined.

(** ** The line only grows *)

Section Forward.

Variable R : Data -> Data -> Prop.
Hypothesis R_refl : forall d, R d d.
Hypothesis R_readline : forall d, R d (snd (readline d)).
Hypothesis R_trans : forall a b c, R a b -> R b c -> R a c.

Ltac crunch1 :=
  match goal with
  | |- lift_turn ?r _ = _ -> _ => destruct r eqn:?; cbn [lift_turn]
  | |- (if ?c then _ else _) = _ -> _ => destruct c eqn:?
  end.
Ltac crunch := repeat crunch1; try discriminate.

Ltac leaves :=
  repeat match goal with
         | |- context [if ?c then _ else _] => destruct c
         | |- context [match re_search ?a ?b ?c with _ => _ end] =>
             destruct (re_search a b c) as [[? ?]|]
         | |- context [match getloc_at ?a ?b with _ => _ end] =>
             destruct (getloc_at a b)
         end.

Lemma gen_step_rel drain g d :
  (forall g0 d0 d0', drain g0 d0 = Ok d0' -> R d0 d0') ->
  match gen_step drain g d with
  | Yield _ _ d' | StopIteration d' => R d d'
  | _ => True
  end.
Proof.
  intros Hd. unfold gen_step.
  pose proof (R_readline d) as R1. pose proof (R_refl d) as R0.
  pose proof (R_trans _ _ _ R1 (R_readline (snd (readline d)))) as R2.
  destruct (g_func g).
  - unfold iterdata_next, iterdata_loop.
    destruct (g_pc g) as [[o|]|o|e|e| |]; leaves; cbn; auto.
  - unfold itermakefilechars_next, itermakefilechars_loop, yield_token.
    destruct (g_pc g) as [[o|]|o|e|e| |]; cbv zeta.
    all: try match goal with
             | |- context [match ?f ?a ?b with Ok _ => _ | Raise _ => _
                                            | OutOfFuel => _ end] =>
                 destruct (f a b) eqn:E
             end.
    all: leaves; cbn; eauto.
  - unfold itercommandchars_next, itercommandchars_loop, yield_token.
    destruct (g_pc g) as [[o|]|o|e|e| |]; cbv zeta; leaves; cbn; auto.
  - unfold iterdefinechars_next, iterdefinechars_loop, yield_token,
      unterminated_define.
    destruct (g_pc g) as [[o|]|o|e|e| |]; cbv zeta; leaves; cbn; auto.
Qed.

Lemma exhaust_rel fuel :
  forall g d d', exhaust fuel g d = Ok d' -> R d d'.
Proof.
  induction fuel as [|fuel IH]; intros g d d'; [discriminate|].
  cbn [exhaust].
  pose proof (gen_step_rel (exhaust fuel) g d IH) as G.
  destruct (gen_step (exhaust fuel) g d) as [y g1 d1|d1|e|]; try discriminate.
  - intros H. apply R_trans with d1; eauto.
  - intros H; injection H as <-. exact G.
Qed.

Lemma next_rel fuel g d :
  match next fuel g d with
  | Yield _ _ d' | StopIteration d' => R d d'
  | _ => True
  end.
Proof. apply gen_step_rel. apply exhaust_rel. Qed.

Lemma collect_rel fuel :
  forall g d ys d', collect fuel g d = Ok (ys, d') -> R d d'.
Proof.
  induction fuel as [|fuel IH]; intros g d ys d'; [discriminate|].
  cbn [collect]. pose proof (next_rel fuel g d) as G.
  destruct (next fuel g d) as [y g1 d1|d1|e|]; try discriminate.
  - destruct (collect fuel g1 d1) as [[ys1 d2]| |] eqn:Ec; cbn [bind]; try discriminate.
    intros H; injection H as <- <-. apply R_trans with d1; eauto.
  - intros H; injection H as <- <-. exact G.
Qed.

Lemma ensureend_loop_rel fuel :
  forall g d msg d', ensureend_loop fuel g d msg = Ok d' -> R d d'.
Proof.
  induction fuel as [|fuel IH]; intros g d msg d'; [discriminate|].
  cbn [ensureend_loop]. pose proof (next_rel fuel g d) as G.
  destruct (next fuel g d) as [[[[c t] o] oo] g1 d1|d1|e|]; try discriminate.
  - destruct (negb _ && _).
    + destruct (getloc_at d1 o); discriminate.
    + intros H. apply R_trans with d1; eauto.
  - intros H; injection H as <-. exact G.
Qed.

Variable functionmap : list (string * nat).

Lemma parse_turn_rel fuel iterfunc stack di d offset log :
  match parse_turn functionmap fuel iterfunc stack di d offset log with
  | Continue _ _ d' _ l' | Break _ d' _ l' => R d d' /\ exists w, l' = log ++ w
  | Return r => R d (p_data r) /\ exists w, p_log r = log ++ w
  | _ => True
  end.
Proof.
  assert (L0 : exists w : list warning, log = log ++ w)
    by (exists []; now rewrite app_nil_r).
  unfold parse_turn.
  destruct stack as [|f0 below0]; [exact I|].
  pose proof (next_rel fuel di d) as En.
  destruct (next fuel di d) as [y g1 d1|d1|e|]; try exact I.
  2:{ split; auto. }
  destruct y as [[[c t] to] ao].
  destruct (stack_append (f0 :: below0) (Literal c)) as [|f1 below1] eqn:Ea;
    [exact I|].
  destruct t as [t|]; [|split; auto].
  destruct to as [to|]; cbn [notnone lift_turn]; [|exact I].
  destruct ao as [ao|]; cbn [notnone lift_turn]; [|exact I].
  destruct (String.eqb t "$") eqn:Ed.
  - destruct (parse_dollar _ _ _ _ _ _ _) eqn:Ep; try exact I.
    + unfold parse_dollar in Ep. revert Ep.
      destruct (len d1 =? ao); [discriminate|].
      destruct (getloc_at d1 (Some to)); cbn [lift_turn]; try discriminate.
      destruct (findtoken _ _ _ _) as [fname o'].
      repeat match goal with
         | |- context [if ?c then _ else _] => destruct c
         | |- context [lift_turn (top_tokenlist ?x) _] =>
             destruct (top_tokenlist x) eqn:?; cbn [lift_turn]
         | |- context [match ?x with Some _ => _ | None => _ end] => destruct x
         end; try discriminate.
      all: intros H; injection H as <- <- <- <- <-; split; auto.
    + apply parse_dollar_other in Ep as (_ & -> & _ & ->). split; auto.
    + exfalso. revert Ep. apply parse_dollar_other.
  - destruct (parse_token _ _ _ _ _ _ _ _) eqn:Ep; try exact I.
    + revert Ep. unfold parse_token. cbv zeta.
      destruct (is_open t) eqn:Eo.
      { crunch. intros H; injection H as <- <- <- <- <-. split; auto. }
      destruct (parsestate f1) eqn:Eps; cbv iota; crunch.
      all: intros H; injection H as <- <- <- <- <-; split; auto.
      eexists. reflexivity.
    + exfalso. revert Ep. apply parse_token_other.
    + apply parse_token_return in Ep as (_ & _ & _ & _ & _ & -> & ->). split; auto.
Qed.

Lemma parse_loop_rel fuel :
  forall iterfunc stack di d offset log r,
    parse_loop functionmap fuel iterfunc stack di d offset log = Ok r ->
    R d (p_data r) /\ exists w, p_log r = log ++ w.
Proof.
  induction fuel as [|fuel IH]; intros iterfunc stack di d offset log r; [discriminate|].
  cbn [parse_loop].
  pose proof (parse_turn_rel fuel iterfunc stack di d offset log) as F.
  destruct (parse_turn functionmap fuel iterfunc stack di d offset log)
    as [stack' di' d' offset' log'|stack' d' offset' log'|r'|e|] eqn:Et;
    try discriminate.
  - intros H. destruct F as (F1 & w1 & ->).
    destruct (IH _ _ _ _ _ _ _ H) as (F2 & w2 & ->).
    split; [eauto|]. exists (w1 ++ w2). now rewrite app_assoc.
  - intros H. pose proof (parse_end_data _ _ _ _ _ H) as E1.
    assert (E2 : p_log r = log').
    { revert H. unfold parse_end. destruct (negb _).
      - destruct (getloc_at d' offset'); discriminate.
      - destruct stack' as [|f below]; [discriminate|].
        destruct (assert _); cbn [bind]; try discriminate.
        destruct (attr _ _); cbn [bind]; try discriminate.
        intros H; injection H as <-. reflexivity. }
    rewrite E1, E2. exact F.
  - intros H; injection H as <-. exact F.
Qed.

Lemma parsemakesyntax_rel d log startat stopon iterfunc r :
  parsemakesyntax functionmap d log startat stopon iterfunc = Ok r ->
  R d (p_data r) /\ exists w, p_log r = log ++ w.
Proof.
  unfold parsemakesyntax.
  destruct (parse_start d startat stopon iterfunc) as [[stack di]| |]; cbn [bind];
    try discriminate.
  apply parse_loop_rel.
Qed.

End Forward.

Section ReadsOn.

Lemma reads_on_refl d : reads_on d d.
Proof. exists []. cbn. now rewrite append_empty_r. Qed.

Lemma reads_on_readline d : reads_on d (snd (readline d)).
Proof.
  unfold readline. destruct (lineiter d) as [|[n l] rest] eqn:E;
    [apply reads_on_refl|].
  exists [(n, l)]. cbn. rewrite E. auto.
Qed.

Lemma concat_empty_app (a b : list string) :
  String.concat "" (a ++ b) = String.concat "" a +++ String.concat "" b.
Proof.
  induction a as [|x a IH]; [reflexivity|].
  cbn [app]. rewrite !concat_empty_cons, IH. now rewrite append_assoc.
Qed.

Lemma reads_on_trans a b c : reads_on a b -> reads_on b c -> reads_on a c.
Proof.
  intros (l1 & A1 & A2 & A3) (l2 & B1 & B2 & B3). exists (l1 ++ l2).
  rewrite A1, B1, B2, A2, B3, A3, map_app, concat_empty_app, <- app_assoc.
  now rewrite append_assoc.
Qed.

(** X7: the iterators only read forward.  Whatever a generator of any of
    the four kinds does when it is resumed, and whatever [_iterflatten]
    and [ensureend] do, the buffer afterwards is the buffer before
    followed by the physical lines taken from the line iterator, in
    order: nothing already in the buffer is changed and no line is
    skipped. *)
Theorem iterators_read_forward :
  (forall fuel g d,
      match next fuel g d with
      | Yield _ _ d' | StopIteration d' => reads_on d d'
      | _ => True
      end) /\
  (forall iter d offset s d',
      iterflatten iter d offset = Ok (s, d') -> reads_on d d') /\
  (forall d offset msg d', ensureend d offset msg = Ok d' -> reads_on d d').
Proof.
  split; [|split].
  - intros fuel g d.
    apply (next_rel reads_on reads_on_refl reads_on_readline reads_on_trans).
  - intros iter d offset s d'. unfold iterflatten.
    destruct (collect _ _ _) as [[ys d1]| |] eqn:E; cbn [bind]; try discriminate.
    intros H; injection H as <- <-.
    eapply (collect_rel reads_on reads_on_refl reads_on_readline reads_on_trans).
    exact E.
  - intros d offset msg d'.
    apply (ensureend_loop_rel reads_on reads_on_refl reads_on_readline reads_on_trans).
Qed.

(** X8: [parsemakesyntax] hands back the line it was given with, at most,
    further physical lines read into it, and the warnings logged before
    with, at most, new ones after them. *)
Theorem parsemakesyntax_reads_forward functionmap d log startat stopon iterfunc r :
  parsemakesyntax functionmap d log startat stopon iterfunc = Ok r ->
  reads_on d (p_data r) /\ exists w, p_log r = log ++ w.
Proof.
  apply (parsemakesyntax_rel reads_on reads_on_refl reads_on_readline reads_on_trans).
Qed.

End ReadsOn.

Lemma iterators_read_forward_witness :
  reads_on (first_line ["a = b " +++ BS +++ LF; "  c" +++ LF; "d" +++ LF])
    (mkData ("a = b " +++ BS +++ LF +++ "  c" +++ LF)
       [(0, mkLocation "Makefile" 1 0); (8, mkLocation "Makefile" 2 0)]
       [(3, "d" +++ LF)] "Makefile").
Proof.
  apply (proj1 (proj2 iterators_read_forward) Itermakefilechars
           (first_line ["a = b " +++ BS +++ LF; "  c" +++ LF; "d" +++ LF])
           (Some 0) "a = b c").
  vm_compute. reflexivity.
Defined.

Lemma parsemakesyntax_reads_forward_witness :
  reads_on (first_line ["a = $(b) " +++ BS +++ LF; "  c" +++ LF; "d" +++ LF])
    (mkData ("a = $(b) " +++ BS +++ LF +++ "  c" +++ LF)
       [(0, mkLocation "Makefile" 1 0); (11, mkLocation "Makefile" 2 0)]
       [(3, "d" +++ LF)] "Makefile").
Proof.
  refine (proj1 (parsemakesyntax_reads_forward sample_functionmap
           (first_line ["a = $(b) " +++ BS +++ LF; "  c" +++ LF; "d" +++ LF])
           [] 3 [] Itermakefilechars
           (mkParsed _ None None _ []) _)).
  vm_compute. reflexivity.
Defined.

(** ** Physical lines *)

Section PhysicalLines.

Lemma one_line_app_r a b : one_line (a +++ b) = true -> one_line b = true.
Proof.
  induction a as [|c a IH]; cbn [String.append one_line]; auto.
  destruct (Ascii.eqb c (ascii_of_nat 10)); auto.
  intros H. apply String.eqb_eq in H. destruct a; [|discriminate].
  cbn in H. now subst.
Qed.

Lemma one_line_sdrop n s : one_line s = true -> one_line (sdrop n s) = true.
Proof.
  intros H. rewrite <- (stake_sdrop n s) in H. now apply one_line_app_r in H.
Qed.

Lemma one_line_lf_last a b : one_line (a +++ LF +++ b) = true -> b = "".
Proof.
  induction a as [|c a IH]; cbn [String.append one_line].
  - unfold LF. cbn [String.append one_line]. rewrite Ascii.eqb_refl.
    apply String.eqb_eq.
  - destruct (Ascii.eqb c (ascii_of_nat 10)); auto.
    intros H. apply String.eqb_eq in H. destruct a; discriminate.
Qed.

Lemma sdrop_split a b s : a <= b -> sdrop a s = slice a b s +++ sdrop b s.
Proof.
  intros H. unfold slice. rewrite <- (stake_sdrop (b - a) (sdrop a s)) at 1.
  rewrite sdrop_sdrop. now replace (a + (b - a)) with b by lia.
Qed.

Lemma tail_later s o e :
  o <= e -> one_line (sdrop o s) = true -> one_line (sdrop e s) = true.
Proof.
  intros H T. replace e with (o + (e - o)) by lia. rewrite <- sdrop_sdrop.
  now apply one_line_sdrop.
Qed.

(** A match that ends in a newline ends the buffer. *)
Lemma token_at_end d offset start e t :
  offset <= start -> start <= e -> e <= len d ->
  slice start e (data d) = t +++ LF ->
  one_line (sdrop offset (data d)) = true -> e = len d.
Proof.
  intros H1 H2 H3 Ht T.
  rewrite (sdrop_split offset start) in T by exact H1.
  rewrite (sdrop_split start e) in T by exact H2.
  rewrite Ht, (append_assoc t LF), <- (append_assoc _ t) in T.
  apply one_line_lf_last in T.
  assert (L : String.length (sdrop e (data d)) = 0) by now rewrite T.
  rewrite length_sdrop in L. unfold len in *. lia.
Qed.

Lemma endswith_LF t : endswith LF t = true -> exists t', t = t' +++ LF.
Proof.
  unfold endswith. rewrite andb_true_iff. intros [_ H].
  apply String.eqb_eq in H.
  exists (stake (String.length t - String.length LF) t).
  pose proof (stake_sdrop (String.length t - String.length LF) t) as S.
  rewrite H in S. now symmetry.
Qed.

Lemma sdrop_append_ge a b o :
  String.length a <= o -> sdrop o (a +++ b) = sdrop (o - String.length a) b.
Proof.
  intros H. replace o with (String.length a + (o - String.length a)) at 1 by lia.
  now rewrite <- sdrop_sdrop, sdrop_append.
Qed.

End PhysicalLines.

(** ** Flattening a line: text, comments, escapes *)

Section TextFacts.

Ltac len_simpl :=
  rewrite ?length_append;
  change (String.length BS) with 1; change (String.length LF) with 1;
  change (String.length TAB) with 1;
  cbn [String.length].

Lemma hash_match rest :
  match_alts (makefilere emptytokenlist) ("#" +++ rest) = Some 1.
Proof. destruct rest; reflexivity. Qed.

Ltac side :=
  first [ assumption | reflexivity | discriminate | apply hash_match
        | match goal with H : data _ = _ |- _ => rewrite H end;
          now rewrite ?append_assoc
        | len_simpl; lia ].

(** A comment sign after text [s] in which no match starts. *)
Lemma makefile_comment_step g d pre s rest offset :
  data d = pre +++ s +++ "#" +++ rest ->
  offset = String.length pre ->
  plain (makefilere (g_tokenlist g)) s = true ->
  match_alts (makefilere (g_tokenlist g)) ("#" +++ rest) = Some 1 ->
  itermakefilechars_loop g d offset
  = Yield (notoken s) (at_pc g (AfterComment (offset + String.length s + 1))) d.
Proof.
  intros Hd -> Hp Hm. unfold itermakefilechars_loop, len. rewrite Hd.
  replace (String.length pre <? _) with true.
  2:{ symmetry. apply Nat.ltb_lt. len_simpl. lia. }
  rewrite (re_search_token _ pre s ("#" +++ rest) _ Hp Hm).
  assert (Et : slice (String.length pre + String.length s)
                 (String.length pre + String.length s + 1)
                 (pre +++ s +++ "#" +++ rest) = "#").
  { rewrite <- (append_assoc pre s). rewrite <- length_append.
    apply (slice_middle (pre +++ s) "#" rest). }
  cbv zeta. rewrite Et.
  change (String.eqb "#" LF) with false. change (String.eqb "#" "#") with true.
  cbv iota. now rewrite slice_middle.
Qed.

(** An escaped comment sign after text [s] in which no match starts. *)
Lemma makefile_escaped_hash_step g d pre s rest offset :
  data d = pre +++ s +++ (BS +++ "#") +++ rest ->
  offset = String.length pre ->
  plain (makefilere (g_tokenlist g)) s = true ->
  match_alts (makefilere (g_tokenlist g)) ((BS +++ "#") +++ rest) = Some 2 ->
  itermakefilechars_loop g d offset
  = Yield (notoken (s +++ "#")) (at_pc g (AtLoop (offset + String.length s + 2))) d.
Proof.
  intros Hd -> Hp Hm. unfold itermakefilechars_loop, len. rewrite Hd.
  replace (String.length pre <? _) with true.
  2:{ symmetry. apply Nat.ltb_lt. len_simpl. lia. }
  rewrite (re_search_token _ pre s ((BS +++ "#") +++ rest) _ Hp Hm).
  assert (Et : slice (String.length pre + String.length s)
                 (String.length pre + String.length s + 2)
                 (pre +++ s +++ (BS +++ "#") +++ rest) = BS +++ "#").
  { rewrite <- (append_assoc pre s). rewrite <- length_append.
    apply (slice_middle (pre +++ s) (BS +++ "#") rest). }
  cbv zeta. rewrite Et.
  change (String.eqb (BS +++ "#") LF) with false.
  change (String.eqb (BS +++ "#") "#") with false.
  change (String.eqb (BS +++ "#") (BS +++ BS +++ "#")) with false.
  change (String.eqb (BS +++ "#") (BS +++ LF)) with false.
  change (startswith BS (BS +++ "#") && endswith LF (BS +++ "#")) with false.
  change (String.eqb (BS +++ "#") (BS +++ "#")) with true.
  cbv iota. now rewrite slice_middle.
Qed.

(** An escaped byte in a command: the backslash stays. *)
Lemma command_escape_step g d pre s c rest offset :
  data d = pre +++ s +++ (BS +++ c) +++ rest ->
  offset = String.length pre ->
  String.length c = 1 -> c <> LF ->
  str_in c (tlist (g_tokenlist g)) = false ->
  plain (continuationre (g_tokenlist g)) s = true ->
  match_alts (continuationre (g_tokenlist g)) ((BS +++ c) +++ rest) = Some 2 ->
  itercommandchars_loop g d offset
  = Yield (notoken (s +++ BS +++ c)) (at_pc g (AtLoop (offset + String.length s + 2))) d.
Proof.
  intros Hd -> Hc Hn Hin Hp Hm. unfold itercommandchars_loop, len. rewrite Hd.
  replace (String.length pre <? _) with true.
  2:{ symmetry. apply Nat.ltb_lt. len_simpl. lia. }
  rewrite (re_search_token _ pre s ((BS +++ c) +++ rest) _ Hp Hm).
  assert (Et : slice (String.length pre + String.length s)
                 (String.length pre + String.length s + 2)
                 (pre +++ s +++ (BS +++ c) +++ rest) = BS +++ c).
  { rewrite <- (append_assoc pre s). rewrite <- length_append.
    apply (slice_middle' (pre +++ s) (BS +++ c) rest); auto. len_simpl. lia. }
  cbv zeta. rewrite Et.
  destruct c as [|a [|? ?]]; try discriminate.
  change (String.eqb (BS +++ String a "") LF) with false.
  replace (String.eqb (BS +++ String a "") (BS +++ LF)) with false.
  2:{ symmetry. apply String.eqb_neq. intros E. apply Hn.
      cbn in E. injection E as ->. reflexivity. }
  unfold yield_token. change (startswith BS (BS +++ String a "")) with true.
  cbv iota. change (sdrop 1 (BS +++ String a "")) with (String a "").
  rewrite Hin, Hd.
  replace (slice (String.length pre) (String.length pre + String.length s + 2)
             (pre +++ s +++ (BS +++ String a "") +++ rest))
    with (s +++ BS +++ String a ""); [reflexivity|].
  symmetry. rewrite <- (append_assoc s). rewrite <- (append_assoc s).
  rewrite (append_assoc s BS).
  apply slice_middle'; auto. len_simpl. lia.
Qed.

Lemma next_command_start fuel tl o d :
  next fuel (new_generator Itercommandchars (Some o) tl) d
  = itercommandchars_loop (new_generator Itercommandchars (Some o) tl) d o.
Proof. reflexivity. Qed.

(** A line without comment or backslash, flattened from [pre] on. *)
Lemma flatten_makefile_line d pre s :
  data d = pre +++ s +++ LF ->
  plain (makefilere emptytokenlist) s = true ->
  iterflatten Itermakefilechars d (Some (String.length pre)) = Ok (s, d).
Proof.
  intros Hd Hp. unfold iterflatten. rewrite fuel_of_S.
  cbn [collect]. rewrite next_makefile_start.
  rewrite (makefile_newline_step _ d pre s) by side.
  change (next ?f (at_pc ?g AfterLast) d) with (StopIteration d).
  reflexivity.
Qed.

Lemma flatten_command_line d pre s :
  data d = pre +++ s +++ LF ->
  plain (continuationre emptytokenlist) s = true ->
  iterflatten Itercommandchars d (Some (String.length pre)) = Ok (s, d).
Proof.
  intros Hd Hp. unfold iterflatten. rewrite fuel_of_S.
  cbn [collect]. rewrite next_command_start.
  rewrite (command_newline_step _ d pre s) by side.
  change (next ?f (at_pc ?g AfterLast) d) with (StopIteration d).
  reflexivity.
Qed.

(** X9: a line without backslash comes out of [_iterflatten] as its text
    from [offset] to its newline, the newline left out; in the makefile
    regime the text has no comment sign either, in the command regime a
    comment sign is text like any other. *)
Theorem plain_line_flattens d pre s :
  data d = pre +++ s +++ LF ->
  (plain (makefilere emptytokenlist) s = true ->
   flattened Itermakefilechars d (String.length pre) = Ok s) /\
  (plain (continuationre emptytokenlist) s = true ->
   flattened Itercommandchars d (String.length pre) = Ok s).
Proof.
  intros Hd. split; intros Hp; unfold flattened.
  - now rewrite (flatten_makefile_line d pre s Hd Hp).
  - now rewrite (flatten_command_line d pre s Hd Hp).
Qed.

Lemma unbroken_at s : unbroken s = true ->
  forall i, startswith (BS +++ LF) (sdrop i s) = false.
Proof.
  induction s as [|c s IH]; intros H i.
  - now destruct i.
  - cbn [unbroken] in H. apply andb_true_iff in H as [H1 H2].
    destruct i as [|i]; [now apply negb_true_iff in H1|].
    cbn [sdrop]. now apply IH.
Qed.

Lemma unbroken_sdrop n s : unbroken s = true -> unbroken (sdrop n s) = true.
Proof.
  revert n. induction s as [|c s IH]; intros [|n] H; auto.
  cbn [unbroken] in H. apply andb_true_iff in H as [_ H]. cbn [sdrop]. now apply IH.
Qed.

Lemma unbroken_later s o e :
  o <= e -> unbroken (sdrop o s) = true -> unbroken (sdrop e s) = true.
Proof.
  intros H T. replace e with (o + (e - o)) by lia. rewrite <- sdrop_sdrop.
  now apply unbroken_sdrop.
Qed.

(** A meta-token that starts with a backslash and ends with a newline
    holds a backslash followed by a newline. *)
Lemma meta_token_continues a s n :
  In a makefiletokensescaped -> match_alt a s = Some n ->
  startswith BS (stake n s) = true -> endswith LF (stake n s) = true ->
  exists i, startswith (BS +++ LF) (sdrop i s) = true.
Proof.
  intros Hin H Hb He.
  assert (P : forall p k, (if startswith p s then Some k else None) = Some n ->
                          String.length p = k -> stake n s = p).
  { intros p k E L. destruct (startswith p s) eqn:E'; inversion E; subst.
    now apply startswith_stake. }
  simpl in Hin. unfold match_alt in H.
  destruct Hin as [<-|[<-|[<-|[<-|[<-|[<-|[<-|[]]]]]]]].
  - erewrite P in He; eauto; discriminate.
  - erewrite P in He; eauto; discriminate.
  - exists 0. destruct (startswith (BS +++ LF) s) eqn:E; [exact E|discriminate].
  - destruct (startswith BS s); [|discriminate].
    destruct (_ && _) eqn:E; [|discriminate].
    apply andb_true_iff in E as [_ E]. eauto.
  - destruct s as [|b [|c s']]; try discriminate.
    destruct (Ascii.eqb b (ascii_of_nat 92) && _) eqn:E; [|discriminate].
    injection H as <-. apply andb_true_iff in E as [_ E].
    apply negb_true_iff in E. unfold endswith in He.
    cbn [stake String.length LF Nat.leb Nat.sub sdrop andb] in He.
    apply String.eqb_eq in He. injection He as ->.
    now rewrite Ascii.eqb_refl in E.
  - erewrite P in Hb; eauto; discriminate.
  - erewrite P in Hb; eauto; discriminate.
Qed.

Lemma calm_at g d p :
  g_func g = Itermakefilechars -> g_tokenlist g = emptytokenlist ->
  match p with
  | AtStart (Some o) | AtLoop o | AfterComment o =>
      one_line (sdrop o (data d)) = true /\ unbroken (sdrop o (data d)) = true
  | AfterLast | AfterBreak => True
  | AtStart None | AfterContinuation _ => False
  end ->
  calm (at_pc g p) d.
Proof. intros H1 H2 H3. repeat split; assumption. Qed.

Lemma calm_loop g d offset :
  g_func g = Itermakefilechars -> g_tokenlist g = emptytokenlist ->
  one_line (sdrop offset (data d)) = true -> unbroken (sdrop offset (data d)) = true ->
  calm_step (itermakefilechars_loop g d offset) d.
Proof.
  intros Hf Ht T U. unfold itermakefilechars_loop. rewrite Ht.
  destruct (offset <? len d); [|reflexivity].
  destruct (re_search _ _ _) as [[start e]|] eqn:Es;
    [|split; [reflexivity|now apply calm_at]].
  apply re_search_spec in Es as (H1 & H2 & H3 & a & Hin & Hm). fold (len d) in H3.
  assert (Te : one_line (sdrop e (data d)) = true)
    by (apply (tail_later _ offset); [lia|exact T]).
  assert (Ue : unbroken (sdrop e (data d)) = true)
    by (apply (unbroken_later _ offset); [lia|exact U]).
  assert (End : forall t, slice start e (data d) = t +++ LF -> e = len d)
    by (intros t E; now apply (token_at_end d offset start e t)).
  assert (No : forall i, startswith (BS +++ LF) (sdrop i (sdrop start (data d))) = false).
  { intros i. rewrite sdrop_sdrop.
    replace (start + i) with (offset + (start - offset + i)) by lia.
    rewrite <- sdrop_sdrop. now apply unbroken_at. }
  assert (Tok : slice start e (data d) = stake (e - start) (sdrop start (data d)))
    by reflexivity.
  cbv zeta.
  destruct (String.eqb _ LF) eqn:E1.
  { apply String.eqb_eq in E1. rewrite (End "" E1), Nat.eqb_refl.
    split; [reflexivity|now apply calm_at]. }
  destruct (String.eqb _ "#"); [split; [reflexivity|now apply calm_at]|].
  destruct (String.eqb _ (BS +++ BS +++ "#")); [split; [reflexivity|now apply calm_at]|].
  destruct (String.eqb _ (BS +++ LF)) eqn:E4.
  { exfalso. apply String.eqb_eq in E4. specialize (No 0). rewrite sdrop_0 in No.
    rewrite Tok in E4.
    pose proof (stake_sdrop (e - start) (sdrop start (data d))) as S.
    rewrite E4 in S. rewrite <- S in No. now rewrite startswith_refl in No. }
  destruct (startswith BS _ && endswith LF _) eqn:E5.
  { exfalso. apply andb_true_iff in E5 as [E5 E6]. rewrite Tok in E5, E6.
    cbn [makefilere escapedlist emptytokenlist TokenList_get tlist map app] in Hin.
    destruct (meta_token_continues _ _ _ Hin Hm E5 E6) as [i Hi].
    now rewrite No in Hi. }
  destruct (String.eqb _ (BS +++ "#")); [split; [reflexivity|now apply calm_at]|].
  unfold yield_token.
  destruct (startswith BS _); [destruct (str_in _ _)|];
    (split; [reflexivity|now apply calm_at]).
Qed.

Lemma calm_gen_step drain g d :
  (forall e, calm (new_generator Itermakefilechars (Some e) emptytokenlist) d ->
     drain (new_generator Itermakefilechars (Some e) emptytokenlist) d = Ok d \/
     drain (new_generator Itermakefilechars (Some e) emptytokenlist) d = OutOfFuel) ->
  calm g d -> calm_step (gen_step drain g d) d.
Proof.
  intros Hdrain (Hf & Ht & Hpc). unfold gen_step. rewrite Hf.
  unfold itermakefilechars_next.
  destruct (g_pc g) as [[o|]|o|e|e| |]; try contradiction; try reflexivity.
  - destruct Hpc. now apply calm_loop.
  - destruct Hpc. now apply calm_loop.
  - destruct (Hdrain e) as [E|E]; [repeat split; apply Hpc| |]; rewrite E; reflexivity.
Qed.

Lemma exhaust_calm fuel :
  forall g d, calm g d -> exhaust fuel g d = Ok d \/ exhaust fuel g d = OutOfFuel.
Proof.
  induction fuel as [|fuel IH]; intros g d C; [now right|].
  cbn [exhaust].
  pose proof (calm_gen_step (exhaust fuel) g d (fun e => IH _ d) C) as S.
  destruct (gen_step (exhaust fuel) g d) as [y g1 d1|d1|e|]; cbn [calm_step] in S.
  - destruct S as [-> S]. now apply IH.
  - left. now rewrite S.
  - contradiction.
  - now right.
Qed.

(** The nested iterator that runs over a comment to the end of the line:
    whatever the comment holds, short of a continuation, it reads no
    further line. *)
Lemma drain_comment fuel d pre c o :
  data d = pre +++ c +++ LF ->
  o = String.length pre ->
  one_line (c +++ LF) = true -> unbroken (c +++ LF) = true ->
  2 * (budget d - o) + 2 < fuel ->
  exhaust fuel (new_generator Itermakefilechars (Some o) emptytokenlist) d = Ok d.
Proof.
  intros Hd -> T U W.
  destruct (exhaust_calm fuel (new_generator Itermakefilechars
                                 (Some (String.length pre)) emptytokenlist) d)
    as [E|E]; [|exact E|].
  - repeat split; cbn [new_generator g_pc]; now rewrite Hd, sdrop_append.
  - exfalso. revert E. apply exhaust_terminates; [apply quiet_new|exact W].
Qed.

Lemma budget_ge d : len d <= budget d.
Proof. unfold budget. lia. Qed.

(** The iterator after the text before a comment sign: the comment is
    run over and the iteration stops. *)
Lemma after_comment fuel g d pre c e :
  g_func g = Itermakefilechars ->
  data d = pre +++ c +++ LF -> e = String.length pre -> 0 < e ->
  one_line (c +++ LF) = true -> unbroken (c +++ LF) = true ->
  2 * budget d < fuel ->
  next fuel (at_pc g (AfterComment e)) d = StopIteration d.
Proof.
  intros Hf Hd He H0 T U W. unfold next, gen_step. cbn [at_pc g_func]. rewrite Hf.
  unfold itermakefilechars_next. cbn [g_pc at_pc].
  rewrite (drain_comment fuel d pre c e Hd He T U); [reflexivity|].
  pose proof (budget_ge d) as B. unfold len in B. rewrite Hd in B.
  rewrite !length_append in B. change (String.length LF) with 1 in B. lia.
Qed.

(** X10: in the makefile regime a comment sign ends the text: what follows
    it up to the newline is dropped, whatever it holds (comment signs,
    backslashes), and no further line is read, as long as no backslash
    stands right before the newline.  An escaped comment sign gives the
    sign itself, without the backslash, and the text goes on; in the
    command regime the backslash stays.  The text before the sign, and
    the text after the escaped sign, hold no comment sign and no
    backslash. *)
Theorem comments_and_escapes d pre s c :
  plain (makefilere emptytokenlist) s = true ->
  (data d = pre +++ s +++ "#" +++ c +++ LF ->
   one_line (c +++ LF) = true -> unbroken (c +++ LF) = true ->
   iterflatten Itermakefilechars d (Some (String.length pre)) = Ok (s, d)) /\
  (data d = pre +++ s +++ BS +++ "#" +++ c +++ LF ->
   plain (makefilere emptytokenlist) c = true ->
   flattened Itermakefilechars d (String.length pre) = Ok (s +++ "#" +++ c) /\
   flattened Itercommandchars d (String.length pre) = Ok (s +++ BS +++ "#" +++ c)).
Proof.
  intros Hs. split; [|intros Hd Hc; split].
  - intros Hd T U. unfold iterflatten. rewrite fuel_of_S.
    cbn [collect]. rewrite next_makefile_start.
    rewrite (makefile_comment_step _ d pre s (c +++ LF)) by side.
    rewrite (after_comment _ _ d (pre +++ s +++ "#") c); try side; lia.
  - unfold flattened, iterflatten. rewrite fuel_of_S.
    cbn [collect]. rewrite next_makefile_start.
    rewrite (makefile_escaped_hash_step _ d pre s (c +++ LF)) by side.
    change (next ?f (at_pc ?g (AtLoop ?e)) d)
      with (itermakefilechars_loop (at_pc g (AtLoop e)) d e).
    rewrite (makefile_newline_step _ d (pre +++ s +++ BS +++ "#") c) by side.
    change (next ?f (at_pc ?g AfterLast) d) with (StopIteration d).
    cbn [bind map flatstr notoken fst String.concat].
    now rewrite append_assoc.
  - unfold flattened, iterflatten. rewrite fuel_of_S.
    assert (Hs' : plain (continuationre emptytokenlist) s = true).
    { revert Hs. clear. induction s as [|a s IH]; cbn [plain]; auto.
      rewrite !andb_true_iff. intros [H1 H2]. split; auto.
      revert H1. cbn. rewrite !andb_true_iff. tauto. }
    assert (Hc' : plain (continuationre emptytokenlist) c = true).
    { revert Hc. clear. induction c as [|a s IH]; cbn [plain]; auto.
      rewrite !andb_true_iff. intros [H1 H2]. split; auto.
      revert H1. cbn. rewrite !andb_true_iff. tauto. }
    cbn [collect]. rewrite next_command_start.
    rewrite (command_escape_step _ d pre s "#" (c +++ LF)) by side.
    change (next ?f (at_pc ?g (AtLoop ?e)) d)
      with (itercommandchars_loop (at_pc g (AtLoop e)) d e).
    rewrite (command_newline_step _ d (pre +++ s +++ BS +++ "#") c) by side.
    change (next ?f (at_pc ?g AfterLast) d) with (StopIteration d).
    cbn [bind map flatstr notoken fst String.concat].
    now rewrite !append_assoc.
Qed.

(** Whitespace up to the newline is accepted by [ensureend]. *)
Lemma ensureend_blank d pre s msg :
  data d = pre +++ s +++ LF -> allspace s = true ->
  plain (makefilere emptytokenlist) s = true ->
  ensureend d (Some (String.length pre)) msg = Ok d.
Proof.
  intros Hd Hs Hp. unfold ensureend. rewrite fuel_of_S.
  cbn [ensureend_loop]. rewrite next_makefile_start.
  rewrite (makefile_newline_step _ d pre s) by side.
  cbn [notoken].
  replace (negb (String.eqb s "") && negb (str_isspace s)) with false.
  2:{ destruct s; [reflexivity|]. cbn [String.eqb negb andb str_isspace].
      now rewrite Hs. }
  change (next ?f (at_pc ?g AfterLast) d) with (StopIteration d).
  reflexivity.
Qed.

(** Text that is not whitespace, up to the newline or to a comment sign,
    is refused by [ensureend]: the tuple has no offset, and the error is
    located by [getloc(None)]. *)
Lemma ensureend_rejects d pre s msg rest :
  plain (makefilere emptytokenlist) s = true ->
  data d = pre +++ s +++ LF \/ data d = pre +++ s +++ "#" +++ rest ->
  allspace s = false ->
  ensureend d (Some (String.length pre)) msg
  = (loc <- getloc_at d None ;; Raise (SyntaxError msg loc)).
Proof.
  intros Hp Hd Hs.
  assert (Hns : negb (String.eqb s "") && negb (str_isspace s) = true).
  { destruct s; [discriminate|]. cbn [String.eqb negb andb str_isspace].
    now rewrite Hs. }
  destruct Hd as [Hd|Hd]; unfold ensureend; rewrite fuel_of_S;
    cbn [ensureend_loop]; rewrite next_makefile_start.
  - rewrite (makefile_newline_step _ d pre s) by side.
    cbn [notoken]. now rewrite Hns.
  - rewrite (makefile_comment_step _ d pre s rest) by side.
    cbn [notoken]. now rewrite Hns.
Qed.

(** X11: [ensureend] accepts a rest of line made of whitespace, with or
    without a comment after it, and leaves the line as it is; the comment
    may hold anything (comment signs, backslashes) as long as no
    backslash stands right before the newline.  When the text before the
    newline or the comment sign is not whitespace, and holds no backslash,
    it raises SyntaxError with the caller's message, located by
    [getloc(None)], that is, at the last byte of the line (the offset of
    the tuple is None). *)
Theorem ensureend_spec d pre s msg :
  plain (makefilere emptytokenlist) s = true ->
  (data d = pre +++ s +++ LF -> allspace s = true ->
   ensureend d (Some (String.length pre)) msg = Ok d) /\
  (forall c, data d = pre +++ s +++ "#" +++ c +++ LF -> allspace s = true ->
     one_line (c +++ LF) = true -> unbroken (c +++ LF) = true ->
     ensureend d (Some (String.length pre)) msg = Ok d) /\
  (forall rest, data d = pre +++ s +++ LF \/ data d = pre +++ s +++ "#" +++ rest ->
     allspace s = false ->
     ensureend d (Some (String.length pre)) msg
     = (loc <- getloc_at d None ;; Raise (SyntaxError msg loc))).
Proof.
  intros Hp. split; [|split].
  - intros Hd Hs. now apply (ensureend_blank d pre s).
  - intros c Hd Hs T U. unfold ensureend. rewrite fuel_of_S.
    cbn [ensureend_loop]. rewrite next_makefile_start.
    rewrite (makefile_comment_step _ d pre s (c +++ LF)) by side.
    cbn [notoken].
    replace (negb (String.eqb s "") && negb (str_isspace s)) with false.
    2:{ destruct s; [reflexivity|]. cbn [String.eqb negb andb str_isspace].
        now rewrite Hs. }
    rewrite (after_comment _ _ d (pre +++ s +++ "#") c); try side; lia.
  - intros rest Hd Hs. now apply (ensureend_rejects d pre s msg rest).
Qed.

End TextFacts.

(** ** The location of the last byte *)

Section LastByte.

Lemma findlast_from_split {A} (func : A -> bool) (l : list A) :
  forall x, func x = true ->
    exists before y after,
      x :: l = before ++ y :: after /\
      forallb func before = true /\ func y = true /\
      (forall z after', after = z :: after' -> func z = false) /\
      findlast_from func (Some x) l = Ok y.
Proof.
  induction l as [|i l IH]; intros x Hx.
  - exists [], x, []. repeat split; auto. discriminate.
  - cbn [findlast_from]. destruct (func i) eqn:Hi.
    + destruct (IH i Hi) as (before & y & after & E & F & Hy & N & R).
      exists (x :: before), y, after. cbn [app forallb]. rewrite E, Hx, F.
      repeat split; auto.
    + exists [], x, (i :: l). repeat split; auto.
      intros z after' E. now injection E as <- <-.
Qed.

(** C10: on a non-empty logical line (with its first anchor at offset 0,
    where [append] puts it), [getloc(None)] returns a location, the one
    [getloc(len(buffer) - 1)] returns and the one every offset at or past
    the end returns: the location of the last byte.  That byte
    exists, and its location is found from the last anchor at or before
    it: the anchor's location advanced by the bytes from the anchor to the
    last byte.  A caller that has no offset left gets it: [ensureend], on
    text that is not whitespace, raises its SyntaxError there. *)
Theorem getloc_None_is_last_byte :
  forall d, data d <> "" -> anchored d ->
    exists before b l0 after,
      locs d = before ++ (b, l0) :: after /\
      Forall (fun ol => fst ol <= len d - 1) before /\ b <= len d - 1 /\
      (forall b' l' after', after = (b', l') :: after' -> len d - 1 < b') /\
      (exists c, sdrop (len d - 1) (data d) = String c "") /\
      getloc d None = Ok (loc_add l0 (slice b (len d - 1) (data d))) /\
      getloc d (Some (Z.of_nat (len d) - 1)%Z) = getloc d None /\
      (forall o, (Z.of_nat (len d) <= o)%Z -> getloc d (Some o) = getloc d None) /\
      (forall pre s msg,
          data d = pre +++ s +++ LF ->
          plain (makefilere emptytokenlist) s = true -> allspace s = false ->
          ensureend d (Some (String.length pre)) msg
          = Raise (SyntaxError msg (loc_add l0 (slice b (len d - 1) (data d))))).
Proof.
  intros d Hne (loc0 & rest & Hl).
  assert (Hlen : 0 < len d).
  { unfold len. destruct (data d); [contradiction|cbn; lia]. }
  assert (C : clamp d None = Z.of_nat (len d - 1)).
  { unfold clamp. replace (Z.of_nat (len d) - 1 =? -1)%Z with false; [lia|].
    symmetry. apply Z.eqb_neq. lia. }
  set (func := fun ol : nat * Location => (Z.of_nat (fst ol) <=? Z.of_nat (len d - 1))%Z).
  assert (F0 : func (0, loc0) = true) by (apply Z.leb_le; cbn; lia).
  destruct (findlast_from_split func rest (0, loc0) F0)
    as (before & [b l0] & after & E & Fb & Fy & Fn & R).
  assert (G : getloc d None = Ok (loc_add l0 (slice b (len d - 1) (data d)))).
  { assert (FL : findlast func ((0, loc0) :: rest) = Ok (b, l0)).
    { unfold findlast. cbn [findlast_from]. now rewrite F0. }
    rewrite getloc_clamp, C, Hl.
    change (findlast _ ((0, loc0) :: rest)) with (findlast func ((0, loc0) :: rest)).
    rewrite FL. cbn [bind]. now rewrite Nat2Z.id. }
  exists before, b, l0, after. rewrite Hl, E.
  split; [reflexivity|]. split; [|split; [|split; [|split; [|split; [|split; [|split]]]]]].
  - apply Forall_forall. intros ol Hin.
    rewrite forallb_forall in Fb. specialize (Fb ol Hin).
    apply Z.leb_le in Fb. lia.
  - apply Z.leb_le in Fy. cbn [fst] in Fy. lia.
  - intros b' l' after' Ea. specialize (Fn _ _ Ea). apply Z.leb_gt in Fn.
    cbn [fst] in Fn. lia.
  - pose proof (length_sdrop (len d - 1) (data d)) as L. fold (len d) in L.
    destruct (sdrop (len d - 1) (data d)) as [|c [|c' r]]; cbn in L; try lia.
    now exists c.
  - exact G.
  - rewrite G, <- G. rewrite !getloc_clamp. unfold clamp.
    replace (Z.of_nat (len d) - 1 >=? Z.of_nat (len d))%Z with false; [reflexivity|].
    symmetry. rewrite Z.geb_leb. apply Z.leb_gt. lia.
  - intros o Ho. rewrite !getloc_clamp. unfold clamp.
    replace (o >=? Z.of_nat (len d))%Z with true; [reflexivity|].
    symmetry. rewrite Z.geb_leb. apply Z.leb_le. lia.
  - intros pre s msg Hd Hp Hs.
    rewrite (ensureend_rejects d pre s msg "" Hp (or_introl Hd) Hs).
    unfold getloc_at. cbn [option_map]. rewrite G. reflexivity.
Qed.

End LastByte.

Lemma getloc_None_is_last_byte_witness :
  exists before b l0 after,
    locs (first_line ["endif foo" +++ LF]) = before ++ (b, l0) :: after /\
    Forall (fun ol => fst ol <= len (first_line ["endif foo" +++ LF]) - 1) before /\
    b <= len (first_line ["endif foo" +++ LF]) - 1 /\
    (forall b' l' after', after = (b', l') :: after' ->
                          len (first_line ["endif foo" +++ LF]) - 1 < b') /\
    (exists c, sdrop (len (first_line ["endif foo" +++ LF]) - 1)
                 (data (first_line ["endif foo" +++ LF])) = String c "") /\
    getloc (first_line ["endif foo" +++ LF]) None
    = Ok (loc_add l0 (slice b (len (first_line ["endif foo" +++ LF]) - 1)
                        (data (first_line ["endif foo" +++ LF])))) /\
    getloc (first_line ["endif foo" +++ LF])
      (Some (Z.of_nat (len (first_line ["endif foo" +++ LF])) - 1)%Z)
    = getloc (first_line ["endif foo" +++ LF]) None /\
    (forall o, (Z.of_nat (len (first_line ["endif foo" +++ LF])) <= o)%Z ->
       getloc (first_line ["endif foo" +++ LF]) (Some o)
       = getloc (first_line ["endif foo" +++ LF]) None) /\
    (forall pre s msg,
        data (first_line ["endif foo" +++ LF]) = pre +++ s +++ LF ->
        plain (makefilere emptytokenlist) s = true -> allspace s = false ->
        ensureend (first_line ["endif foo" +++ LF]) (Some (String.length pre)) msg
        = Raise (SyntaxError msg
                   (loc_add l0 (slice b (len (first_line ["endif foo" +++ LF]) - 1)
                                  (data (first_line ["endif foo" +++ LF])))))).
Proof.
  apply (getloc_None_is_last_byte (first_line ["endif foo" +++ LF]));
    [discriminate|].
  eexists. eexists. reflexivity.
Defined.

Lemma plain_line_flattens_witness :
  flattened Itercommandchars (first_line [TAB +++ "echo a # b" +++ LF]) 1
  = Ok "echo a # b".
Proof.
  apply (proj2 (plain_line_flattens (first_line [TAB +++ "echo a # b" +++ LF])
                  TAB "echo a # b" eq_refl)).
  reflexivity.
Defined.

Lemma comments_and_escapes_witness :
  iterflatten Itermakefilechars
    (first_line ["a = b # c" +++ BS +++ "d # e" +++ LF]) (Some 4)
  = Ok ("b ", first_line ["a = b # c" +++ BS +++ "d # e" +++ LF]) /\
  flattened Itermakefilechars (first_line ["a = b" +++ BS +++ "#c" +++ LF]) 4
  = Ok "b#c".
Proof.
  split.
  - apply (proj1 (comments_and_escapes
                    (first_line ["a = b # c" +++ BS +++ "d # e" +++ LF])
                    "a = " "b " (" c" +++ BS +++ "d # e") eq_refl));
      reflexivity.
  - apply (proj2 (comments_and_escapes (first_line ["a = b" +++ BS +++ "#c" +++ LF])
                    "a = " "b" "c" eq_refl));
      reflexivity.
Defined.

Lemma ensureend_spec_witness :
  ensureend (first_line ["endif  # done # " +++ BS +++ "o" +++ LF]) (Some 5) "msg"
  = Ok (first_line ["endif  # done # " +++ BS +++ "o" +++ LF]) /\
  ensureend (first_line ["endif foo" +++ LF]) (Some 6) "msg"
  = Raise (SyntaxError "msg" (mkLocation "Makefile" 1 9)).
Proof.
  split.
  - apply (proj1 (proj2 (ensureend_spec
                           (first_line ["endif  # done # " +++ BS +++ "o" +++ LF])
                           "endif" "  " "msg" eq_refl))
             (" done # " +++ BS +++ "o"));
      reflexivity.
  - apply (proj2 (proj2 (ensureend_spec (first_line ["endif foo" +++ LF])
                           "endif " "foo" "msg" eq_refl)) "");
      [left; reflexivity|reflexivity].
Defined.

(** ** The parser comes to an end *)

Section StreamTermination.

Variable functionmap : list (string * nat).
Variable filename : string.

Lemma parsemakesyntax_terminates d log startat stopon iterfunc :
  parsemakesyntax functionmap d log startat stopon iterfunc <> OutOfFuel.
Proof.
  unfold parsemakesyntax.
  destruct (parse_start d startat stopon iterfunc) as [[stack di]| |] eqn:Es;
    cbn [bind]; try discriminate.
  - apply parse_start_inv in Es as (Hinv & -> & _).
    pose proof (parse_loop_stops functionmap stopon (fuel_of d) iterfunc stack
                  (new_generator iterfunc (Some startat)
                     (TokenList_get (stopon ++ ["$"]))) d None log Hinv
                  (weight_new _ _ _ _)) as P.
    intros E. now rewrite E in P.
  - revert Es. unfold parse_start.
    pose proof (getloc_at_not_OutOfFuel d (Some startat)).
    destruct (getloc_at d (Some startat)); cbn [bind]; congruence.
Qed.

Lemma cond_append_terminates cs s : cond_append cs s <> OutOfFuel.
Proof. destruct cs as [|[l|loc arms] below]; discriminate. Qed.

Lemma cond_addcondition_terminates cs c : cond_addcondition cs c <> OutOfFuel.
Proof. destruct cs as [|[l|loc arms] below]; discriminate. Qed.

Lemma cond_pop_terminates cs : cond_pop cs <> OutOfFuel.
Proof.
  destruct cs as [|[l|loc arms] below]; try discriminate.
  apply cond_append_terminates.
Qed.

Lemma assert_terminates b : assert b <> OutOfFuel.
Proof. destruct b; discriminate. Qed.

Lemma notnone_terminates {A} (x : option A) : notnone x <> OutOfFuel.
Proof. destruct x; discriminate. Qed.

Ltac base :=
  first [ apply parsemakesyntax_terminates | apply iterflatten_terminates
        | apply ensureend_terminates | apply getloc_at_not_OutOfFuel
        | apply cond_append_terminates | apply cond_addcondition_terminates
        | apply cond_pop_terminates | apply assert_terminates
        | apply notnone_terminates | assumption ].

Ltac nostarve1 :=
  match goal with
  | |- bind ?m _ <> OutOfFuel =>
      let E := fresh "E" in
      destruct m eqn:E; cbn [bind];
      [ | discriminate | exfalso; revert E; clear; base ]
  | |- (if ?c then _ else _) <> OutOfFuel => destruct c
  | |- (let '(_, _) := ?p in _) <> OutOfFuel => destruct p as [? ?]
  | |- match ?x with _ => _ end <> OutOfFuel => destruct x
  | |- syntax_error _ _ _ <> OutOfFuel => unfold syntax_error
  | |- ok_line _ _ _ _ _ <> OutOfFuel => discriminate
  | |- Ok _ <> OutOfFuel => discriminate
  | |- Raise _ <> OutOfFuel => discriminate
  end.
Ltac nostarve := cbv zeta; repeat (nostarve1; cbv zeta).

Lemma ifeq_terminates d log offset : ifeq functionmap d log offset <> OutOfFuel.
Proof. unfold ifeq. nostarve. Qed.

Lemma ifdef_terminates d log offset : ifdef functionmap d log offset <> OutOfFuel.
Proof. unfold ifdef. nostarve. Qed.

Lemma conditionkeywords_terminates kword parse d log offset :
  conditionkeywords functionmap kword = Some parse ->
  parse d log offset <> OutOfFuel.
Proof.
  unfold conditionkeywords.
  repeat match goal with
         | |- (if ?c then _ else _) = _ -> _ => destruct c
         end; try discriminate.
  all: intros H; injection H as <-.
  - apply ifeq_terminates.
  - unfold ifneq. pose proof (ifeq_terminates d log offset).
    destruct (ifeq functionmap d log offset) as [[[? ?] ?]| |]; cbn [bind];
      congruence.
  - apply ifdef_terminates.
  - unfold ifndef. pose proof (ifdef_terminates d log offset).
    destruct (ifdef functionmap d log offset) as [[[? ?] ?]| |]; cbn [bind];
      congruence.
Qed.

Lemma setvariable_terminates cs d e token offset t src :
  setvariable cs d e token offset t src <> OutOfFuel.
Proof. unfold setvariable. nostarve. Qed.

Lemma rule_command_terminates cs d log token offset :
  rule_command functionmap cs d log token offset <> OutOfFuel.
Proof. unfold rule_command. nostarve. Qed.

Ltac base2 :=
  first [ apply setvariable_terminates | apply rule_command_terminates | base ].

Ltac nostarve2 :=
  match goal with
  | |- bind ?m _ <> OutOfFuel =>
      let E := fresh "E" in
      destruct m eqn:E; cbn [bind];
      [ | discriminate | exfalso; revert E; clear; base2 ]
  | _ => nostarve1
  end.

Lemma parse_rule_or_variable_terminates st d offset :
  parse_rule_or_variable functionmap st d offset <> OutOfFuel.
Proof. unfold parse_rule_or_variable. cbv zeta. repeat (nostarve2; cbv zeta). Qed.

Lemma parse_else_terminates st d offset :
  parse_else functionmap st d offset <> OutOfFuel.
Proof.
  unfold parse_else. cbv zeta.
  destruct (_ =? 1); [nostarve|].
  destruct (findtoken _ _ _ _) as [kword o]. destruct kword as [kword|]; [|nostarve].
  destruct (conditionkeywords functionmap kword) as [parse|] eqn:Ek; [|nostarve].
  pose proof (conditionkeywords_terminates kword parse d (plog st) o Ek) as P.
  destruct (parse d (plog st) o) as [[[c d1] log1]| |]; cbn [bind];
    [|discriminate|congruence].
  nostarve.
Qed.

Lemma parse_define_terminates st d offset :
  parse_define functionmap filename st d offset <> OutOfFuel.
Proof. unfold parse_define. nostarve. Qed.

Lemma parse_directive_terminates st d kword offset :
  parse_directive functionmap st d kword offset <> OutOfFuel.
Proof. unfold parse_directive. cbv zeta. repeat (nostarve2; cbv zeta). Qed.

Lemma parsestream_iteration_terminates st :
  parsestream_iteration functionmap filename st <> OutOfFuel.
Proof.
  unfold parsestream_iteration.
  destruct (assert _) eqn:Ea; cbn [bind]; try discriminate.
  2:{ exfalso. revert Ea. apply assert_terminates. }
  destruct (readline _) as [more d]. cbv zeta.
  destruct (negb more); [discriminate|].
  destruct (_ && _ && _); [nostarve|].
  destruct (findtoken _ _ _ _) as [kword offset].
  destruct kword as [kword|]; [|apply parse_rule_or_variable_terminates].
  destruct (String.eqb kword "endif"); [nostarve|].
  destruct (String.eqb kword "else"); [apply parse_else_terminates|].
  destruct (conditionkeywords functionmap kword) as [parse|] eqn:Ek.
  { pose proof (conditionkeywords_terminates kword parse d (plog st) offset Ek) as P.
    destruct (parse d (plog st) offset) as [[[c d1] log1]| |]; cbn [bind];
      [|discriminate|congruence].
    nostarve. }
  destruct (String.eqb kword "endef"); [nostarve|].
  destruct (String.eqb kword "define"); [apply parse_define_terminates|].
  apply parse_directive_terminates.
Qed.

Lemma parsestream_loop_terminates fuel :
  forall st trace, cond_ok (condstack st) -> List.length (fdlines st) < fuel ->
    parsestream_loop functionmap filename fuel st trace <> OutOfFuel.
Proof.
  induction fuel as [|fuel IH]; intros st trace K L; [lia|].
  cbn [parsestream_loop].
  pose proof (parsestream_iteration_terminates st) as T.
  destruct (parsestream_iteration functionmap filename st) as [[[st1 ev]|]| |] eqn:Ei;
    cbn [bind]; try discriminate; [|clear T|congruence].
  - destruct (iteration_facts _ _ _ _ _ Ei K) as (K1 & L1 & _).
    apply IH; auto. lia.
  - unfold parsestream_end. destruct (negb _).
    + destruct (condstack st) as [|[l|loc arms] ?]; discriminate.
    + destruct (condstack st) as [|[l|loc arms] [|? ?]]; discriminate.
Qed.

(** X12: the parser comes to an end on every input.  [_iterflatten] and
    [ensureend] return or raise on every logical line, and [parsestream]
    on every stream: one turn of its loop per line of the stream, and one
    more, is all it ever takes. *)
Theorem parser_terminates :
  (forall iter d offset, iterflatten iter d offset <> OutOfFuel) /\
  (forall d offset msg, ensureend d offset msg <> OutOfFuel) /\
  (forall fd, parsestream functionmap filename fd <> OutOfFuel).
Proof.
  split; [exact iterflatten_terminates|]. split; [exact ensureend_terminates|].
  intros fd. unfold parsestream, parsestream_traced.
  assert (P : parsestream_loop functionmap filename (S (List.length fd))
                (parsestream_start fd) [] <> OutOfFuel).
  { apply parsestream_loop_terminates; [reflexivity|].
    cbn [parsestream_start fdlines]. unfold iterlines.
    rewrite iterlines_from_length. lia. }
  destruct (parsestream_loop _ _ _ _ _) as [[[stmts log] trace]| |]; cbn [bind];
    try discriminate.
  congruence.
Qed.

End StreamTermination.

(** ** The dispatch of parsestream *)

Section Dispatch.

Variable functionmap : list (string * nat).
Variable filename : string.

Ltac walk1 :=
  match goal with
  | |- bind ?m _ = _ -> _ => destruct m as [?| |] eqn:?; cbn [bind]; [|discriminate..]
  | |- (if ?c then _ else _) = _ -> _ => destruct c eqn:?
  | |- (let '(_, _) := ?p in _) = _ -> _ => destruct p as [? ?] eqn:?
  | |- match ?x with _ => _ end = _ -> _ => destruct x eqn:?
  | |- syntax_error _ _ _ = _ -> _ => unfold syntax_error
  end.
Ltac walk := cbv zeta; repeat (walk1; cbv zeta; try discriminate).

Ltac landed :=
  let H := fresh in
  unfold ok_line; intros H; injection H as <- <-;
  split; [discriminate|reflexivity].

Lemma parse_rule_or_variable_not_command st d offset :
  not_command st (parse_rule_or_variable functionmap st d offset).
Proof. intros st' ev. unfold parse_rule_or_variable. walk. all: landed. Qed.

Lemma parse_else_not_command st d offset :
  not_command st (parse_else functionmap st d offset).
Proof. intros st' ev. unfold parse_else. walk. all: landed. Qed.

Lemma parse_define_not_command st d offset :
  not_command st (parse_define functionmap filename st d offset).
Proof. intros st' ev. unfold parse_define. walk. all: landed. Qed.

Lemma parse_directive_not_command st d kword offset :
  not_command st (parse_directive functionmap st d kword offset).
Proof. intros st' ev. unfold parse_directive. walk. all: landed. Qed.

Lemma starts_with_tab l :
  (0 <? String.length l) && String.eqb (slice 0 1 l) TAB = startswith TAB l.
Proof.
  destruct l as [|a l]; [reflexivity|].
  cbn [String.length Nat.ltb Nat.leb andb slice sdrop Nat.sub stake].
  unfold TAB. cbn [String.eqb startswith]. rewrite andb_true_r.
  destruct (Ascii.eqb a (ascii_of_nat 9)) eqn:E.
  - apply Ascii.eqb_eq in E. subst. reflexivity.
  - symmetry. apply Ascii.eqb_neq. intros H. apply Ascii.eqb_neq in E. congruence.
Qed.

Lemma first_readline st n l rest :
  fdlines st = (n, l) :: rest ->
  exists d, readline (DynamicData (fdlines st) filename) = (true, d) /\
            data d = l /\ locs d = [(0, mkLocation filename n 0)] /\
            lineiter d = rest /\ dpath d = filename.
Proof.
  intros H. unfold readline. rewrite H. cbn [DynamicData lineiter].
  eexists. split; [reflexivity|]. cbn. auto.
Qed.

(** X13: a line is handled as a command exactly when it starts with a TAB
    and a rule is current; a rule makes itself current, commands,
    conditionals and empty lines change nothing, and every other
    statement ends the current rule. *)
Theorem commands_follow_rules st n l rest st' ev :
  fdlines st = (n, l) :: rest ->
  parsestream_iteration functionmap filename st = Ok (Some (st', ev)) ->
  (ev = EvCommand <-> currule st = true /\ startswith TAB l = true) /\
  currule st' = next_currule ev (currule st).
Proof.
  intros Hf. destruct (first_readline st n l rest Hf) as (d & Hr & Hd & _).
  unfold parsestream_iteration. rewrite Hr.
  destruct (assert _); cbn [bind]; try discriminate. cbv zeta. cbn [negb].
  unfold len. rewrite Hd, starts_with_tab.
  assert (G : forall r, not_command st r -> r = Ok (Some (st', ev)) ->
              (startswith TAB l && currule st = false) ->
              (ev = EvCommand <-> currule st = true /\ startswith TAB l = true) /\
              currule st' = next_currule ev (currule st)).
  { intros r Hn E C. destruct (Hn _ _ E) as [A B]. split; [|exact B].
    split; [contradiction|]. intros [C1 C2]. rewrite C1, C2 in C. discriminate. }
  destruct (startswith TAB l && currule st) eqn:C.
  { apply andb_true_iff in C as [C1 C2]. walk.
    unfold ok_line. intros H; injection H as <- <-. cbn [currule next_currule].
    tauto. }
  destruct (findtoken _ _ _ _) as [kword offset].
  destruct kword as [kword|];
    [|intros E; eapply G; eauto using parse_rule_or_variable_not_command].
  destruct (String.eqb kword "endif").
  { intros E; eapply G; eauto. intros st1 ev1. walk. landed. }
  destruct (String.eqb kword "else");
    [intros E; eapply G; eauto using parse_else_not_command|].
  destruct (conditionkeywords functionmap kword) as [parse|] eqn:Ek.
  { intros E; eapply G; eauto. intros st1 ev1. walk. landed. }
  destruct (String.eqb kword "endef").
  { unfold syntax_error. destruct (getloc_at _ _); discriminate. }
  destruct (String.eqb kword "define");
    [intros E; eapply G; eauto using parse_define_not_command|].
  intros E; eapply G; eauto using parse_directive_not_command.
Qed.

Lemma directive_at_iteration st d kword off :
  cond_ok (condstack st) ->
  directive_at filename st = Some (d, kword, off) ->
  anchored d /\
  parsestream_iteration functionmap filename st
  = (if String.eqb kword "endif" then
       d <- ensureend d (Some off) "Unexpected data after 'endif' directive" ;;
       if List.length (condstack st) =? 1 then
         syntax_error "unmatched 'endif' directive" d (Some off)
       else
         cs <- cond_pop (condstack st) ;;
         ok_line (currule st) cs d (plog st) EvEndif
     else if String.eqb kword "else" then parse_else functionmap st d off
     else
       match conditionkeywords functionmap kword with
       | Some parse =>
           '(c, d, log) <- parse d (plog st) off ;;
           loc <- getloc_at d (Some 0) ;;
           ok_line (currule st) (Block loc [(c, [])] :: condstack st) d log EvIf
       | None =>
           if String.eqb kword "endef" then
             syntax_error "Unmatched endef" d (Some off)
           else if String.eqb kword "define"
           then parse_define functionmap filename st d off
           else parse_directive functionmap st d kword off
       end).
Proof.
  intros K D. apply directive_at_line in D as (A & D1 & D2 & D3).
  split; [exact A|].
  unfold parsestream_iteration. rewrite D1.
  apply cond_ok_length in K.
  replace (assert (0 <? List.length (condstack st))) with (Ok tt).
  2:{ destruct (condstack st); [cbn in K; lia|reflexivity]. }
  cbn [bind negb]. cbv zeta. rewrite D2, D3. reflexivity.
Qed.

(** X14: an endef line outside a define and an unexport line are refused:
    [parsestream] raises SyntaxError "Unmatched endef", respectively
    "unexporting variables is not supported", located just after the
    keyword. *)
Theorem refused_directives fd evs st d off :
  stream_reaches functionmap filename (parsestream_start fd) evs st ->
  (directive_at filename st = Some (d, "endef", off) ->
   exists loc,
     getloc_at d (Some off) = Ok loc /\
     parsestream functionmap filename fd = Raise (SyntaxError "Unmatched endef" loc)) /\
  (directive_at filename st = Some (d, "unexport", off) ->
   exists loc,
     getloc_at d (Some off) = Ok loc /\
     parsestream functionmap filename fd
     = Raise (SyntaxError "unexporting variables is not supported" loc)).
Proof.
  intros R. pose proof (stream_start_follow _ _ _ _ _ R) as [K _].
  split; intros D; destruct (directive_at_iteration _ _ _ _ K D) as [A E];
    destruct (getloc_at_ok d (Some off) A) as [loc G]; exists loc;
    (split; [exact G|]);
    apply (stream_raise _ _ _ _ _ _ R); rewrite E;
    cbn [String.eqb Ascii.eqb Bool.eqb];
    change (conditionkeywords functionmap ?k)
      with (@None (Data -> list warning -> nat
                   -> result (Condition * Data * list warning)));
    cbv iota; unfold parse_directive, syntax_error;
    cbn [String.eqb Ascii.eqb Bool.eqb orb]; rewrite G; reflexivity.
Qed.

End Dispatch.

Lemma commands_follow_rules_witness :
  (EvCommand = EvCommand <-> true = true /\ startswith TAB (TAB +++ "cc" +++ LF) = true)
  /\ true = next_currule EvCommand true.
Proof.
  refine (commands_follow_rules sample_functionmap "Makefile"
            (mkPstate true [TopList []] [(2, TAB +++ "cc" +++ LF)] [])
            2 (TAB +++ "cc" +++ LF) []
            (mkPstate true _ [] []) EvCommand eq_refl _).
  vm_compute. reflexivity.
Defined.

Lemma refused_directives_witness :
  parsestream sample_functionmap "Makefile" ["a = 1" +++ LF; "endef" +++ LF]
  = Raise (SyntaxError "Unmatched endef" (mkLocation "Makefile" 2 5)).
Proof.
  edestruct (refused_directives sample_functionmap "Makefile"
               ["a = 1" +++ LF; "endef" +++ LF]) as [H _].
  - eapply stream_line; [vm_compute; reflexivity|]. apply stream_here.
  - edestruct H as (loc & G & E).
    + vm_compute. reflexivity.
    + rewrite E. f_equal. f_equal.
      vm_compute in G. now injection G as <-.
Defined.

(** ** Blank lines *)

Section Lines.

Variable functionmap : list (string * nat).
Variable filename : string.

Lemma wsrun_allspace l : allspace l = true -> wsrun l = String.length l.
Proof.
  induction l as [|c l IH]; cbn [allspace wsrun String.length]; auto.
  rewrite andb_true_iff. intros [H1 H2]. now rewrite H1, IH.
Qed.

Lemma getloc_beyond d loc o :
  locs d = [(0, loc)] -> 0 < len d -> len d <= o ->
  getloc_at d (Some o) = Ok (loc_add loc (stake (len d - 1) (data d))).
Proof.
  intros Hl H0 Ho. unfold getloc_at. rewrite getloc_clamp.
  assert (C : clamp d (option_map Z.of_nat (Some o)) = Z.of_nat (len d - 1)).
  { unfold clamp. cbn [option_map].
    replace (Z.of_nat o >=? Z.of_nat (len d))%Z with true.
    - replace (Z.of_nat (len d) - 1 =? -1)%Z with false; [lia|].
      symmetry. apply Z.eqb_neq. lia.
    - symmetry. rewrite Z.geb_leb. apply Z.leb_le. lia. }
  rewrite C, Hl. unfold findlast. cbn [findlast_from fst].
  replace (Z.of_nat 0 <=? Z.of_nat (len d - 1))%Z with true
    by (symmetry; apply Z.leb_le; lia).
  cbn [bind]. rewrite Nat2Z.id. unfold slice. cbn [sdrop].
  now rewrite Nat.sub_0_r.
Qed.

(** Parsing from the end of the buffer: nothing is left to iterate. *)
Lemma parsemakesyntax_at_end d loc log o stopon :
  getloc_at d (Some o) = Ok loc -> len d <= o ->
  parsemakesyntax functionmap d log o stopon Itermakefilechars
  = Ok (mkParsed (mkExpansion (Some loc) []) None None d log).
Proof.
  intros G Ho.
  etransitivity.
  eapply run_result with (fuel := 0).
  - unfold parse_start. rewrite G. cbn [bind]. reflexivity.
  - apply reaches_refl.
  - cbn [l_stack l_di l_data l_offset l_log]. unfold parse_turn.
    rewrite next_makefile_start. unfold itermakefilechars_loop.
    replace (o <? len d) with false by (symmetry; apply Nat.ltb_ge; lia).
    reflexivity.
  - exact I.
  - reflexivity.
Qed.

(** X15: a line of whitespace only, unless it is taken as a command, adds
    an EmptyDirective whose expansion is empty and located at the last
    byte of the line; the current rule stays current. *)
Theorem blank_line st n l rest :
  fdlines st = (n, l) :: rest ->
  allspace l = true -> l <> "" ->
  startswith TAB l && currule st = false ->
  condstack st <> [] ->
  parsestream_iteration functionmap filename st
  = (cs <- cond_append (condstack st)
             (EmptyDirective
                (mkExpansion
                   (Some (loc_add (mkLocation filename n 0)
                            (stake (String.length l - 1) l))) [])) ;;
     Ok (Some (mkPstate (currule st) cs rest (plog st), EvEmpty))).
Proof.
  intros Hf Hs Hne Hc Hcs.
  destruct (first_readline filename st n l rest Hf) as (d & Hr & Hd & Hl & Hli & _).
  unfold parsestream_iteration. rewrite Hr.
  replace (assert (0 <? List.length (condstack st))) with (Ok tt).
  2:{ destruct (condstack st); [contradiction|reflexivity]. }
  cbn [bind negb]. cbv zeta.
  assert (Hlen : len d = String.length l) by (unfold len; now rewrite Hd).
  assert (H0 : 0 < len d).
  { rewrite Hlen. destruct l; [contradiction|cbn; lia]. }
  replace ((0 <? len d) && String.eqb (slice 0 1 (data d)) TAB)
    with (startswith TAB l)
    by (unfold len; rewrite Hd; symmetry; apply starts_with_tab).
  rewrite Hc.
  assert (Hsk : skipwhitespace d 0 = len d).
  { unfold skipwhitespace. rewrite Hd, sdrop_0, wsrun_allspace; auto. }
  rewrite Hsk.
  assert (Hft : findtoken d (len d) directivestokenlist true = (None, len d)).
  { unfold findtoken. cbv zeta. rewrite Nat.min_id.
    rewrite sdrop_all by (unfold len; lia). reflexivity. }
  rewrite Hft. unfold parse_rule_or_variable.
  rewrite (parsemakesyntax_at_end d _ (plog st) (len d) _
             (getloc_beyond d _ (len d) Hl H0 (Nat.le_refl _)) (Nat.le_refl _)).
  cbn [bind p_token p_expansion p_data p_log]. rewrite Hd, Hlen.
  destruct (cond_append _ _); cbn [bind]; auto.
  unfold ok_line. now rewrite Hli.
Qed.

End Lines.

Lemma blank_line_witness :
  parsestream_iteration sample_functionmap "Makefile"
    (mkPstate true [TopList []] [(3, "  " +++ LF); (4, TAB +++ "cc" +++ LF)] [])
  = Ok (Some (mkPstate true
                [TopList [EmptyDirective
                            (mkExpansion (Some (mkLocation "Makefile" 3 2)) [])]]
                [(4, TAB +++ "cc" +++ LF)] [], EvEmpty)).
Proof.
  apply (blank_line sample_functionmap "Makefile"
           (mkPstate true [TopList []] [(3, "  " +++ LF); (4, TAB +++ "cc" +++ LF)] [])
           3 ("  " +++ LF) [(4, TAB +++ "cc" +++ LF)]);
    try reflexivity; discriminate.
Defined.

(** ** A define left open *)

Section OpenDefine.

Variable functionmap : list (string * nat).
Variable filename : string.

(** The newline that ends the last line of the stream, inside a define. *)
Lemma define_last_line_step g d P b :
  data d = P +++ b +++ LF ->
  plain (continuationre (g_tokenlist g)) b = true ->
  match_alts (continuationre (g_tokenlist g)) LF = Some 1 ->
  lineiter d = [] ->
  g_definecount g <> 0%Z ->
  iterdefinechars_loop g d (String.length P)
  = Yield (notoken (b +++ LF))
          (at_pc (with_definecount g (g_definecount g + 0))
                 (AtLoop (String.length P + String.length b + 1))) d.
Proof.
  intros Hd Hp Hm Hl Hc. unfold iterdefinechars_loop, len. rewrite Hd.
  replace (String.length P <? _) with true.
  2:{ symmetry. apply Nat.ltb_lt. rewrite !length_append.
      change (String.length LF) with 1. lia. }
  rewrite (re_search_token _ P b LF _ Hp Hm).
  assert (Et : slice (String.length P + String.length b)
                 (String.length P + String.length b + 1)
                 (P +++ b +++ LF) = LF).
  { rewrite <- (append_empty_r LF) at 1.
    rewrite <- (append_assoc P b). rewrite <- length_append.
    apply (slice_middle (P +++ b) LF ""). }
  cbv zeta. rewrite Et.
  change (String.eqb LF (BS +++ LF)) with false.
  change (String.eqb LF LF) with true. cbv iota.
  assert (El : String.length P + String.length b + 1 = String.length (P +++ b +++ LF)).
  { rewrite !length_append. change (String.length LF) with 1. lia. }
  replace (String.length P + String.length b + 1 =? _) with true
    by (symmetry; apply Nat.eqb_eq; exact El).
  assert (Er : snd (readline d) = d) by (unfold readline; now rewrite Hl).
  rewrite Er.
  assert (C : checkfortoken d (String.length P + String.length b + 1) = 0%Z).
  { unfold checkfortoken, len. rewrite Hd, El, Nat.leb_refl. reflexivity. }
  rewrite C. replace (g_definecount g + 0 =? 0)%Z with false
    by (symmetry; apply Z.eqb_neq; lia).
  rewrite Hd.
  replace (slice (String.length P) (String.length P + String.length b + 1)
             (P +++ b +++ LF)) with (b +++ LF); [reflexivity|].
  symmetry. rewrite <- (append_empty_r LF) at 1. rewrite <- (append_assoc b LF "").
  apply slice_middle'; auto. rewrite length_append.
  change (String.length LF) with 1. lia.
Qed.

(** The body of a define that the stream ends in. *)
Lemma define_collect_open body :
  forall lines g d P b fuel g0 loc0 more,
    g_func g = Iterdefinechars -> g_tokenlist g = emptytokenlist ->
    g_startoffset g = 0 -> g_definecount g <> 0%Z ->
    data d = P +++ b +++ LF ->
    plain (continuationre emptytokenlist) b = true ->
    lineiter d = lines ->
    map snd lines = map (fun l => l +++ LF) body ->
    unclosed (g_definecount g) body = true ->
    locs d = (0, loc0) :: more -> Forall (fun ol => 0 < fst ol) more ->
    next fuel g0 d = iterdefinechars_loop g d (String.length P) ->
    List.length body < fuel ->
    collect (S fuel) g0 d = Raise (SyntaxError "Unterminated define" loc0).
Proof.
  induction body as [|l body IH];
    intros lines g d P b fuel g0 loc0 more F T S0 C0 Hd Hp Hl Hm Hn Hlo Hmo Hx Hf.
  - destruct lines; [|discriminate].
    cbn [collect]. rewrite Hx.
    rewrite (define_last_line_step g d P b Hd); auto.
    2,3: rewrite T; auto.
    destruct fuel as [|fuel]; [cbn in Hf; lia|].
    cbn [collect]. unfold next, gen_step.
    cbn [at_pc with_definecount g_func]. rewrite F.
    unfold iterdefinechars_next. cbn [at_pc with_definecount g_pc].
    unfold iterdefinechars_loop.
    replace (String.length P + String.length b + 1 <? len d) with false.
    2:{ symmetry. apply Nat.ltb_ge. unfold len. rewrite Hd, !length_append.
        change (String.length LF) with 1. lia. }
    unfold unterminated_define. cbn [g_startoffset at_pc with_definecount]. rewrite S0.
    rewrite (getloc_first d loc0 more 0 Hlo Hmo).
    + reflexivity.
    + unfold len. rewrite Hd, !length_append. change (String.length LF) with 1. lia.
  - destruct lines as [|[n nl] lines]; [discriminate|].
    cbn [map snd] in Hm. injection Hm as Hnl Hm. subst nl.
    cbn [unclosed] in Hn. cbv zeta in Hn.
    apply andb_true_iff in Hn as [Hn Hn3].
    apply andb_true_iff in Hn as [Hn1 Hn2]. apply negb_true_iff in Hn2.
    destruct (readline_cons _ _ _ _ Hl) as (R1 & R2 & R3 & R4).
    cbn [collect]. rewrite Hx.
    rewrite (define_line_step g d P b n (l +++ LF) lines Hd); auto.
    2,3: rewrite T; auto.
    cbv zeta. rewrite Hn2.
    destruct fuel as [|fuel]; [cbn in Hf; lia|].
    set (g1 := at_pc _ _).
    assert (Hlen : 0 < len d).
    { unfold len. rewrite Hd, !length_append. change (String.length LF) with 1. lia. }
    rewrite (IH lines g1 (snd (readline d)) (P +++ b +++ LF) l fuel g1 loc0
               (more ++ [(len d, mkLocation (dpath d) n 0)])); auto.
    + apply Z.eqb_neq. exact Hn2.
    + rewrite R1, Hd. now rewrite !append_assoc.
    + rewrite R4, Hlo. reflexivity.
    + apply Forall_app. split; [exact Hmo|]. constructor; [exact Hlen|constructor].
    + unfold next, gen_step. subst g1. cbn [at_pc with_definecount g_func].
      rewrite F. unfold iterdefinechars_next. cbn [at_pc with_definecount g_pc].
      f_equal. rewrite !length_append. change (String.length LF) with 1. lia.
    + cbn [List.length] in Hf. lia.
Qed.

(** X16: a define whose body runs to the end of the stream without the
    endef that closes it makes [parsestream] raise
    SyntaxError "Unterminated define", located at the first line of the
    body. *)
Theorem unterminated_define_raises fd evs st n0 name block b body :
  stream_reaches functionmap filename (parsestream_start fd) evs st ->
  fdlines st = (n0, "define " +++ name +++ LF) :: block ->
  map snd block = map (fun l => l +++ LF) (b :: body) ->
  name <> "" -> wsrun name = 0 ->
  plain (makefilere (TokenList_get ["$"])) name = true ->
  unclosed 1 (b :: body) = true ->
  parsestream functionmap filename fd
  = Raise (SyntaxError "Unterminated define"
             (mkLocation filename (hd 0 (map fst block)) 0)).
Proof.
  intros R Hf Hb Hne Hws Hp Hn.
  pose proof (stream_start_follow _ _ _ _ _ R) as [K _].
  apply (stream_raise _ _ _ _ _ _ R).
  destruct (first_readline filename st _ _ _ Hf) as (d & Hr & Hd & Hl & Hli & _).
  unfold parsestream_iteration. rewrite Hr.
  apply cond_ok_length in K.
  replace (assert (0 <? List.length (condstack st))) with (Ok tt).
  2:{ destruct (condstack st); [cbn in K; lia|reflexivity]. }
  cbn [bind negb]. cbv zeta.
  replace ((0 <? len d) && String.eqb (slice 0 1 (data d)) TAB && currule st)
    with false.
  2:{ rewrite Hd. change (String.eqb (slice 0 1 _) TAB) with false.
      now rewrite andb_false_r. }
  rewrite (define_dispatch d name Hd Hne Hws).
  change (String.eqb "define" "endif") with false.
  change (String.eqb "define" "else") with false.
  change (conditionkeywords functionmap "define") with
    (@None (Data -> list warning -> nat -> result (Condition * Data * list warning))).
  change (String.eqb "define" "endef") with false.
  change (String.eqb "define" "define") with true.
  cbv iota. unfold parse_define.
  rewrite (define_name functionmap d filename n0 name (plog st) Hd Hl Hp).
  cbn [bind p_data p_expansion p_log]. rewrite Hli. cbv zeta.
  destruct block as [|[n1 nl] lines]; [discriminate|].
  cbn [map snd] in Hb. injection Hb as -> Hb.
  cbn [unclosed] in Hn. cbv zeta in Hn.
  apply andb_true_iff in Hn as [Hn Hn3].
  apply andb_true_iff in Hn as [Hn1 Hn2]. apply negb_true_iff in Hn2.
  set (d2 := snd (readline _)).
  assert (Hd2 : data d2 = "" +++ b +++ LF) by reflexivity.
  assert (Hl2 : locs d2 = [(0, mkLocation filename n1 0)]) by reflexivity.
  assert (Hli2 : lineiter d2 = lines) by reflexivity.
  assert (Hbud : List.length body <= budget d2).
  { etransitivity; [|apply lines_le_budget]. unfold lines_left. rewrite Hli2.
    rewrite <- (length_map snd lines), Hb, length_map. lia. }
  clearbody d2.
  unfold iterflatten. rewrite fuel_of_S.
  set (g0 := new_generator Iterdefinechars (Some 0) emptytokenlist).
  set (g := mkGen Iterdefinechars emptytokenlist (AtStart (Some 0))
              (1 + line_direction (b +++ LF)) 0).
  rewrite (define_collect_open body lines g d2 "" b (S (S (S (2 * budget d2)))) g0
             (mkLocation filename n1 0) []); auto.
  - apply Z.eqb_neq. exact Hn2.
  - unfold next, gen_step, iterdefinechars_next. subst g0 g.
    cbn [new_generator g_func g_pc g_tokenlist].
    rewrite (checkfortoken_line d2 "" (b +++ LF) Hd2 : checkfortoken d2 0 = _).
    cbv zeta. rewrite Hn2. reflexivity.
  - lia.
Qed.

End OpenDefine.

Lemma unterminated_define_raises_witness :
  parsestream sample_functionmap "Makefile"
    ["all:" +++ LF; "define FOO" +++ LF; "define BAR" +++ LF; "x" +++ LF;
     "endef" +++ LF; "y" +++ LF]
  = Raise (SyntaxError "Unterminated define" (mkLocation "Makefile" 3 0)).
Proof.
  eapply (unterminated_define_raises sample_functionmap "Makefile"
            ["all:" +++ LF; "define FOO" +++ LF; "define BAR" +++ LF; "x" +++ LF;
             "endef" +++ LF; "y" +++ LF]
            _ _ 2 "FOO"
            [(3, "define BAR" +++ LF); (4, "x" +++ LF); (5, "endef" +++ LF);
             (6, "y" +++ LF)]
            "define BAR" ["x"; "endef"; "y"]).
  - eapply stream_line; [vm_compute; reflexivity|]. apply stream_here.
  - reflexivity.
  - reflexivity.
  - discriminate.
  - reflexivity.
  - reflexivity.
  - reflexivity.
Defined.

(** ** The dollar forms without braces *)

Section Dollar.

Variable functionmap : list (string * nat).

Ltac len_simpl :=
  rewrite ?length_append;
  change (String.length BS) with 1; change (String.length LF) with 1;
  change (String.length TAB) with 1;
  cbn [String.length].

Lemma dollar_match rest : match_alts (makefilere (TokenList_get ["$"])) ("$" +++ rest) = Some 1.
Proof. reflexivity. Qed.

(** The state of the loop after the text [pre] and a dollar followed by
    the byte [c], which is neither a dollar nor an opening brace. *)
Lemma parse_dollar_single iterfunc stack d tokenoffset offset log loc c tl :
  offset < len d ->
  getloc_at d (Some tokenoffset) = Ok loc ->
  slice offset (offset + 1) (data d) = c ->
  String.length c = 1 -> c <> "$" -> is_open c = false ->
  top_tokenlist (stack_append stack (VariableRef loc (Expansion_fromstring c))) = Ok tl ->
  parse_dollar functionmap iterfunc stack d tokenoffset offset log
  = Continue (stack_append stack (VariableRef loc (Expansion_fromstring c)))
      (new_generator iterfunc (Some (offset + 1)) tl) d (Some (offset + 1)) log.
Proof.
  intros Hlt Hloc Hc Hl Hd Ho Ht. unfold parse_dollar.
  replace (len d =? offset) with false by (symmetry; apply Nat.eqb_neq; lia).
  rewrite Hloc. cbn [lift_turn]. rewrite Hc.
  replace (String.eqb c "") with false
    by (symmetry; apply String.eqb_neq; intros ->; discriminate).
  replace (String.eqb c "$") with false
    by (symmetry; apply String.eqb_neq; exact Hd).
  rewrite Ho, Ht. reflexivity.
Qed.

(** X17: the dollar forms that need no closing brace.  In a line of plain
    text, a dollar that is the last byte of the data expands to nothing;
    two dollars give the literal dollar; a dollar followed by any other
    byte that is not an opening brace gives a VariableRef named by that
    one byte, located at the dollar.  In each case the text before and
    after is appended as literals, in order. *)
Theorem dollar_forms loc0 pre post :
  plain (makefilere (TokenList_get ["$"])) pre = true ->
  plain (makefilere (TokenList_get ["$"])) post = true ->
  parsemakesyntax functionmap (fromstring (pre +++ "$") loc0) [] 0 [] Itermakefilechars
  = Ok (mkParsed (exp_append (Expansion_new (Some loc0)) (Literal pre)) None None
          (fromstring (pre +++ "$") loc0) []) /\
  parsemakesyntax functionmap (fromstring (pre +++ "$$" +++ post +++ LF) loc0) [] 0 []
    Itermakefilechars
  = Ok (mkParsed
          (fold_left exp_append [Literal pre; Literal "$"; Literal post]
             (Expansion_new (Some loc0)))
          None None (fromstring (pre +++ "$$" +++ post +++ LF) loc0) []) /\
  (forall c, String.length c = 1 -> c <> "$" -> is_open c = false ->
     parsemakesyntax functionmap (fromstring (pre +++ "$" +++ c +++ post +++ LF) loc0)
       [] 0 [] Itermakefilechars
     = Ok (mkParsed
             (fold_left exp_append
                [Literal pre; VariableRef (loc_add loc0 pre) (Expansion_fromstring c);
                 Literal post]
                (Expansion_new (Some loc0)))
             None None (fromstring (pre +++ "$" +++ c +++ post +++ LF) loc0) [])).
Proof.
  intros Hpre Hpost.
  assert (Start : forall line, 0 < String.length line ->
            parse_start (fromstring line loc0) 0 [] Itermakefilechars
            = Ok ([mkFrame PARSESTATE_TOPLEVEL (Some (Expansion_new (Some loc0)))
                     (TokenList_get ["$"]) None None (Some []) None None None None],
                  new_generator Itermakefilechars (Some 0) (TokenList_get ["$"]))).
  { intros line Hl. unfold parse_start. rewrite getloc_fromstring by exact Hl.
    reflexivity. }
  assert (Loc : forall rest, getloc_at (fromstring (pre +++ "$" +++ rest) loc0)
                               (Some (String.length pre)) = Ok (loc_add loc0 pre)).
  { intros rest. rewrite getloc_fromstring.
    - now rewrite stake_append.
    - len_simpl. lia. }
  split; [|split].
  - set (d := fromstring (pre +++ "$") loc0).
    assert (Hd : data d = "" +++ pre +++ "$" +++ "") by reflexivity.
    etransitivity.
    eapply run_result with (fuel := 0).
    + apply Start. len_simpl. lia.
    + apply reaches_refl.
    + cbn [l_stack l_di l_data l_offset l_log]. unfold parse_turn.
      rewrite next_makefile_start.
      rewrite (makefile_token_step _ d "" pre "$" "" 0);
          [|exact Hd|reflexivity|exact Hpre|reflexivity|discriminate|reflexivity..].
      cbn [stack_append expansion set_expansion notnone lift_turn String.eqb Ascii.eqb
           Bool.eqb String.length Nat.add].
      unfold parse_dollar.
      replace (len d =? String.length pre + 1) with true; [reflexivity|].
      symmetry. apply Nat.eqb_eq. unfold len. rewrite Hd.
      len_simpl. lia.
    + exact I.
    + reflexivity.
  - set (d := fromstring (pre +++ "$$" +++ post +++ LF) loc0).
    assert (Hd : data d = pre +++ "$" +++ "$" +++ post +++ LF) by reflexivity.
    assert (Hlen : len d = String.length pre + String.length post + 3).
    { unfold len. rewrite Hd. len_simpl. lia. }
    etransitivity.
    eapply run_result with (fuel := 0).
    + apply Start. len_simpl. lia.
    + eapply (reaches_step _ _ _ 0).
      { cbn [l_stack l_di l_data l_offset l_log]. unfold parse_turn.
        rewrite next_makefile_start.
        rewrite (makefile_token_step _ d "" pre "$" ("$" +++ post +++ LF) 0);
          [|exact Hd|reflexivity|exact Hpre|reflexivity|discriminate|reflexivity..].
        cbn [stack_append expansion set_expansion notnone lift_turn String.eqb Ascii.eqb
             Bool.eqb String.length Nat.add].
        unfold parse_dollar.
        replace (len d =? String.length pre + 1) with false
          by (symmetry; apply Nat.eqb_neq; lia).
        rewrite (Loc ("$" +++ post +++ LF) : getloc_at d _ = _). cbn [lift_turn].
        replace (slice (String.length pre + 1) (String.length pre + 1 + 1) (data d))
          with "$".
        2:{ symmetry. rewrite Hd. rewrite <- (append_assoc pre "$").
            apply (slice_middle' (pre +++ "$") "$"); len_simpl; lia. }
        cbn. reflexivity. }
      eapply (reaches_step _ _ _ 0).
      { cbn [l_stack l_di l_data l_offset l_log]. unfold parse_turn.
        rewrite next_makefile_start.
        rewrite (makefile_newline_step _ d (pre +++ "$$") post);
          [ | rewrite Hd, !append_assoc; reflexivity
            | len_simpl; lia
            | exact Hpost | reflexivity ].
        cbn. reflexivity. }
      apply reaches_refl.
    + cbn [l_stack l_di l_data l_offset l_log]. reflexivity.
    + exact I.
    + reflexivity.
  - intros c Hc Hnd Ho.
    set (d := fromstring (pre +++ "$" +++ c +++ post +++ LF) loc0).
    assert (Hd : data d = pre +++ "$" +++ c +++ post +++ LF) by reflexivity.
    assert (Hlen : len d = String.length pre + String.length post + 3).
    { unfold len. rewrite Hd. len_simpl. rewrite ?Hc. lia. }
    etransitivity.
    eapply run_result with (fuel := 0).
    + apply Start. len_simpl. lia.
    + eapply (reaches_step _ _ _ 0).
      { cbn [l_stack l_di l_data l_offset l_log]. unfold parse_turn.
        rewrite next_makefile_start.
        rewrite (makefile_token_step _ d "" pre "$" (c +++ post +++ LF) 0);
          [|exact Hd|reflexivity|exact Hpre|reflexivity|discriminate|reflexivity..].
        cbn [stack_append expansion set_expansion notnone lift_turn String.eqb Ascii.eqb
             Bool.eqb String.length Nat.add].
        apply parse_dollar_single with (c := c); auto.
        - lia.
        - apply (Loc (c +++ post +++ LF)).
        - rewrite Hd. rewrite <- (append_assoc pre "$").
          apply (slice_middle' (pre +++ "$") c); len_simpl; lia.
        - reflexivity. }
      eapply (reaches_step _ _ _ 0).
      { cbn [l_stack l_di l_data l_offset l_log]. unfold parse_turn.
        rewrite next_makefile_start.
        rewrite (makefile_newline_step _ d (pre +++ "$" +++ c) post);
          [ | rewrite Hd, !append_assoc; reflexivity
            | len_simpl; rewrite ?Hc; lia
            | exact Hpost | reflexivity ].
        cbn. reflexivity. }
      apply reaches_refl.
    + cbn [l_stack l_di l_data l_offset l_log]. reflexivity.
    + exact I.
    + reflexivity.
Qed.

End Dollar.

Lemma dollar_forms_witness :
  parsemakesyntax sample_functionmap
    (fromstring ("cc -o $@ a" +++ LF) (mkLocation "Makefile" 1 0)) [] 0 []
    Itermakefilechars
  = Ok (mkParsed
          (mkExpansion (Some (mkLocation "Makefile" 1 0))
             [Literal "cc -o ";
              VariableRef (mkLocation "Makefile" 1 6) (mkExpansion None [Literal "@"]);
              Literal " a"])
          None None (fromstring ("cc -o $@ a" +++ LF) (mkLocation "Makefile" 1 0)) []).
Proof.
  apply (proj2 (proj2 (dollar_forms sample_functionmap (mkLocation "Makefile" 1 0)
                         "cc -o " " a" eq_refl eq_refl)) "@");
    [reflexivity|discriminate|reflexivity].
Defined.

(** ** Assignments and rules *)

Section StatementLines.

Variable functionmap : list (string * nat).
Variable filename : string.

Ltac len_simpl :=
  rewrite ?length_append;
  change (String.length BS) with 1; change (String.length LF) with 1;
  change (String.length TAB) with 1;
  cbn [String.length].


(** Plain text up to a stop token: the text is the expansion, and the
    token and the offset after it are handed back. *)
Lemma parse_to_token d loc0 pre s tok rest stopon log :
  data d = pre +++ s +++ tok +++ rest ->
  getloc_at d (Some (String.length pre)) = Ok loc0 ->
  plain (makefilere (TokenList_get (stopon ++ ["$"]))) s = true ->
  match_alts (makefilere (TokenList_get (stopon ++ ["$"]))) (tok +++ rest)
  = Some (String.length tok) ->
  tok <> "" -> String.eqb tok LF = false -> String.eqb tok "#" = false ->
  startswith BS tok = false -> String.eqb tok "$" = false -> is_open tok = false ->
  parsemakesyntax functionmap d log (String.length pre) stopon Itermakefilechars
  = Ok (mkParsed (exp_append (Expansion_new (Some loc0)) (Literal s)) (Some tok)
          (Some (String.length pre + String.length s + String.length tok)) d log).
Proof.
  intros Hd Hloc Hp Hm Hne H1 H2 H3 H4 H5.
  etransitivity.
  eapply run_result with (fuel := 0).
  - unfold parse_start. rewrite Hloc. cbn [bind]. reflexivity.
  - apply reaches_refl.
  - cbn [l_stack l_di l_data l_offset l_log]. unfold parse_turn.
    rewrite next_makefile_start.
    rewrite (makefile_token_step _ d pre s tok rest);
      [ | exact Hd | reflexivity | exact Hp | exact Hm | exact Hne | exact H1
        | exact H2 | exact H3 ].
    cbn [stack_append expansion set_expansion notnone lift_turn].
    rewrite H4. unfold parse_token. rewrite H5.
    cbn [parsestate set_expansion List.length Nat.eqb assert lift_turn attr expansion].
    reflexivity.
  - exact I.
  - reflexivity.
Qed.

(** Plain text up to the newline that ends the line: the text is the
    expansion, and no token is handed back. *)
Lemma parse_to_newline d loc0 pre s stopon log :
  data d = pre +++ s +++ LF ->
  getloc_at d (Some (String.length pre)) = Ok loc0 ->
  plain (makefilere (TokenList_get (stopon ++ ["$"]))) s = true ->
  match_alts (makefilere (TokenList_get (stopon ++ ["$"]))) LF = Some 1 ->
  parsemakesyntax functionmap d log (String.length pre) stopon Itermakefilechars
  = Ok (mkParsed (exp_append (Expansion_new (Some loc0)) (Literal s)) None None d log).
Proof.
  intros Hd Hloc Hp Hm.
  etransitivity.
  eapply run_result with (fuel := 0).
  - unfold parse_start. rewrite Hloc. cbn [bind]. reflexivity.
  - eapply (reaches_step _ _ _ 0).
    { cbn [l_stack l_di l_data l_offset l_log]. unfold parse_turn.
      rewrite next_makefile_start.
      rewrite (makefile_newline_step _ d pre s);
        [ | exact Hd | reflexivity | exact Hp | exact Hm ].
      cbn. reflexivity. }
    apply reaches_refl.
  - cbn [l_stack l_di l_data l_offset l_log]. reflexivity.
  - exact I.
  - reflexivity.
Qed.





End StatementLines.



(** ** Syntax the parser refuses *)

Section Unsupported.

Variable functionmap : list (string * nat).
Variable filename : string.

Ltac len_simpl :=
  rewrite ?length_append;
  change (String.length BS) with 1; change (String.length LF) with 1;
  change (String.length TAB) with 1;
  cbn [String.length].



End Unsupported.


(** ** The iterators on physical lines *)

Section IteratorSafety.

Lemma lines_ok_readline d : lines_ok d -> lines_ok (snd (readline d)).
Proof.
  unfold lines_ok, readline. destruct (lineiter d) as [|[n l] rest] eqn:E.
  - cbn [snd]. now rewrite E.
  - cbn [snd append lineiter]. intros H. now inversion H.
Qed.

Lemma tail_readline d o :
  lines_ok d -> len d <= o -> one_line (sdrop o (data (snd (readline d)))) = true.
Proof.
  unfold lines_ok, readline, len. intros H Ho.
  destruct (lineiter d) as [|[n l] rest] eqn:E.
  - cbn [snd]. now rewrite sdrop_all.
  - cbn [snd append data]. rewrite sdrop_append_ge by exact Ho.
    inversion H; subst. now apply one_line_sdrop.
Qed.

Lemma gen_ok_at g d p :
  lines_ok d ->
  match p with
  | AtStart (Some o) | AtLoop o | AfterComment o => one_line (sdrop o (data d)) = true
  | AfterContinuation e => len d <= e
  | AtStart None => False
  | AfterLast | AfterBreak => True
  end ->
  gen_ok (at_pc g p) d.
Proof. intros H1 H2. split; [exact H1|exact H2]. Qed.

Lemma yield_token_ok f g d offset start e token :
  lines_ok d -> one_line (sdrop e (data d)) = true ->
  step_ok f (yield_token g d offset start e token).
Proof.
  intros Hl T. unfold yield_token.
  destruct (startswith BS token); [destruct (str_in _ _)|];
    cbn [step_ok]; now apply gen_ok_at.
Qed.

Ltac found Es H1 H2 H3 :=
  apply re_search_spec in Es as (H1 & H2 & H3 & _).

Lemma itermakefilechars_loop_ok g d offset :
  lines_ok d -> one_line (sdrop offset (data d)) = true ->
  step_ok Itermakefilechars (itermakefilechars_loop g d offset).
Proof.
  intros Hl T. unfold itermakefilechars_loop.
  destruct (offset <? len d); [|exact Hl].
  destruct (re_search _ _ _) as [[start e]|] eqn:Es;
    [|cbn [step_ok]; now apply gen_ok_at].
  found Es H1 H2 H3. fold (len d) in H3.
  assert (Te : one_line (sdrop e (data d)) = true)
    by (apply (tail_later _ offset); [lia|exact T]).
  assert (End : forall t, slice start e (data d) = t +++ LF -> e = len d)
    by (intros t Ht; now apply (token_at_end d offset start e t)).
  cbv zeta.
  destruct (String.eqb _ LF) eqn:E1.
  { apply String.eqb_eq in E1. rewrite (End "" E1), Nat.eqb_refl.
    cbn [step_ok]. now apply gen_ok_at. }
  destruct (String.eqb _ "#"); [cbn [step_ok]; now apply gen_ok_at|].
  destruct (String.eqb _ (BS +++ BS +++ "#")); [cbn [step_ok]; now apply gen_ok_at|].
  destruct (String.eqb _ (BS +++ LF)) eqn:E4.
  { apply String.eqb_eq in E4. cbn [step_ok]. apply gen_ok_at; auto.
    rewrite (End BS E4). lia. }
  destruct (startswith BS _ && endswith LF _) eqn:E5.
  { apply andb_true_iff in E5 as [_ E5]. apply endswith_LF in E5 as [t Ht].
    rewrite (End t Ht), Nat.eqb_refl. cbn [step_ok]. apply gen_ok_at; auto. }
  destruct (String.eqb _ (BS +++ "#")); [cbn [step_ok]; now apply gen_ok_at|].
  now apply yield_token_ok.
Qed.

Lemma itercommandchars_loop_ok g d offset :
  lines_ok d -> one_line (sdrop offset (data d)) = true ->
  step_ok Itercommandchars (itercommandchars_loop g d offset).
Proof.
  intros Hl T. unfold itercommandchars_loop.
  destruct (offset <? len d); [|exact Hl].
  destruct (re_search _ _ _) as [[start e]|] eqn:Es;
    [|cbn [step_ok]; now apply gen_ok_at].
  found Es H1 H2 H3. fold (len d) in H3.
  assert (Te : one_line (sdrop e (data d)) = true)
    by (apply (tail_later _ offset); [lia|exact T]).
  assert (End : forall t, slice start e (data d) = t +++ LF -> e = len d)
    by (intros t Ht; now apply (token_at_end d offset start e t)).
  cbv zeta.
  destruct (String.eqb _ LF) eqn:E1.
  { apply String.eqb_eq in E1. rewrite (End "" E1), Nat.eqb_refl.
    cbn [step_ok]. now apply gen_ok_at. }
  destruct (String.eqb _ (BS +++ LF)) eqn:E4.
  { apply String.eqb_eq in E4. cbn [step_ok]. apply gen_ok_at; auto.
    rewrite (End BS E4). lia. }
  now apply yield_token_ok.
Qed.

Lemma unterminated_define_ok g d :
  anchored d -> step_ok Iterdefinechars (unterminated_define g d).
Proof.
  intros A. unfold unterminated_define.
  destruct (getloc_at_ok d (Some (g_startoffset g)) A) as [loc G]. rewrite G.
  split; eauto.
Qed.

Lemma iterdefinechars_loop_ok g d offset :
  lines_ok d -> anchored d -> one_line (sdrop offset (data d)) = true ->
  step_ok Iterdefinechars (iterdefinechars_loop g d offset).
Proof.
  intros Hl A T. unfold iterdefinechars_loop.
  destruct (offset <? len d); [|now apply unterminated_define_ok].
  destruct (re_search _ _ _) as [[start e]|] eqn:Es;
    [|cbn [step_ok]; now apply gen_ok_at].
  found Es H1 H2 H3. fold (len d) in H3.
  assert (Te : one_line (sdrop e (data d)) = true)
    by (apply (tail_later _ offset); [lia|exact T]).
  assert (End : forall t, slice start e (data d) = t +++ LF -> e = len d)
    by (intros t Ht; now apply (token_at_end d offset start e t)).
  cbv zeta.
  destruct (String.eqb _ (BS +++ LF)) eqn:E4.
  { apply String.eqb_eq in E4. cbn [step_ok]. apply gen_ok_at; auto.
    rewrite (End BS E4). lia. }
  destruct (String.eqb _ LF) eqn:E1.
  { apply String.eqb_eq in E1. rewrite (End "" E1), Nat.eqb_refl.
    pose proof (lines_ok_readline d Hl) as Hl'.
    destruct (_ =? 0)%Z; cbn [step_ok]; apply gen_ok_at; auto.
    apply tail_readline; auto. }
  now apply yield_token_ok.
Qed.

Lemma iterdata_loop_ok g d offset :
  lines_ok d -> one_line (sdrop offset (data d)) = true ->
  step_ok Iterdata (iterdata_loop g d offset).
Proof.
  intros Hl T. unfold iterdata_loop.
  destruct (offset <? len d); [|exact Hl].
  destruct (re_search _ _ _) as [[start e]|] eqn:Es;
    cbn [step_ok]; apply gen_ok_at; auto.
  found Es H1 H2 H3. apply (tail_later _ offset); [lia|exact T].
Qed.

(** Resuming a generator, from any state it can be in on such input. *)
Lemma gen_step_ok drain g d :
  (forall e d0, lines_ok d0 -> one_line (sdrop e (data d0)) = true -> anchored d0 ->
     match drain (new_generator Itermakefilechars (Some e) emptytokenlist) d0 with
     | Ok d1 => lines_ok d1
     | Raise _ => False
     | OutOfFuel => True
     end) ->
  gen_ok g d -> anchored d ->
  step_ok (g_func g) (gen_step drain g d).
Proof.
  intros Hdrain [Hl Hpc] A. unfold gen_step.
  pose proof (lines_ok_readline d Hl) as Hl'.
  destruct (g_func g).
  - unfold iterdata_next.
    destruct (g_pc g) as [[o|]|o|e|e| |]; try contradiction; try exact Hl.
    + destruct (emptylist _); [cbn [step_ok]; now apply gen_ok_at|].
      now apply iterdata_loop_ok.
    + now apply iterdata_loop_ok.
  - unfold itermakefilechars_next.
    destruct (g_pc g) as [[o|]|o|e|e| |]; try contradiction; try exact Hl.
    + now apply itermakefilechars_loop_ok.
    + now apply itermakefilechars_loop_ok.
    + cbv zeta. apply itermakefilechars_loop_ok; auto.
      apply (tail_later _ e); [apply skipwhitespace_ge|now apply tail_readline].
    + specialize (Hdrain e d Hl Hpc A).
      destruct (drain _ _); [exact Hdrain|contradiction|exact I].
  - unfold itercommandchars_next.
    destruct (g_pc g) as [[o|]|o|e|e| |]; try contradiction; try exact Hl.
    + now apply itercommandchars_loop_ok.
    + now apply itercommandchars_loop_ok.
    + cbv zeta. apply itercommandchars_loop_ok; auto.
      apply (tail_later _ e); [destruct (_ && _); lia|now apply tail_readline].
  - unfold iterdefinechars_next.
    destruct (g_pc g) as [[o|]|o|e|e| |]; try contradiction; try exact Hl.
    + cbv zeta. destruct (_ =? 0)%Z; [exact Hl|].
      now apply iterdefinechars_loop_ok.
    + now apply iterdefinechars_loop_ok.
    + cbv zeta. apply iterdefinechars_loop_ok; auto.
      * now apply anchored_readline.
      * apply (tail_later _ e); [apply skipwhitespace_ge|now apply tail_readline].
    + now apply unterminated_define_ok.
Qed.

Lemma exhaust_ok fuel :
  forall g d, gen_ok g d -> anchored d ->
    match exhaust fuel g d with
    | Ok d1 => lines_ok d1
    | Raise e => unterminated (g_func g) e
    | OutOfFuel => True
    end.
Proof.
  induction fuel as [|fuel IH]; intros g d G A; [exact I|].
  cbn [exhaust].
  assert (Hdrain : forall e d0, lines_ok d0 -> one_line (sdrop e (data d0)) = true ->
            anchored d0 ->
            match exhaust fuel (new_generator Itermakefilechars (Some e) emptytokenlist) d0
            with
            | Ok d1 => lines_ok d1
            | Raise _ => False
            | OutOfFuel => True
            end).
  { intros e d0 Hl T A0.
    specialize (IH (new_generator Itermakefilechars (Some e) emptytokenlist) d0
                  (conj Hl T) A0).
    destruct (exhaust fuel _ d0); auto. destruct IH as [IH _]. discriminate IH. }
  pose proof (gen_step_ok (exhaust fuel) g d Hdrain G A) as S.
  destruct (gen_step (exhaust fuel) g d) as [y g1 d1|d1|e|] eqn:E; auto.
  apply gen_step_facts in E as (F1 & _ & _ & _ & F5 & _).
  rewrite <- F1. apply IH; auto.
Qed.

Lemma next_ok fuel g d :
  gen_ok g d -> anchored d -> step_ok (g_func g) (next fuel g d).
Proof.
  intros G A. apply gen_step_ok; auto.
  intros e d0 Hl T A0.
  pose proof (exhaust_ok fuel (new_generator Itermakefilechars (Some e) emptytokenlist) d0
                (conj Hl T) A0) as X.
  destruct (exhaust fuel _ d0); auto. destruct X as [X _]. discriminate X.
Qed.

Lemma collect_ok fuel :
  forall g d, gen_ok g d -> anchored d ->
    match collect fuel g d with
    | Ok (_, d1) => lines_ok d1 /\ anchored d1
    | Raise e => unterminated (g_func g) e
    | OutOfFuel => True
    end.
Proof.
  induction fuel as [|fuel IH]; intros g d G A; [exact I|].
  cbn [collect]. pose proof (next_ok fuel g d G A) as S.
  destruct (next fuel g d) as [y g1 d1|d1|e|] eqn:E; auto.
  - apply gen_step_facts in E as (F1 & _ & _ & _ & F5 & _).
    specialize (IH g1 d1 S (F5 A)). rewrite F1 in IH.
    destruct (collect fuel g1 d1) as [[ys d2]| |]; cbn [bind]; auto.
  - split; [exact S|]. eapply next_stop_anchored; eauto.
Qed.

Lemma ensureend_loop_ok fuel :
  forall g d msg, gen_ok g d -> anchored d -> g_func g = Itermakefilechars ->
    match ensureend_loop fuel g d msg with
    | Ok d1 => lines_ok d1 /\ anchored d1
    | Raise e => exists loc, e = SyntaxError msg loc
    | OutOfFuel => True
    end.
Proof.
  induction fuel as [|fuel IH]; intros g d msg G A Hf; [exact I|].
  cbn [ensureend_loop]. pose proof (next_ok fuel g d G A) as S.
  destruct (next fuel g d) as [y g1 d1|d1|e|] eqn:E.
  - apply gen_step_facts in E as (F1 & _ & _ & _ & F5 & _).
    destruct y as [[[c t] o] oo]. destruct (negb _ && _).
    + destruct (getloc_at_ok d1 o (F5 A)) as [loc L]. rewrite L. cbn [bind]. eauto.
    + apply IH; auto. congruence.
  - split; [exact S|]. eapply next_stop_anchored; eauto.
  - destruct S as [S _]. congruence.
  - exact I.
Qed.

Lemma one_line_stake s :
  one_line s = true ->
  forall k, k < String.length s -> one_line (stake k s +++ LF) = true.
Proof.
  induction s as [|c s IH]; intros H k Hk; [cbn in Hk; lia|].
  destruct k as [|k]; [reflexivity|].
  cbn [stake String.append one_line] in *.
  destruct (Ascii.eqb c (ascii_of_nat 10)).
  - apply String.eqb_eq in H. subst s. cbn in Hk. lia.
  - apply IH; auto. cbn [String.length] in Hk. lia.
Qed.

Lemma one_line_crlf l : one_line l = true -> one_line (crlf_to_lf l) = true.
Proof.
  intros H. unfold crlf_to_lf. destruct (endswith _ l) eqn:E; [|exact H].
  apply one_line_stake; auto.
  unfold endswith in E. apply andb_true_iff in E as [E _].
  apply Nat.leb_le in E. cbn [String.length] in E.
  change (String.length LF) with 1 in E. lia.
Qed.

Lemma lines_ok_iterlines fd p :
  forallb one_line fd = true -> lines_ok (DynamicData (iterlines fd) p).
Proof.
  unfold lines_ok, iterlines. cbn [DynamicData lineiter]. generalize 0.
  induction fd as [|l fd IH]; intros n; cbn [forallb iterlines_from]; [constructor|].
  rewrite andb_true_iff. intros [H1 H2]. constructor; [|now apply IH].
  cbn [snd]. now apply one_line_crlf.
Qed.

(** X21: on a line made of physical lines, that is, one whose text from
    the offset on, like every line still to be read, has no newline but
    its last byte, the iterators never fail an assertion.  [_iterflatten]
    returns for the raw, makefile and command iterators, and for the
    define iterator returns or raises SyntaxError "Unterminated define";
    [ensureend] returns or raises the SyntaxError of its caller.  The
    lines [iterlines] hands to a DynamicData are such lines when those of
    the stream are. *)
Theorem iterators_on_physical_lines :
  (forall fd p, forallb one_line fd = true -> lines_ok (DynamicData (iterlines fd) p)) /\
  (forall d, lines_ok d -> lines_ok (snd (readline d))) /\
  (forall iter d offset,
      anchored d -> lines_ok d -> one_line (sdrop offset (data d)) = true ->
      (iter <> Iterdefinechars ->
       exists s d', iterflatten iter d (Some offset) = Ok (s, d')) /\
      (forall e, iterflatten iter d (Some offset) = Raise e ->
                 exists loc, e = SyntaxError "Unterminated define" loc) /\
      (forall msg,
          (exists d', ensureend d (Some offset) msg = Ok d') \/
          (exists loc, ensureend d (Some offset) msg = Raise (SyntaxError msg loc)))).
Proof.
  split; [exact lines_ok_iterlines|]. split; [exact lines_ok_readline|].
  intros iter d offset A Hl T.
  assert (G : forall f, gen_ok (new_generator f (Some offset) emptytokenlist) d)
    by (intros f; split; [exact Hl|exact T]).
  assert (C : match iterflatten iter d (Some offset) with
              | Ok _ => True
              | Raise e => unterminated iter e
              | OutOfFuel => False
              end).
  { pose proof (iterflatten_terminates iter d (Some offset)) as N.
    unfold iterflatten in *.
    pose proof (collect_ok (fuel_of d) _ d (G iter) A) as K.
    destruct (collect _ _ _) as [[ys d1]| |]; cbn [bind] in *; auto. }
  split; [|split].
  - intros Hi. destruct (iterflatten iter d (Some offset)) as [[s d']| |];
      [eauto|destruct C as [C _]; contradiction|contradiction].
  - intros e E. rewrite E in C. destruct C as [_ C]. exact C.
  - intros msg. pose proof (ensureend_terminates d (Some offset) msg) as N.
    unfold ensureend in *.
    pose proof (ensureend_loop_ok (fuel_of d) _ d msg (G Itermakefilechars) A eq_refl) as K.
    destruct (ensureend_loop _ _ _ _) as [d1|e|]; [left; eauto| |contradiction].
    right. destruct K as [loc ->]. eauto.
Qed.

End IteratorSafety.

Lemma iterators_on_physical_lines_witness :
  exists s d',
    iterflatten Itermakefilechars
      (first_line ["a = b " +++ BS +++ LF; "  c # d" +++ LF]) (Some 3) = Ok (s, d').
Proof.
  apply (proj2 (proj2 iterators_on_physical_lines) Itermakefilechars
           (first_line ["a = b " +++ BS +++ LF; "  c # d" +++ LF]) 3).
  - eexists _, _. reflexivity.
  - repeat constructor.
  - reflexivity.
  - discriminate.
Defined.

(** ** parsemakesyntax raises nothing of its own *)

Section ParserSafety.

Variable functionmap : list (string * nat).
Hypothesis functions : functionmap <> [].

Lemma frame_wf_set_expansion f e b : frame_wf f b -> frame_wf (set_expansion f e) b.
Proof.
  destruct f as [ps ex tl ob cb so fn fl vn sf]. unfold frame_wf, braces.
  cbn [set_expansion parsestate expansion tokenlist openbrace closebrace function
       floc varname substfrom].
  destruct ps; intros H; decompose [and] H; repeat split; auto; discriminate.
Qed.

Lemma is_nil_stack_append stack x : is_nil (stack_append stack x) = is_nil stack.
Proof. destruct stack as [|f below]; cbn; auto. now destruct (expansion f). Qed.

Lemma stack_append_wf stack x : stack_wf stack -> stack_wf (stack_append stack x).
Proof.
  induction stack as [|f below IH]; cbn [stack_append stack_wf]; auto.
  intros [Hf Hb]. destruct (expansion f); cbn [stack_wf].
  - split; [now apply frame_wf_set_expansion|exact Hb].
  - rewrite is_nil_stack_append. split; [exact Hf|].
    destruct Hb as [Hb|Hb]; [now left|right; now apply IH].
Qed.

Lemma stack_wf_top stack : stack_wf stack -> exists tl, top_tokenlist stack = Ok tl.
Proof. destruct stack; cbn; [contradiction|eauto]. Qed.

Lemma top_tokenlist_append stack x :
  top_tokenlist (stack_append stack x) = top_tokenlist stack.
Proof.
  destruct stack as [|f below]; cbn [stack_append top_tokenlist]; auto.
  destruct (expansion f); reflexivity.
Qed.

Lemma insert_by_len_In x y l : In x (insert_by_len y l) <-> x = y \/ In x l.
Proof.
  induction l as [|z l IH]; cbn [insert_by_len In].
  - intuition.
  - destruct (_ <? _); cbn [In]; [intuition|]. rewrite IH. intuition.
Qed.

Lemma sort_by_len_In x l : In x (sort_by_len l) <-> In x l.
Proof.
  unfold sort_by_len.
  assert (G : forall acc, In x (fold_left (fun acc x => insert_by_len x acc) l acc)
                          <-> In x l \/ In x acc).
  { induction l as [|y l IH]; intros acc; cbn [fold_left In]; [intuition|].
    rewrite IH, insert_by_len_In. intuition. }
  rewrite G. cbn [In]. intuition.
Qed.

Lemma functionmap_get_In fname :
  In fname (map fst functionmap) -> exists m, functionmap_get functionmap fname = Some m.
Proof.
  unfold functionmap_get. clear functions.
  induction functionmap as [|[k v] fm IH]; cbn [map In find fst]; [contradiction|].
  intros [<-|H].
  - rewrite String.eqb_refl. cbn. eauto.
  - destruct (String.eqb k fname); [cbn; eauto|auto].
Qed.

(** A function name found after an opening brace is a key of the map. *)
Lemma function_found d o fname o' :
  findtoken d o (_functiontokenlist functionmap) true = (Some fname, o') ->
  exists m, functionmap_get functionmap fname = Some m.
Proof.
  unfold findtoken. cbv zeta.
  destruct (wslist_match _ _ _) as [[t e]|] eqn:E; [|discriminate].
  intros H; injection H as -> ->.
  apply wslist_match_spec in E as (Hin & _).
  apply functionmap_get_In.
  unfold wslist, _functiontokenlist in Hin. cbn [TokenList_get tlist] in Hin.
  destruct (sort_by_len (map fst functionmap)) as [|n ns] eqn:Es.
  - exfalso. destruct functionmap as [|[k v] fm]; [now apply functions|].
    assert (I : In k (sort_by_len (map fst ((k, v) :: fm))))
      by (apply sort_by_len_In; now left).
    rewrite Es in I. contradiction.
  - apply sort_by_len_In. now rewrite Es.
Qed.

Lemma frame_wf_tokens f b : frame_wf f b -> tlist (tokenlist f) <> [].
Proof.
  unfold frame_wf. destruct (parsestate f); intros H; decompose [and ex or] H;
    try assumption; congruence.
Qed.

Lemma stack_wf_nonempty stack : stack_wf stack -> is_nil stack = false.
Proof. destruct stack; [contradiction|reflexivity]. Qed.

Lemma resume_safe iterfunc stack o d log off :
  stack_wf stack -> lines_ok d -> one_line (sdrop o (data d)) = true -> anchored d ->
  turn_ok iterfunc
    (lift_turn (top_tokenlist stack)
       (fun toks => Continue stack (new_generator iterfunc (Some o) toks) d off log)).
Proof.
  intros W Hl T A. destruct (stack_wf_top _ W) as [toks E]. rewrite E.
  cbn [lift_turn turn_ok]. repeat split; auto.
Qed.

Lemma tl_stack_append f below x :
  stack_wf below -> stack_wf (List.tl (stack_append (f :: below) x)).
Proof.
  intros W. cbn [stack_append]. destruct (expansion f); cbn [List.tl];
    auto using stack_append_wf.
Qed.

Lemma open_brace c : is_open c = true -> c = "(" \/ c = "{".
Proof.
  unfold is_open. intros H. apply orb_true_iff in H as [H|H];
    apply String.eqb_eq in H; auto.
Qed.

(** The branch of the dollar raises nothing. *)
Lemma parse_dollar_safe iterfunc stack d tokenoffset offset log :
  stack_wf stack -> lines_ok d -> anchored d -> offset <= len d ->
  one_line (sdrop offset (data d)) = true ->
  turn_ok iterfunc (parse_dollar functionmap iterfunc stack d tokenoffset offset log).
Proof.
  intros W Hl A Ho T. unfold parse_dollar.
  destruct (len d =? offset) eqn:El; [split; assumption|].
  apply Nat.eqb_neq in El.
  destruct (getloc_at_ok d (Some tokenoffset) A) as [loc G]. rewrite G.
  cbn [lift_turn]. cbv zeta.
  set (c := slice offset (offset + 1) (data d)).
  assert (Hc : String.eqb c "" = false).
  { apply String.eqb_neq. intros E.
    assert (L : String.length c = 1)
      by (unfold c; rewrite slice_length; unfold len in *; lia).
    rewrite E in L. discriminate. }
  rewrite Hc.
  assert (T1 : forall o', offset <= o' -> one_line (sdrop o' (data d)) = true)
    by (intros o' Ho'; now apply (tail_later _ offset)).
  pose proof (stack_wf_nonempty _ W) as Hn.
  destruct (String.eqb c "$").
  { apply resume_safe; auto using stack_append_wf. apply T1. lia. }
  destruct (is_open c) eqn:Eo.
  { pose proof (findtoken_ge d (offset + 1) (_functiontokenlist functionmap) true) as Ge.
    destruct (findtoken d (offset + 1) (_functiontokenlist functionmap) true)
      as [fname o'] eqn:Ef.
    cbn [snd] in Ge.
    destruct fname as [fname|].
    - destruct (function_found _ _ _ _ Ef) as [m Em]. rewrite Em.
      cbn [turn_ok]. unfold loop_ok.
      split; [|repeat split; auto; apply T1; lia].
      cbn [stack_wf]. rewrite Hn. split; [|now right].
      unfold frame_wf, braces. cbn [parsestate expansion function openbrace closebrace
                                    tokenlist].
      split; [reflexivity|]. split; [discriminate|]. split; [discriminate|].
      exists c. split; [auto|].
      destruct (_ =? _); cbn [TokenList_get tlist]; auto.
    - cbn [turn_ok]. unfold loop_ok.
      split; [|repeat split; auto; apply T1; lia].
      cbn [stack_wf]. rewrite Hn. split; [|now right].
      unfold frame_wf, braces. cbn [parsestate expansion floc openbrace closebrace
                                    tokenlist].
      split; [reflexivity|]. split; [discriminate|]. split; [discriminate|].
      exists c. auto. }
  apply resume_safe; auto using stack_append_wf. apply T1. lia.
Qed.

Ltac concrete :=
  cbn [parsestate expansion tokenlist openbrace closebrace stopon function floc varname
       substfrom assert lift_turn notnone attr popped String.eqb Ascii.eqb Bool.eqb
       is_open is_close orb andb _matchingbrace List.length Nat.eqb Nat.add fn_args
       fn_maxargs fn_name fn_loc].

Ltac new_frame c :=
  unfold frame_wf, braces;
  cbn [parsestate expansion tokenlist openbrace closebrace function floc varname
       substfrom TokenList_get tlist is_nil _matchingbrace String.eqb Ascii.eqb Bool.eqb];
  repeat (split; [first [reflexivity|discriminate]|]);
  exists c; cbn [is_open _matchingbrace String.eqb Ascii.eqb Bool.eqb orb]; auto.

(** The branches of the other tokens raise nothing. *)
Lemma parse_token_safe iterfunc stacktop below d token tokenoffset offset log :
  stack_wf (stacktop :: below) -> In token (tlist (tokenlist stacktop)) ->
  String.eqb token "$" = false ->
  lines_ok d -> anchored d -> one_line (sdrop offset (data d)) = true ->
  turn_ok iterfunc (parse_token iterfunc stacktop below d token tokenoffset offset log).
Proof.
  intros W Hin Hd Hl A T.
  pose proof (stack_append_wf _ (Literal token) W) as W1.
  assert (R : forall stack' log',
             stack_wf stack' ->
             turn_ok iterfunc
               (lift_turn (top_tokenlist stack')
                  (fun toks => Continue stack' (new_generator iterfunc (Some offset) toks)
                                 d (Some offset) log')))
    by (intros; now apply resume_safe).
  destruct (getloc_at_ok d (Some tokenoffset) A) as [loc G].
  destruct W as [Wf Wb].
  unfold parse_token. cbv zeta. rewrite G.
  destruct stacktop as [ps ex toks ob cb so fn fl vn sf].
  unfold frame_wf, braces in Wf.
  cbn [parsestate expansion tokenlist openbrace closebrace function floc varname
       substfrom] in *.
  destruct ps.
  - (* TOPLEVEL *)
    destruct Wf as (Hb & He & _ & Hop). rewrite (Hop _ Hin). concrete.
    destruct below; [|discriminate]. destruct ex; [|contradiction]. exact I.
  - (* FUNCTION *)
    destruct Wf as (Hb & He & Hfn & c & (Hc & -> & ->) & Htl).
    destruct below as [|b0 below]; [discriminate|]. destruct Wb as [Wb|Wb]; [discriminate|].
    destruct ex as [e|]; [|contradiction]. destruct fn as [fn|]; [|contradiction].
    apply open_brace in Hc.
    destruct Htl as [Htl|Htl]; rewrite Htl in *; cbn [In] in Hin;
      destruct Hc as [-> | ->];
      repeat (destruct Hin as [<-|Hin]; [|]); try contradiction; try discriminate;
      concrete.
    all: try (destruct (_ =? _); concrete).
    all: apply R; auto using stack_append_wf.
    all: try (split; [|right; exact Wb]).
    all: try (split; [|right; exact W1]).
    all: try solve [new_frame "("; auto | new_frame "{"; auto].
  - (* VARNAME *)
    destruct Wf as (Hb & He & Hfl & c & (Hc & -> & ->) & Htl).
    destruct below as [|b0 below]; [discriminate|]. destruct Wb as [Wb|Wb]; [discriminate|].
    destruct ex as [e|]; [|contradiction]. destruct fl as [fl|]; [|contradiction].
    apply open_brace in Hc.
    rewrite Htl in *; cbn [In] in Hin;
      destruct Hc as [-> | ->];
      repeat (destruct Hin as [<-|Hin]; [|]); try contradiction; try discriminate;
      concrete.
    all: apply R; auto using stack_append_wf.
    all: try (split; [|right; exact Wb]).
    all: try (split; [|right; exact W1]).
    all: try solve [new_frame "("; auto | new_frame "{"; auto].
  - (* SUBSTFROM *)
    destruct Wf as (Hb & He & Hfl & Hvn & c & (Hc & -> & ->) & Htl).
    destruct below as [|b0 below]; [discriminate|]. destruct Wb as [Wb|Wb]; [discriminate|].
    destruct ex as [e|]; [|contradiction]. destruct fl as [fl|]; [|contradiction].
    destruct vn as [vn|]; [|contradiction].
    apply open_brace in Hc.
    rewrite Htl in *; cbn [In] in Hin;
      destruct Hc as [-> | ->];
      repeat (destruct Hin as [<-|Hin]; [|]); try contradiction; try discriminate;
      concrete.
    all: apply R; auto using stack_append_wf.
    all: try (split; [|right; exact Wb]).
    all: try (split; [|right; exact W1]).
    all: try solve [new_frame "("; auto | new_frame "{"; auto].
  - (* SUBSTTO *)
    destruct Wf as (Hb & He & Hfl & Hvn & Hsf & c & (Hc & -> & ->) & Htl).
    destruct below as [|b0 below]; [discriminate|]. destruct Wb as [Wb|Wb]; [discriminate|].
    destruct ex as [e|]; [|contradiction]. destruct fl as [fl|]; [|contradiction].
    destruct vn as [vn|]; [|contradiction]. destruct sf as [sf|]; [|contradiction].
    apply open_brace in Hc.
    rewrite Htl in *; cbn [In] in Hin;
      destruct Hc as [-> | ->];
      repeat (destruct Hin as [<-|Hin]; [|]); try contradiction; try discriminate;
      concrete.
    all: apply R; auto using stack_append_wf.
    all: try (split; [|right; exact Wb]).
    all: try (split; [|right; exact W1]).
    all: try solve [new_frame "("; auto | new_frame "{"; auto].
  - (* PARENMATCH *)
    destruct Wf as (Hb & c & (Hc & -> & ->) & Htl).
    destruct below as [|b0 below]; [discriminate|]. destruct Wb as [Wb|Wb]; [discriminate|].
    apply open_brace in Hc.
    rewrite Htl in *; cbn [In] in Hin;
      destruct Hc as [-> | ->];
      repeat (destruct Hin as [<-|Hin]; [|]); try contradiction; try discriminate;
      concrete.
    all: apply R.
    all: try (apply tl_stack_append; exact Wb).
    all: split; [|right; exact W1].
    all: rewrite is_nil_stack_append.
    all: solve [new_frame "("; auto | new_frame "{"; auto].
Qed.

(** A turn of the loop, on a line made of physical lines: the only
    exception is the one of the define iterator. *)
Lemma parse_turn_safe fuel iterfunc stack di d offset log :
  loop_ok iterfunc stack di d ->
  turn_ok iterfunc (parse_turn functionmap fuel iterfunc stack di d offset log).
Proof.
  intros (W & Ht & Hf & G & A). unfold parse_turn.
  destruct stack as [|f0 below0]; [contradiction|].
  pose proof (next_ok fuel di d G A) as S. rewrite Hf in S.
  destruct (next fuel di d) as [y g1 d1|d1|e|] eqn:En; cbn [step_ok] in S.
  - pose proof (gen_step_facts _ _ _ _ _ _ En) as (F1 & F2 & _ & _ & F5 & F6 & _).
    destruct y as [[[s t] to] ao].
    pose proof (stack_append_wf _ (Literal s) W) as W1.
    pose proof (top_tokenlist_append (f0 :: below0) (Literal s)) as Tt.
    destruct (stack_append (f0 :: below0) (Literal s)) as [|f1 below1] eqn:Ea;
      [contradiction|].
    cbn [top_tokenlist] in Tt, Ht.
    assert (Etl : tokenlist f1 = g_tokenlist di) by congruence.
    destruct t as [t|].
    + cbn [yield_spec] in F6.
      destruct to as [to|]; [|contradiction]. destruct ao as [ao|]; [|contradiction].
      destruct F6 as (Hpc & Hle & Hlen & Hsl & Hin).
      cbn [notnone lift_turn].
      assert (T : one_line (sdrop ao (data d1)) = true).
      { destruct S as [_ S]. rewrite Hpc in S. exact S. }
      assert (Hin' : In t (tlist (tokenlist f1))).
      { rewrite Etl. destruct Hin as [Hin|[_ Hin]]; [exact Hin|].
        exfalso. destruct W1 as [W1 _]. apply frame_wf_tokens in W1.
        rewrite Etl in W1. contradiction. }
      destruct (String.eqb t "$") eqn:Ed.
      * apply parse_dollar_safe; auto. apply S.
      * apply parse_token_safe; auto. apply S.
    + cbn [turn_ok]. repeat split; try apply W1; try apply S; auto; try congruence.
      cbn [top_tokenlist]. congruence.
  - split; [exact W|]. eapply next_stop_anchored; eauto.
  - exact S.
  - exact I.
Qed.

Lemma parse_end_safe stack d offset log :
  stack_wf stack -> anchored d ->
  match parse_end stack d offset log with
  | Ok _ => True
  | Raise e => exists loc, e = SyntaxError "Unterminated function call" loc
  | OutOfFuel => False
  end.
Proof.
  intros W A. unfold parse_end. destruct (negb _) eqn:En.
  - destruct (getloc_at_ok d offset A) as [loc G]. rewrite G. cbn [bind]. eauto.
  - destruct stack as [|f [|? ?]]; try discriminate.
    destruct W as [W _]. unfold frame_wf in W. cbn [is_nil] in W.
    destruct (parsestate f); decompose [and] W; try discriminate.
    cbn [ParseState_eqb assert bind]. destruct (expansion f); [exact I|contradiction].
Qed.

Lemma parse_loop_safe fuel :
  forall iterfunc stack di d offset log,
    loop_ok iterfunc stack di d ->
    match parse_loop functionmap fuel iterfunc stack di d offset log with
    | Ok _ => True
    | Raise e =>
        (exists loc, e = SyntaxError "Unterminated function call" loc) \/
        unterminated iterfunc e
    | OutOfFuel => True
    end.
Proof.
  induction fuel as [|fuel IH]; intros iterfunc stack di d offset log L; [exact I|].
  cbn [parse_loop]. pose proof (parse_turn_safe fuel iterfunc stack di d offset log L) as S.
  destruct (parse_turn functionmap fuel iterfunc stack di d offset log)
    as [stack' di' d' offset' log'|stack' d' offset' log'|r|e|]; cbn [turn_ok] in S.
  - now apply IH.
  - destruct S as [W A]. pose proof (parse_end_safe stack' d' offset' log' W A) as E.
    destruct (parse_end stack' d' offset' log'); auto.
  - exact I.
  - now right.
  - exact I.
Qed.

(** X22: [parsemakesyntax] raises nothing of its own but the SyntaxError
    for a reference or call left open.  On a line made of physical lines
    (no newline but the last byte, from the start offset on and in every
    line still to be read), with a function map that is not empty and
    stop tokens that are not opening braces, it returns, or raises
    SyntaxError "Unterminated function call", or, with the define
    iterator, passes on its SyntaxError "Unterminated define": no
    assertion fails, no key, index or attribute is missing. *)
Theorem parsemakesyntax_safe d log startat stopon iterfunc :
  anchored d -> lines_ok d -> one_line (sdrop startat (data d)) = true ->
  (forall t, In t stopon -> is_open t = false) ->
  (exists r, parsemakesyntax functionmap d log startat stopon iterfunc = Ok r) \/
  (exists loc, parsemakesyntax functionmap d log startat stopon iterfunc
               = Raise (SyntaxError "Unterminated function call" loc)) \/
  (iterfunc = Iterdefinechars /\
   exists loc, parsemakesyntax functionmap d log startat stopon iterfunc
               = Raise (SyntaxError "Unterminated define" loc)).
Proof.
  intros A Hl T Hs. unfold parsemakesyntax, parse_start.
  destruct (getloc_at_ok d (Some startat) A) as [loc G]. rewrite G. cbn [bind].
  set (toks := TokenList_get (stopon ++ ["$"])).
  set (frame := mkFrame PARSESTATE_TOPLEVEL _ _ _ _ _ _ _ _ _).
  set (di := new_generator iterfunc (Some startat) toks).
  assert (L : loop_ok iterfunc [frame] di d).
  { repeat split; auto; try discriminate.
    - cbn. destruct stopon; discriminate.
    - cbn [frame tokenlist toks TokenList_get tlist]. intros t Ht.
      apply in_app_or in Ht as [Ht|[<-|[]]]; auto. }
  pose proof (parse_loop_safe (fuel_of d) iterfunc [frame] di d None log L) as S.
  pose proof (parse_loop_stops functionmap stopon (fuel_of d) iterfunc [frame] di d None log)
    as N.
  destruct (parse_loop functionmap (fuel_of d) iterfunc [frame] di d None log)
    as [r|e|] eqn:E.
  - left. eauto.
  - right. destruct S as [[l ->]|[-> [l ->]]]; [left|right]; eauto.
  - exfalso. apply N; [|apply weight_new].
    split; [|reflexivity]. constructor; [|constructor].
    split; [reflexivity|discriminate].
Qed.

End ParserSafety.

Lemma parsemakesyntax_safe_witness :
  (exists r, parsemakesyntax sample_functionmap
               (first_line ["a = $(addprefix x,$(b) " +++ BS +++ LF; "  c)" +++ LF])
               [] 3 [] Itermakefilechars = Ok r) \/
  (exists loc, parsemakesyntax sample_functionmap
                 (first_line ["a = $(addprefix x,$(b) " +++ BS +++ LF; "  c)" +++ LF])
                 [] 3 [] Itermakefilechars
               = Raise (SyntaxError "Unterminated function call" loc)) \/
  (Itermakefilechars = Iterdefinechars /\
   exists loc, parsemakesyntax sample_functionmap
                 (first_line ["a = $(addprefix x,$(b) " +++ BS +++ LF; "  c)" +++ LF])
                 [] 3 [] Itermakefilechars
               = Raise (SyntaxError "Unterminated define" loc)).
Proof.
  apply (parsemakesyntax_safe sample_functionmap).
  - discriminate.
  - eexists _, _. reflexivity.
  - repeat constructor.
  - reflexivity.
  - intros t [].
Defined.

(** ** The triple [parsemakesyntax] returns *)

Section Triple.

Variable functionmap : list (string * nat).

Lemma reaches_snoc iterfunc s0 s fuel stack di d offset log :
  reaches functionmap iterfunc s0 s ->
  parse_turn functionmap fuel iterfunc (l_stack s) (l_di s) (l_data s)
             (l_offset s) (l_log s) = Continue stack di d offset log ->
  reaches functionmap iterfunc s0 (mkLstate stack di d offset log).
Proof.
  induction 1 as [s|s fuel0 stack0 di0 d0 offset0 log0 s' Ht Hr IH]; intros H.
  - eapply reaches_step; [exact H|apply reaches_refl].
  - eapply reaches_step; [exact Ht|]. now apply IH.
Qed.

(** The frame that is alone on the stack after a chunk was appended. *)
Lemma stack_append_single stack x f' e' :
  stack_append stack x = [f'] -> expansion f' = Some e' ->
  exists f e, stack = [f] /\ expansion f = Some e /\ e' = exp_append e x /\
              parsestate f' = parsestate f.
Proof.
  destruct stack as [|f0 [|f1 rest]]; cbn [stack_append]; [discriminate| |].
  - destruct (expansion f0) as [e|] eqn:E.
    + intros H; injection H as <-. cbn [expansion set_expansion parsestate].
      intros H; injection H as <-. exists f0, e. auto.
    + intros H; injection H as <-. congruence.
  - destruct (expansion f0) as [e|] eqn:E; [discriminate|].
    intros H. apply (f_equal (@List.length _)) in H.
    cbn [List.length] in H.
    pose proof (stack_append_length (f1 :: rest) x) as L. cbn [List.length] in L.
    destruct (expansion f1); cbn [List.length] in H; lia.
Qed.

(** The dollar branch breaks out of the loop only at the end of the
    buffer. *)
Lemma parse_dollar_break iterfunc stack d tokenoffset offset log s d' o l :
  parse_dollar functionmap iterfunc stack d tokenoffset offset log = Break s d' o l ->
  len d = offset /\ s = stack /\ d' = d /\ l = log.
Proof.
  unfold parse_dollar.
  destruct (len d =? offset) eqn:E.
  { apply Nat.eqb_eq in E. intros H; injection H as <- <- <- <-. auto. }
  destruct (getloc_at d (Some tokenoffset)) as [loc| |] eqn:G; cbn [lift_turn];
    try discriminate.
  destruct (findtoken d (offset + 1) (_functiontokenlist functionmap) true)
    as [fname o'].
  repeat match goal with
         | |- context [if ?c then _ else _] => destruct c
         | |- context [lift_turn (top_tokenlist ?x) _] =>
             destruct (top_tokenlist x) eqn:?; cbn [lift_turn]
         | |- context [match ?x with Some _ => _ | None => _ end] => destruct x
         end.
  all: discriminate.
Qed.

(** How a turn breaks out of the loop. *)
Lemma parse_turn_break fuel iterfunc stack di d offset log stack' d' offset' log' :
  parse_turn functionmap fuel iterfunc stack di d offset log
  = Break stack' d' offset' log' ->
  log' = log /\
  ((next fuel di d = StopIteration d' /\ stack' = stack) \/
   (exists chunk t di',
       next fuel di d = Yield (chunk, Some "$", Some t, Some (len d')) di' d' /\
       stack' = stack_append stack (Literal chunk))).
Proof.
  unfold parse_turn.
  destruct stack as [|f0 below0]; [discriminate|].
  destruct (next fuel di d) as [y g1 d1|d1|e|] eqn:En; try discriminate.
  - destruct y as [[[c t] to] ao].
    destruct (stack_append (f0 :: below0) (Literal c)) as [|f1 below1] eqn:Ea;
      [discriminate|].
    destruct t as [t|]; [|discriminate].
    destruct to as [to|]; cbn [notnone lift_turn]; [|discriminate].
    destruct ao as [ao|]; cbn [notnone lift_turn]; [|discriminate].
    destruct (String.eqb t "$") eqn:Ed.
    + apply String.eqb_eq in Ed. subst t. intros H.
      apply parse_dollar_break in H as (Hl & -> & -> & ->).
      split; [reflexivity|]. right. exists c, to, g1. rewrite Hl. auto.
    + intros H. exfalso. revert H. apply parse_token_other.
  - intros H; injection H as <- <- <- <-. auto.
Qed.

(** How a turn returns. *)
Lemma parse_turn_return_yield fuel iterfunc stack di d offset log r :
  parse_turn functionmap fuel iterfunc stack di d offset log = Return r ->
  exists f e chunk t o di',
    stack = [f] /\ expansion f = Some e /\ parsestate f = PARSESTATE_TOPLEVEL /\
    p_log r = log /\ p_token r = Some t /\ p_offset r = Some o /\
    next fuel di d
    = Yield (chunk, Some t, Some (o - String.length t), Some o) di' (p_data r) /\
    p_expansion r = exp_append e (Literal chunk).
Proof.
  unfold parse_turn.
  destruct stack as [|f0 below0]; [discriminate|].
  destruct (next fuel di d) as [y g1 d1|d1|e|] eqn:En; try discriminate.
  pose proof En as En'. apply gen_step_facts in En' as (_ & _ & _ & _ & _ & F6 & _).
  destruct y as [[[c t] to] ao].
  destruct (stack_append (f0 :: below0) (Literal c)) as [|f1 below1] eqn:Ea;
    [discriminate|].
  destruct t as [t|]; [|discriminate].
  destruct to as [to|]; cbn [notnone lift_turn]; [|discriminate].
  destruct ao as [ao|]; cbn [notnone lift_turn]; [|discriminate].
  cbn [yield_spec] in F6. destruct F6 as (_ & Hle & Hlen & Hsl & _).
  destruct (String.eqb t "$") eqn:Ed.
  - intros H. exfalso. revert H. apply parse_dollar_other.
  - intros H. apply parse_token_return in H as (Hps & -> & He & Ht & Ho & Hd & Hlog).
    destruct (stack_append_single _ _ _ _ Ea He) as (f & e & Es & Ee & Hx & Hp).
    exists f, e, c, t, ao, g1. rewrite Hd.
    assert (L : String.length t = ao - to).
    { rewrite <- Hsl. apply slice_length. exact Hlen. }
    replace (ao - String.length t) with to by lia.
    repeat split; auto. congruence.
Qed.

Lemma parse_end_ok stack d offset log r :
  parse_end stack d offset log = Ok r ->
  exists f e, stack = [f] /\ expansion f = Some e /\ r = mkParsed e None None d log.
Proof.
  unfold parse_end. destruct (negb _) eqn:En.
  - destruct (getloc_at d offset); discriminate.
  - apply negb_false_iff, Nat.eqb_eq in En.
    destruct stack as [|f [|g rest]]; try discriminate.
    destruct (assert _); cbn [bind]; try discriminate.
    destruct (expansion f) as [e|] eqn:Ee; cbn [attr bind]; try discriminate.
    intros H; injection H as <-. eauto.
Qed.

(** The loop, from any state the loop has come to from [s0]. *)
Lemma parse_loop_triple stopon iterfunc s0 fuel :
  forall stack di d offset log r,
    reaches functionmap iterfunc s0 (mkLstate stack di d offset log) ->
    loop_inv (TokenList_get (stopon ++ ["$"])) stack di ->
    parse_loop functionmap fuel iterfunc stack di d offset log = Ok r ->
    (p_token r = None /\ p_offset r = None /\
     line_consumed functionmap iterfunc s0 r) \/
    (exists t o, p_token r = Some t /\ p_offset r = Some o /\ In t stopon /\
                 String.length t <= o /\ o <= len (p_data r) /\
                 slice (o - String.length t) o (data (p_data r)) = t /\
                 stopped_on functionmap iterfunc s0 r t o).
Proof.
  induction fuel as [|fuel IH]; intros stack di d offset log r Hr Hinv; [discriminate|].
  cbn [parse_loop].
  destruct (parse_turn functionmap fuel iterfunc stack di d offset log)
    as [stack' di' d' offset' log'|stack' d' offset' log'|r'|e|] eqn:Et;
    try discriminate.
  - pose proof (reaches_snoc _ _ _ _ _ _ _ _ _ Hr Et) as Hr'.
    apply parse_turn_continue with (tl0 := TokenList_get (stopon ++ ["$"])) in Et
      as (Hinv' & _); auto.
    intros H. eapply IH; eauto.
  - intros He. apply parse_end_ok in He as (f' & e' & -> & Ee & ->).
    apply parse_turn_break in Et as (-> & [[Hn <-]|(chunk & t & di' & Hn & Ea)]).
    + left. cbn [p_token p_offset]. repeat split.
      exists (mkLstate [f'] di d offset log), fuel, f', e'.
      cbn [l_stack l_di l_data l_log p_log p_data p_expansion]. repeat split; auto.
    + symmetry in Ea.
      destruct (stack_append_single _ _ _ _ Ea Ee) as (f & e & -> & Ef & -> & _).
      left. cbn [p_token p_offset]. repeat split.
      exists (mkLstate [f] di d offset log), fuel, f, e.
      cbn [l_stack l_di l_data l_log p_log p_data p_expansion]. repeat split; auto.
      right. exists chunk, t, di'. auto.
  - intros H; injection H as ->.
    pose proof (parse_turn_return functionmap stopon _ _ _ _ _ _ _ _ Hinv Et)
      as (t & o & Ht & Ho & Hin & Hl & Hle & Hs).
    apply parse_turn_return_yield in Et
      as (f & e & chunk & t' & o' & di' & -> & Ee & Hp & Hlog & Ht' & Ho' & Hn & Hx).
    assert (t' = t) by congruence. assert (o' = o) by congruence. subst t' o'.
    right. exists t, o. repeat split; auto.
    exists (mkLstate [f] di d offset log), fuel, f, e, chunk, di'.
    cbn [l_stack l_di l_data l_log]. repeat split; auto.
Qed.

(** C1: [parsemakesyntax] comes to an end on every LogicalLine, start
    offset, stop set and iterator, but it does not always return: it can
    raise.  When it returns a triple (expansion, token, offset), either
    token and offset are both None and the line was consumed, that is,
    the loop was left in a state with one frame in which the iterator
    was exhausted (or had yielded a dollar that is the last byte of the
    buffer), and the expansion is the one of that frame; or the token is
    a member of the stop set, yielded by the iterator to the one TOPLEVEL
    frame, and the offset is the position just after that occurrence of
    the token in the buffer.  With the empty stop set a returned token is
    None.  On a line made of physical lines, with a function map that is
    not empty and no opening brace in the stop set, the call returns a
    triple unless a reference or a call is left open, or, with the define
    iterator, the define is not terminated. *)
Theorem parsemakesyntax_stop_token :
  forall d log startat stopon iterfunc,
    parsemakesyntax functionmap d log startat stopon iterfunc <> OutOfFuel /\
    (forall r,
        parsemakesyntax functionmap d log startat stopon iterfunc = Ok r ->
        exists frame di,
          parse_start d startat stopon iterfunc = Ok ([frame], di) /\
          ((p_token r = None /\ p_offset r = None /\
            line_consumed functionmap iterfunc (mkLstate [frame] di d None log) r) \/
           (exists t o,
               p_token r = Some t /\ p_offset r = Some o /\ In t stopon /\
               String.length t <= o /\ o <= len (p_data r) /\
               slice (o - String.length t) o (data (p_data r)) = t /\
               stopped_on functionmap iterfunc (mkLstate [frame] di d None log)
                          r t o))) /\
    (forall r,
        parsemakesyntax functionmap d log startat [] iterfunc = Ok r ->
        p_token r = None /\ p_offset r = None) /\
    (functionmap <> [] -> anchored d -> lines_ok d ->
     one_line (sdrop startat (data d)) = true ->
     (forall t, In t stopon -> is_open t = false) ->
     (exists r, parsemakesyntax functionmap d log startat stopon iterfunc = Ok r) \/
     (exists loc, parsemakesyntax functionmap d log startat stopon iterfunc
                  = Raise (SyntaxError "Unterminated function call" loc)) \/
     (iterfunc = Iterdefinechars /\
      exists loc, parsemakesyntax functionmap d log startat stopon iterfunc
                  = Raise (SyntaxError "Unterminated define" loc))).
Proof.
  assert (T : forall d log startat stopon iterfunc r,
             parsemakesyntax functionmap d log startat stopon iterfunc = Ok r ->
             exists frame di,
               parse_start d startat stopon iterfunc = Ok ([frame], di) /\
               ((p_token r = None /\ p_offset r = None /\
                 line_consumed functionmap iterfunc (mkLstate [frame] di d None log) r) \/
                (exists t o,
                    p_token r = Some t /\ p_offset r = Some o /\ In t stopon /\
                    String.length t <= o /\ o <= len (p_data r) /\
                    slice (o - String.length t) o (data (p_data r)) = t /\
                    stopped_on functionmap iterfunc (mkLstate [frame] di d None log)
                               r t o))).
  { intros d log startat stopon iterfunc r. unfold parsemakesyntax.
    destruct (parse_start d startat stopon iterfunc) as [[stack di]| |] eqn:Es;
      cbn [bind]; try discriminate.
    pose proof Es as Es'.
    apply parse_start_inv in Es' as (Hinv & _ & Hlen).
    destruct stack as [|frame [|? ?]]; try discriminate.
    intros H. exists frame, di. split; [reflexivity|].
    eapply parse_loop_triple; eauto. apply reaches_refl. }
  intros d log startat stopon iterfunc. split; [|split; [|split]].
  - unfold parsemakesyntax.
    destruct (parse_start d startat stopon iterfunc) as [[stack di]| |] eqn:Es;
      cbn [bind]; try discriminate.
    + apply parse_start_inv in Es as (Hinv & -> & _).
      pose proof (parse_loop_stops functionmap stopon (fuel_of d) iterfunc stack _ d
                    None log Hinv (weight_new _ _ _ _)) as N.
      intros E. rewrite E in N. exact N.
    + revert Es. unfold parse_start.
      pose proof (getloc_at_not_OutOfFuel d (Some startat)).
      destruct (getloc_at d (Some startat)); cbn [bind]; congruence.
  - apply T.
  - intros r H. apply T in H as (frame & di & _ & [(Ht & Ho & _)|(t & o & _ & _ & [] & _)]).
    auto.
  - intros functions A Hl Hone Hs. unfold parsemakesyntax, parse_start.
    destruct (getloc_at_ok d (Some startat) A) as [loc G]. rewrite G. cbn [bind].
    set (toks := TokenList_get (stopon ++ ["$"])).
    set (frame := mkFrame PARSESTATE_TOPLEVEL _ _ _ _ _ _ _ _ _).
    set (di := new_generator iterfunc (Some startat) toks).
    assert (L : loop_ok iterfunc [frame] di d).
    { repeat split; auto; try discriminate.
      - cbn. destruct stopon; discriminate.
      - cbn [frame tokenlist toks TokenList_get tlist]. intros t Ht.
        apply in_app_or in Ht as [Ht|[<-|[]]]; auto. }
    pose proof (parse_loop_safe functionmap functions (fuel_of d) iterfunc [frame] di d
                  None log L) as S.
    pose proof (parse_loop_stops functionmap stopon (fuel_of d) iterfunc [frame] di d
                  None log) as N.
    destruct (parse_loop functionmap (fuel_of d) iterfunc [frame] di d None log)
      as [r|e|] eqn:E.
    + left. eauto.
    + right. destruct S as [[l ->]|[-> [l ->]]]; [left|right]; eauto.
    + exfalso. apply N; [|apply weight_new].
      split; [|reflexivity]. constructor; [|constructor].
      split; [reflexivity|discriminate].
Qed.

End Triple.

Lemma parsemakesyntax_stop_token_witness :
  (exists frame di,
      parse_start sample_line 0 [":"] Itermakefilechars = Ok ([frame], di) /\
      ((p_token (mkParsed (mkExpansion (Some (mkLocation "Makefile" 1 0)) [Literal "all"])
                          (Some ":") (Some 4) sample_line []) = None /\
        p_offset (mkParsed (mkExpansion (Some (mkLocation "Makefile" 1 0)) [Literal "all"])
                           (Some ":") (Some 4) sample_line []) = None /\
        line_consumed sample_functionmap Itermakefilechars
          (mkLstate [frame] di sample_line None [])
          (mkParsed (mkExpansion (Some (mkLocation "Makefile" 1 0)) [Literal "all"])
                    (Some ":") (Some 4) sample_line [])) \/
       (exists t o,
           Some ":" = Some t /\ Some 4 = Some o /\ In t [":"] /\
           String.length t <= o /\ o <= len sample_line /\
           slice (o - String.length t) o (data sample_line) = t /\
           stopped_on sample_functionmap Itermakefilechars
             (mkLstate [frame] di sample_line None [])
             (mkParsed (mkExpansion (Some (mkLocation "Makefile" 1 0)) [Literal "all"])
                       (Some ":") (Some 4) sample_line [])
             t o))) /\
  ((exists r, parsemakesyntax sample_functionmap sample_line [] 0 [":"] Itermakefilechars
              = Ok r) \/
   (exists loc, parsemakesyntax sample_functionmap sample_line [] 0 [":"] Itermakefilechars
                = Raise (SyntaxError "Unterminated function call" loc)) \/
   (Itermakefilechars = Iterdefinechars /\
    exists loc, parsemakesyntax sample_functionmap sample_line [] 0 [":"] Itermakefilechars
                = Raise (SyntaxError "Unterminated define" loc))).
Proof.
  split.
  - apply (proj1 (proj2 (parsemakesyntax_stop_token sample_functionmap sample_line []
                           0 [":"] Itermakefilechars))).
    reflexivity.
  - apply (proj2 (proj2 (proj2 (parsemakesyntax_stop_token sample_functionmap sample_line
                                  [] 0 [":"] Itermakefilechars)))).
    + discriminate.
    + eexists _, _. reflexivity.
    + constructor.
    + reflexivity.
    + intros t [<-|[]]. reflexivity.
Defined.

(** C1 as stated fails where the call raises instead of returning: a
    stop token that is an opening brace fails the assertion on the open
    brace of the frame, and a reference left open at the end of the line
    is a SyntaxError. *)
Lemma stop_token_raises_counterexample :
  parsemakesyntax sample_functionmap
    (fromstring ("a(b" +++ LF) (mkLocation "Makefile" 1 0)) [] 0 ["("] Itermakefilechars
  = Raise AssertionError /\
  parsemakesyntax sample_functionmap
    (fromstring ("a ${b" +++ LF) (mkLocation "Makefile" 1 0)) [] 0 [] Itercommandchars
  = Raise (SyntaxError "Unterminated function call" (mkLocation "Makefile" 1 5)).
Proof. split; vm_compute; reflexivity. Qed.

(** ** References in braces *)

Section Braces.

Variable functionmap : list (string * nat).

Ltac len_simpl :=
  rewrite ?length_append;
  change (String.length BS) with 1; change (String.length LF) with 1;
  change (String.length TAB) with 1;
  cbn [String.length].

Lemma is_open_cases c : is_open c = true -> c = "(" \/ c = "{".
Proof.
  unfold is_open. intros H. apply orb_true_iff in H as [E|E];
    apply String.eqb_eq in E; auto.
Qed.

Lemma close_facts c :
  is_open c = true ->
  String.length c = 1 /\ String.length (_matchingbrace c) = 1 /\
  String.eqb (_matchingbrace c) "$" = false /\
  is_open (_matchingbrace c) = false /\ is_close (_matchingbrace c) = true /\
  String.eqb (_matchingbrace c) ":" = false /\
  String.eqb (_matchingbrace c) "=" = false /\
  String.eqb (_matchingbrace c) "," = false.
Proof. intros H. apply is_open_cases in H as [-> | ->]; repeat split. Qed.

Ltac turn_head :=
  cbn [l_stack l_di l_data l_offset l_log]; unfold parse_turn;
  rewrite next_makefile_start.

(** X23: references in braces.  In a line of plain text, a dollar, an
    opening brace, a name and the matching closing brace give a
    VariableRef located at the dollar whose name is the text between the
    braces; with a colon and an equals sign inside, they give a
    SubstitutionRef of the three texts.  The name is free of the tokens
    looked for inside the reference (the colon, the dollar and the two
    braces of this kind: a brace of the other kind is text) and is not a
    function name followed by whitespace. *)
Theorem references_in_braces loc0 pre post c :
  is_open c = true ->
  plain (makefilere (TokenList_get ["$"])) pre = true ->
  plain (makefilere (TokenList_get ["$"])) post = true ->
  (forall V,
      plain (makefilere (TokenList_get [":"; c; _matchingbrace c; "$"])) V = true ->
      fst (findtoken
             (fromstring (pre +++ "$" +++ c +++ V +++ _matchingbrace c +++ post +++ LF) loc0)
             (String.length pre + 2) (_functiontokenlist functionmap) true) = None ->
      parsemakesyntax functionmap
        (fromstring (pre +++ "$" +++ c +++ V +++ _matchingbrace c +++ post +++ LF) loc0)
        [] 0 [] Itermakefilechars
      = Ok (mkParsed
              (fold_left exp_append
                 [Literal pre;
                  VariableRef (loc_add loc0 pre)
                    (exp_append (Expansion_new None) (Literal V));
                  Literal post]
                 (Expansion_new (Some loc0)))
              None None
              (fromstring (pre +++ "$" +++ c +++ V +++ _matchingbrace c +++ post +++ LF)
                 loc0)
              [])) /\
  (forall V from to,
      plain (makefilere (TokenList_get [":"; c; _matchingbrace c; "$"])) V = true ->
      plain (makefilere (TokenList_get ["="; c; _matchingbrace c; "$"])) from = true ->
      plain (makefilere (TokenList_get [c; _matchingbrace c; "$"])) to = true ->
      fst (findtoken
             (fromstring (pre +++ "$" +++ c +++ V +++ ":" +++ from +++ "=" +++ to
                          +++ _matchingbrace c +++ post +++ LF) loc0)
             (String.length pre + 2) (_functiontokenlist functionmap) true) = None ->
      parsemakesyntax functionmap
        (fromstring (pre +++ "$" +++ c +++ V +++ ":" +++ from +++ "=" +++ to
                     +++ _matchingbrace c +++ post +++ LF) loc0)
        [] 0 [] Itermakefilechars
      = Ok (mkParsed
              (fold_left exp_append
                 [Literal pre;
                  SubstitutionRef (loc_add loc0 pre)
                    (exp_append (Expansion_new None) (Literal V))
                    (exp_append (Expansion_new None) (Literal from))
                    (exp_append (Expansion_new None) (Literal to));
                  Literal post]
                 (Expansion_new (Some loc0)))
              None None
              (fromstring (pre +++ "$" +++ c +++ V +++ ":" +++ from +++ "=" +++ to
                           +++ _matchingbrace c +++ post +++ LF) loc0)
              [])).
Proof.
  intros Ho Hpre Hpost.
  destruct (close_facts c Ho) as (F1 & F2 & F3 & F4 & F5 & F6 & F7 & _).
  pose proof (is_open_cases c Ho) as Hc.
  split.
  - intros V HV Hfn.
    set (close := _matchingbrace c) in *.
    set (line := pre +++ "$" +++ c +++ V +++ close +++ post +++ LF) in *.
    set (d := fromstring line loc0) in *.
    assert (Hd : data d = line) by reflexivity.
    assert (Hlen : len d = String.length pre + String.length V + String.length post + 4).
    { unfold len. rewrite Hd. unfold line, close. len_simpl.
      destruct Hc as [-> | ->]; cbn; lia. }
    assert (Hloc : getloc_at d (Some (String.length pre)) = Ok (loc_add loc0 pre)).
    { unfold d. rewrite getloc_fromstring.
      - unfold line. now rewrite stake_append.
      - fold (len d). rewrite <- Hd. fold (len d). lia. }
    etransitivity.
    eapply run_result with (fuel := 0).
    + unfold parse_start. unfold d at 1. rewrite getloc_fromstring.
      * cbn [bind stake loc_add]. reflexivity.
      * rewrite <- Hd. fold (len d). lia.
    + eapply (reaches_step _ _ _ 0).
      { turn_head.
        rewrite (makefile_token_step _ d "" pre "$" (c +++ V +++ close +++ post +++ LF));
          [ | exact Hd | reflexivity | exact Hpre
            | reflexivity | discriminate | reflexivity | reflexivity | reflexivity ].
        cbn [stack_append expansion set_expansion notnone lift_turn String.eqb Ascii.eqb
             Bool.eqb String.length Nat.add].
        apply parse_dollar_varname with (c := c).
        - lia.
        - exact Hloc.
        - rewrite Hd. unfold line. rewrite <- (append_assoc pre "$").
          apply (slice_middle' (pre +++ "$") c); len_simpl;
            destruct Hc as [-> | ->]; cbn; lia.
        - destruct Hc as [-> | ->]; reflexivity.
        - replace (String.length pre + 1 + 1) with (String.length pre + 2) by lia.
          exact Hfn. }
      eapply (reaches_step _ _ _ 0).
      { turn_head.
        rewrite (makefile_token_step _ d (pre +++ "$" +++ c) V close (post +++ LF));
          [ | rewrite Hd; unfold line; rewrite !append_assoc; reflexivity
            | len_simpl; destruct Hc as [-> | ->]; cbn; lia
            | exact HV
            | unfold close; destruct Hc as [-> | ->]; reflexivity
            | unfold close; destruct Hc as [-> | ->]; discriminate
            | unfold close; destruct Hc as [-> | ->]; reflexivity
            | unfold close; destruct Hc as [-> | ->]; reflexivity
            | unfold close; destruct Hc as [-> | ->]; reflexivity ].
        cbn [stack_append expansion set_expansion notnone lift_turn].
        fold close in F2, F3, F4, F5, F6.
        rewrite F3. unfold parse_token. rewrite F4. cbn [parsestate].
        rewrite F6, F5. cbn. rewrite F2. reflexivity. }
      eapply (reaches_step _ _ _ 0).
      { turn_head.
        rewrite (makefile_newline_step _ d (pre +++ "$" +++ c +++ V +++ close) post);
          [ | rewrite Hd; unfold line; rewrite !append_assoc; reflexivity
            | unfold close; len_simpl; destruct Hc as [-> | ->]; cbn; lia
            | exact Hpost
            | reflexivity ].
        cbn. reflexivity. }
      apply reaches_refl.
    + cbn [l_stack l_di l_data l_offset l_log]. reflexivity.
    + exact I.
    + reflexivity.
  - intros V from to HV Hfrom Hto Hfn.
    set (close := _matchingbrace c) in *.
    set (line := pre +++ "$" +++ c +++ V +++ ":" +++ from +++ "=" +++ to +++ close
                 +++ post +++ LF) in *.
    set (d := fromstring line loc0) in *.
    assert (Hd : data d = line) by reflexivity.
    assert (Hlen : len d = String.length pre + String.length V + String.length from
                           + String.length to + String.length post + 6).
    { unfold len. rewrite Hd. unfold line, close. len_simpl.
      destruct Hc as [-> | ->]; cbn; lia. }
    assert (Hloc : getloc_at d (Some (String.length pre)) = Ok (loc_add loc0 pre)).
    { unfold d. rewrite getloc_fromstring.
      - unfold line. now rewrite stake_append.
      - fold (len d). rewrite <- Hd. fold (len d). lia. }
    etransitivity.
    eapply run_result with (fuel := 0).
    + unfold parse_start. unfold d at 1. rewrite getloc_fromstring.
      * cbn [bind stake loc_add]. reflexivity.
      * rewrite <- Hd. fold (len d). lia.
    + eapply (reaches_step _ _ _ 0).
      { turn_head.
        rewrite (makefile_token_step _ d "" pre "$"
                   (c +++ V +++ ":" +++ from +++ "=" +++ to +++ close +++ post +++ LF));
          [ | exact Hd | reflexivity | exact Hpre
            | reflexivity | discriminate | reflexivity | reflexivity | reflexivity ].
        cbn [stack_append expansion set_expansion notnone lift_turn String.eqb Ascii.eqb
             Bool.eqb String.length Nat.add].
        apply parse_dollar_varname with (c := c).
        - lia.
        - exact Hloc.
        - rewrite Hd. unfold line. rewrite <- (append_assoc pre "$").
          apply (slice_middle' (pre +++ "$") c); len_simpl;
            destruct Hc as [-> | ->]; cbn; lia.
        - destruct Hc as [-> | ->]; reflexivity.
        - replace (String.length pre + 1 + 1) with (String.length pre + 2) by lia.
          exact Hfn. }
      eapply (reaches_step _ _ _ 0).
      { turn_head.
        rewrite (makefile_token_step _ d (pre +++ "$" +++ c) V ":"
                   (from +++ "=" +++ to +++ close +++ post +++ LF));
          [ | rewrite Hd; unfold line; rewrite !append_assoc; reflexivity
            | len_simpl; destruct Hc as [-> | ->]; cbn; lia
            | exact HV
            | reflexivity | discriminate | reflexivity | reflexivity | reflexivity ].
        cbn. reflexivity. }
      eapply (reaches_step _ _ _ 0).
      { turn_head.
        rewrite (makefile_token_step _ d (pre +++ "$" +++ c +++ V +++ ":") from "="
                   (to +++ close +++ post +++ LF));
          [ | rewrite Hd; unfold line; rewrite !append_assoc; reflexivity
            | len_simpl; destruct Hc as [-> | ->]; cbn; lia
            | exact Hfrom
            | reflexivity | discriminate | reflexivity | reflexivity | reflexivity ].
        cbn. reflexivity. }
      eapply (reaches_step _ _ _ 0).
      { turn_head.
        rewrite (makefile_token_step _ d
                   (pre +++ "$" +++ c +++ V +++ ":" +++ from +++ "=") to close
                   (post +++ LF));
          [ | rewrite Hd; unfold line; rewrite !append_assoc; reflexivity
            | len_simpl; destruct Hc as [-> | ->]; cbn; lia
            | exact Hto
            | unfold close; destruct Hc as [-> | ->]; reflexivity
            | unfold close; destruct Hc as [-> | ->]; discriminate
            | unfold close; destruct Hc as [-> | ->]; reflexivity
            | unfold close; destruct Hc as [-> | ->]; reflexivity
            | unfold close; destruct Hc as [-> | ->]; reflexivity ].
        cbn [stack_append expansion set_expansion notnone lift_turn].
        fold close in F2, F3, F4, F5.
        rewrite F3. unfold parse_token. rewrite F4. cbn [parsestate].
        cbn [assert lift_turn]. rewrite F5. cbn. rewrite F2. reflexivity. }
      eapply (reaches_step _ _ _ 0).
      { turn_head.
        rewrite (makefile_newline_step _ d
                   (pre +++ "$" +++ c +++ V +++ ":" +++ from +++ "=" +++ to +++ close) post);
          [ | rewrite Hd; unfold line; rewrite !append_assoc; reflexivity
            | unfold close; len_simpl; destruct Hc as [-> | ->]; cbn; lia
            | exact Hpost
            | reflexivity ].
        cbn. reflexivity. }
      apply reaches_refl.
    + cbn [l_stack l_di l_data l_offset l_log]. reflexivity.
    + exact I.
    + reflexivity.
Qed.

(** X24: a pair of braces nested in a reference is text, and so is what is
    between them.  After the opening brace of a reference, a further
    opening brace of the same kind starts a stretch in which only the two
    braces of that kind are looked for; up to the brace that closes it,
    dollars and colons are text like any other byte, so that a reference
    written there is not parsed as one.  The name of the VariableRef is
    made of the five pieces appended in order. *)
Theorem nested_braces_are_text loc0 pre post c A inner B :
  is_open c = true ->
  plain (makefilere (TokenList_get ["$"])) pre = true ->
  plain (makefilere (TokenList_get ["$"])) post = true ->
  plain (makefilere (TokenList_get [":"; c; _matchingbrace c; "$"])) A = true ->
  plain (makefilere (TokenList_get [c; _matchingbrace c])) inner = true ->
  plain (makefilere (TokenList_get [":"; c; _matchingbrace c; "$"])) B = true ->
  fst (findtoken
         (fromstring (pre +++ "$" +++ c +++ A +++ c +++ inner +++ _matchingbrace c +++ B
                      +++ _matchingbrace c +++ post +++ LF) loc0)
         (String.length pre + 2) (_functiontokenlist functionmap) true) = None ->
  parsemakesyntax functionmap
    (fromstring (pre +++ "$" +++ c +++ A +++ c +++ inner +++ _matchingbrace c +++ B
                 +++ _matchingbrace c +++ post +++ LF) loc0)
    [] 0 [] Itermakefilechars
  = Ok (mkParsed
          (fold_left exp_append
             [Literal pre;
              VariableRef (loc_add loc0 pre)
                (fold_left exp_append
                   [Literal A; Literal c; Literal inner; Literal (_matchingbrace c);
                    Literal B]
                   (Expansion_new None));
              Literal post]
             (Expansion_new (Some loc0)))
          None None
          (fromstring (pre +++ "$" +++ c +++ A +++ c +++ inner +++ _matchingbrace c +++ B
                       +++ _matchingbrace c +++ post +++ LF) loc0)
          []).
Proof.
  intros Ho Hpre Hpost HA Hin HB Hfn.
  destruct (close_facts c Ho) as (F1 & F2 & F3 & F4 & F5 & F6 & F7 & _).
  pose proof (is_open_cases c Ho) as Hc.
  assert (G1 : String.eqb c "$" = false) by (destruct Hc as [-> | ->]; reflexivity).
  set (close := _matchingbrace c) in *.
  set (line := pre +++ "$" +++ c +++ A +++ c +++ inner +++ close +++ B +++ close
               +++ post +++ LF) in *.
  set (d := fromstring line loc0) in *.
  assert (Hd : data d = line) by reflexivity.
  assert (Hlen : len d = String.length pre + String.length A + String.length inner
                         + String.length B + String.length post + 6).
  { unfold len. rewrite Hd. unfold line. len_simpl. rewrite ?F1, ?F2. lia. }
  assert (Gl : forall o, o < len d -> getloc_at d (Some o) = Ok (loc_add loc0 (stake o line))).
  { intros o Hlt. unfold d. apply getloc_fromstring. rewrite <- Hd. exact Hlt. }
  etransitivity.
  eapply run_result with (fuel := 0).
  - unfold parse_start. rewrite Gl by lia. cbn [bind stake loc_add]. reflexivity.
  - eapply (reaches_step _ _ _ 0).
    { turn_head.
      rewrite (makefile_token_step _ d "" pre "$"
                 (c +++ A +++ c +++ inner +++ close +++ B +++ close +++ post +++ LF));
        [ | exact Hd | reflexivity | exact Hpre
          | reflexivity | discriminate | reflexivity | reflexivity | reflexivity ].
      cbn [stack_append expansion set_expansion notnone lift_turn String.eqb Ascii.eqb
           Bool.eqb String.length Nat.add].
      apply parse_dollar_varname with (c := c).
      - lia.
      - rewrite Gl by lia. unfold line. now rewrite stake_append.
      - rewrite Hd. unfold line. rewrite <- (append_assoc pre "$").
        apply (slice_middle' (pre +++ "$") c); len_simpl; lia.
      - exact Ho.
      - replace (String.length pre + 1 + 1) with (String.length pre + 2) by lia.
        exact Hfn. }
    eapply (reaches_step _ _ _ 0).
    { turn_head.
      rewrite (makefile_token_step _ d (pre +++ "$" +++ c) A c
                 (inner +++ close +++ B +++ close +++ post +++ LF));
        [ | rewrite Hd; unfold line; rewrite !append_assoc; reflexivity
          | len_simpl; lia
          | exact HA
          | unfold close; destruct Hc as [-> | ->]; reflexivity
          | destruct Hc as [-> | ->]; discriminate
          | destruct Hc as [-> | ->]; reflexivity
          | destruct Hc as [-> | ->]; reflexivity
          | destruct Hc as [-> | ->]; reflexivity ].
      cbn [stack_append expansion set_expansion notnone lift_turn].
      rewrite G1. unfold parse_token. rewrite Ho.
      cbn [openbrace closebrace assert lift_turn notnone set_expansion].
      rewrite String.eqb_refl.
      cbn [assert lift_turn]. rewrite Gl by lia.
      cbn. rewrite F1. reflexivity. }
    eapply (reaches_step _ _ _ 0).
    { turn_head.
      rewrite (makefile_token_step _ d (pre +++ "$" +++ c +++ A +++ c) inner close
                 (B +++ close +++ post +++ LF));
        [ | rewrite Hd; unfold line; rewrite !append_assoc; reflexivity
          | len_simpl; lia
          | exact Hin
          | unfold close; destruct Hc as [-> | ->]; reflexivity
          | unfold close; destruct Hc as [-> | ->]; discriminate
          | unfold close; destruct Hc as [-> | ->]; reflexivity
          | unfold close; destruct Hc as [-> | ->]; reflexivity
          | unfold close; destruct Hc as [-> | ->]; reflexivity ].
      cbn [stack_append expansion set_expansion notnone lift_turn].
      rewrite F3. unfold parse_token. rewrite F4. cbn [parsestate closebrace].
      rewrite String.eqb_refl. cbn. rewrite F2. reflexivity. }
    eapply (reaches_step _ _ _ 0).
    { turn_head.
      rewrite (makefile_token_step _ d
                 (pre +++ "$" +++ c +++ A +++ c +++ inner +++ close) B close
                 (post +++ LF));
        [ | rewrite Hd; unfold line; rewrite !append_assoc; reflexivity
          | len_simpl; lia
          | exact HB
          | unfold close; destruct Hc as [-> | ->]; reflexivity
          | unfold close; destruct Hc as [-> | ->]; discriminate
          | unfold close; destruct Hc as [-> | ->]; reflexivity
          | unfold close; destruct Hc as [-> | ->]; reflexivity
          | unfold close; destruct Hc as [-> | ->]; reflexivity ].
      cbn [stack_append expansion set_expansion notnone lift_turn].
      rewrite F3. unfold parse_token. rewrite F4. cbn [parsestate].
      rewrite F6, F5. cbn. rewrite F2. reflexivity. }
    eapply (reaches_step _ _ _ 0).
    { turn_head.
      rewrite (makefile_newline_step _ d
                 (pre +++ "$" +++ c +++ A +++ c +++ inner +++ close +++ B +++ close) post);
        [ | rewrite Hd; unfold line; rewrite !append_assoc; reflexivity
          | len_simpl; lia
          | exact Hpost
          | reflexivity ].
      cbn. reflexivity. }
    apply reaches_refl.
  - cbn [l_stack l_di l_data l_offset l_log]. reflexivity.
  - exact I.
  - cbn [outcome parse_end List.length Nat.eqb negb assert parsestate ParseState_eqb
         bind attr expansion].
    reflexivity.
Qed.

End Braces.

Lemma references_in_braces_witness :
  parsemakesyntax sample_functionmap
    (fromstring ("cc ${SRC:.c=.o} -o x" +++ LF) (mkLocation "Makefile" 1 0))
    [] 0 [] Itermakefilechars
  = Ok (mkParsed
          (mkExpansion (Some (mkLocation "Makefile" 1 0))
             [Literal "cc ";
              SubstitutionRef (mkLocation "Makefile" 1 3)
                (mkExpansion None [Literal "SRC"])
                (mkExpansion None [Literal ".c"])
                (mkExpansion None [Literal ".o"]);
              Literal " -o x"])
          None None
          (fromstring ("cc ${SRC:.c=.o} -o x" +++ LF) (mkLocation "Makefile" 1 0)) []).
Proof.
  apply (proj2 (references_in_braces sample_functionmap (mkLocation "Makefile" 1 0)
                  "cc " " -o x" "{" eq_refl eq_refl eq_refl) "SRC" ".c" ".o");
    reflexivity.
Defined.

Lemma nested_braces_are_text_witness :
  parsemakesyntax sample_functionmap
    (fromstring ("$(a($b:c)d)" +++ LF) (mkLocation "Makefile" 1 0))
    [] 0 [] Itermakefilechars
  = Ok (mkParsed
          (mkExpansion (Some (mkLocation "Makefile" 1 0))
             [Literal "";
              VariableRef (mkLocation "Makefile" 1 0)
                (mkExpansion None [Literal "a($b:c)d"]);
              Literal ""])
          None None
          (fromstring ("$(a($b:c)d)" +++ LF) (mkLocation "Makefile" 1 0)) []).
Proof.
  apply (nested_braces_are_text sample_functionmap (mkLocation "Makefile" 1 0)
           "" "" "(" "a" "$b:c" "d"); reflexivity.
Defined.

(** ** A substitution reference without its equals sign, anywhere *)

Section SubstitutionAnywhere.

Variable functionmap : list (string * nat).

Ltac len_simpl :=
  rewrite ?length_append;
  change (String.length BS) with 1; change (String.length LF) with 1;
  change (String.length TAB) with 1;
  cbn [String.length].

(** An ordinary token after text in which no match starts, in a command. *)
Lemma command_token_step g d pre s tok rest offset :
  data d = pre +++ s +++ tok +++ rest ->
  offset = String.length pre ->
  plain (continuationre (g_tokenlist g)) s = true ->
  match_alts (continuationre (g_tokenlist g)) (tok +++ rest) = Some (String.length tok) ->
  tok <> "" ->
  String.eqb tok LF = false -> startswith BS tok = false ->
  itercommandchars_loop g d offset
  = Yield (s, Some tok, Some (offset + String.length s),
           Some (offset + String.length s + String.length tok))
          (at_pc g (AtLoop (offset + String.length s + String.length tok))) d.
Proof.
  intros Hd -> Hp Hm Hne H1 Hbs. unfold itercommandchars_loop, len. rewrite Hd.
  replace (String.length pre <? _) with true.
  2:{ symmetry. apply Nat.ltb_lt. rewrite !length_append.
      destruct tok; [contradiction|]. cbn [String.length]. lia. }
  rewrite (re_search_token _ pre s (tok +++ rest) _ Hp Hm).
  assert (Et : slice (String.length pre + String.length s)
                 (String.length pre + String.length s + String.length tok)
                 (pre +++ s +++ tok +++ rest) = tok).
  { rewrite <- (append_assoc pre s). rewrite <- length_append. apply slice_middle. }
  cbv zeta. rewrite Et, H1.
  assert (E4 : String.eqb tok (BS +++ LF) = false).
  { apply String.eqb_neq. intros ->. discriminate. }
  rewrite E4. unfold yield_token. rewrite Hbs, Hd, slice_middle. reflexivity.
Qed.

(** One turn of the loop over text and a token, in either regime: the
    text is appended to the expansion of the top frame and the token is
    handled. *)
Lemma text_token_turn fuel iterfunc f below e tl d pre s tok rest off log :
  iterfunc = Itermakefilechars \/ iterfunc = Itercommandchars ->
  expansion f = Some e -> tokenlist f = tl ->
  data d = pre +++ s +++ tok +++ rest ->
  plain (searched iterfunc tl) s = true ->
  match_alts (searched iterfunc tl) (tok +++ rest) = Some (String.length tok) ->
  tok <> "" -> String.eqb tok LF = false -> String.eqb tok "#" = false ->
  startswith BS tok = false ->
  parse_turn functionmap fuel iterfunc (f :: below)
    (new_generator iterfunc (Some (String.length pre)) tl) d off log
  = if String.eqb tok "$"
    then parse_dollar functionmap iterfunc
           (set_expansion f (exp_append e (Literal s)) :: below) d
           (String.length pre + String.length s)
           (String.length pre + String.length s + String.length tok) log
    else parse_token iterfunc (set_expansion f (exp_append e (Literal s)))
           below d tok (String.length pre + String.length s)
           (String.length pre + String.length s + String.length tok) log.
Proof.
  intros [-> | ->] He _ Hd Hp Hm Hne H1 H2 Hbs; unfold parse_turn;
    cbn [searched] in Hp, Hm.
  - rewrite next_makefile_start.
    rewrite (makefile_token_step _ d pre s tok rest (String.length pre));
      [|exact Hd|reflexivity|exact Hp|exact Hm|exact Hne|exact H1|exact H2|exact Hbs].
    cbn [stack_append]. rewrite He. cbn [notnone lift_turn]. reflexivity.
  - rewrite next_command_start.
    rewrite (command_token_step _ d pre s tok rest (String.length pre));
      [|exact Hd|reflexivity|exact Hp|exact Hm|exact Hne|exact H1|exact Hbs].
    cbn [stack_append]. rewrite He. cbn [notnone lift_turn]. reflexivity.
Qed.

Lemma is_close_cases t : is_close t = true -> t = ")" \/ t = "}".
Proof.
  unfold is_close. intros H. apply orb_true_iff in H as [E|E];
    apply String.eqb_eq in E; auto.
Qed.

(** The turn that meets the closing brace in the state SUBSTFROM. *)
Lemma substfrom_close_turn fuel iterfunc f b0 below di d off log chunk tok t a di' d'
  loc vn e :
  parsestate f = PARSESTATE_SUBSTFROM ->
  floc f = Some loc -> varname f = Some vn -> expansion f = Some e ->
  is_close tok = true ->
  next fuel di d = Yield (chunk, Some tok, Some t, Some a) di' d' ->
  parse_turn functionmap fuel iterfunc (f :: b0 :: below) di d off log
  = Continue
      (stack_append (b0 :: below)
         (VariableRef loc
            (exp_concat (exp_append vn (Literal ":")) (exp_append e (Literal chunk)))))
      (new_generator iterfunc (Some a) (tokenlist b0)) d' (Some a)
      (log ++ [(loc, substwarning)]).
Proof.
  intros Hs Hl Hv He Hc Hn. unfold parse_turn. rewrite Hn.
  cbn [stack_append]. rewrite He. cbn [notnone lift_turn].
  apply is_close_cases in Hc.
  assert (T : String.eqb tok "$" = false /\ is_open tok = false /\
              String.eqb tok "=" = false /\ is_close tok = true)
    by (destruct Hc as [-> | ->]; repeat split).
  destruct T as (T1 & T2 & T3 & T4). rewrite T1. unfold parse_token. rewrite T2.
  destruct f as [ps ex tl ob cb so fn fl vnm sf].
  cbn [parsestate floc varname expansion set_expansion] in *. subst ps fl vnm ex.
  rewrite T3, T4. cbn [attr lift_turn popped].
  rewrite top_tokenlist_append. cbn [top_tokenlist lift_turn]. reflexivity.
Qed.

(** C6: a reference [$(V:text)] or [${V:text}] whose closing brace is
    reached with no [=] since the colon.  Whenever the loop of
    [parsemakesyntax] meets a closing brace in the state SUBSTFROM,
    whatever the iterator, the frames below and the pieces parsed so
    far, it logs one warning at the location kept in the frame, pops the
    frame and appends to the expansion below a VariableRef, at that
    location, named by the name parsed before the colon, a colon and what
    was parsed after it; and it goes on.  For a reference written in
    plain text this happens in every context: in the makefile and in the
    command regime, at top level or nested in any frame that looks for
    the dollar, from any offset and with any log; the location is the one
    of the dollar.  So a line of plain text with such a reference parses
    without error. *)
Theorem substitution_without_equals :
  (forall fuel iterfunc f b0 below di d off log chunk tok t a di' d' loc vn e,
      parsestate f = PARSESTATE_SUBSTFROM ->
      floc f = Some loc -> varname f = Some vn -> expansion f = Some e ->
      is_close tok = true ->
      next fuel di d = Yield (chunk, Some tok, Some t, Some a) di' d' ->
      parse_turn functionmap fuel iterfunc (f :: b0 :: below) di d off log
      = Continue
          (stack_append (b0 :: below)
             (VariableRef loc
                (exp_concat (exp_append vn (Literal ":"))
                   (exp_append e (Literal chunk)))))
          (new_generator iterfunc (Some a) (tokenlist b0)) d' (Some a)
          (log ++ [(loc, substwarning)])) /\
  (forall iterfunc f below e0 d P pre c V text rest off log loc,
      iterfunc = Itermakefilechars \/ iterfunc = Itercommandchars ->
      is_open c = true ->
      expansion f = Some e0 ->
      data d = P +++ pre +++ "$" +++ c +++ V +++ ":" +++ text +++ _matchingbrace c
               +++ rest ->
      plain (searched iterfunc (tokenlist f)) pre = true ->
      match_alts (searched iterfunc (tokenlist f))
        ("$" +++ c +++ V +++ ":" +++ text +++ _matchingbrace c +++ rest) = Some 1 ->
      getloc_at d (Some (String.length (P +++ pre))) = Ok loc ->
      fst (findtoken d (String.length (P +++ pre) + 2)
             (_functiontokenlist functionmap) true) = None ->
      plain (searched iterfunc (TokenList_get [":"; c; _matchingbrace c; "$"])) V
      = true ->
      plain (searched iterfunc (TokenList_get ["="; c; _matchingbrace c; "$"])) text
      = true ->
      reaches functionmap iterfunc
        (mkLstate (f :: below)
           (new_generator iterfunc (Some (String.length P)) (tokenlist f)) d off log)
        (mkLstate
           (set_expansion f
              (exp_append (exp_append e0 (Literal pre))
                 (VariableRef loc (mkExpansion None [Literal (V +++ ":" +++ text)])))
            :: below)
           (new_generator iterfunc
              (Some (String.length (P +++ pre +++ "$" +++ c +++ V +++ ":" +++ text
                                    +++ _matchingbrace c)))
              (tokenlist f))
           d
           (Some (String.length (P +++ pre +++ "$" +++ c +++ V +++ ":" +++ text
                                 +++ _matchingbrace c)))
           (log ++ [(loc, substwarning)]))) /\
  (forall loc0 pre V text post c,
      is_open c = true ->
      plain (makefilere (TokenList_get ["$"])) pre = true ->
      plain (makefilere (TokenList_get [":"; c; _matchingbrace c; "$"])) V = true ->
      plain (makefilere (TokenList_get ["="; c; _matchingbrace c; "$"])) text = true ->
      plain (makefilere (TokenList_get ["$"])) post = true ->
      fst (findtoken (fromstring (reference_line pre c V text post) loc0)
             (String.length pre + 2) (_functiontokenlist functionmap) true) = None ->
      parsemakesyntax functionmap (fromstring (reference_line pre c V text post) loc0)
        [] 0 [] Itermakefilechars
      = Ok (mkParsed
              (mkExpansion (Some loc0)
                 [Literal pre;
                  VariableRef (loc_add loc0 pre)
                    (mkExpansion None [Literal (V +++ ":" +++ text)]);
                  Literal post])
              None None (fromstring (reference_line pre c V text post) loc0)
              [(loc_add loc0 pre, substwarning)])).
Proof.
  split; [|split].
  - intros fuel iterfunc f b0 below di d off log chunk tok t a di' d' loc vn e
           Hs Hl Hv He Hc Hn.
    exact (substfrom_close_turn fuel iterfunc f b0 below di d off log chunk tok t a di'
             d' loc vn e Hs Hl Hv He Hc Hn).
  - intros iterfunc f below e0 d P pre c V text rest off log loc
           Hi Ho He Hd Hpre Hdollar Hloc Hfn HV Htext.
    destruct (close_facts c Ho) as (F1 & F2 & F3 & F4 & F5 & F6 & F7 & _).
    pose proof (is_open_cases c Ho) as Hc.
    set (close := _matchingbrace c) in *.
    assert (Hlen : String.length P + String.length pre + String.length V
                   + String.length text + 4 <= len d).
    { unfold len. rewrite Hd. len_simpl. rewrite F1, F2. lia. }
    assert (Hsr : forall tl, searched iterfunc tl
                             = escapedlist tl
                               ++ (if match iterfunc with
                                      | Itermakefilechars => true | _ => false end
                                   then makefiletokensescaped
                                   else continuationtokensescaped))
      by (intros tl; destruct Hi as [-> | ->]; reflexivity).
    (* the dollar *)
    eapply (reaches_step _ _ _ 0).
    { cbn [l_stack l_di l_data l_offset l_log].
      rewrite (text_token_turn 0 iterfunc f below e0 (tokenlist f) d P pre "$"
                 (c +++ V +++ ":" +++ text +++ close +++ rest) off log Hi He eq_refl Hd
                 Hpre Hdollar ltac:(discriminate) eq_refl eq_refl eq_refl).
      cbn [String.eqb Ascii.eqb Bool.eqb String.length].
      apply parse_dollar_varname with (c := c) (loc := loc).
      - lia.
      - rewrite <- length_append. exact Hloc.
      - rewrite Hd. rewrite <- (append_assoc pre "$"), <- (append_assoc P).
        apply (slice_middle' (P +++ pre +++ "$") c); len_simpl; lia.
      - exact Ho.
      - replace (String.length P + String.length pre + 1 + 1)
          with (String.length (P +++ pre) + 2) by (len_simpl; lia).
        exact Hfn. }
    (* the name and the colon *)
    eapply (reaches_step _ _ _ 0).
    { cbn [l_stack l_di l_data l_offset l_log]. fold close.
      replace (String.length P + String.length pre + 1 + 1)
        with (String.length (P +++ pre +++ "$" +++ c)) by (len_simpl; lia).
      lazymatch goal with
      | |- parse_turn _ _ _ (?fr :: ?bl) _ _ ?o _ = _ =>
          rewrite (text_token_turn 0 iterfunc fr bl (Expansion_new None)
                     (TokenList_get [":"; c; close; "$"]) d
                     (P +++ pre +++ "$" +++ c) V ":" (text +++ close +++ rest) o log Hi
                     eq_refl eq_refl)
      end;
        [ | rewrite Hd, !append_assoc; reflexivity
          | exact HV
          | rewrite Hsr; reflexivity
          | discriminate | reflexivity | reflexivity | reflexivity ].
      cbn. reflexivity. }
    (* the text and the closing brace *)
    eapply (reaches_step _ _ _ 0).
    { cbn [l_stack l_di l_data l_offset l_log]. fold close.
      lazymatch goal with
      | |- parse_turn _ _ _ _ (new_generator _ (Some ?o) _) _ _ _ = _ =>
          replace o with (String.length (P +++ pre +++ "$" +++ c +++ V +++ ":"))
            by (len_simpl; cbn [String.length]; lia)
      end.
      lazymatch goal with
      | |- parse_turn _ _ _ (?fr :: ?bl) _ _ ?o _ = _ =>
          rewrite (text_token_turn 0 iterfunc fr bl (Expansion_new None)
                     (TokenList_get ["="; c; close; "$"]) d
                     (P +++ pre +++ "$" +++ c +++ V +++ ":") text close rest o log Hi
                     eq_refl eq_refl)
      end;
        [ | rewrite Hd, !append_assoc; reflexivity
          | exact Htext
          | rewrite Hsr; unfold close; destruct Hc as [-> | ->]; reflexivity
          | unfold close; destruct Hc as [-> | ->]; discriminate
          | unfold close; destruct Hc as [-> | ->]; reflexivity
          | unfold close; destruct Hc as [-> | ->]; reflexivity
          | unfold close; destruct Hc as [-> | ->]; reflexivity ].
      rewrite F3. unfold parse_token. rewrite F4.
      cbn [parsestate set_expansion]. rewrite F7, F5.
      cbn [attr lift_turn floc varname expansion set_expansion popped].
      cbn [stack_append expansion set_expansion].
      cbn [top_tokenlist tokenlist set_expansion lift_turn].
      replace (String.length (P +++ pre +++ "$" +++ c +++ V +++ ":") + String.length text
               + String.length close)
        with (String.length (P +++ pre +++ "$" +++ c +++ V +++ ":" +++ text +++ close))
        by (len_simpl; lia).
      unfold exp_concat, exp_append, Expansion_new.
      cbn [elements eloc nodes_append fold_left]. rewrite append_assoc.
      reflexivity. }
    apply reaches_refl.
  - intros. now apply reference_line_parses.
Qed.

End SubstitutionAnywhere.

Lemma substitution_without_equals_witness :
  parsemakesyntax sample_functionmap
    (fromstring (reference_line "" "(" "V" "bogus" "") (mkLocation "Makefile" 1 0))
    [] 0 [] Itermakefilechars
  = Ok (mkParsed
          (mkExpansion (Some (mkLocation "Makefile" 1 0))
             [Literal "";
              VariableRef (mkLocation "Makefile" 1 0) (mkExpansion None [Literal "V:bogus"]);
              Literal ""])
          None None
          (fromstring (reference_line "" "(" "V" "bogus" "") (mkLocation "Makefile" 1 0))
          [(mkLocation "Makefile" 1 0, substwarning)]) /\
  reaches sample_functionmap Itercommandchars
    (mkLstate
       [mkFrame PARSESTATE_TOPLEVEL (Some (Expansion_new (Some (mkLocation "Makefile" 3 8))))
          (TokenList_get ["$"]) None None (Some []) None None None None]
       (new_generator Itercommandchars (Some 0) (TokenList_get ["$"]))
       (fromstring ("echo ${V:a#b} c" +++ LF) (mkLocation "Makefile" 3 8))
       None [])
    (mkLstate
       [mkFrame PARSESTATE_TOPLEVEL
          (Some (mkExpansion (Some (mkLocation "Makefile" 3 8))
                   [Literal "echo ";
                    VariableRef (mkLocation "Makefile" 3 13)
                      (mkExpansion None [Literal "V:a#b"])]))
          (TokenList_get ["$"]) None None (Some []) None None None None]
       (new_generator Itercommandchars (Some 13) (TokenList_get ["$"]))
       (fromstring ("echo ${V:a#b} c" +++ LF) (mkLocation "Makefile" 3 8))
       (Some 13) [(mkLocation "Makefile" 3 13, substwarning)]).
Proof.
  split.
  - apply (proj2 (proj2 (substitution_without_equals sample_functionmap))
             (mkLocation "Makefile" 1 0) "" "V" "bogus" "" "("); reflexivity.
  - apply (proj1 (proj2 (substitution_without_equals sample_functionmap))
             Itercommandchars
             (mkFrame PARSESTATE_TOPLEVEL
                (Some (Expansion_new (Some (mkLocation "Makefile" 3 8))))
                (TokenList_get ["$"]) None None (Some []) None None None None)
             [] (Expansion_new (Some (mkLocation "Makefile" 3 8)))
             (fromstring ("echo ${V:a#b} c" +++ LF) (mkLocation "Makefile" 3 8))
             "" "echo " "{" "V" "a#b" (" c" +++ LF) None []
             (mkLocation "Makefile" 3 13));
      solve [ reflexivity | right; reflexivity ].
Defined.

(** C6 as stated fails when the closing brace is not reached: in the
    makefile regime a comment sign inside the reference ends the text of
    the line, and the parse ends with the reference still open. *)
Lemma substitution_comment_counterexample :
  parsemakesyntax sample_functionmap
    (fromstring ("$(V:a#b)" +++ LF) (mkLocation "Makefile" 1 0))
    [] 0 [] Itermakefilechars
  = Raise (SyntaxError "Unterminated function call" (mkLocation "Makefile" 1 8)).
Proof. vm_compute. reflexivity. Qed.

(** ** The arguments of a function call *)

Section FunctionCalls.

Variable functionmap : list (string * nat).

Ltac len_simpl :=
  rewrite ?length_append;
  change (String.length BS) with 1; change (String.length LF) with 1;
  change (String.length TAB) with 1;
  cbn [String.length].

Ltac turn_head :=
  cbn [l_stack l_di l_data l_offset l_log]; unfold parse_turn;
  rewrite next_makefile_start.

Lemma reaches_trans iterfunc s1 s2 s3 :
  reaches functionmap iterfunc s1 s2 -> reaches functionmap iterfunc s2 s3 ->
  reaches functionmap iterfunc s1 s3.
Proof.
  induction 1; intros R; [exact R|].
  eapply reaches_step; eauto.
Qed.

Lemma parse_dollar_function iterfunc stack d tokenoffset offset log loc c fname off
  maxargs :
  offset < len d ->
  getloc_at d (Some tokenoffset) = Ok loc ->
  slice offset (offset + 1) (data d) = c ->
  is_open c = true ->
  findtoken d (offset + 1) (_functiontokenlist functionmap) true = (Some fname, off) ->
  functionmap_get functionmap fname = Some maxargs ->
  parse_dollar functionmap iterfunc stack d tokenoffset offset log
  = Continue
      (function_frame c fname loc maxargs [] (Expansion_new None) :: stack)
      (new_generator iterfunc (Some off) (argument_tokens c maxargs 0))
      d (Some off) log.
Proof.
  intros Hlt Hloc Hc Ho Hfn Hget. unfold parse_dollar.
  replace (len d =? offset) with false by (symmetry; apply Nat.eqb_neq; lia).
  rewrite Hloc. cbn [lift_turn]. rewrite Hc.
  apply is_open_cases in Ho.
  rewrite Hfn, Hget. unfold function_frame, argument_tokens.
  cbn [fn_args fn_maxargs List.length Nat.add].
  destruct Ho as [-> | ->]; destruct (1 =? maxargs); reflexivity.
Qed.

(** The turns that close the arguments written before the last one. *)
Lemma function_args d c fname loc maxargs below log :
  is_open c = true ->
  forall args done P rest,
    data d = P +++ commas args rest ->
    Forall (fun a => plain (makefilere (TokenList_get [","; c; _matchingbrace c; "$"])) a
                     = true) args ->
    maxargs = 0 \/ List.length done + List.length args < maxargs ->
    reaches functionmap Itermakefilechars
      (mkLstate (function_frame c fname loc maxargs done (Expansion_new None) :: below)
         (new_generator Itermakefilechars (Some (String.length P))
            (argument_tokens c maxargs (List.length done)))
         d (Some (String.length P)) log)
      (mkLstate
         (function_frame c fname loc maxargs
            (done ++ map (fun a => exp_append (Expansion_new None) (Literal a)) args)
            (Expansion_new None) :: below)
         (new_generator Itermakefilechars
            (Some (String.length P + (String.length (commas args rest) - String.length rest)))
            (argument_tokens c maxargs (List.length done + List.length args)))
         d (Some (String.length P + (String.length (commas args rest) - String.length rest)))
         log).
Proof.
  intros Ho. induction args as [|a args IH]; intros done P rest Hd Hpl Hmax.
  - cbn [commas map List.length]. rewrite app_nil_r, Nat.sub_diag, !Nat.add_0_r.
    apply reaches_refl.
  - cbn [commas] in Hd. apply Forall_cons_iff in Hpl as [Ha Hpl].
    cbn [List.length] in Hmax.
    assert (Hk : (List.length done + 1 =? maxargs) = false)
      by (apply Nat.eqb_neq; lia).
    assert (Htl : argument_tokens c maxargs (List.length done)
                  = TokenList_get [","; c; _matchingbrace c; "$"])
      by (unfold argument_tokens; now rewrite Hk).
    assert (Hd' : data d = (P +++ a +++ ",") +++ commas args rest)
      by (rewrite Hd; now rewrite !append_assoc).
    specialize (IH (done ++ [exp_append (Expansion_new None) (Literal a)])
                  (P +++ a +++ ",") rest Hd' Hpl).
    rewrite length_app in IH. cbn [List.length] in IH.
    specialize (IH ltac:(lia)).
    rewrite <- app_assoc in IH. cbn [app] in IH.
    replace (String.length P
             + (String.length (commas (a :: args) rest) - String.length rest))
      with (String.length (P +++ a +++ ",")
            + (String.length (commas args rest) - String.length rest)).
    2:{ cbn [commas]. len_simpl.
        assert (String.length rest <= String.length (commas args rest)).
        { clear. induction args; cbn [commas]; [lia|]. rewrite !length_append. lia. }
        lia. }
    cbn [map List.length].
    replace (List.length done + S (List.length args))
      with (List.length done + 1 + List.length args) by lia.
    eapply reaches_step; [|exact IH]. instantiate (1 := 0).
    turn_head.
    rewrite (makefile_token_step _ d P a "," (commas args rest));
      [ | exact Hd | reflexivity
        | cbn [new_generator g_tokenlist]; rewrite Htl; exact Ha
        | cbn [new_generator g_tokenlist]; rewrite Htl; reflexivity
        | discriminate | reflexivity | reflexivity | reflexivity ].
    unfold function_frame at 1. rewrite Htl.
    cbn [stack_append expansion set_expansion notnone lift_turn String.eqb Ascii.eqb
         Bool.eqb].
    unfold parse_token.
    cbn [is_open String.eqb Ascii.eqb Bool.eqb orb parsestate function expansion attr
         lift_turn fn_name fn_loc fn_maxargs fn_args openbrace closebrace notnone
         tokenlist stopon floc varname substfrom set_expansion].
    unfold function_frame, argument_tokens.
    rewrite !length_app. cbn [List.length].
    replace (String.length (P +++ a +++ ","))
      with (String.length P + String.length a + String.length ",") by (len_simpl; lia).
    destruct (List.length done + 1 + 1 =? maxargs); cbn; reflexivity.
Qed.

(** X25: the arguments of a function call.  After a dollar, an opening
    brace, the name of a function of the function map and whitespace, the
    text up to the matching closing brace is split at its commas into the
    arguments of a FunctionCall located at the dollar, but only until the
    function has its [maxargs] arguments: from then on a comma is text of
    the last argument.  A function with [maxargs] 0 takes any number of
    arguments. *)
Theorem function_call_arguments loc0 pre post c fname ws maxargs args last :
  is_open c = true ->
  plain (makefilere (TokenList_get ["$"])) pre = true ->
  plain (makefilere (TokenList_get ["$"])) post = true ->
  findtoken
    (fromstring (pre +++ "$" +++ c +++ fname +++ ws
                 +++ commas args (last +++ _matchingbrace c +++ post +++ LF)) loc0)
    (String.length pre + 2) (_functiontokenlist functionmap) true
  = (Some fname, String.length pre + 2 + String.length fname + String.length ws) ->
  functionmap_get functionmap fname = Some maxargs ->
  Forall (fun a => plain (makefilere (TokenList_get [","; c; _matchingbrace c; "$"])) a
                   = true) args ->
  maxargs = 0 \/ List.length args < maxargs ->
  plain (makefilere (argument_tokens c maxargs (List.length args))) last = true ->
  parsemakesyntax functionmap
    (fromstring (pre +++ "$" +++ c +++ fname +++ ws
                 +++ commas args (last +++ _matchingbrace c +++ post +++ LF)) loc0)
    [] 0 [] Itermakefilechars
  = Ok (mkParsed
          (fold_left exp_append
             [Literal pre;
              FunctionCall fname (loc_add loc0 pre)
                (map (fun a => exp_append (Expansion_new None) (Literal a))
                   (args ++ [last]));
              Literal post]
             (Expansion_new (Some loc0)))
          None None
          (fromstring (pre +++ "$" +++ c +++ fname +++ ws
                       +++ commas args (last +++ _matchingbrace c +++ post +++ LF)) loc0)
          []).
Proof.
  intros Ho Hpre Hpost Hfn Hget Hargs Hmax Hlast.
  destruct (close_facts c Ho) as (F1 & F2 & F3 & F4 & F5 & F6 & F7 & F8).
  pose proof (is_open_cases c Ho) as Hc.
  set (close := _matchingbrace c) in *.
  set (tail := last +++ close +++ post +++ LF) in *.
  set (line := pre +++ "$" +++ c +++ fname +++ ws +++ commas args tail) in *.
  set (d := fromstring line loc0) in *.
  assert (Hd : data d = line) by reflexivity.
  assert (Htail : String.length tail <= String.length (commas args tail)).
  { clear. induction args; cbn [commas]; [lia|]. rewrite !length_append. lia. }
  assert (Hlt : String.length tail = String.length last + String.length post + 2).
  { unfold tail. len_simpl. rewrite F2. lia. }
  assert (Hlen : len d = String.length pre + 2 + String.length fname + String.length ws
                         + String.length (commas args tail)).
  { unfold len. rewrite Hd. unfold line. len_simpl. rewrite F1. lia. }
  assert (Gl : forall o, o < len d -> getloc_at d (Some o) = Ok (loc_add loc0 (stake o line))).
  { intros o Hl. unfold d. apply getloc_fromstring. rewrite <- Hd. exact Hl. }
  set (P := pre +++ "$" +++ c +++ fname +++ ws).
  assert (HP : String.length P
               = String.length pre + 2 + String.length fname + String.length ws).
  { unfold P. len_simpl. rewrite F1. lia. }
  set (n := String.length (commas args tail) - String.length tail).
  assert (Hsplit : exists Q, String.length Q = String.length P + n /\
                             line = Q +++ tail).
  { exists (P +++ stake n (commas args tail)). split.
    - rewrite length_append, length_stake. unfold n. lia.
    - unfold line, P. rewrite !append_assoc. do 5 f_equal.
      assert (E : sdrop n (commas args tail) = tail).
      { clear. unfold n. induction args as [|a args IH]; cbn [commas].
        - now rewrite Nat.sub_diag, sdrop_0.
        - assert (String.length tail <= String.length (commas args tail)).
          { clear. induction args; cbn [commas]; [lia|]. rewrite !length_append. lia. }
          rewrite <- append_assoc.
          replace (String.length ((a +++ ",") +++ commas args tail) - String.length tail)
            with (String.length (a +++ ",")
                  + (String.length (commas args tail) - String.length tail))
            by (rewrite !length_append; lia).
          rewrite <- sdrop_sdrop, sdrop_append. exact IH. }
      transitivity (stake n (commas args tail) +++ sdrop n (commas args tail));
        [symmetry; apply stake_sdrop | now rewrite E]. }
  destruct Hsplit as (Q & HQ & Hline).
  etransitivity.
  eapply run_result with (fuel := 0).
  - unfold parse_start. rewrite Gl by lia. cbn [bind stake loc_add]. reflexivity.
  - eapply (reaches_step _ _ _ 0).
    { turn_head.
      rewrite (makefile_token_step _ d "" pre "$"
                 (c +++ fname +++ ws +++ commas args tail));
        [ | exact Hd | reflexivity | exact Hpre
          | reflexivity | discriminate | reflexivity | reflexivity | reflexivity ].
      cbn [stack_append expansion set_expansion notnone lift_turn String.eqb Ascii.eqb
           Bool.eqb String.length Nat.add].
      apply parse_dollar_function with (c := c) (maxargs := maxargs).
      - lia.
      - rewrite Gl by lia. unfold line. now rewrite stake_append.
      - rewrite Hd. unfold line. rewrite <- (append_assoc pre "$").
        apply (slice_middle' (pre +++ "$") c); len_simpl; lia.
      - exact Ho.
      - replace (String.length pre + 1 + 1) with (String.length pre + 2) by lia.
        rewrite Hfn, <- HP. reflexivity.
      - exact Hget. }
    eapply reaches_trans.
    { apply (function_args d c fname (loc_add loc0 pre) maxargs _ [] Ho args [] P tail).
      - rewrite Hd. unfold line, P. now rewrite !append_assoc.
      - exact Hargs.
      - cbn [List.length]. lia. }
    cbn [List.length Nat.add app]. fold n. rewrite <- HQ.
    eapply (reaches_step _ _ _ 0).
    { turn_head.
      rewrite (makefile_token_step _ d Q last close (post +++ LF));
        [ | rewrite Hd, Hline; reflexivity
          | reflexivity
          | exact Hlast
          | cbn [new_generator g_tokenlist]; unfold argument_tokens, close;
            destruct (_ =? _); destruct Hc as [-> | ->]; reflexivity
          | unfold close; destruct Hc as [-> | ->]; discriminate
          | unfold close; destruct Hc as [-> | ->]; reflexivity
          | unfold close; destruct Hc as [-> | ->]; reflexivity
          | unfold close; destruct Hc as [-> | ->]; reflexivity ].
      unfold function_frame.
      cbn [stack_append expansion set_expansion notnone lift_turn].
      rewrite F3. unfold parse_token. rewrite F4. cbn [parsestate].
      rewrite F8, F5. cbn. rewrite F2. reflexivity. }
    eapply (reaches_step _ _ _ 0).
    { turn_head.
      rewrite (makefile_newline_step _ d (Q +++ last +++ close) post);
        [ | rewrite Hd, Hline; unfold tail; rewrite !append_assoc; reflexivity
          | len_simpl; rewrite F2; lia
          | exact Hpost
          | reflexivity ].
      cbn. reflexivity. }
    apply reaches_refl.
  - cbn [l_stack l_di l_data l_offset l_log]. reflexivity.
  - exact I.
  - cbn [outcome parse_end List.length Nat.eqb negb assert parsestate ParseState_eqb
         bind attr expansion].
    rewrite map_app. reflexivity.
Qed.

End FunctionCalls.

Lemma function_call_arguments_witness :
  parsemakesyntax sample_functionmap
    (fromstring ("$(addprefix src/,a,b c)" +++ LF) (mkLocation "Makefile" 1 0))
    [] 0 [] Itermakefilechars
  = Ok (mkParsed
          (mkExpansion (Some (mkLocation "Makefile" 1 0))
             [Literal "";
              FunctionCall "addprefix" (mkLocation "Makefile" 1 0)
                [mkExpansion None [Literal "src/"];
                 mkExpansion None [Literal "a,b c"]];
              Literal ""])
          None None
          (fromstring ("$(addprefix src/,a,b c)" +++ LF) (mkLocation "Makefile" 1 0)) []).
Proof.
  apply (function_call_arguments sample_functionmap (mkLocation "Makefile" 1 0)
           "" "" "(" "addprefix" " " 2 ["src/"] "a,b c");
    try reflexivity.
  - repeat constructor.
  - right. cbn. lia.
Defined.

(** ** Conditionals *)

Section Conditionals.

Variable functionmap : list (string * nat).
Variable filename : string.

Ltac len_simpl :=
  rewrite ?length_append;
  change (String.length BS) with 1; change (String.length LF) with 1;
  change (String.length TAB) with 1; change (String.length SQ) with 1;
  change (String.length DQ) with 1;
  cbn [String.length].

(** The head of the loop body for a line that starts with a directive
    followed by one space and by text. *)
Lemma directive_line_dispatch st n kw r rest :
  fdlines st = (n, kw +++ " " +++ r) :: rest ->
  In kw (tlist directivestokenlist) -> wsrun r = 0 ->
  condstack st <> [] ->
  exists d,
    data d = kw +++ " " +++ r /\ locs d = [(0, mkLocation filename n 0)] /\
    lineiter d = rest /\
    parsestream_iteration functionmap filename st
    = (if String.eqb kw "endif" then
         d <- ensureend d (Some (String.length kw + 1))
                "Unexpected data after 'endif' directive" ;;
         if List.length (condstack st) =? 1 then
           syntax_error "unmatched 'endif' directive" d (Some (String.length kw + 1))
         else
           cs <- cond_pop (condstack st) ;;
           ok_line (currule st) cs d (plog st) EvEndif
       else if String.eqb kw "else"
       then parse_else functionmap st d (String.length kw + 1)
       else
         match conditionkeywords functionmap kw with
         | Some parse =>
             '(c, d, log) <- parse d (plog st) (String.length kw + 1) ;;
             loc <- getloc_at d (Some 0) ;;
             ok_line (currule st) (Block loc [(c, [])] :: condstack st) d log EvIf
         | None =>
             if String.eqb kw "endef" then
               syntax_error "Unmatched endef" d (Some (String.length kw + 1))
             else if String.eqb kw "define"
             then parse_define functionmap filename st d (String.length kw + 1)
             else parse_directive functionmap st d kw (String.length kw + 1)
         end).
Proof.
  intros Hf Hin Hws Hcs.
  destruct (first_readline filename st _ _ _ Hf) as (d & Hr & Hd & Hl & Hli & _).
  exists d. split; [exact Hd|]. split; [exact Hl|]. split; [exact Hli|].
  unfold parsestream_iteration. rewrite Hr.
  replace (assert (0 <? List.length (condstack st))) with (Ok tt).
  2:{ destruct (condstack st); [contradiction|reflexivity]. }
  cbn [bind negb]. cbv zeta.
  assert (K : startswith TAB (kw +++ " " +++ r) = false /\
              wsrun (kw +++ " " +++ r) = 0 /\
              wslist_match (wslist directivestokenlist) (kw +++ " " +++ r) 0
              = Some (kw, String.length kw + 1)).
  { cbn [directivestokenlist TokenList_get tlist conditiontokens app] in Hin.
    repeat (destruct Hin as [<- | Hin];
            [ split; [reflexivity|]; split; [reflexivity|];
              match goal with
              | |- wslist_match _ (?k +++ _) _ = _ =>
                  change (wslist_match (wslist directivestokenlist) (k +++ " " +++ r) 0)
                    with (Some (k, 0 + String.length k + S (wsrun r)))
              end;
              rewrite Hws; cbn [String.length Nat.add]; reflexivity | ]).
    contradiction. }
  destruct K as (K1 & K2 & K3).
  replace ((0 <? len d) && String.eqb (slice 0 1 (data d)) TAB) with false.
  2:{ unfold len. rewrite Hd, starts_with_tab. now rewrite K1. }
  cbn [andb].
  assert (Hsk : skipwhitespace d 0 = 0).
  { unfold skipwhitespace. rewrite Hd, sdrop_0. now rewrite K2. }
  rewrite Hsk. unfold findtoken. cbn [Nat.min]. rewrite Hd, sdrop_0, K3.
  reflexivity.
Qed.

Lemma quote_cases q : q = SQ \/ q = DQ ->
  String.length q = 1 /\ q <> "" /\ String.eqb q LF = false /\
  String.eqb q "#" = false /\ startswith BS q = false /\ String.eqb q "$" = false /\
  is_open q = false /\ String.eqb q "(" = false /\
  (String.eqb q SQ || String.eqb q DQ) = true /\
  (forall r, match_alts (simplere eqargstokenlist) (q +++ r) = Some 1) /\
  (forall r, match_alts (makefilere (TokenList_get ([q] ++ ["$"]))) (q +++ r)
             = Some (String.length q)) /\
  (forall r, wsrun (q +++ r) = 0).
Proof.
  intros [-> | ->]; repeat split; try discriminate.
Qed.

(** [ifeq] on its form with parentheses. *)
Lemma ifeq_parentheses d loc P a ws b trail log :
  data d = P +++ "(" +++ a +++ "," +++ ws +++ b +++ ")" +++ trail +++ LF ->
  locs d = [(0, loc)] ->
  plain (makefilere (TokenList_get ([","] ++ ["$"]))) a = true ->
  allspace ws = true -> wsrun (b +++ ")") = 0 ->
  plain (makefilere (TokenList_get ([")"] ++ ["$"]))) b = true ->
  allspace trail = true -> plain (makefilere emptytokenlist) trail = true ->
  ifeq functionmap d log (String.length P)
  = Ok (EqCondition
          (exp_rstrip
             (exp_append (Expansion_new (Some (loc_add loc (P +++ "(")))) (Literal a)))
          (exp_append
             (Expansion_new (Some (loc_add loc (P +++ "(" +++ a +++ "," +++ ws))))
             (Literal b))
          true, d, log).
Proof.
  intros Hd Hl Ha Hws Hb0 Hb Htr Htp.
  assert (Hlen : len d = String.length P + String.length a + String.length ws
                         + String.length b + String.length trail + 4).
  { unfold len. rewrite Hd. len_simpl. lia. }
  unfold ifeq, findtoken. cbv zeta. rewrite Nat.min_l by lia.
  rewrite Hd, sdrop_append.
  change (match_alts (simplere eqargstokenlist) ("(" +++ ?r)) with (Some 1).
  rewrite <- Hd.
  replace (slice (String.length P) (String.length P + 1) (data d)) with "(".
  2:{ symmetry. rewrite Hd. apply (slice_middle' P "("); reflexivity. }
  cbn [String.eqb Ascii.eqb Bool.eqb].
  assert (Hd1 : data d = (P +++ "(") +++ a +++ "," +++ ws +++ b +++ ")" +++ trail +++ LF)
    by (rewrite Hd; now rewrite !append_assoc).
  assert (G1 : getloc_at d (Some (String.length (P +++ "(")))
               = Ok (loc_add loc (P +++ "("))).
  { rewrite (getloc_first d _ [] _ Hl); [|constructor|len_simpl; lia].
    now rewrite Hd1, stake_append. }
  replace (String.length P + 1) with (String.length (P +++ "(")) by (len_simpl; lia).
  rewrite (parse_to_token functionmap d _ (P +++ "(") a ","
             (ws +++ b +++ ")" +++ trail +++ LF) [","] log Hd1 G1 Ha eq_refl
             ltac:(discriminate) eq_refl eq_refl eq_refl eq_refl eq_refl).
  cbn [bind p_token p_data p_expansion p_offset p_log notnone].
  assert (Hd2 : data d = (P +++ "(" +++ a +++ "," +++ ws) +++ b +++ ")" +++ trail +++ LF)
    by (rewrite Hd; now rewrite !append_assoc).
  assert (Hsk : skipwhitespace d (String.length (P +++ "(") + String.length a
                                  + String.length ",")
                = String.length (P +++ "(" +++ a +++ "," +++ ws)).
  { unfold skipwhitespace.
    replace (String.length (P +++ "(") + String.length a + String.length ",")
      with (String.length (P +++ "(" +++ a +++ ",")) by (len_simpl; lia).
    replace (data d) with ((P +++ "(" +++ a +++ ",") +++ ws +++ b +++ ")" +++ trail +++ LF)
      by (rewrite Hd; now rewrite !append_assoc).
    rewrite sdrop_append, wsrun_app by exact Hws.
    rewrite (append_assoc b ")" _ : b +++ ")" +++ trail +++ LF = _) || idtac.
    replace (b +++ ")" +++ trail +++ LF) with ((b +++ ")") +++ trail +++ LF)
      by (now rewrite !append_assoc).
    rewrite wsrun_text; [len_simpl; lia| |exact Hb0].
    destruct b; discriminate. }
  rewrite Hsk.
  assert (G2 : getloc_at d (Some (String.length (P +++ "(" +++ a +++ "," +++ ws)))
               = Ok (loc_add loc (P +++ "(" +++ a +++ "," +++ ws))).
  { rewrite (getloc_first d _ [] _ Hl); [|constructor|len_simpl; lia].
    now rewrite Hd2, stake_append. }
  rewrite (parse_to_token functionmap d _ (P +++ "(" +++ a +++ "," +++ ws) b ")"
             (trail +++ LF) [")"] log Hd2 G2 Hb eq_refl
             ltac:(discriminate) eq_refl eq_refl eq_refl eq_refl eq_refl).
  cbn [bind p_token p_data p_expansion p_offset p_log notnone].
  replace (String.length (P +++ "(" +++ a +++ "," +++ ws) + String.length b
           + String.length ")")
    with (String.length (P +++ "(" +++ a +++ "," +++ ws +++ b +++ ")"))
    by (len_simpl; lia).
  rewrite (ensureend_blank d (P +++ "(" +++ a +++ "," +++ ws +++ b +++ ")") trail);
    [reflexivity| |exact Htr|exact Htp].
  rewrite Hd. now rewrite !append_assoc.
Qed.

(** [ifeq] on its form with quotes. *)
Lemma ifeq_quotes d loc P q a ws q' b trail log :
  data d = P +++ q +++ a +++ q +++ ws +++ q' +++ b +++ q' +++ trail +++ LF ->
  locs d = [(0, loc)] ->
  q = SQ \/ q = DQ -> q' = SQ \/ q' = DQ ->
  plain (makefilere (TokenList_get ([q] ++ ["$"]))) a = true ->
  allspace ws = true ->
  plain (makefilere (TokenList_get ([q'] ++ ["$"]))) b = true ->
  allspace trail = true -> plain (makefilere emptytokenlist) trail = true ->
  ifeq functionmap d log (String.length P)
  = Ok (EqCondition
          (exp_append (Expansion_new (Some (loc_add loc (P +++ q)))) (Literal a))
          (exp_append
             (Expansion_new (Some (loc_add loc (P +++ q +++ a +++ q +++ ws +++ q'))))
             (Literal b))
          true, d, log).
Proof.
  intros Hd Hl Hq Hq' Ha Hws Hb Htr Htp.
  destruct (quote_cases q Hq) as (Q1 & Q2 & Q3 & Q4 & Q5 & Q6 & Q7 & Q8 & Q9 & Q10 & Q11 & Q12).
  destruct (quote_cases q' Hq')
    as (R1 & R2 & R3 & R4 & R5 & R6 & R7 & R8 & R9 & R10 & R11 & R12).
  assert (Hlen : len d = String.length P + String.length a + String.length ws
                         + String.length b + String.length trail + 5).
  { unfold len. rewrite Hd. len_simpl. rewrite Q1, R1. lia. }
  unfold ifeq, findtoken. cbv zeta. rewrite Nat.min_l by lia.
  rewrite Hd, sdrop_append, Q10. rewrite <- Hd.
  replace (slice (String.length P) (String.length P + 1) (data d)) with q.
  2:{ symmetry. rewrite Hd. apply (slice_middle' P q); lia. }
  rewrite Q8.
  assert (Hd1 : data d = (P +++ q) +++ a +++ q +++ ws +++ q' +++ b +++ q' +++ trail +++ LF)
    by (rewrite Hd; now rewrite !append_assoc).
  assert (G1 : getloc_at d (Some (String.length (P +++ q))) = Ok (loc_add loc (P +++ q))).
  { rewrite (getloc_first d _ [] _ Hl); [|constructor|len_simpl; lia].
    now rewrite Hd1, stake_append. }
  replace (String.length P + 1) with (String.length (P +++ q)) by (len_simpl; lia).
  rewrite (parse_to_token functionmap d _ (P +++ q) a q
             (ws +++ q' +++ b +++ q' +++ trail +++ LF) [q] log Hd1 G1 Ha (Q11 _)
             Q2 Q3 Q4 Q5 Q6 Q7).
  cbn [bind p_token p_data p_expansion p_offset p_log notnone].
  assert (Hsk : skipwhitespace d (String.length (P +++ q) + String.length a
                                  + String.length q)
                = String.length (P +++ q +++ a +++ q +++ ws)).
  { unfold skipwhitespace.
    replace (String.length (P +++ q) + String.length a + String.length q)
      with (String.length (P +++ q +++ a +++ q)) by (len_simpl; lia).
    replace (data d) with ((P +++ q +++ a +++ q) +++ ws +++ q' +++ b +++ q' +++ trail +++ LF)
      by (rewrite Hd; now rewrite !append_assoc).
    rewrite sdrop_append, wsrun_app by exact Hws.
    rewrite R12. len_simpl. lia. }
  rewrite Hsk.
  replace (String.length (P +++ q +++ a +++ q +++ ws) =? len d) with false
    by (symmetry; apply Nat.eqb_neq; len_simpl; lia).
  replace (slice (String.length (P +++ q +++ a +++ q +++ ws))
             (String.length (P +++ q +++ a +++ q +++ ws) + 1) (data d)) with q'.
  2:{ symmetry.
      replace (data d) with ((P +++ q +++ a +++ q +++ ws) +++ q' +++ b +++ q' +++ trail +++ LF)
        by (rewrite Hd; now rewrite !append_assoc).
      apply (slice_middle' (P +++ q +++ a +++ q +++ ws) q'); lia. }
  rewrite R9. cbn [negb].
  assert (Hd2 : data d = (P +++ q +++ a +++ q +++ ws +++ q') +++ b +++ q' +++ trail +++ LF)
    by (rewrite Hd; now rewrite !append_assoc).
  assert (G2 : getloc_at d (Some (String.length (P +++ q +++ a +++ q +++ ws +++ q')))
               = Ok (loc_add loc (P +++ q +++ a +++ q +++ ws +++ q'))).
  { rewrite (getloc_first d _ [] _ Hl); [|constructor|len_simpl; lia].
    now rewrite Hd2, stake_append. }
  replace (String.length (P +++ q +++ a +++ q +++ ws) + 1)
    with (String.length (P +++ q +++ a +++ q +++ ws +++ q')) by (len_simpl; lia).
  rewrite (parse_to_token functionmap d _ (P +++ q +++ a +++ q +++ ws +++ q') b q'
             (trail +++ LF) [q'] log Hd2 G2 Hb (R11 _) R2 R3 R4 R5 R6 R7).
  cbn [bind p_token p_data p_expansion p_offset p_log notnone].
  replace (String.length (P +++ q +++ a +++ q +++ ws +++ q') + String.length b
           + String.length q')
    with (String.length (P +++ q +++ a +++ q +++ ws +++ q' +++ b +++ q'))
    by (len_simpl; lia).
  rewrite (ensureend_blank d (P +++ q +++ a +++ q +++ ws +++ q' +++ b +++ q') trail);
    [reflexivity| |exact Htr|exact Htp].
  rewrite Hd. now rewrite !append_assoc.
Qed.

(** X26: the two forms of ifeq and ifneq.  A line [ifeq (A,B)] or
    [ifeq 'A' 'B'] (either quote, for each argument) opens a
    ConditionBlock located at the start of the line whose first arm is
    EqCondition(A, B); ifneq gives the same condition with [expected]
    false.  With parentheses the first argument loses its trailing
    whitespace only, and the second its leading whitespace only; with
    quotes both are taken as they stand.  A and B are free of dollars,
    comments and backslashes, and only whitespace follows. *)
Theorem ifeq_line st n kw rest :
  kw = "ifeq" \/ kw = "ifneq" ->
  condstack st <> [] ->
  (forall a ws b trail,
      fdlines st
      = (n, kw +++ " " +++ "(" +++ a +++ "," +++ ws +++ b +++ ")" +++ trail +++ LF)
          :: rest ->
      plain (makefilere (TokenList_get ([","] ++ ["$"]))) a = true ->
      allspace ws = true -> wsrun (b +++ ")") = 0 ->
      plain (makefilere (TokenList_get ([")"] ++ ["$"]))) b = true ->
      allspace trail = true -> plain (makefilere emptytokenlist) trail = true ->
      parsestream_iteration functionmap filename st
      = Ok (Some
              (mkPstate (currule st)
                 (Block (mkLocation filename n 0)
                    [(EqCondition
                        (exp_rstrip
                           (exp_append
                              (Expansion_new
                                 (Some (loc_add (mkLocation filename n 0)
                                          (kw +++ " " +++ "("))))
                              (Literal a)))
                        (exp_append
                           (Expansion_new
                              (Some (loc_add (mkLocation filename n 0)
                                       (kw +++ " " +++ "(" +++ a +++ "," +++ ws))))
                           (Literal b))
                        (String.eqb kw "ifeq"), [])]
                  :: condstack st)
                 rest (plog st), EvIf))) /\
  (forall q a ws q' b trail,
      fdlines st
      = (n, kw +++ " " +++ q +++ a +++ q +++ ws +++ q' +++ b +++ q' +++ trail +++ LF)
          :: rest ->
      q = SQ \/ q = DQ -> q' = SQ \/ q' = DQ ->
      plain (makefilere (TokenList_get ([q] ++ ["$"]))) a = true ->
      allspace ws = true ->
      plain (makefilere (TokenList_get ([q'] ++ ["$"]))) b = true ->
      allspace trail = true -> plain (makefilere emptytokenlist) trail = true ->
      parsestream_iteration functionmap filename st
      = Ok (Some
              (mkPstate (currule st)
                 (Block (mkLocation filename n 0)
                    [(EqCondition
                        (exp_append
                           (Expansion_new
                              (Some (loc_add (mkLocation filename n 0)
                                       (kw +++ " " +++ q))))
                           (Literal a))
                        (exp_append
                           (Expansion_new
                              (Some (loc_add (mkLocation filename n 0)
                                       (kw +++ " " +++ q +++ a +++ q +++ ws +++ q'))))
                           (Literal b))
                        (String.eqb kw "ifeq"), [])]
                  :: condstack st)
                 rest (plog st), EvIf))).
Proof.
  intros Hkw Hcs.
  assert (Hin : In kw (tlist directivestokenlist))
    by (destruct Hkw as [-> | ->]; cbn; auto).
  assert (Hkl : 0 < String.length kw) by (destruct Hkw as [-> | ->]; cbn; lia).
  assert (Hk : forall d log off x y,
             ifeq functionmap d log off = Ok (EqCondition x y true, d, log) ->
             (if String.eqb kw "endif" then Raise AssertionError
              else if String.eqb kw "else" then Raise AssertionError
              else match conditionkeywords functionmap kw with
                   | Some parse => parse d log off
                   | None => Raise AssertionError
                   end)
             = Ok (EqCondition x y (String.eqb kw "ifeq"), d, log)).
  { intros d log off x y E. destruct Hkw as [-> | ->];
      cbn [String.eqb Ascii.eqb Bool.eqb conditionkeywords].
    - exact E.
    - unfold ifneq. rewrite E. reflexivity. }
  split.
  - intros a ws b trail Hf Ha Hws Hb0 Hb Htr Htp.
    destruct (directive_line_dispatch st n kw _ rest Hf Hin eq_refl Hcs)
      as (d & Hd & Hl & Hli & ->).
    assert (Hd' : data d = (kw +++ " ") +++ "(" +++ a +++ "," +++ ws +++ b +++ ")"
                           +++ trail +++ LF)
      by (rewrite Hd; now rewrite !append_assoc).
    pose proof (ifeq_parentheses d _ (kw +++ " ") a ws b trail (plog st) Hd' Hl Ha Hws
                  Hb0 Hb Htr Htp) as E.
    replace (String.length (kw +++ " ")) with (String.length kw + 1) in E
      by (len_simpl; lia).
    specialize (Hk _ _ _ _ _ E).
    destruct (String.eqb kw "endif"); [discriminate|].
    destruct (String.eqb kw "else"); [discriminate|].
    destruct (conditionkeywords functionmap kw); [|discriminate].
    rewrite Hk. cbn [bind].
    rewrite (getloc_first d _ [] 0 Hl); [|constructor|unfold len; rewrite Hd; len_simpl; lia].
    cbn [bind stake loc_add]. unfold ok_line. rewrite Hli.
    rewrite !append_assoc. reflexivity.
  - intros q a ws q' b trail Hf Hq Hq' Ha Hws Hb Htr Htp.
    destruct (quote_cases q Hq) as (_ & _ & _ & _ & _ & _ & _ & _ & _ & _ & _ & Q12).
    destruct (directive_line_dispatch st n kw _ rest Hf Hin (Q12 _) Hcs)
      as (d & Hd & Hl & Hli & ->).
    assert (Hd' : data d = (kw +++ " ") +++ q +++ a +++ q +++ ws +++ q' +++ b +++ q'
                           +++ trail +++ LF)
      by (rewrite Hd; now rewrite !append_assoc).
    pose proof (ifeq_quotes d _ (kw +++ " ") q a ws q' b trail (plog st) Hd' Hl Hq Hq'
                  Ha Hws Hb Htr Htp) as E.
    replace (String.length (kw +++ " ")) with (String.length kw + 1) in E
      by (len_simpl; lia).
    specialize (Hk _ _ _ _ _ E).
    destruct (String.eqb kw "endif"); [discriminate|].
    destruct (String.eqb kw "else"); [discriminate|].
    destruct (conditionkeywords functionmap kw); [|discriminate].
    rewrite Hk. cbn [bind].
    rewrite (getloc_first d _ [] 0 Hl); [|constructor|unfold len; rewrite Hd; len_simpl; lia].
    cbn [bind stake loc_add]. unfold ok_line. rewrite Hli.
    rewrite !append_assoc. reflexivity.
Qed.

(** X27: ifdef and ifndef.  A line [ifdef NAME] opens a ConditionBlock
    located at the start of the line whose first arm is
    IfdefCondition(NAME), the name without its trailing whitespace; ifndef
    gives the same condition with [expected] false.  Neither ends the
    current rule. *)
Theorem ifdef_line st n kw name rest :
  kw = "ifdef" \/ kw = "ifndef" ->
  fdlines st = (n, kw +++ " " +++ name +++ LF) :: rest ->
  wsrun (name +++ LF) = 0 ->
  plain (makefilere (TokenList_get ([] ++ ["$"]))) name = true ->
  condstack st <> [] ->
  parsestream_iteration functionmap filename st
  = Ok (Some
          (mkPstate (currule st)
             (Block (mkLocation filename n 0)
                [(IfdefCondition
                    (exp_rstrip
                       (exp_append
                          (Expansion_new
                             (Some (loc_add (mkLocation filename n 0) (kw +++ " "))))
                          (Literal name)))
                    (String.eqb kw "ifdef"), [])]
              :: condstack st)
             rest (plog st), EvIf)).
Proof.
  intros Hkw Hf Hws Hp Hcs.
  assert (Hin : In kw (tlist directivestokenlist))
    by (destruct Hkw as [-> | ->]; cbn; auto 10).
  destruct (directive_line_dispatch st n kw _ rest Hf Hin Hws Hcs)
    as (d & Hd & Hl & Hli & ->).
  assert (Hd' : data d = (kw +++ " ") +++ name +++ LF)
    by (rewrite Hd; now rewrite !append_assoc).
  assert (Hlen : len d = String.length kw + String.length name + 2).
  { unfold len. rewrite Hd. len_simpl. lia. }
  assert (G : getloc_at d (Some (String.length (kw +++ " ")))
              = Ok (loc_add (mkLocation filename n 0) (kw +++ " "))).
  { rewrite (getloc_first d _ [] _ Hl); [|constructor|len_simpl; lia].
    now rewrite Hd', stake_append. }
  pose proof (parse_to_newline functionmap d _ (kw +++ " ") name [] (plog st) Hd' G Hp
                eq_refl) as E.
  replace (String.length (kw +++ " ")) with (String.length kw + 1) in E
    by (len_simpl; lia).
  assert (G0 : getloc_at d (Some 0) = Ok (mkLocation filename n 0)).
  { rewrite (getloc_first d _ [] 0 Hl); [reflexivity|constructor|lia]. }
  destruct Hkw as [-> | ->];
    cbn [String.eqb Ascii.eqb Bool.eqb conditionkeywords];
    unfold ifndef, ifdef; cbn [String.length Nat.add] in E |- *; rewrite E; cbn [bind];
    cbn [p_expansion p_data p_log unexpected]; rewrite G0; cbn [bind];
    unfold ok_line; rewrite Hli; reflexivity.
Qed.

End Conditionals.

Lemma ifeq_line_witness :
  parsestream_iteration sample_functionmap "Makefile"
    (mkPstate true [TopList []] [(3, "ifneq ( a , b )" +++ LF)] [])
  = Ok (Some
          (mkPstate true
             [Block (mkLocation "Makefile" 3 0)
                [(EqCondition
                    (mkExpansion (Some (mkLocation "Makefile" 3 7)) [Literal " a"])
                    (mkExpansion (Some (mkLocation "Makefile" 3 12)) [Literal "b "])
                    false, [])];
              TopList []]
             [] [], EvIf)).
Proof.
  apply (proj1 (ifeq_line sample_functionmap "Makefile"
                  (mkPstate true [TopList []] [(3, "ifneq ( a , b )" +++ LF)] [])
                  3 "ifneq" [] ltac:(right; reflexivity) ltac:(discriminate))
           " a " " " "b " "");
    reflexivity.
Defined.

Lemma ifdef_line_witness :
  parsestream_iteration sample_functionmap "Makefile"
    (mkPstate false [TopList []] [(1, "ifndef CC " +++ LF)] [])
  = Ok (Some
          (mkPstate false
             [Block (mkLocation "Makefile" 1 0)
                [(IfdefCondition
                    (mkExpansion (Some (mkLocation "Makefile" 1 7)) [Literal "CC"])
                    false, [])];
              TopList []]
             [] [], EvIf)).
Proof.
  apply (ifdef_line sample_functionmap "Makefile"
           (mkPstate false [TopList []] [(1, "ifndef CC " +++ LF)] [])
           1 "ifndef" "CC " [] ltac:(right; reflexivity) eq_refl eq_refl eq_refl
           ltac:(discriminate)).
Defined.

(** ** The directives that make a statement *)

Section Directives.

Variable functionmap : list (string * nat).
Variable filename : string.

Ltac len_simpl :=
  rewrite ?length_append;
  change (String.length BS) with 1; change (String.length LF) with 1;
  change (String.length TAB) with 1;
  cbn [String.length].



End Directives.


(** ** Commands and the other forms of a rule *)

Section CommandsAndRules.

Variable functionmap : list (string * nat).
Variable filename : string.

Ltac len_simpl :=
  rewrite ?length_append;
  change (String.length BS) with 1; change (String.length LF) with 1;
  change (String.length TAB) with 1;
  cbn [String.length].






End CommandsAndRules.


